(* ===== verification/_CoqProject ===== *)
-Q . S2P
Prelude.v
GoStrings.v
GoNet.v
GoParse.v
GoFormat.v
AppConfig.v
Range.v
S3Request.v
Sha256.v
Router.v
PageFrame.v
CachePath.v
CacheDB.v
CacheStore.v
CacheLogic.v
CacheInv.v
CacheOps.v
CacheSize.v
CacheTrips.v
CacheLive.v
CacheRows.v
CacheSchema.v
ProxySpan.v
ProxyPeers.v
ProxyContext.v
Metrics.v
CacheGauges.v
ProxyRead.v
ProxyServe.v
ProxyStats.v
ProxyLive.v
ProxyBytes.v
ProxyFlight.v
ProxyUpload.v
ProxyHttp.v
ProxyWrite.v
ProxyMeta.v
ProxyAuth.v
ProxyBase.v
ProxyCoord.v
ProxyCold.v
ProxyColdLive.v
ProxyHandlers.v
ProxyAnswers.v
ProxyClient.v
ProxyFrames.v
ProxyOwner.v
ProxyCluster.v
Startup.v
Server.v
