(* ===== verification/Prelude.v ===== *)
(** * simple-s3-cache: a verification library

    simple-s3-cache is a caching proxy in front of an S3 store. It classifies each
    request, plans the fixed-size pages that hold the requested bytes, serves them
    from a page cache on disk or from the peer that owns them, fetches what is missing
    and invalidates an object after a write, locally and at the other peers of its
    ring. This library translates its own logic into Rocq and proves it correct.

    ** The parts of the program and their files

    The Go language and the parts of its standard library that the sources use:
    - [Prelude]: machine integers as [Z] with wrap-around ([add64] and the like), bytes as
      [Byte.byte], results, notations, tactics, lemmas on lists and sums.
      [GoStrings], [GoNet]: [strings], [strconv] on integers, [net/url] escaping and
      [net/http] headers; [ToLower] folds ASCII letters only, [EqualFold] is exact against
      ASCII. [GoParse]: [url.Parse], [net.SplitHostPort], [strconv.ParseFloat] on
      [SpecFloat], [time.ParseDuration]. [GoFormat]: UTF-8, [strconv.Quote],
      [strconv.FormatFloat]. [Sha256]: SHA-256.

    Planning, classification and routing:
    - [Range]: internal/cacheplan/range.go. [S3Request]: internal/s3request/classify.go and
      path.go. [Router]: internal/peer/router.go, rendezvous hashing.
    - [PageFrame]: internal/peer/pageframe.go. Its module [Io] models readers that deliver
      their content in any pieces and writers that may be short or fail.

    The cache, internal/cache/cache.go:
    - [CachePath]: object identifiers and page paths. [CacheDB]: the SQLite tables as rows in
      finite maps, each statement a function, each transaction a composition; [db_step] is
      the abstract specification: the atomic changes that any interleaving is made of.
    - [CacheStore]: every operation of [Cache] and [PageWriter], the maintenance worker and
      [Open], in a state and error monad [M]. Every call that leaves the program takes its
      outcome from the list [faults] and every clock reading from [clock], so a theorem for
      all lists holds whatever fails.
    - [CacheLogic]: a weakest-precondition calculus for [M]. [CacheInv]: the invariant of
      the cache. [CacheOps]: the operations that the program calls as one type, refinement
      of [db_step], what is served. [PutPage], which only tests call, is defined but is not
      one of them: it breaks the invariant ([PutPage_breaks_invariant]). [CacheRows]: where object rows come from. [CacheSize]: size accounting and
      eviction. [CacheTrips]: round trips. [CacheLive]: the
      operations of a read, which succeed when nothing fails and leave cached what was.
      [CacheSchema]: databases of earlier versions and their migration. [CacheGauges]: the cache, its worker and the metrics together.

    The proxy, internal/proxy/proxy.go:
    - [ProxySpan], [ProxyRead], [ProxyServe]: one read of pages, from planning to streaming,
      against a cache that other requests change between any two calls, and what it serves.
      [ProxyStats]: the same read with the statistics it counts, a layer over its state.
      [ProxyLive]: the read when nothing fails. [ProxyBytes]: pages as bytes, in code
      that the program does not call.
      [ProxyFlight]: one fetch per page, as goroutines interleaved at every critical section.
    - [ProxyPeers]: the degraded state and the broadcast and retry of peer invalidations, as
      interleaved goroutines. [ProxyContext]: their deadlines, against the clock.
    - [ProxyUpload]: aws-chunked bodies and spooling. [ProxyHttp]: forwarding and header
      filters; a [World] is what one request sees. [ProxyWrite]: writes and what follows
      them. [ProxyMeta]: metadata and conditions. [ProxyAuth]: signatures between peers.
    - [ProxyBase]: the fields of [Proxy] and its requests to peers. [ProxyCoord]: reads whose
      pages are with several owners. [ProxyCold]: an object streamed while it is cached;
      [ProxyColdLive]: the same when nothing fails.
      [ProxyHandlers]: the handlers of S3 requests; [ProxyAnswers]: what they answer;
      [ProxyClient]: what a client gets when nothing fails.
      [ProxyFrames]: the internal routes; [ProxyOwner]: what an owner of pages sends;
      [ProxyCluster]: both ends of the internal routes composed. Its record [Network] gives
      the proxy that listens at each URL and, for each request sent, the state in which
      that proxy serves it; [networked] says that the answer was made there.

    Around it:
    - [AppConfig]: internal/config/config.go. [Metrics]: internal/metrics/metrics.go and what
      a finished request records. [Startup]: [New] of the proxy. [Server]:
      internal/server/server.go, internal/ops/state.go and cmd/simple-s3-cache/main.go.

    The interfaces between them: [Good] in [CacheInv], a predicate on what is committed for
    a page version, which the cache returns for what is served; [HeaderCodec] and
    [PeerCodec], the JSON encodings; [ErrorText], the texts of errors; [Io.LawfulReader],
    [Io.EndingReader] and [Io.RoomyWriter], what copying relies on, with an instance for
    each reader and writer of the program; [ResponseWriter], what a response writer of
    net/http promises; [peers_honest], what a coordinator assumes of owners and
    [ProxyCluster] proves of them.

    ** What the theorems show

    - Reads (C1-C4): whatever is cached, fetched, evicted or fails, the client gets a prefix
      of the requested bytes of one version under the headers of that version, all of them
      on success. The store upstream is a parameter; the hypotheses [honest] and [store_ok]
      state what S3 documents: an answer to a request that is conditional on an ETag
      ([If-Match]) carries bytes of that version, of the range asked for if it is a 206,
      possibly cut short. That the cache stays sound takes [complete] as well: an answer
      with the whole object does not end early as if it were complete, since the proxy
      would keep the short page. Other requests, and the owners of pages, are assumed to
      keep the caches sound ([env_ok], [sound_owners]), which includes that all of them cut
      an object into pages of one size: a peer that is configured with another page size
      breaks this ([page_size_change_keeps_pages]).
      When nothing fails and the metadata that are cached, if any, are current, a client that asks for an object or a range of it is answered with
      all of the bytes, whichever pages were cached, and every page of the answer is cached
      afterwards: the next read of it asks nothing of the store. [page_bytes_best_effort] is
      about pages in memory.
    - The cache (C5-C7, C20-C23, C25, C26): every operation that the program calls
      refines the atomic steps and keeps the invariant whatever fails; what is served was committed for that version; an
      invalidation fences off older writes; the size counter is the sum of the rows, and the
      gauges follow it; eviction ends below the limit in the order of access; a
      migration can be interrupted and repeated.
    - Peers (C8-C11, C15, C16, C24, C36, C37): failed invalidations are not lost in any
      interleaving, one worker serves them, the degraded state covers them, a slow
      peer takes no time from another; a write that was acknowledged has reached every
      peer, by a request that was sent to it and handled there, or the proxy is degraded;
      owners send what coordinators assume; internal routes accept what is signed, which
      leaves out the bodies of forwarded object requests ([object_body_unsigned]).
    - Fetches (C12, C13, C33): one fetch per page within its limits, waiters are woken, cold
      reads end.
    - Transport (C14, C17-C19): upload bodies and page frames arrive exactly, truncation
      is detected.
    - Configuration, server and metrics (C27-C31): a configuration that loads starts a proxy;
      requests for objects reach it, when the operator path has no wildcards; the access log
      is transparent for handlers that send final statuses; counters and histograms
      are the sums of what was recorded; the hits and misses that a read counts are true.
      Not numbered: [ParseBytes_exact], [label_keys_separate].
    - Planning and routing (C32, C34, C35): pages tile ranges, peers agree on owners, only
      plain reads are cached.
    - Where the code does not do what it means to (C38-C40, and theorems that are not
      numbered: [PageBounds_wraps], [ObjectKey_nul_ambiguous], [invalidation_drift],
      [epoch_wraps], [replaced_version_leaks_file], [page_size_change_keeps_pages],
      [negative_chunk_panics], [if_range_is_ignored], [unsigned_read_is_silent],
      [doubled_slash_redirected], [refetched_suffix_is_stale], [padded_mode_is_single],
      [degraded_gauge_race], [object_body_unsigned], [PutPage_breaks_invariant]).

    ** Fuel and bounds

    Loops over data are structural. Copying loops ([copyLoop], [copyToWriter],
    [copyPageResponseToWriter], [coldLoop]) get one step per read that the source can answer
    ([Io.reads]); [readFullLoop] one step per piece; [pagesLoop] the number of pages and the
    final test; cutting a chunk into pages one step per byte; eviction one step per
    page row; the parsers one step per byte of the text. That a result is reached is
    stated without fuel ([cold_read_terminates], [Evict_bounds], the round trips). Bounds in
    hypotheses ([int64_max]) are the ones under which [int64] arithmetic does not wrap.

    ** Not modelled

    Log lines and the statistics of a request that are only logged; what the coordinator,
    the page owner and the cold read count; the construction of the
    two HTTP clients and the AWS signer (parameters); contexts elsewhere than in the
    invalidation of peers; the YAML decoder and the table of printable characters
    (parameters); [Hijack], [Push] and the listener of net/http, CONNECT requests and
    operator paths with wildcards; the type [coordinatorPageReader], which has no operation.
    Closing a file that was only read does not fail. *)

From Stdlib Require Export ZArith Lia.
From Stdlib Require Export Strings.Byte.
From stdpp Require Export base tactics list list_numbers gmap strings numbers sorting pretty.

#[global] Open Scope Z_scope.

(** ** Notations *)

Declare Scope go_scope.
Delimit Scope go_scope with go.

(** ** Machine integers

    Go's [int64] is a [Z] between [-2^63] and [2^63 - 1]; every arithmetic
    operation of the source on [int64] wraps around. *)

Definition int64_max : Z := 2 ^ 63 - 1.
Definition int64_min : Z := - 2 ^ 63.
Definition wrap64 (z : Z) : Z := (z + 2 ^ 63) mod 2 ^ 64 - 2 ^ 63.
Definition in_int64 (z : Z) : Prop := int64_min <= z <= int64_max.

#[export] Instance in_int64_dec z : Decision (in_int64 z).
Proof. unfold in_int64. apply _. Defined.

Definition add64 (a b : Z) : Z := wrap64 (a + b).
Definition sub64 (a b : Z) : Z := wrap64 (a - b).
Definition mul64 (a b : Z) : Z := wrap64 (a * b).
(** Go's integer division truncates towards zero. *)
Definition quot64 (a b : Z) : Z := wrap64 (Z.quot a b).

Infix "+!" := add64 (at level 50, left associativity) : go_scope.
Infix "-!" := sub64 (at level 50, left associativity) : go_scope.
Infix "*!" := mul64 (at level 40, left associativity) : go_scope.
Infix "/!" := quot64 (at level 40, left associativity) : go_scope.

(** ** Results of fallible code *)

Inductive result (E A : Type) : Type :=
| Ok (a : A)
| Err (e : E).
Arguments Ok {E A} a.
Arguments Err {E A} e.

#[export] Instance result_ret {E} : MRet (result E) := fun A a => Ok a.
#[export] Instance result_bind {E} : MBind (result E) :=
  fun A B f m => match m with Ok a => f a | Err e => Err e end.

Definition is_ok {E A} (r : result E A) : bool :=
  match r with Ok _ => true | Err _ => false end.

(** ** Bytes *)

Abbreviation byte := Init.Byte.byte.
Abbreviation bytes := (list Init.Byte.byte).

Definition Z_of_byte (b : byte) : Z := Z.of_N (Byte.to_N b).
Definition byte_of_Z (z : Z) : byte :=
  default Byte.x00 (Byte.of_N (Z.to_N (z mod 256))).

#[export] Instance byte_eq_dec : EqDecision byte := Byte.byte_eq_dec.

(** Big-endian encoding of an unsigned integer on [n] bytes
    ([encoding/binary]'s [BigEndian.PutUint*] and [Uint*]). *)
Fixpoint be_put (n : nat) (z : Z) : bytes :=
  match n with
  | O => []
  | S n => byte_of_Z (Z.shiftr z (8 * Z.of_nat n)) :: be_put n z
  end.

Definition be_get (l : bytes) : Z :=
  fold_left (fun acc b => Z.lor (Z.shiftl acc 8) (Z_of_byte b)) l 0.

(** The elements [from, upto) of a list, with [Z] positions. *)
Definition slice {A} (from upto : Z) (l : list A) : list A :=
  take (Z.to_nat (upto - from)) (drop (Z.to_nat from) l).

Definition zlen {A} (l : list A) : Z := Z.of_nat (length l).

(** Sum of a measure over a list. *)
Definition sum_by {A} (f : A -> Z) (l : list A) : Z := foldr (fun x n => f x + n) 0 l.

(** ** Automation *)

Create HintDb go discriminated.
Create Rewrite HintDb go_simpl.

(** Case analysis on every boolean test or option scrutinee left in the goal or
    in a hypothesis, keeping the equation. *)
Ltac split_tests :=
  repeat match goal with
  | |- context [if ?b then _ else _] => destruct b eqn:?
  | |- context [match ?o with Some _ => _ | None => _ end] => destruct o eqn:?
  | H : context [if ?b then _ else _] |- _ => destruct b eqn:?
  | H : context [match ?o with Some _ => _ | None => _ end] |- _ => destruct o eqn:?
  end.

(** Turn boolean comparisons on [Z] into propositions. *)
Ltac zbool :=
  repeat match goal with
  | H : (_ <? _) = true |- _ => apply Z.ltb_lt in H
  | H : (_ <? _) = false |- _ => apply Z.ltb_ge in H
  | H : (_ <=? _) = true |- _ => apply Z.leb_le in H
  | H : (_ <=? _) = false |- _ => apply Z.leb_gt in H
  | H : (_ =? _) = true |- _ => apply Z.eqb_eq in H
  | H : (_ =? _) = false |- _ => apply Z.eqb_neq in H
  | H : _ && _ = true |- _ => apply andb_true_iff in H as [? ?]
  | H : _ || _ = false |- _ => apply orb_false_iff in H as [? ?]
  | H : negb _ = true |- _ => apply negb_true_iff in H
  | H : negb _ = false |- _ => apply negb_false_iff in H
  end.

Ltac int64_unfold := unfold in_int64, int64_max, int64_min in *.

Lemma wrap64_id z : in_int64 z -> wrap64 z = z.
Proof. int64_unfold. unfold wrap64. intros. rewrite Z.mod_small; lia. Qed.

Lemma wrap64_in z : in_int64 (wrap64 z).
Proof.
  int64_unfold. unfold wrap64.
  pose proof (Z.mod_pos_bound (z + 2 ^ 63) (2 ^ 64)). lia.
Qed.

Lemma add64_id a b : in_int64 (a + b) -> add64 a b = a + b.
Proof. apply wrap64_id. Qed.

Lemma gtb_true a b : b < a -> (a >? b) = true.
Proof. rewrite Z.gtb_ltb. apply Z.ltb_lt. Qed.

Lemma gtb_false a b : a <= b -> (a >? b) = false.
Proof. rewrite Z.gtb_ltb. apply Z.ltb_ge. Qed.

(** Remove the wrap-around of arithmetic whose exact value fits. *)
Ltac no_wrap :=
  unfold add64, sub64, mul64, quot64 in *;
  repeat match goal with
  | |- context [wrap64 ?z] =>
      lazymatch z with
      | context [wrap64 _] => fail
      | _ => rewrite (wrap64_id z) by (int64_unfold; lia)
      end
  | H : context [wrap64 ?z] |- _ =>
      lazymatch z with
      | context [wrap64 _] => fail
      | _ => rewrite (wrap64_id z) in H by (int64_unfold; lia)
      end
  end.

#[export] Hint Resolve wrap64_in : go.

(** ** Bytes and big-endian integers *)

Lemma byte_of_Z_to_Z z : Z_of_byte (byte_of_Z z) = z mod 256.
Proof.
  unfold Z_of_byte, byte_of_Z.
  pose proof (Z.mod_pos_bound z 256 eq_refl).
  destruct (Byte.of_N (Z.to_N (z mod 256))) as [b|] eqn:E; simpl.
  - apply Byte.to_of_N in E. rewrite E. lia.
  - apply Byte.of_N_None_iff in E. lia.
Qed.

Lemma Z_of_byte_range b : 0 <= Z_of_byte b < 256.
Proof. unfold Z_of_byte. pose proof (Byte.to_N_bounded b). lia. Qed.

Lemma Z_of_byte_inj b c : Z_of_byte b = Z_of_byte c -> b = c.
Proof.
  unfold Z_of_byte. intros H. apply N2Z.inj in H.
  pose proof (Byte.of_to_N b). pose proof (Byte.of_to_N c). congruence.
Qed.

Lemma length_be_put n z : length (be_put n z) = n.
Proof. induction n; simpl; auto. Qed.

Lemma land_shiftl_small acc n x : 0 <= n -> 0 <= x < 2 ^ n -> Z.land (Z.shiftl acc n) x = 0.
Proof.
  intros Hn Hx. apply Z.bits_inj'. intros i Hi. rewrite Z.land_spec, Z.bits_0.
  destruct (Z.lt_ge_cases i n).
  - rewrite Z.shiftl_spec_low by lia. done.
  - rewrite <- (Z.mod_small x (2 ^ n)), Z.mod_pow2_bits_high by lia. apply andb_false_r.
Qed.

Lemma lor_shiftl_byte acc b :
  Z.lor (Z.shiftl acc 8) (Z_of_byte b) = acc * 256 + Z_of_byte b.
Proof.
  pose proof (Z_of_byte_range b).
  assert (Hd : Z.land (Z.shiftl acc 8) (Z_of_byte b) = 0) by (apply land_shiftl_small; lia).
  rewrite <- Z.lxor_lor, <- Z.add_nocarry_lxor, Z.shiftl_mul_pow2 by (done || lia). lia.
Qed.

Lemma be_fold_put n z acc :
  fold_left (fun acc b => Z.lor (Z.shiftl acc 8) (Z_of_byte b)) (be_put n z) acc
  = acc * 256 ^ Z.of_nat n + z mod 256 ^ Z.of_nat n.
Proof.
  revert acc. induction n as [|n IH]; intros acc.
  - simpl. change (256 ^ 0) with 1. rewrite Z.mod_1_r. lia.
  - cbn [be_put fold_left]. rewrite IH, lor_shiftl_byte, byte_of_Z_to_Z.
    rewrite Z.shiftr_div_pow2 by lia.
    replace (2 ^ (8 * Z.of_nat n)) with (256 ^ Z.of_nat n)
      by (rewrite (Z.pow_mul_r 2 8) by lia; reflexivity).
    rewrite Nat2Z.inj_succ, Z.pow_succ_r, (Z.mul_comm 256) by lia.
    rewrite Z.rem_mul_r by lia. lia.
Qed.

(** Big-endian decoding inverts encoding on values that fit. *)
Lemma be_get_put n z : 0 <= z < 256 ^ Z.of_nat n -> be_get (be_put n z) = z.
Proof. intros Hz. unfold be_get. rewrite be_fold_put, Z.mod_small by done. lia. Qed.

Lemma be_fold_bound l acc :
  acc * 256 ^ zlen l
    <= fold_left (fun acc b => Z.lor (Z.shiftl acc 8) (Z_of_byte b)) l acc
    < (acc + 1) * 256 ^ zlen l.
Proof.
  unfold zlen. revert acc. induction l as [|b l IH]; intros acc.
  - simpl. change (256 ^ 0) with 1. lia.
  - cbn [fold_left length]. rewrite lor_shiftl_byte.
    pose proof (Z_of_byte_range b).
    specialize (IH (acc * 256 + Z_of_byte b)).
    rewrite Nat2Z.inj_succ, Z.pow_succ_r by lia.
    pose proof (Z.pow_pos_nonneg 256 (Z.of_nat (length l))). nia.
Qed.

Lemma be_get_bound l : 0 <= be_get l < 256 ^ zlen l.
Proof. pose proof (be_fold_bound l 0). unfold be_get. lia. Qed.

Lemma be_put_fold l acc :
  be_put (length l)
    (fold_left (fun acc b => Z.lor (Z.shiftl acc 8) (Z_of_byte b)) l acc) = l.
Proof.
  revert acc. induction l as [|b l IH]; intros acc; [done|].
  cbn [length be_put fold_left]. f_equal; [|apply IH].
  rewrite lor_shiftl_byte. pose proof (be_fold_bound l (acc * 256 + Z_of_byte b)) as Hb.
  pose proof (Z_of_byte_range b).
  rewrite Z.shiftr_div_pow2, (Z.pow_mul_r 2 8) by lia. change (2 ^ 8) with 256.
  rewrite <- (Z.div_unique _ (256 ^ Z.of_nat (length l)) (acc * 256 + Z_of_byte b)
    (fold_left (fun acc b => Z.lor (Z.shiftl acc 8) (Z_of_byte b)) l (acc * 256 + Z_of_byte b)
       - (acc * 256 + Z_of_byte b) * 256 ^ Z.of_nat (length l))).
  - apply Z_of_byte_inj. rewrite byte_of_Z_to_Z.
    rewrite Z.add_comm, Z_mod_plus_full. by apply Z.mod_small.
  - left. unfold zlen in Hb. lia.
  - lia.
Qed.

(** Big-endian encoding inverts decoding. *)
Lemma be_put_get n l : length l = n -> be_put n (be_get l) = l.
Proof. intros <-. apply be_put_fold. Qed.

(** ** Lists and slices *)

Lemma zlen_nonneg {A} (l : list A) : 0 <= zlen l.
Proof. unfold zlen. lia. Qed.

Lemma zlen_app {A} (l k : list A) : zlen (l ++ k) = zlen l + zlen k.
Proof. unfold zlen. rewrite length_app. lia. Qed.

Lemma zlen_to_nat {A} (l : list A) : Z.to_nat (zlen l) = length l.
Proof. unfold zlen. lia. Qed.

Lemma zlen_slice {A} (l : list A) a b :
  0 <= a <= b -> b <= zlen l -> zlen (slice a b l) = b - a.
Proof. unfold zlen, slice. intros. rewrite length_take, length_drop. lia. Qed.

Lemma slice_full {A} (l : list A) : slice 0 (zlen l) l = l.
Proof. unfold slice, zlen. rewrite drop_0, firstn_all2 by lia. done. Qed.

(** Adjacent slices join. *)
Lemma slice_app {A} (l : list A) a b c :
  0 <= a <= b -> b <= c -> slice a b l ++ slice b c l = slice a c l.
Proof.
  intros. unfold slice.
  replace (Z.to_nat (c - a)) with (Z.to_nat (b - a) + Z.to_nat (c - b))%nat by lia.
  replace (drop (Z.to_nat b) l) with (drop (Z.to_nat (b - a)) (drop (Z.to_nat a) l))
    by (rewrite drop_drop; f_equal; lia).
  apply take_take_drop.
Qed.

(** A slice of a slice. *)
Lemma slice_slice {A} (l : list A) a b c d :
  0 <= a -> 0 <= c -> d <= b - a -> slice c d (slice a b l) = slice (a + c) (a + d) l.
Proof.
  intros. unfold slice. rewrite skipn_firstn_comm, take_take, drop_drop.
  f_equal; [lia|f_equal; lia].
Qed.

(** A test that holds of every number below a bound, by computation. *)
Lemma N_below (P : N -> bool) (k : nat) n :
  forallb P (N.of_nat <$> List.seq 0 k) = true -> (n < N.of_nat k)%N -> P n = true.
Proof.
  intros Hf Hn. rewrite forallb_forall in Hf. apply Hf.
  apply list_elem_of_In, list_elem_of_fmap. exists (N.to_nat n). split; [lia|].
  apply list_elem_of_In, in_seq. lia.
Qed.

(** ** Sums *)

Lemma sum_by_cons {A} (f : A -> Z) x l : sum_by f (x :: l) = f x + sum_by f l.
Proof. done. Qed.

Lemma sum_by_app {A} (f : A -> Z) l k : sum_by f (l ++ k) = sum_by f l + sum_by f k.
Proof. induction l; simpl; lia. Qed.

Lemma sum_by_nonneg {A} (f : A -> Z) l : (forall x, x ∈ l -> 0 <= f x) -> 0 <= sum_by f l.
Proof.
  induction l as [|x l IH]; simpl; intros H; [lia|].
  assert (0 <= f x) by (apply H; set_solver).
  assert (0 <= sum_by f l) by (apply IH; set_solver). lia.
Qed.

#[export] Instance sum_by_Permutation {A} (f : A -> Z) :
  Proper ((≡ₚ) ==> eq) (sum_by f).
Proof. induction 1; simpl; lia. Qed.

(** ** Maps *)

Lemma map_size_one `{Countable K} {A} (m : gmap K A) k v :
  size m = 1%nat -> m !! k = Some v -> m = {[k := v]}.
Proof.
  intros Hs Hk. rewrite <- (insert_delete_id m k v Hk) in Hs |- *.
  rewrite map_size_insert_None in Hs by apply lookup_delete_eq. injection Hs as Hs.
  apply map_size_empty_inv in Hs. by rewrite Hs.
Qed.
