(* ===== verification/GoStrings.v ===== *)
(** * Go's [strings] and [strconv]

    A Go string is a sequence of bytes, here [string] (a sequence of [ascii],
    each one byte).  This file models what the sources use of the packages
    [strings] and [strconv], and of [fmt]'s zero-padded decimals:

    - [HasPrefix], [TrimPrefix], [HasSuffix], [TrimSuffix], [Cut], [Split],
      [Join], [Contains], [TrimLeft], [TrimRight] (with a one-byte separator or
      cut set, the only ones the sources use);
    - [TrimSpace], which trims Unicode white space: the six ASCII characters and
      the UTF-8 encodings of the other code points with the White_Space
      property;
    - [ToLower], [ToUpper] on ASCII letters.  The sources apply them to header
      names (tokens, hence ASCII) and to the units of sizes;
    - [EqualFold] where one side is ASCII;
    - [ParseInt] with bit size 64, [FormatInt], and [padZero] for the formats
      [%012d] and [%020d]. *)

From Stdlib Require Import Ascii.
From S2P Require Import Prelude.

(** Let simplification expose the first byte of a concatenation. *)
#[global] Arguments Stdlib.Strings.String.append !_ _ / : simpl nomatch.

Module Strings.

(** ** Bytes of a string *)

Fixpoint srev_app (s acc : string) : string :=
  match s with
  | EmptyString => acc
  | String c s => srev_app s (String c acc)
  end.

Definition srev (s : string) : string := srev_app s EmptyString.

Fixpoint sdrop (n : nat) (s : string) : string :=
  match n, s with
  | O, _ => s
  | S n, String _ s => sdrop n s
  | S _, EmptyString => EmptyString
  end.

Fixpoint stake (n : nat) (s : string) : string :=
  match n, s with
  | S n, String c s => String c (stake n s)
  | _, _ => EmptyString
  end.

(** ** Prefixes, suffixes, separators *)

Fixpoint HasPrefix (s p : string) : bool :=
  match p, s with
  | EmptyString, _ => true
  | String c p, String d s => Ascii.eqb c d && HasPrefix s p
  | String _ _, EmptyString => false
  end.

Definition TrimPrefix (s p : string) : string :=
  if HasPrefix s p then sdrop (String.length p) s else s.

Definition HasSuffix (s p : string) : bool := HasPrefix (srev s) (srev p).

Definition TrimSuffix (s p : string) : string :=
  if HasSuffix s p then stake (String.length s - String.length p) s else s.

(** [Cut s c]: the text before and after the first [c]; [(s, "", false)] when
    [c] does not occur. *)
Fixpoint Cut (s : string) (c : ascii) : string * string * bool :=
  match s with
  | EmptyString => (EmptyString, EmptyString, false)
  | String d r =>
      if Ascii.eqb d c then (EmptyString, r, true)
      else let '(a, b, ok) := Cut r c in (String d a, b, ok)
  end.

Fixpoint ContainsByte (s : string) (c : ascii) : bool :=
  match s with
  | EmptyString => false
  | String d r => Ascii.eqb d c || ContainsByte r c
  end.

Fixpoint Contains (s sub : string) : bool :=
  HasPrefix s sub ||
  match s with
  | EmptyString => false
  | String _ r => Contains r sub
  end.

Fixpoint Split (s : string) (c : ascii) : list string :=
  match s with
  | EmptyString => [EmptyString]
  | String d r =>
      if Ascii.eqb d c then EmptyString :: Split r c
      else match Split r c with
           | [] => [String d EmptyString]
           | x :: xs => String d x :: xs
           end
  end.

Fixpoint Join (l : list string) (sep : string) : string :=
  match l with
  | [] => EmptyString
  | [x] => x
  | x :: xs => x +:+ sep +:+ Join xs sep
  end.

Fixpoint TrimLeftByte (s : string) (c : ascii) : string :=
  match s with
  | EmptyString => EmptyString
  | String d r => if Ascii.eqb d c then TrimLeftByte r c else s
  end.

Definition TrimRightByte (s : string) (c : ascii) : string :=
  srev (TrimLeftByte (srev s) c).

(** ** White space *)

Definition chr (n : N) : ascii := ascii_of_N n.
Definition str_of_bytes (l : list N) : string := foldr (fun n s => String (chr n) s) EmptyString l.

(** UTF-8 encodings of the white-space code points ([unicode.IsSpace]). *)
Definition space_runes : list string :=
  str_of_bytes <$>
    [ [9]; [10]; [11]; [12]; [13]; [32];
      [194; 133]; [194; 160]; [225; 154; 128];
      [226; 128; 128]; [226; 128; 129]; [226; 128; 130]; [226; 128; 131];
      [226; 128; 132]; [226; 128; 133]; [226; 128; 134]; [226; 128; 135];
      [226; 128; 136]; [226; 128; 137]; [226; 128; 138];
      [226; 128; 168]; [226; 128; 169]; [226; 128; 175];
      [226; 129; 159]; [227; 128; 128] ]%N.

Definition strip_rune (runes : list string) (s : string) : option string :=
  (fun p => sdrop (String.length p) s) <$> List.find (HasPrefix s) runes.

Fixpoint trim_runes (runes : list string) (fuel : nat) (s : string) : string :=
  match fuel with
  | O => s
  | S fuel => match strip_rune runes s with
              | Some s' => trim_runes runes fuel s'
              | None => s
              end
  end.

Definition TrimSpace (s : string) : string :=
  let s := trim_runes space_runes (String.length s) s in
  srev (trim_runes (srev <$> space_runes) (String.length s) (srev s)).

(** ** Case *)

Definition lower_byte (c : ascii) : ascii :=
  let n := N_of_ascii c in
  if ((65 <=? n) && (n <=? 90))%N then ascii_of_N (n + 32)%N else c.
Definition upper_byte (c : ascii) : ascii :=
  let n := N_of_ascii c in
  if ((97 <=? n) && (n <=? 122))%N then ascii_of_N (n - 32)%N else c.

Fixpoint smap (f : ascii -> ascii) (s : string) : string :=
  match s with
  | EmptyString => EmptyString
  | String c s => String (f c) (smap f s)
  end.

Definition ToLower (s : string) : string := smap lower_byte s.
Definition ToUpper (s : string) : string := smap upper_byte s.

(** Unicode case folding, as far as it reaches ASCII letters: U+212A (the Kelvin
    sign) folds to k and U+017F (the long s) to s. *)
Fixpoint foldASCII (s : string) : string :=
  match s with
  | EmptyString => EmptyString
  | String c r =>
      if HasPrefix s (str_of_bytes [226; 132; 170]%N) then
        match r with String _ (String _ t) => String "k" (foldASCII t) | _ => EmptyString end
      else if HasPrefix s (str_of_bytes [197; 191]%N) then
        match r with String _ t => String "s" (foldASCII t) | _ => EmptyString end
      else String (lower_byte c) (foldASCII r)
  end.

(** Exact when one of the two is ASCII. *)
Definition EqualFold (a b : string) : bool := bool_decide (foldASCII a = foldASCII b).

(** ** Decimal and hexadecimal integers *)

Definition digit_val (c : ascii) : option Z :=
  let n := Z.of_N (N_of_ascii c) in
  if (48 <=? n) && (n <=? 57) then Some (n - 48)
  else if (97 <=? n) && (n <=? 122) then Some (n - 87)
  else if (65 <=? n) && (n <=? 90) then Some (n - 55)
  else None.

Fixpoint parse_digits (base : Z) (s : string) (acc : Z) : option Z :=
  match s with
  | EmptyString => Some acc
  | String c r =>
      match digit_val c with
      | Some d => if d <? base then parse_digits base r (acc * base + d) else None
      | None => None
      end
  end.

(** The magnitude: at least one digit, nothing but digits. *)
Definition parse_magnitude (base : Z) (s : string) : option Z :=
  match s with
  | EmptyString => None
  | _ => parse_digits base s 0
  end.

(** [strconv.ParseInt(s, base, 64)]; every error is [None]. *)
Definition ParseInt (s : string) (base : Z) : option Z :=
  match s with
  | EmptyString => None
  | String c r =>
      if Ascii.eqb c "-" then
        v ← parse_magnitude base r; if v <=? 2 ^ 63 then Some (- v) else None
      else
        v ← parse_magnitude base (if Ascii.eqb c "+" then r else s);
        if v <? 2 ^ 63 then Some v else None
  end.

(** [strconv.FormatInt(z, 10)] *)
Definition FormatInt (z : Z) : string := pretty z.

Fixpoint zeros (n : nat) : string :=
  match n with
  | O => EmptyString
  | S n => String "0" (zeros n)
  end.

(** [fmt.Sprintf("%0<w>d", z)] *)
Definition padZero (w : nat) (z : Z) : string :=
  if z <? 0
  then let d := pretty (- z) in "-" +:+ zeros (w - 1 - String.length d) +:+ d
  else let d := pretty z in zeros (w - String.length d) +:+ d.

(** Only decimal digits ([isUnsignedDecimal]'s loop, byte by byte). *)
Fixpoint all_digits (s : string) : bool :=
  match s with
  | EmptyString => true
  | String c r =>
      let n := N_of_ascii c in ((48 <=? n) && (n <=? 57))%N && all_digits r
  end.

End Strings.

Import Strings.

(** ** Basic facts *)

Lemma append_nil_r s : s +:+ "" = s.
Proof. induction s; [done|]. cbn. by f_equal. Qed.

Lemma append_assoc a b c : (a +:+ b) +:+ c = a +:+ (b +:+ c).
Proof. induction a; [done|]. cbn. by f_equal. Qed.

Lemma append_cons c a b : String c a +:+ b = String c (a +:+ b).
Proof. done. Qed.

Lemma length_append a b : String.length (a +:+ b) = (String.length a + String.length b)%nat.
Proof. induction a; [done|]. cbn. by f_equal. Qed.

Lemma append_eq_cut a b a' b' :
  String.length a = String.length a' -> a +:+ b = a' +:+ b' -> a = a' /\ b = b'.
Proof.
  revert a'. induction a as [|c a IH]; intros [|c' a'] Hl H; cbn in *; [done..|].
  injection Hl as Hl. injection H as -> H. by destruct (IH a' Hl H) as [-> ->].
Qed.

Lemma HasPrefix_append p s : HasPrefix (p +:+ s) p = true.
Proof. induction p; [by destruct s|]. cbn. by rewrite Ascii.eqb_refl. Qed.

Lemma HasPrefix_true s p : HasPrefix s p = true -> exists r, s = p +:+ r.
Proof.
  revert s. induction p as [|c p IH]; intros s H; [by exists s|].
  destruct s as [|d s]; [done|]. cbn in H. apply andb_true_iff in H as [Hc H].
  apply Ascii.eqb_eq in Hc as ->. destruct (IH _ H) as [r ->]. by exists r.
Qed.

Lemma sdrop_append p s : sdrop (String.length p) (p +:+ s) = s.
Proof. by induction p. Qed.

Lemma TrimPrefix_append p s : TrimPrefix (p +:+ s) p = s.
Proof. unfold TrimPrefix. rewrite HasPrefix_append. apply sdrop_append. Qed.

Lemma Cut_found s c a b : Cut s c = (a, b, true) -> s = a +:+ String c b /\ ContainsByte a c = false.
Proof.
  revert a b. induction s as [|d s IH]; intros a b H; cbn in H; [done|].
  destruct (Ascii.eqb d c) eqn:E; simplify_eq/=.
  - by apply Ascii.eqb_eq in E as ->.
  - destruct (Cut s c) as [[x y] ok] eqn:Ec. simplify_eq.
    destruct (IH _ _ eq_refl) as [-> H]. cbn. by rewrite E.
Qed.

Lemma Cut_notfound s c a b : Cut s c = (a, b, false) -> a = s /\ b = "" /\ ContainsByte s c = false.
Proof.
  revert a b. induction s as [|d s IH]; intros a b H; cbn in H; simplify_eq; [done|].
  destruct (Ascii.eqb d c) eqn:E; simplify_eq/=.
  destruct (Cut s c) as [[x y] ok] eqn:Ec. simplify_eq.
  destruct (IH _ _ eq_refl) as (-> & -> & ?). cbn. by rewrite E.
Qed.

Lemma Cut_append a c b : ContainsByte a c = false -> Cut (a +:+ String c b) c = (a, b, true).
Proof.
  induction a as [|d a IH]; cbn; intros H.
  - by rewrite Ascii.eqb_refl.
  - apply orb_false_iff in H as [-> H]. by rewrite IH.
Qed.

Lemma Cut_absent s c : ContainsByte s c = false -> Cut s c = (s, "", false).
Proof.
  induction s as [|d s IH]; cbn; intros H; [done|].
  apply orb_false_iff in H as [-> H]. by rewrite IH.
Qed.

Lemma ContainsByte_append a b c : ContainsByte (a +:+ b) c = ContainsByte a c || ContainsByte b c.
Proof. induction a; [done|]. cbn. by rewrite IHa, orb_assoc. Qed.

Lemma ContainsByte_one d c : ContainsByte (String d "") c = true -> d = c.
Proof. cbn [ContainsByte]. rewrite orb_false_r. apply Ascii.eqb_eq. Qed.

(** ** Numbers *)

Lemma digit_val_pretty n : (n < 10)%N -> digit_val (pretty_N_char n) = Some (Z.of_N n).
Proof.
  intros H.
  pose proof (N_below (fun n => bool_decide (digit_val (pretty_N_char n) = Some (Z.of_N n))) 10 n eq_refl H) as Hb.
  by apply bool_decide_eq_true in Hb.
Qed.

Lemma parse_pretty_N_go n s acc :
  exists k : Z, 0 <= k /\ parse_digits 10 (pretty_N_go n s) acc = parse_digits 10 s (acc * 10 ^ k + Z.of_N n).
Proof.
  revert s acc. induction (N.lt_wf_0 n) as [n _ IH]; intros s acc.
  assert (n = 0 \/ 0 < n)%N as [->|Hn] by lia.
  - exists 0. rewrite pretty_N_go_0. split; [lia|]. f_equal. simpl. lia.
  - rewrite pretty_N_go_step by done.
    destruct (IH (n `div` 10)%N (N.div_lt n 10 Hn eq_refl)
                (String (pretty_N_char (n `mod` 10)) s) acc) as (k & Hk & ->).
    exists (k + 1). split; [lia|]. cbn [parse_digits].
    rewrite digit_val_pretty by (by apply N.mod_lt).
    destruct (Z.ltb_spec (Z.of_N (n `mod` 10)) 10);
      [|pose proof (N.mod_lt n 10 ltac:(done)); lia].
    f_equal. rewrite Z.pow_add_r by lia. pose proof (N.div_mod n 10 ltac:(done)). lia.
Qed.

Lemma parse_digits_zeros n s acc :
  parse_digits 10 (zeros n +:+ s) acc = parse_digits 10 s (acc * 10 ^ Z.of_nat n).
Proof.
  revert acc. induction n as [|n IH]; intros acc.
  - simpl. f_equal. lia.
  - cbn [zeros]. rewrite append_cons. cbn [parse_digits].
    change (digit_val "0") with (Some 0). cbn [Z.ltb Z.compare].
    rewrite IH. f_equal. rewrite Nat2Z.inj_succ, Z.pow_succ_r by lia. lia.
Qed.

Lemma pretty_nonneg z : 0 <= z -> z = 0 \/ (0 < z /\ pretty z = pretty_N_go (Z.to_N z) "").
Proof. destruct z as [|p|p]; intros; [by left|by right|lia]. Qed.

Lemma parse_pretty z : 0 <= z -> parse_digits 10 (pretty z) 0 = Some z.
Proof.
  intros Hz. destruct (pretty_nonneg z Hz) as [->|[Hp ->]]; [done|].
  destruct (parse_pretty_N_go (Z.to_N z) "" 0) as (k & _ & ->). cbn. f_equal. lia.
Qed.

Lemma pretty_N_go_cons n s : (0 < n)%N -> exists m t, (m < 10)%N /\ pretty_N_go n s = String (pretty_N_char m) t.
Proof.
  revert s. induction (N.lt_wf_0 n) as [n _ IH]; intros s Hn.
  rewrite pretty_N_go_step by done.
  destruct (N.eq_0_gt_0_cases (n `div` 10)%N) as [->|?].
  - rewrite pretty_N_go_0. eexists _, _. split; [|done]. by apply N.mod_lt.
  - apply IH; [by apply N.div_lt|done].
Qed.

(** A formatted natural number starts with a digit. *)
Lemma pretty_cons z : 0 <= z -> exists m t, (m < 10)%N /\ pretty z = String (pretty_N_char m) t.
Proof.
  intros Hz. destruct (pretty_nonneg z Hz) as [->|[Hp ->]].
  - by exists 0%N, "".
  - apply pretty_N_go_cons. lia.
Qed.

Lemma pretty_N_char_sign m : (m < 10)%N ->
  pretty_N_char m <> "+"%char /\ pretty_N_char m <> "-"%char.
Proof.
  intros H. assert (m = 0 \/ m = 1 \/ m = 2 \/ m = 3 \/ m = 4 \/ m = 5 \/ m = 6 \/ m = 7
    \/ m = 8 \/ m = 9)%N by lia. destruct_or!; by subst.
Qed.

Lemma ParseInt_unsigned c r base :
  c <> "+"%char -> c <> "-"%char ->
  ParseInt (String c r) base =
  (v ← parse_magnitude base (String c r); if v <? 2 ^ 63 then Some v else None).
Proof.
  intros Hp Hm. cbn. by rewrite (proj2 (Ascii.eqb_neq c "-") Hm), (proj2 (Ascii.eqb_neq c "+") Hp).
Qed.

(** [strconv.ParseInt] inverts [strconv.FormatInt] on every [int64]. *)
Lemma ParseInt_FormatInt z : in_int64 z -> ParseInt (FormatInt z) 10 = Some z.
Proof.
  int64_unfold. intros Hz. unfold FormatInt. destruct (Z.ltb_spec z 0) as [Hn|Hn].
  - assert (Hs : pretty z = String "-" (pretty (- z))) by (destruct z; done || lia).
    rewrite Hs. cbn [ParseInt]. rewrite Ascii.eqb_refl.
    destruct (pretty_cons (- z) ltac:(lia)) as (m & t & _ & Ht).
    unfold parse_magnitude. rewrite Ht, <- Ht, parse_pretty by lia. cbn.
    rewrite (proj2 (Z.leb_le _ _)) by lia. f_equal. lia.
  - destruct (pretty_cons z ltac:(lia)) as (m & t & Hm & Ht).
    rewrite Ht, ParseInt_unsigned by (by apply pretty_N_char_sign).
    unfold parse_magnitude. rewrite <- Ht, parse_pretty by lia. cbn.
    by rewrite (proj2 (Z.ltb_lt _ _)) by lia.
Qed.

(** Zero-padded decimals of natural numbers determine the number. *)
Lemma parse_padZero w z : 0 <= z -> parse_digits 10 (padZero w z) 0 = Some z.
Proof.
  intros Hz. unfold padZero. rewrite (proj2 (Z.ltb_ge _ _)) by lia.
  rewrite parse_digits_zeros, Z.mul_0_l. by apply parse_pretty.
Qed.

Lemma padZero_inj w z z' : 0 <= z -> 0 <= z' -> padZero w z = padZero w z' -> z = z'.
Proof.
  intros Hz Hz' H. pose proof (parse_padZero w z Hz). pose proof (parse_padZero w z' Hz').
  rewrite H in *. congruence.
Qed.

(** ** Reversal and white space *)

Lemma srev_app_spec s acc : srev_app s acc = srev s +:+ acc.
Proof.
  unfold srev. revert acc. induction s as [|c s IH]; intros acc; [done|].
  cbn. rewrite IH, (IH (String c "")), append_assoc. done.
Qed.

Lemma srev_cons c s : srev (String c s) = srev s +:+ String c "".
Proof. unfold srev at 1. cbn. apply srev_app_spec. Qed.

Lemma srev_append a b : srev (a +:+ b) = srev b +:+ srev a.
Proof.
  induction a as [|c a IH]; [cbn; by rewrite append_nil_r|].
  by rewrite append_cons, !srev_cons, IH, append_assoc.
Qed.

Lemma srev_involutive s : srev (srev s) = s.
Proof. induction s as [|c s IH]; [done|]. by rewrite srev_cons, srev_append, IH. Qed.

(** No rune of the list starts with the byte. *)
Definition no_rune_starts (runes : list string) (c : ascii) : bool :=
  forallb (fun r => match r with EmptyString => false | String d _ => negb (Ascii.eqb d c) end) runes.

Lemma strip_rune_none runes c s : no_rune_starts runes c = true -> strip_rune runes (String c s) = None.
Proof.
  unfold no_rune_starts, strip_rune. intros H.
  assert (List.find (HasPrefix (String c s)) runes = None) as ->; [|done].
  induction runes as [|r runes IH]; [done|]. cbn [forallb] in H.
  apply andb_true_iff in H as [Hr H]. cbn [List.find]. destruct r as [|d r]; [done|].
  apply negb_true_iff in Hr. cbn. rewrite Hr. cbn. auto.
Qed.

Lemma trim_runes_id runes n c s :
  no_rune_starts runes c = true -> trim_runes runes n (String c s) = String c s.
Proof. intros H. destruct n; [done|]. cbn. by rewrite strip_rune_none. Qed.

(** A string whose first and last bytes cannot belong to a white-space rune is
    left alone by [TrimSpace]. *)
Lemma TrimSpace_id c s t d :
  String c s = t +:+ String d "" ->
  no_rune_starts space_runes c = true ->
  no_rune_starts (srev <$> space_runes) d = true ->
  TrimSpace (String c s) = String c s.
Proof.
  intros Hs Hc Hd.
  assert (Hr : srev (String c s) = String d (srev t)) by (by rewrite Hs, srev_append).
  unfold TrimSpace. cbv zeta. rewrite (trim_runes_id _ _ c s) by done.
  rewrite Hr, trim_runes_id, <- Hr by done. apply srev_involutive.
Qed.

(** ** Shape of formatted naturals *)

Definition is_digit (c : ascii) : Prop := exists m, (m < 10)%N /\ c = pretty_N_char m.

Lemma is_digit_cases (P : ascii -> bool) c :
  forallb P ["0"; "1"; "2"; "3"; "4"; "5"; "6"; "7"; "8"; "9"]%char = true ->
  is_digit c -> P c = true.
Proof.
  cbn. intros H (m & Hm & ->). repeat (apply andb_true_iff in H as [? H]).
  assert (m = 0 \/ m = 1 \/ m = 2 \/ m = 3 \/ m = 4 \/ m = 5 \/ m = 6 \/ m = 7
    \/ m = 8 \/ m = 9)%N by lia. destruct_or!; by subst.
Qed.

Lemma pretty_N_go_suffix n s :
  exists t, pretty_N_go n s = t +:+ s /\ (forall c, ContainsByte t c = true -> is_digit c).
Proof.
  revert s. induction (N.lt_wf_0 n) as [n _ IH]; intros s.
  assert (n = 0 \/ 0 < n)%N as [->|Hn] by lia.
  { exists "". by rewrite pretty_N_go_0. }
  rewrite pretty_N_go_step by done.
  destruct (IH (n `div` 10)%N (N.div_lt n 10 Hn eq_refl)
              (String (pretty_N_char (n `mod` 10)) s)) as (t & -> & Ht).
  exists (t +:+ String (pretty_N_char (n `mod` 10)) ""). rewrite append_assoc. split; [done|].
  intros c Hc. rewrite ContainsByte_append in Hc. apply orb_true_iff in Hc as [Hc|Hc]; [auto|].
  apply ContainsByte_one in Hc as <-.
  eexists. split; [|done]. by apply N.mod_lt.
Qed.

(** A formatted natural consists of digits, the last one included. *)
Lemma pretty_digits z : 0 <= z ->
  (forall c, ContainsByte (pretty z) c = true -> is_digit c) /\
  exists t d, pretty z = t +:+ String d "" /\ is_digit d.
Proof.
  intros Hz. destruct (pretty_nonneg z Hz) as [->|[Hp Hs]].
  - assert (is_digit "0") by (by exists 0%N). split.
    + change (pretty 0) with (String "0" ""). by intros c <-%ContainsByte_one.
    + by exists "", "0"%char.
  - rewrite Hs, pretty_N_go_step by lia.
    destruct (pretty_N_go_suffix (Z.to_N z `div` 10)%N
                (String (pretty_N_char (Z.to_N z `mod` 10)) "")) as (t & -> & Ht).
    assert (is_digit (pretty_N_char (Z.to_N z `mod` 10))).
    { eexists. split; [|done]. by apply N.mod_lt. }
    split; [|by eauto].
    intros c Hc. rewrite ContainsByte_append in Hc. apply orb_true_iff in Hc as [Hc|Hc]; [auto|].
    by apply ContainsByte_one in Hc as <-.
Qed.

(** No byte that is not a digit occurs in a formatted natural. *)
Lemma pretty_no_byte z c :
  0 <= z -> forallb (fun d => negb (Ascii.eqb d c)) ["0"; "1"; "2"; "3"; "4"; "5"; "6"; "7"; "8"; "9"]%char = true ->
  ContainsByte (pretty z) c = false.
Proof.
  intros Hz Hc. destruct (ContainsByte (pretty z) c) eqn:E; [|done].
  apply (proj1 (pretty_digits z Hz)) in E.
  apply (is_digit_cases _ c Hc) in E. by rewrite Ascii.eqb_refl in E.
Qed.

(** ** [TrimSpace] is idempotent *)

Lemma HasPrefix_app t x r : HasPrefix t r = true -> HasPrefix (t +:+ x) r = true.
Proof.
  revert t. induction r as [|c r IH]; intros t H; [by destruct (t +:+ x)|].
  destruct t as [|d t]; [done|]. cbn in *. apply andb_true_iff in H as [-> H]. by rewrite IH.
Qed.

Lemma strip_rune_app runes t x : strip_rune runes (t +:+ x) = None -> strip_rune runes t = None.
Proof.
  unfold strip_rune. intros H. destruct (List.find (HasPrefix t) runes) as [r|] eqn:E; [|done].
  apply List.find_some in E as [Hin Hr].
  destruct (List.find (HasPrefix (t +:+ x)) runes) eqn:E'; [done|].
  pose proof (List.find_none _ _ E' r Hin) as Hn. cbn in Hn. by rewrite HasPrefix_app in Hn.
Qed.

Lemma trim_runes_suffix runes n s : exists p, s = p +:+ trim_runes runes n s.
Proof.
  revert s. induction n as [|n IH]; intros s; cbn; [by exists ""|].
  destruct (strip_rune runes s) as [s'|] eqn:E; [|by exists ""].
  unfold strip_rune in E. destruct (List.find _ _) as [r|] eqn:Hf; [|done]. simplify_option_eq.
  apply List.find_some in Hf as [_ [x ->]%HasPrefix_true]. destruct (IH (sdrop (String.length r) (r +:+ x))) as [p Hp].
  exists (r +:+ p). rewrite append_assoc, <- Hp. by rewrite sdrop_append.
Qed.

Lemma trim_runes_done runes n s : forallb (fun r => negb (bool_decide (r = ""))) runes = true ->
  (String.length s <= n)%nat -> strip_rune runes (trim_runes runes n s) = None.
Proof.
  intros Hr. revert s. induction n as [|n IH]; intros s Hs; cbn.
  - destruct s; [|cbn in Hs; lia]. unfold strip_rune. destruct (List.find _ _) as [r|] eqn:Hf; [|done].
    apply List.find_some in Hf as [Hin Hp]. rewrite List.forallb_forall in Hr. apply Hr in Hin. by destruct r.
  - destruct (strip_rune runes s) as [s'|] eqn:E; [|done]. apply IH.
    unfold strip_rune in E. destruct (List.find _ _) as [r|] eqn:Hf; [|done]. simplify_option_eq.
    apply List.find_some in Hf as [Hin [x ->]%HasPrefix_true]. rewrite sdrop_append.
    rewrite List.forallb_forall in Hr. apply Hr in Hin. rewrite length_append in Hs.
    destruct r; [done|]. cbn in Hs. lia.
Qed.

Lemma trim_runes_none runes n s : strip_rune runes s = None -> trim_runes runes n s = s.
Proof. intros H. destruct n; cbn; by rewrite ?H. Qed.

Lemma length_srev s : String.length (srev s) = String.length s.
Proof. induction s as [|c s IH]; [done|]. rewrite srev_cons, length_append, IH. cbn. lia. Qed.

Lemma TrimSpace_idempotent s : TrimSpace (TrimSpace s) = TrimSpace s.
Proof.
  unfold TrimSpace at 2 3. cbv zeta. set (l := trim_runes space_runes (String.length s) s).
  assert (Hl : strip_rune space_runes l = None) by (apply trim_runes_done; [reflexivity|done]).
  set (t := trim_runes (srev <$> space_runes) (String.length l) (srev l)).
  assert (Ht : strip_rune (srev <$> space_runes) t = None)
    by (apply trim_runes_done; [reflexivity|by rewrite length_srev]).
  assert (Hs : strip_rune space_runes (srev t) = None).
  { destruct (trim_runes_suffix (srev <$> space_runes) (String.length l) (srev l)) as [p Hp].
    fold t in Hp. apply (f_equal srev) in Hp. rewrite srev_involutive, srev_append in Hp.
    rewrite Hp in Hl. by apply strip_rune_app in Hl. }
  unfold TrimSpace. cbv zeta. rewrite (trim_runes_none _ _ _ Hs), srev_involutive.
  by rewrite (trim_runes_none _ _ _ Ht).
Qed.
