(* ===== verification/GoNet.v ===== *)
(** * Go's [net/http] headers and [net/url] escapes

    What the sources use of two standard packages:

    - [Header] is [http.Header], a map from header names to their values, with
      [Get], [Values], [Set], [Add] and [Del], which look names up in their
      canonical form ([CanonicalMIMEHeaderKey]);
    - [PathUnescape], [QueryUnescape], [ParseQuery] and [PathEscape] of
      [net/url]. *)

From Stdlib Require Import Ascii.
From S2P Require Import Prelude GoStrings.
Import Strings.

Module Http.

Abbreviation Header := (gmap string (list string)).

Definition is_alpha_num (c : ascii) : bool :=
  let n := N_of_ascii c in
  (((48 <=? n) && (n <=? 57)) || ((65 <=? n) && (n <=? 90)) || ((97 <=? n) && (n <=? 122)))%N.

(** A byte of an RFC 7230 token ([validHeaderFieldByte]). *)
Definition validHeaderFieldByte (c : ascii) : bool :=
  is_alpha_num c || ContainsByte "!#$%&'*+-.^_`|~" c.

Fixpoint all_valid (s : string) : bool :=
  match s with
  | EmptyString => true
  | String c s => validHeaderFieldByte c && all_valid s
  end.

(** Upper case for the first letter and after each dash, lower case elsewhere. *)
Fixpoint canonical_bytes (upper : bool) (s : string) : string :=
  match s with
  | EmptyString => EmptyString
  | String c s =>
      let d := if upper then upper_byte c else lower_byte c in
      String d (canonical_bytes (Ascii.eqb d "-") s)
  end.

Definition CanonicalHeaderKey (s : string) : string :=
  if all_valid s then canonical_bytes true s else s.

Definition Values (h : Header) (key : string) : list string :=
  default [] (h !! CanonicalHeaderKey key).

Definition Get (h : Header) (key : string) : string :=
  match Values h key with
  | [] => ""
  | v :: _ => v
  end.

Definition Set_ (h : Header) (key value : string) : Header :=
  <[CanonicalHeaderKey key := [value]]> h.

Definition Add (h : Header) (key value : string) : Header :=
  <[CanonicalHeaderKey key := Values h key ++ [value]]> h.

Definition Del (h : Header) (key : string) : Header :=
  delete (CanonicalHeaderKey key) h.

End Http.

Module Url.

Definition unhex (c : ascii) : option N :=
  let n := N_of_ascii c in
  (if (48 <=? n) && (n <=? 57) then Some (n - 48)
   else if (97 <=? n) && (n <=? 102) then Some (n - 87)
   else if (65 <=? n) && (n <=? 70) then Some (n - 55)
   else None)%N.

(** Percent decoding; [plus] also turns ['+'] into a space (query mode). *)
Fixpoint unescape (plus : bool) (s : string) : option string :=
  match s with
  | EmptyString => Some EmptyString
  | String c r =>
      if Ascii.eqb c "%" then
        match r with
        | String a (String b r') =>
            match unhex a, unhex b with
            | Some x, Some y => String (ascii_of_N (16 * x + y)%N) <$> unescape plus r'
            | _, _ => None
            end
        | _ => None
        end
      else String (if plus && Ascii.eqb c "+" then " "%char else c) <$> unescape plus r
  end.

Definition PathUnescape (s : string) : option string := unescape false s.
Definition QueryUnescape (s : string) : option string := unescape true s.

Definition hex_upper (n : N) : ascii :=
  ascii_of_N (if n <? 10 then 48 + n else 55 + n)%N.

(** [shouldEscape] for a path segment. *)
Definition shouldEscapeSegment (c : ascii) : bool :=
  negb (Http.is_alpha_num c || ContainsByte "-_.~$&+:=@" c).

Fixpoint escape (should : ascii -> bool) (s : string) : string :=
  match s with
  | EmptyString => EmptyString
  | String c s =>
      if should c then
        let n := N_of_ascii c in
        String "%" (String (hex_upper (n / 16)%N) (String (hex_upper (n mod 16)%N) (escape should s)))
      else String c (escape should s)
  end.

Definition PathEscape : string -> string := escape shouldEscapeSegment.

(** [shouldEscape] for a whole path, and [validEncoded]. *)
Definition shouldEscapePath (c : ascii) : bool :=
  negb (Http.is_alpha_num c || ContainsByte "-_.~$&+,/:;=@" c).

Fixpoint validEncoded (s : string) : bool :=
  match s with
  | EmptyString => true
  | String c s => (ContainsByte "!$&'()*+,;=:@[]%" c || negb (shouldEscapePath c)) && validEncoded s
  end.

(** [u.EscapedPath()] of a URL with this [Path] and [RawPath]. *)
Definition EscapedPath (path rawPath : string) : string :=
  if negb (bool_decide (rawPath = "")) && validEncoded rawPath && bool_decide (PathUnescape rawPath = Some path)
  then rawPath
  else if bool_decide (path = "*") then "*" else escape shouldEscapePath path.

(** [url.Values] and the error of [ParseQuery]: the pairs that parse are kept
    even when another one does not. *)
Abbreviation Values := (gmap string (list string)).

Definition parse_pair (acc : Values * bool) (piece : string) : Values * bool :=
  let '(m, failed) := acc in
  if ContainsByte piece ";" then (m, true)
  else if bool_decide (piece = "") then (m, failed)
  else
    let '(k, v, _) := Cut piece "=" in
    match QueryUnescape k, QueryUnescape v with
    | Some k, Some v => (<[k := default [] (m !! k) ++ [v]]> m, failed)
    | _, _ => (m, true)
    end.

(** At most this many [&]-separated pieces are accepted ([urlmaxqueryparams]). *)
Definition max_query_params : Z := 10000.

Definition ParseQuery (query : string) : Values * bool :=
  let pieces := Split query "&" in
  if max_query_params <? zlen pieces then (∅, true)
  else fold_left parse_pair pieces (∅, false).

Definition QueryGet (m : Values) (key : string) : string :=
  match default [] (m !! key) with
  | [] => ""
  | v :: _ => v
  end.

End Url.

(** ** Facts *)

Lemma unhex_hex_upper n : (n < 16)%N -> Url.unhex (Url.hex_upper n) = Some n.
Proof.
  intros H.
  pose proof (N_below (fun n => bool_decide (Url.unhex (Url.hex_upper n) = Some n)) 16 n eq_refl H) as Hb.
  by apply bool_decide_eq_true in Hb.
Qed.

Lemma N_of_ascii_bound c : (N_of_ascii c < 256)%N.
Proof. by destruct c as [[] [] [] [] [] [] [] []]. Qed.

Lemma unescape_escaped_byte plus c s :
  let n := N_of_ascii c in
  Url.unescape plus (String "%" (String (Url.hex_upper (n / 16)%N)
     (String (Url.hex_upper (n mod 16)%N) s))) = String c <$> Url.unescape plus s.
Proof.
  intros n. pose proof (N_of_ascii_bound c).
  cbn [Url.unescape]. rewrite Ascii.eqb_refl.
  rewrite !unhex_hex_upper
    by first [apply N.mod_lt; done | apply N.Div0.div_lt_upper_bound; subst n; lia].
  rewrite <- N.div_mod by done. subst n. by rewrite ascii_N_embedding.
Qed.

(** Unescaping inverts escaping, also in front of more text. *)
Lemma PathUnescape_append s t :
  Url.PathUnescape (Url.PathEscape s +:+ t) = (fun u => s +:+ u) <$> Url.PathUnescape t.
Proof.
  unfold Url.PathUnescape. induction s as [|c s IH].
  - cbn. by destruct (Url.unescape false t).
  - unfold Url.PathEscape in *. cbn [Url.escape]. destruct (Url.shouldEscapeSegment c) eqn:E.
    + rewrite !append_cons, unescape_escaped_byte, IH. by destruct (Url.unescape false t).
    + rewrite !append_cons. cbn [Url.unescape].
      destruct (Ascii.eqb c "%") eqn:Ec; [apply Ascii.eqb_eq in Ec as ->; done|].
      rewrite IH. by destruct (Url.unescape false t).
Qed.

Lemma PathUnescape_PathEscape s : Url.PathUnescape (Url.PathEscape s) = Some s.
Proof.
  rewrite <- (append_nil_r (Url.PathEscape s)), PathUnescape_append. cbn. by rewrite append_nil_r.
Qed.

Lemma hex_upper_not_slash n : (n < 16)%N -> Ascii.eqb (Url.hex_upper n) "/" = false.
Proof.
  intros H. apply negb_true_iff.
  apply (N_below (fun n => negb (Ascii.eqb (Url.hex_upper n) "/")) 16); [reflexivity|lia].
Qed.

(** An escaped segment has no slash. *)
Lemma PathEscape_no_slash s : ContainsByte (Url.PathEscape s) "/" = false.
Proof.
  induction s as [|c s IH]; [done|]. unfold Url.PathEscape in *. cbn [Url.escape].
  pose proof (N_of_ascii_bound c).
  destruct (Url.shouldEscapeSegment c) eqn:E; cbn [ContainsByte]; rewrite IH.
  - rewrite !hex_upper_not_slash
      by first [apply N.mod_lt; done | apply N.Div0.div_lt_upper_bound; lia]. done.
  - destruct (Ascii.eqb c "/") eqn:Ec; [apply Ascii.eqb_eq in Ec as ->; done|done].
Qed.

Lemma PathEscape_empty s : Url.PathEscape s = "" -> s = "".
Proof. destruct s as [|c s]; [done|]. cbn. by case_match. Qed.

(** Header lookups of the canonical name just written. *)
Lemma Values_Set_ h k v : Http.Values (Http.Set_ h k v) k = [v].
Proof. unfold Http.Values, Http.Set_. by rewrite lookup_insert_eq. Qed.

Lemma Get_Set_ h k v : Http.Get (Http.Set_ h k v) k = v.
Proof. unfold Http.Get. by rewrite Values_Set_. Qed.

Lemma Values_Set_ne h k k' v :
  Http.CanonicalHeaderKey k <> Http.CanonicalHeaderKey k' ->
  Http.Values (Http.Set_ h k v) k' = Http.Values h k'.
Proof. intros H. unfold Http.Values, Http.Set_. by rewrite lookup_insert_ne. Qed.

Lemma Values_Del h k : Http.Values (Http.Del h k) k = [].
Proof. unfold Http.Values, Http.Del. by rewrite lookup_delete_eq. Qed.
