(* ===== verification/GoParse.v ===== *)
(** * Go's parsers of URLs, addresses, numbers and durations

    What the sources use of [net/url] ([Parse], [Hostname]), of [net]
    ([SplitHostPort]), of [strconv] ([ParseFloat]) and of [time]
    ([ParseDuration]), after Go 1.25.0.  A [float64] is the Standard Library's
    [spec_float] with 53 bits of precision: its operations round to nearest even, as
    the hardware's do. Every error is [None]. *)

From Stdlib Require Import Ascii SpecFloat.
From S2P Require Import Prelude GoStrings GoNet.
Import Strings.

(** ** Positions in strings *)

Module Index.

(** The text before and after the last occurrence of a byte. *)
Fixpoint CutLast (s : string) (c : ascii) : option (string * string) :=
  match s with
  | EmptyString => None
  | String d r =>
      match CutLast r c with
      | Some (a, b) => Some (String d a, b)
      | None => if Ascii.eqb d c then Some (EmptyString, r) else None
      end
  end.

(** The text before and from the first occurrence of a string. *)
Fixpoint CutAt (s sub : string) : option (string * string) :=
  if HasPrefix s sub then Some (EmptyString, s)
  else match s with
       | EmptyString => None
       | String c r => (fun '(a, b) => (String c a, b)) <$> CutAt r sub
       end.

Fixpoint forall_bytes (f : ascii -> bool) (s : string) : bool :=
  match s with
  | EmptyString => true
  | String c r => f c && forall_bytes f r
  end.

(** The longest prefix whose bytes satisfy [f], and the rest. *)
Fixpoint span (f : ascii -> bool) (s : string) : string * string :=
  match s with
  | EmptyString => (EmptyString, EmptyString)
  | String c r => if f c then let '(a, b) := span f r in (String c a, b) else (EmptyString, s)
  end.

Definition is_digit_byte (c : ascii) : bool :=
  let n := N_of_ascii c in ((48 <=? n) && (n <=? 57))%N.

Definition is_letter (c : ascii) : bool :=
  let n := N_of_ascii c in
  (((65 <=? n) && (n <=? 90)) || ((97 <=? n) && (n <=? 122)))%N.

Definition CountByte (s : string) (c : ascii) : nat := pred (length (Split s c)).

(** [strings.ContainsAny] for a set of ASCII bytes. *)
Definition ContainsAny (s chars : string) : bool := negb (forall_bytes (fun c => negb (ContainsByte chars c)) s).

End Index.
Import Index.

(** ** [net/url] *)

Module UrlParse.

(** The fields of [url.URL] that the sources look at; [HasUser] is [User != nil]. *)
Record URL := mkURL {
  Scheme : string; HasUser : bool; Host : string; Opaque : string;
  Path : string; RawPath : string; RawQuery : string; Fragment : string }.

(** [getScheme]: the scheme and the rest, no scheme, or a missing one. *)
Definition getScheme (rawURL : string) : option (string * string) :=
  let '(a, b) := span (fun c => is_letter c || is_digit_byte c || ContainsByte "+-." c) rawURL in
  match b with
  | String c rest =>
      if Ascii.eqb c ":" then
        match a with
        | EmptyString => None
        | String d _ => if is_letter d then Some (a, rest) else Some ("", rawURL)
        end
      else Some ("", rawURL)
  | EmptyString => Some ("", rawURL)
  end.

Definition validOptionalPort (port : string) : bool :=
  match port with
  | EmptyString => true
  | String c r => Ascii.eqb c ":" && forall_bytes is_digit_byte r
  end.

Definition validUserinfo (s : string) : bool :=
  forall_bytes (fun c => Http.is_alpha_num c || ContainsByte "-._:~!$&'()*+,;=%@" c) s.

(** [shouldEscape] for hosts and zones: the double quote is byte 34. *)
Definition shouldEscapeHost (c : ascii) : bool :=
  negb (Http.is_alpha_num c || ContainsByte "!$&'()*+,;=:[]<>-_.~" c || Ascii.eqb c (chr 34)).

(** The checks of [unescape] in a host ([zone = false]) or a zone. *)
Fixpoint hostBytesOk (zone : bool) (s : string) : bool :=
  match s with
  | EmptyString => true
  | String c r =>
      if Ascii.eqb c "%" then
        match r with
        | String a (String b r') =>
            match Url.unhex a, Url.unhex b with
            | Some x, Some y =>
                let v := (16 * x + y)%N in
                (if zone then (v =? 37)%N || (v =? 32)%N || negb (shouldEscapeHost (ascii_of_N v))
                 else (8 <=? x)%N || (v =? 37)%N)
                && hostBytesOk zone r'
            | _, _ => false
            end
        | _ => false
        end
      else ((128 <=? N_of_ascii c)%N || negb (shouldEscapeHost c)) && hostBytesOk zone r
  end.

Definition unescapeHost (zone : bool) (s : string) : option string :=
  if hostBytesOk zone s then Url.unescape false s else None.

Definition parseHost (host : string) : option string :=
  if HasPrefix host "[" then
    match CutLast host "]" with
    | None => None
    | Some (addr, colonPort) =>
        if negb (validOptionalPort colonPort) then None else
        match CutAt addr "%25" with
        | Some (h, z) =>
            h1 ← unescapeHost false h; h2 ← unescapeHost true z;
            h3 ← unescapeHost false (String "]" colonPort); Some (h1 +:+ h2 +:+ h3)
        | None => unescapeHost false host
        end
    end
  else
    match CutLast host ":" with
    | Some (_, port) => if validOptionalPort (String ":" port) then unescapeHost false host else None
    | None => unescapeHost false host
    end.

(** Whether there is user information, and the host. *)
Definition parseAuthority (authority : string) : option (bool * string) :=
  match CutLast authority "@" with
  | None => h ← parseHost authority; Some (false, h)
  | Some (userinfo, rest) =>
      h ← parseHost rest;
      if negb (validUserinfo userinfo) then None else
      let '(username, password, _) := Cut userinfo ":" in
      _ ← Url.unescape false username; _ ← Url.unescape false password; Some (true, h)
  end.

Definition isCTL (c : ascii) : bool := let n := N_of_ascii c in ((n <? 32) || (n =? 127))%N.

(** [parse] with [viaRequest = false], on a text without fragment. *)
Definition parse (rawURL : string) : option URL :=
  if negb (forall_bytes (fun c => negb (isCTL c)) rawURL) then None else
  if bool_decide (rawURL = "*") then Some (mkURL "" false "" "" "*" "" "" "") else
  '(scheme, rest) ← getScheme rawURL;
  let scheme := ToLower scheme in
  let '(rest, rawQuery, _) := Cut rest "?" in
  let rooted := HasPrefix rest "/" in
  if negb rooted && negb (bool_decide (scheme = "")) then Some (mkURL scheme false "" rest "" "" rawQuery "") else
  if negb rooted && ContainsByte (fst (fst (Cut rest "/"))) ":" then None else
  let split :=
    if (negb (bool_decide (scheme = "")) || negb (HasPrefix rest "///")) && HasPrefix rest "//" then
      let '(authority, tail, found) := Cut (sdrop 2 rest) "/" in
      uh ← parseAuthority authority; Some (uh, if found then String "/" tail else "")
    else Some (false, "", rest) in
  '(user, host, rest) ← split;
  path ← Url.PathUnescape rest;
  Some (mkURL scheme user host "" path
          (if bool_decide (Url.escape Url.shouldEscapePath path = rest) then "" else rest) rawQuery "").

(** [url.Parse] *)
Definition Parse (rawURL : string) : option URL :=
  let '(u, frag, _) := Cut rawURL "#" in
  url ← parse u;
  if bool_decide (frag = "") then Some url else
  f ← Url.PathUnescape frag;
  Some (mkURL (Scheme url) (HasUser url) (Host url) (Opaque url) (Path url) (RawPath url) (RawQuery url) f).

(** [u.Hostname()] *)
Definition Hostname (u : URL) : string :=
  let host :=
    match CutLast (Host u) ":" with
    | Some (h, port) => if validOptionalPort (String ":" port) then h else Host u
    | None => Host u
    end in
  if HasPrefix host "[" && HasSuffix host "]" then stake (String.length host - 2) (sdrop 1 host) else host.

End UrlParse.

(** ** [net.SplitHostPort] *)

Module NetAddr.

(** Host and port. *)
Definition SplitHostPort (hostport : string) : option (string * string) :=
  '(before, port) ← CutLast hostport ":";
  if HasPrefix hostport "[" then
    let '(inside, rest, found) := Cut hostport "]" in
    if negb found then None else
    if negb (bool_decide (rest = String ":" port)) then None else
    if ContainsByte (sdrop 1 hostport) "[" then None else
    if ContainsByte rest "]" then None else
    Some (sdrop 1 inside, port)
  else if ContainsByte before ":" then None
  else if ContainsByte hostport "[" then None
  else if ContainsByte hostport "]" then None
  else Some (before, port).

End NetAddr.

(** ** [float64] *)

Module Float.

Definition prec : Z := 53.
Definition emax : Z := 1024.

(** Conversion of an integer, rounded. *)
Definition of_Z (z : Z) : spec_float := binary_normalize prec emax z 0 false.
Definition mul : spec_float -> spec_float -> spec_float := SFmul prec emax.
Definition div : spec_float -> spec_float -> spec_float := SFdiv prec emax.
Definition ltb : spec_float -> spec_float -> bool := SFltb.

(** The quotient of two integers rounded once. *)
Definition of_ratio (n d : Z) : spec_float :=
  let '(m, e, l) := SFdiv_core_binary prec emax n 0 d 0 in binary_round_aux prec emax false m e l.

(** The integer part of a finite number. *)
Definition trunc (f : spec_float) : Z :=
  match f with
  | S754_finite s m e => cond_Zopp s (Z.shiftl (Zpos m) e)
  | _ => 0
  end.

(** [strconv.ParseFloat(s, 64)] of a text of digits and points: at least one digit, at
    most one point, and a value that does not round to infinity. *)
Definition ParseFloat (s : string) : option spec_float :=
  let '(whole, frac, _) := Cut s "." in
  let digits := whole +:+ frac in
  if bool_decide (digits = "") then None else
  n ← parse_digits 10 digits 0;
  let f := if n =? 0 then S754_zero false else of_ratio n (10 ^ Z.of_nat (String.length frac)) in
  match f with
  | S754_infinity _ => None
  | _ => Some f
  end.

End Float.

(** ** [time.ParseDuration] *)

Module Time.

Definition Nanosecond : Z := 1.
Definition Microsecond : Z := 1000.
Definition Millisecond : Z := 1000000.
Definition Second : Z := 1000000000.
Definition Minute : Z := 60 * Second.
Definition Hour : Z := 60 * Minute.

Definition digit_of (c : ascii) : Z := Z.of_N (N_of_ascii c) - 48.

(** [leadingInt] on the digits: the accumulator is the digits read so far. *)
Fixpoint leadingInt (s : string) (x : Z) : option (Z * string) :=
  match s with
  | EmptyString => Some (x, s)
  | String c r =>
      if negb (is_digit_byte c) then Some (x, s) else
      if 2 ^ 63 / 10 <? x then None else
      let y := x * 10 + digit_of c in
      if 2 ^ 63 <? y then None else leadingInt r y
  end.

(** [leadingFraction]: digits that do not fit are skipped. *)
Fixpoint leadingFraction (s : string) (x : Z) (scale : spec_float) (overflow : bool)
  : Z * spec_float * string :=
  match s with
  | EmptyString => (x, scale, s)
  | String c r =>
      if negb (is_digit_byte c) then (x, scale, s) else
      if overflow then leadingFraction r x scale true else
      if (2 ^ 63 - 1) / 10 <? x then leadingFraction r x scale true else
      let y := x * 10 + digit_of c in
      if 2 ^ 63 <? y then leadingFraction r x scale true
      else leadingFraction r y (Float.mul scale (Float.of_Z 10)) false
  end.

(** [unitMap]; the micro sign is U+00B5 or U+03BC. *)
Definition unitOf (u : string) : option Z :=
  if bool_decide (u = "ns") then Some Nanosecond else
  if bool_decide (u = "us") || bool_decide (u = str_of_bytes [194; 181; 115]%N)
     || bool_decide (u = str_of_bytes [206; 188; 115]%N) then Some Microsecond else
  if bool_decide (u = "ms") then Some Millisecond else
  if bool_decide (u = "s") then Some Second else
  if bool_decide (u = "m") then Some Minute else
  if bool_decide (u = "h") then Some Hour else None.

(** One number with its unit: its nanoseconds and the rest of the text. *)
Definition component (s : string) : option (Z * string) :=
  let starts := match s with String c _ => Ascii.eqb c "." || is_digit_byte c | _ => false end in
  if negb starts then None else
  '(v, s1) ← leadingInt s 0;
  let pre := negb (String.length s1 =? String.length s)%nat in
  let '(f, scale, s2, post) :=
    match s1 with
    | String c r =>
        if Ascii.eqb c "." then
          let '(f, scale, s2) := leadingFraction r 0 (Float.of_Z 1) false in
          (f, scale, s2, negb (String.length s2 =? String.length r)%nat)
        else (0, Float.of_Z 1, s1, false)
    | EmptyString => (0, Float.of_Z 1, s1, false)
    end in
  if negb pre && negb post then None else
  let '(u, s3) := span (fun c => negb (Ascii.eqb c "." || is_digit_byte c)) s2 in
  if bool_decide (u = "") then None else
  unit ← unitOf u;
  if 2 ^ 63 / unit <? v then None else
  let v := v * unit in
  if 0 <? f then
    let v := v + Float.trunc (Float.mul (Float.of_Z f) (Float.div (Float.of_Z unit) scale)) in
    if 2 ^ 63 <? v then None else Some (v, s3)
  else Some (v, s3).

(** Each component consumes a byte: the length of the text is enough fuel. *)
Fixpoint components (fuel : nat) (s : string) (d : Z) : option Z :=
  match s with
  | EmptyString => Some d
  | _ =>
      match fuel with
      | O => None
      | S fuel =>
          '(v, s) ← component s;
          if 2 ^ 63 <? d + v then None else components fuel s (d + v)
      end
  end.

Definition ParseDuration (s : string) : option Z :=
  let '(neg, s) :=
    match s with
    | String c r => if Ascii.eqb c "-" then (true, r) else if Ascii.eqb c "+" then (false, r) else (false, s)
    | EmptyString => (false, s)
    end in
  if bool_decide (s = "0") then Some 0 else
  if bool_decide (s = "") then None else
  d ← components (String.length s) s 0;
  if (neg : bool) then Some (wrap64 (- d)) else
  if 2 ^ 63 - 1 <? d then None else Some d.

End Time.

(** ** Examples *)

Example Parse_plain :
  UrlParse.Parse "HTTP://rustfs:9000/a%20b?x=1" =
    Some (UrlParse.mkURL "http" false "rustfs:9000" "" "/a b" "" "x=1" "").
Proof. vm_compute. reflexivity. Qed.

Example Parse_blank : UrlParse.Parse " http://rustfs:9000" = None.
Proof. vm_compute. reflexivity. Qed.

Example Parse_zone :
  UrlParse.Host <$> UrlParse.Parse "//[fe80::1%25en0]:80" = Some "[fe80::1%en0]:80".
Proof. vm_compute. reflexivity. Qed.

Example SplitHostPort_forms :
  NetAddr.SplitHostPort ":8080" = Some ("", "8080") /\ NetAddr.SplitHostPort "[::1]:80" = Some ("::1", "80") /\
  NetAddr.SplitHostPort "::1:80" = None /\ NetAddr.SplitHostPort "host" = None.
Proof. vm_compute. done. Qed.

Example ParseFloat_forms :
  Float.trunc <$> Float.ParseFloat "9223372036854775807" = Some (2 ^ 63) /\
  Float.trunc <$> Float.ParseFloat "1.5" = Some 1 /\ Float.ParseFloat "." = None /\ Float.ParseFloat "1.2.3" = None.
Proof. vm_compute. done. Qed.

Example ParseDuration_forms :
  Time.ParseDuration "1h30m" = Some (90 * Time.Minute) /\ Time.ParseDuration "1.5h" = Some (90 * Time.Minute) /\
  Time.ParseDuration "-.5s" = Some (-500 * Time.Millisecond) /\ Time.ParseDuration "10" = None /\
  Time.ParseDuration "0" = Some 0 /\ Time.ParseDuration "2562047h48m" = None.
Proof. vm_compute. done. Qed.

(** ** Floats of integers are exact below [2^53] *)

Lemma digits2_log2 p : Zdigits2 (Zpos p) = Z.log2 (Zpos p) + 1.
Proof.
  cbn [Zdigits2]. induction p as [p IH|p IH|]; [| |done]; cbn [digits2_pos]; rewrite Pos2Z.inj_succ, IH.
  - rewrite (Pos2Z.inj_xI p), Z.log2_succ_double by lia. lia.
  - rewrite (Pos2Z.inj_xO p), Z.log2_double by lia. lia.
Qed.

Lemma shr_1_double m : 0 < m -> shr_1 (Build_shr_record (2 * m) false false) = Build_shr_record m false false.
Proof. intros Hm. destruct m as [|p|p]; [lia|done|lia]. Qed.

Lemma iter_shr p : forall m, 0 < m ->
  SpecFloat.iter_pos shr_1 p (Build_shr_record (m * 2 ^ Zpos p) false false) = Build_shr_record m false false.
Proof.
  induction p as [p IH|p IH|]; intros m Hm; cbn [SpecFloat.iter_pos].
  - assert (0 < 2 ^ Zpos p) by lia.
    replace (m * 2 ^ Zpos p~1) with (2 * (m * 2 ^ Zpos p * 2 ^ Zpos p)).
    + rewrite shr_1_double, !IH by lia. done.
    + rewrite (Pos2Z.inj_xI p), Z.pow_add_r, Z.pow_1_r by lia. replace (2 * Zpos p) with (Zpos p + Zpos p) by lia.
      rewrite Z.pow_add_r by lia. lia.
  - assert (0 < 2 ^ Zpos p) by lia.
    replace (m * 2 ^ Zpos p~0) with (m * 2 ^ Zpos p * 2 ^ Zpos p).
    + by rewrite !IH by lia.
    + rewrite (Pos2Z.inj_xO p). replace (2 * Zpos p) with (Zpos p + Zpos p) by lia. rewrite Z.pow_add_r by lia. lia.
  - rewrite Z.pow_1_r. replace (m * 2) with (2 * m) by lia. by apply shr_1_double.
Qed.

Definition normal (m : Z) : Prop := 2 ^ 52 <= m < 2 ^ 53.

Lemma normal_digits m s : normal m -> 0 <= s -> Zdigits2 (m * 2 ^ s) = 53 + s.
Proof.
  intros [H1 H2] Hs. assert (0 < 2 ^ s) by lia.
  assert (Z.log2 (m * 2 ^ s) = 52 + s).
  { rewrite Z.log2_mul_pow2 by lia. rewrite (Z.log2_unique m 52); [lia|lia|]. split; [done|]. exact H2. }
  destruct (m * 2 ^ s) as [|p|p] eqn:E; [nia| |nia]. rewrite digits2_log2. lia.
Qed.

(** A mantissa that ends in zeros is shifted without loss. *)
Lemma shr_fexp_exact m s e : normal m -> 0 <= s -> -1074 <= e + s ->
  shr_fexp Float.prec Float.emax (m * 2 ^ s) e loc_Exact = (Build_shr_record m false false, e + s).
Proof.
  intros Hm Hs He. unfold shr_fexp. rewrite normal_digits by done.
  replace (fexp Float.prec Float.emax (53 + s + e) - e) with s
    by (unfold fexp, emin, Float.prec, Float.emax; lia).
  unfold shr. cbn [shr_record_of_loc]. destruct s as [|p|p]; [|by rewrite iter_shr by (destruct Hm; lia)|lia].
  by rewrite Z.pow_0_r, Z.mul_1_r, Z.add_0_r.
Qed.

Lemma round_exact m s e : normal m -> 0 <= s -> -1074 <= e + s <= 971 ->
  binary_round_aux Float.prec Float.emax false (m * 2 ^ s) e loc_Exact = S754_finite false (Z.to_pos m) (e + s).
Proof.
  intros Hm Hs He. unfold binary_round_aux. rewrite shr_fexp_exact by (done || lia).
  cbn [shr_m loc_of_shr_record round_nearest_even].
  pose proof (shr_fexp_exact m 0 (e + s) Hm ltac:(lia) ltac:(lia)) as Hx.
  rewrite Z.pow_0_r, Z.mul_1_r, Z.add_0_r in Hx. rewrite Hx. cbn [shr_m].
  destruct m as [|p|p]; [destruct Hm; lia| |destruct Hm; lia].
  destruct (Z.leb_spec (e + s) (Float.emax - Float.prec)); [done|unfold Float.emax, Float.prec in *; lia].
Qed.

(** The mantissa of an integer of at most 53 bits. *)
Definition mantissa (n : Z) : Z := n * 2 ^ (52 - Z.log2 n).

Lemma mantissa_normal n : 0 < n < 2 ^ 53 -> normal (mantissa n).
Proof.
  intros Hn. pose proof (Z.log2_spec n ltac:(lia)) as [H1 H2].
  assert (Z.log2 n < 53) by (apply Z.log2_lt_pow2; lia). pose proof (Z.log2_nonneg n).
  unfold normal, mantissa. set (k := Z.log2 n) in *.
  assert (H52 : 2 ^ 52 = 2 ^ k * 2 ^ (52 - k)) by (rewrite <- Z.pow_add_r by lia; f_equal; lia).
  assert (H53 : 2 ^ 53 = 2 ^ Z.succ k * 2 ^ (52 - k)) by (rewrite <- Z.pow_add_r by lia; f_equal; lia).
  assert (0 < 2 ^ (52 - k)) by lia. rewrite H52, H53. nia.
Qed.

Lemma of_ratio_exact n : 0 < n < 2 ^ 53 ->
  Float.of_ratio n 1 = S754_finite false (Z.to_pos (mantissa n)) (Z.log2 n - 52).
Proof.
  intros Hn. assert (Hl : Z.log2 n < 53) by (apply Z.log2_lt_pow2; lia). pose proof (Z.log2_nonneg n).
  unfold Float.of_ratio, SFdiv_core_binary.
  assert (Hd : Zdigits2 n = Z.log2 n + 1) by (destruct n; [lia|apply digits2_log2|lia]).
  rewrite Hd. change (Zdigits2 1) with 1.
  replace (Z.min (fexp Float.prec Float.emax (Z.log2 n + 1 + 0 - (1 + 0))) (0 - 0)) with (Z.log2 n - 53)
    by (unfold fexp, emin, Float.prec, Float.emax; lia).
  set (s := 0 - 0 - (Z.log2 n - 53)).
  assert (Hs : (match s with Z0 => n | Zpos _ => Z.shiftl n s | Zneg _ => 0 end) = mantissa n * 2 ^ 1).
  { unfold s. destruct (0 - 0 - (Z.log2 n - 53)) eqn:E; [lia| |lia]. rewrite <- E, Z.shiftl_mul_pow2 by lia.
    unfold mantissa. rewrite <- Z.mul_assoc, <- Z.pow_add_r by lia. f_equal. f_equal. lia. }
  rewrite Hs. pose proof (Z.div_eucl_eq (mantissa n * 2 ^ 1) 1 ltac:(done)) as Hq.
  pose proof (Z.mod_pos_bound (mantissa n * 2 ^ 1) 1 ltac:(lia)) as Hr. unfold Z.modulo in Hr.
  destruct (Z.div_eucl (mantissa n * 2 ^ 1) 1) as [q r]. assert (r = 0) by lia. subst r.
  assert (q = mantissa n * 2 ^ 1) as -> by lia. cbn [new_location].
  change (new_location 1 0) with loc_Exact. rewrite round_exact; [f_equal; lia|by apply mantissa_normal|lia|lia].
Qed.

(** Multiplication by a power of two only moves the exponent. *)
Lemma mul_pow2 m e k : normal m -> 0 <= k <= 40 -> -1074 <= e -> e + k <= 971 ->
  Float.mul (S754_finite false (Z.to_pos m) e) (S754_finite false (Z.to_pos (2 ^ 52)) (k - 52)) =
    S754_finite false (Z.to_pos m) (e + k).
Proof.
  intros Hm Hk He1 He2. unfold Float.mul, SFmul. cbn [xorb]. rewrite Pos2Z.inj_mul, !Z2Pos.id by (destruct Hm; lia).
  rewrite round_exact; [f_equal; lia|done|lia|lia].
Qed.

Lemma ltb_exponent m e m' e' : e < e' ->
  Float.ltb (S754_finite false m' e') (S754_finite false m e) = false.
Proof.
  intros He. unfold Float.ltb, SFltb, SFcompare. by rewrite (proj2 (Z.compare_gt_iff e' e)) by lia.
Qed.

Lemma trunc_mantissa n k : 0 < n < 2 ^ 53 -> 0 <= k ->
  Float.trunc (S754_finite false (Z.to_pos (mantissa n)) (Z.log2 n - 52 + k)) = n * 2 ^ k.
Proof.
  intros Hn Hk. pose proof (mantissa_normal n Hn) as [H1 _].
  assert (Hl : Z.log2 n < 53) by (apply Z.log2_lt_pow2; lia). pose proof (Z.log2_nonneg n).
  unfold Float.trunc, cond_Zopp. rewrite Z2Pos.id by lia. unfold mantissa.
  rewrite <- Z.shiftl_mul_pow2 by lia. rewrite Z.shiftl_shiftl by lia.
  rewrite Z.shiftl_mul_pow2 by lia. f_equal. f_equal. lia.
Qed.
