(* ===== verification/GoFormat.v ===== *)
(** * Go's [strconv.Quote] and [strconv.FormatFloat]

    [Quote] decodes its argument as UTF-8 and escapes what is not printable.  Which
    code points beyond ASCII are printable is Unicode's table, the parameter
    [isPrint]; everything else is spelled out. [FormatFloat] is the call
    [FormatFloat(f, 'g', -1, 64)]: the shortest decimal that reads back as [f], the
    closest one of that length, with an exponent when it is below -4 or above 5. *)

From Stdlib Require Import Ascii SpecFloat.
From S2P Require Import Prelude GoStrings GoNet GoParse.
Import Strings Index.

(** ** UTF-8 *)

Module Utf8.

(** What [utf8.DecodeRuneInString] finds at a position: a code point with its bytes,
    or a byte that starts no valid encoding. *)
Inductive item := Rune (cp : N) (text : string) | Bad (b : ascii).

Definition between (lo hi : N) (c : ascii) : bool := ((lo <=? N_of_ascii c) && (N_of_ascii c <=? hi))%N.

(** The range of the second byte for a first byte. *)
Definition second (c : ascii) : N * N :=
  let n := N_of_ascii c in
  (if n =? 224 then (160, 191) else if n =? 237 then (128, 159)
   else if n =? 240 then (144, 191) else if n =? 244 then (128, 143) else (128, 191))%N.

Definition cont (c : ascii) : bool := between 128 191 c.

Definition item2 (c c1 : ascii) : item :=
  Rune ((N_of_ascii c - 192) * 64 + (N_of_ascii c1 - 128))%N (String c (String c1 "")).
Definition item3 (c c1 c2 : ascii) : item :=
  Rune ((N_of_ascii c - 224) * 4096 + (N_of_ascii c1 - 128) * 64 + (N_of_ascii c2 - 128))%N
    (String c (String c1 (String c2 ""))).
Definition item4 (c c1 c2 c3 : ascii) : item :=
  Rune ((N_of_ascii c - 240) * 262144 + (N_of_ascii c1 - 128) * 4096 + (N_of_ascii c2 - 128) * 64
        + (N_of_ascii c3 - 128))%N
    (String c (String c1 (String c2 (String c3 "")))).

(** The first item of a text that starts with [c], and the bytes it takes after [c]. *)
Definition decodeRune (c : ascii) (r : string) : item * nat :=
  let ok2 c1 := between (second c).1 (second c).2 c1 in
  if (N_of_ascii c <? 128)%N then (Rune (N_of_ascii c) (String c ""), 0%nat)
  else if between 194 223 c then
    match r with
    | String c1 _ => if ok2 c1 then (item2 c c1, 1%nat) else (Bad c, 0%nat)
    | _ => (Bad c, 0%nat)
    end
  else if between 224 239 c then
    match r with
    | String c1 (String c2 _) => if ok2 c1 && cont c2 then (item3 c c1 c2, 2%nat) else (Bad c, 0%nat)
    | _ => (Bad c, 0%nat)
    end
  else if between 240 244 c then
    match r with
    | String c1 (String c2 (String c3 _)) =>
        if ok2 c1 && cont c2 && cont c3 then (item4 c c1 c2 c3, 3%nat) else (Bad c, 0%nat)
    | _ => (Bad c, 0%nat)
    end
  else (Bad c, 0%nat).

(** The items of a text; [skip] counts the bytes that belong to the last item. *)
Fixpoint items (skip : nat) (s : string) : list item :=
  match s with
  | EmptyString => []
  | String c r =>
      match skip with
      | S skip => items skip r
      | O => let '(i, n) := decodeRune c r in i :: items n r
      end
  end.

Definition textOf (i : item) : string := match i with Rune _ t => t | Bad b => String b "" end.

End Utf8.
Import Utf8.

(** ** [strconv.Quote] *)

Module Quoting.

Definition lowerhex (n : N) : ascii := ascii_of_N (if n <? 10 then 48 + n else 87 + n)%N.

(** The last [w] hexadecimal digits. *)
Fixpoint hexDigits (w : nat) (n : N) (acc : string) : string :=
  match w with
  | O => acc
  | S w => hexDigits w (n / 16)%N (String (lowerhex (n mod 16)%N) acc)
  end.

Definition backslash : ascii := chr 92.
Definition quote : ascii := chr 34.
Definition escaped (s : string) : string := String backslash s.

(** The letter of a short escape: BEL, BS, FF, LF, CR, TAB and VT. *)
Definition shortEscape (cp : N) : option ascii :=
  (if cp =? 7 then Some "a"%char else if cp =? 8 then Some "b"%char else if cp =? 12 then Some "f"%char
   else if cp =? 10 then Some "n"%char else if cp =? 13 then Some "r"%char
   else if cp =? 9 then Some "t"%char else if cp =? 11 then Some "v"%char else None)%N.

Section Printable.
Context (isPrint : N -> bool).

Definition printable (cp : N) : bool :=
  (if cp <? 128 then (32 <=? cp) && (cp <=? 126) else isPrint cp)%N.

Definition escapeItem (i : item) : string :=
  match i with
  | Bad b => escaped ("x" +:+ hexDigits 2 (N_of_ascii b) "")
  | Rune cp text =>
      if ((cp =? 34) || (cp =? 92))%N then escaped text
      else if printable cp then text
      else match shortEscape cp with
           | Some c => escaped (String c "")
           | None =>
               if ((cp <? 32) || (cp =? 127))%N then escaped ("x" +:+ hexDigits 2 cp "")
               else if (cp <? 65536)%N then escaped ("u" +:+ hexDigits 4 cp "")
               else escaped ("U" +:+ hexDigits 8 cp "")
           end
  end.

Definition escapeText (l : list item) : string := foldr (fun i s => escapeItem i +:+ s) "" l.

Definition Quote (s : string) : string := String quote (escapeText (items 0 s) +:+ String quote "").

End Printable.
End Quoting.

(** ** [strconv.FormatFloat] *)

Module FloatText.

(** A positive finite number as a fraction. *)
Definition fraction (m : positive) (e : Z) : Z * Z :=
  if 0 <=? e then (Zpos m * 2 ^ e, 1) else (Zpos m, 2 ^ (- e)).

(** [c * 10^k] as a fraction. *)
Definition scaled (c k : Z) : Z * Z := if 0 <=? k then (c * 10 ^ k, 1) else (c, 10 ^ (- k)).

(** The exponent [dp] with [10^(dp-1) <= n/d < 10^dp]: upwards from 1 or downwards. *)
Fixpoint pointUp (fuel : nat) (n d dp : Z) : Z :=
  match fuel with
  | O => dp
  | S fuel => if n <? d * 10 ^ dp then dp else pointUp fuel n d (dp + 1)
  end.
Fixpoint pointDown (fuel : nat) (n d dp : Z) : Z :=
  match fuel with
  | O => dp
  | S fuel => if d <=? n * 10 ^ (1 - dp) then dp else pointDown fuel n d (dp - 1)
  end.
(** Every [float64] lies between [10^-324] and [10^309]. *)
Definition point (n d : Z) : Z := if d <=? n then pointUp 310 n d 1 else pointDown 330 n d 0.

(** The decimals of [w] digits next to the number that read back as it: the closest,
    the even one when both are equally close. *)
Definition decimal (f : spec_float) (n d dp : Z) (w : Z) : option Z :=
  let k := dp - w in
  let '(num, den) := if 0 <=? k then (n, d * 10 ^ k) else (n * 10 ^ (- k), d) in
  let c := num / den in
  let reads c := let '(a, b) := scaled c k in SFeqb (Float.of_ratio a b) f in
  let below := reads c in let above := reads (c + 1) in
  if below && above then
    let r := num mod den in
    Some (match 2 * r ?= den with Lt => c | Gt => c + 1 | Eq => if Z.even c then c else c + 1 end)
  else if below then Some c else if above then Some (c + 1) else None.

(** The first width that gives one; 17 digits always do. *)
Fixpoint shortest (fuel : nat) (f : spec_float) (n d dp w : Z) : Z * Z :=
  match fuel with
  | O => (0, w)
  | S fuel => match decimal f n d dp w with Some c => (c, w) | None => shortest fuel f n d dp (w + 1) end
  end.

(** The digits without zeros at the end. *)
Definition trimZeros (s : string) : string := TrimRightByte s "0".

(** [%e] and [%f] on digits [0.digits * 10^dp]. *)
Definition fmtE (digits : string) (dp : Z) : string :=
  let exp := if bool_decide (digits = "") then 0 else dp - 1 in
  (match digits with
   | EmptyString => "0"
   | String c "" => String c ""
   | String c r => String c (String "." r)
   end) +:+ "e" +:+ (if exp <? 0 then "-" else "+") +:+ padZero 2 (Z.abs exp).

Definition fmtF (digits : string) (dp : Z) : string :=
  let nd := Z.of_nat (String.length digits) in
  let whole := if 0 <? dp then stake (Z.to_nat dp) digits +:+ zeros (Z.to_nat (dp - nd)) else "0" in
  let frac := zeros (Z.to_nat (- dp)) +:+ sdrop (Z.to_nat dp) digits in
  whole +:+ (if dp <? nd then String "." frac else "").

Definition FormatFloat (f : spec_float) : string :=
  match f with
  | S754_nan => "NaN"
  | S754_infinity s => if s then "-Inf" else "+Inf"
  | S754_zero s => if s then "-0" else "0"
  | S754_finite s m e =>
      let '(n, d) := fraction m e in
      let dp := point n d in
      let '(c, w) := shortest 17 (S754_finite false m e) n d dp 1 in
      let text := FormatInt c in
      let dp := dp + Z.of_nat (String.length text) - w in
      let digits := trimZeros text in
      let exp := dp - 1 in
      (if s then "-" else "") +:+ (if (exp <? -4) || (6 <=? exp) then fmtE digits dp else fmtF digits dp)
  end.

End FloatText.

(** ** Examples *)

Example Quote_ascii : Quoting.Quote (fun _ => true) ("a" +:+ str_of_bytes [10; 34; 92; 1; 255]%N) =
  str_of_bytes [34]%N +:+ "a\n\" +:+ str_of_bytes [34]%N +:+ "\\\x01\xff" +:+ str_of_bytes [34]%N.
Proof. vm_compute. reflexivity. Qed.

Example FormatFloat_forms :
  FloatText.FormatFloat (Float.of_Z 0) = "0" /\ FloatText.FormatFloat (Float.of_Z 100000) = "100000" /\
  FloatText.FormatFloat (Float.of_Z 4194304) = "4.194304e+06" /\
  FloatText.FormatFloat (Float.of_ratio 1 1000) = "0.001" /\
  FloatText.FormatFloat (Float.of_ratio 8 3) = "2.6666666666666665" /\
  FloatText.FormatFloat (Float.of_ratio 5 4) = "1.25" /\
  FloatText.FormatFloat (Float.of_Z (2 ^ 40)) = "1.099511627776e+12" /\
  FloatText.FormatFloat (Float.of_ratio 1 100000) = "1e-05".
Proof. vm_compute. repeat split; reflexivity. Qed.

(** ** [Quote] is injective *)

Import Quoting.

(** What a decoded item is: its text decodes to it whatever follows. *)
Definition decoded (i : item) : Prop :=
  match i with
  | Bad b => (128 <= N_of_ascii b)%N
  | Rune cp t => exists c r, t = String c r /\ forall z, decodeRune c (r +:+ z) = (Rune cp t, String.length r)
  end.

Lemma decodeRune_spec c r i n : decodeRune c r = (i, n) ->
  decoded i /\ exists a b, r = a +:+ b /\ textOf i = String c a /\ n = String.length a.
Proof.
  unfold decodeRune. intros H.
  destruct (N_of_ascii c <? 128)%N eqn:E1.
  { simplify_eq. split; [|by exists "", r]. exists c, "". split; [done|]. intros z. unfold decodeRune. by rewrite E1. }
  apply N.ltb_ge in E1 as Hc.
  repeat case_match; simplify_eq; split; cbn in *; try exact Hc.
  all: try by eexists "", _.
  all: try by eexists (String _ ""), _.
  all: try by eexists (String _ (String _ "")), _.
  all: try by eexists (String _ (String _ (String _ ""))), _.
  all: eexists _, _; split; [done|]; intros z; rewrite ?append_cons; unfold decodeRune; rewrite E1;
    repeat match goal with H : between _ _ _ = _ |- _ => rewrite H | H : _ && _ = _ |- _ => rewrite H end; done.
Qed.

Lemma items_text s : forall k, foldr (fun i t => textOf i +:+ t) "" (items k s) = sdrop k s.
Proof.
  induction s as [|c s IH]; intros k; [by destruct k|].
  cbn [items]. destruct k as [|k]; [|by rewrite IH].
  destruct (decodeRune c s) as [i n] eqn:E. cbn [foldr]. rewrite IH.
  apply decodeRune_spec in E as (_ & a & b & -> & -> & ->). by rewrite sdrop_append, append_cons.
Qed.

Lemma items_decoded s : forall k, Forall decoded (items k s).
Proof.
  induction s as [|c s IH]; intros k; [done|]. cbn [items]. destruct k as [|k]; [|done].
  destruct (decodeRune c s) as [i n] eqn:E. constructor; [|done]. by apply decodeRune_spec in E as [? _].
Qed.

Lemma N_of_ascii_inj a b : N_of_ascii a = N_of_ascii b -> a = b.
Proof. intros H. by rewrite <- (ascii_N_embedding a), H, ascii_N_embedding. Qed.

(** The shapes of the text of a code point. *)
Inductive encoding : N -> string -> Prop :=
| Enc1 c : (N_of_ascii c < 128)%N -> encoding (N_of_ascii c) (String c "")
| Enc2 c c1 cp : (194 <= N_of_ascii c <= 223)%N -> (128 <= N_of_ascii c1 <= 191)%N ->
    (cp + 192 * 64 + 128 = N_of_ascii c * 64 + N_of_ascii c1)%N -> encoding cp (String c (String c1 ""))
| Enc3 c c1 c2 cp : (224 <= N_of_ascii c <= 239)%N -> (128 <= N_of_ascii c1 <= 191)%N ->
    (N_of_ascii c = 224 -> 160 <= N_of_ascii c1)%N -> (128 <= N_of_ascii c2 <= 191)%N ->
    (cp + 224 * 4096 + 128 * 64 + 128 = N_of_ascii c * 4096 + N_of_ascii c1 * 64 + N_of_ascii c2)%N ->
    encoding cp (String c (String c1 (String c2 "")))
| Enc4 c c1 c2 c3 cp : (240 <= N_of_ascii c <= 244)%N -> (128 <= N_of_ascii c1 <= 191)%N ->
    (N_of_ascii c = 240 -> 144 <= N_of_ascii c1)%N -> (128 <= N_of_ascii c2 <= 191)%N ->
    (128 <= N_of_ascii c3 <= 191)%N ->
    (cp + 240 * 262144 + 128 * 4096 + 128 * 64 + 128 =
       N_of_ascii c * 262144 + N_of_ascii c1 * 4096 + N_of_ascii c2 * 64 + N_of_ascii c3)%N ->
    encoding cp (String c (String c1 (String c2 (String c3 "")))).

Lemma between_spec lo hi c : between lo hi c = true -> (lo <= N_of_ascii c <= hi)%N.
Proof. unfold between. intros [H1%N.leb_le H2%N.leb_le]%andb_true_iff. done. Qed.

Lemma second_bounds c c1 : between (second c).1 (second c).2 c1 = true ->
  (128 <= N_of_ascii c1 <= 191)%N /\ (N_of_ascii c = 224 -> 160 <= N_of_ascii c1)%N /\ (N_of_ascii c = 240 -> 144 <= N_of_ascii c1)%N.
Proof.
  intros H%between_spec. unfold second in H.
  destruct (N.eqb_spec (N_of_ascii c) 224), (N.eqb_spec (N_of_ascii c) 237), (N.eqb_spec (N_of_ascii c) 240),
    (N.eqb_spec (N_of_ascii c) 244); cbn in H; lia.
Qed.

Lemma decoded_encoding cp t : decoded (Rune cp t) -> encoding cp t.
Proof.
  intros (c & r & -> & H). specialize (H ""). rewrite append_nil_r in H. unfold decodeRune in H.
  destruct (N.ltb_spec (N_of_ascii c) 128); [simplify_eq; by constructor|].
  unfold cont, item2, item3, item4 in H. repeat case_match; simplify_eq;
    repeat match goal with
    | H : _ && _ = true |- _ => apply andb_true_iff in H as [? ?]
    | H : between (second _).1 _ _ = true |- _ => apply second_bounds in H as (? & ? & ?)
    | H : between _ _ _ = true |- _ => apply between_spec in H
    end.
  - apply Enc2; lia.
  - apply Enc3; lia.
  - apply Enc4; lia.
Qed.

Lemma encoding_inj cp t t' : encoding cp t -> encoding cp t' -> t = t'.
Proof.
  intros H H'. destruct H; inversion H'; subst; try (exfalso; lia);
    repeat f_equal; apply N_of_ascii_inj; lia.
Qed.

Lemma encoding_bound cp t : encoding cp t -> (cp < 2 ^ 32)%N.
Proof. destruct 1; try lia. Qed.

Lemma hexDigits_app w : forall n acc x, hexDigits w n acc +:+ x = hexDigits w n (acc +:+ x).
Proof. induction w as [|w IH]; intros n acc x; [done|]. cbn [hexDigits]. by rewrite IH. Qed.

Lemma lowerhex_inj n m : (n < 16)%N -> (m < 16)%N -> lowerhex n = lowerhex m -> n = m.
Proof.
  intros Hn Hm H. unfold lowerhex in H. apply (f_equal N_of_ascii) in H.
  destruct (N.ltb_spec n 10), (N.ltb_spec m 10); rewrite !N_ascii_embedding in H by lia; lia.
Qed.

Lemma hexDigits_inj w : forall n m x y, (n < 16 ^ N.of_nat w)%N -> (m < 16 ^ N.of_nat w)%N ->
  hexDigits w n x = hexDigits w m y -> n = m /\ x = y.
Proof.
  induction w as [|w IH]; intros n m x y Hn Hm H; [cbn in *; split; [lia|done]|].
  rewrite Nat2N.inj_succ, N.pow_succ_r' in Hn, Hm. cbn [hexDigits] in H.
  apply IH in H as [Hq Hr]; [|apply N.Div0.div_lt_upper_bound; lia..].
  injection Hr as Hc ->. apply lowerhex_inj in Hc; [|apply N.mod_lt; lia..].
  split; [|done]. rewrite (N.div_mod n 16), (N.div_mod m 16) by lia. by rewrite Hq, Hc.
Qed.

Lemma String_inv c d a b : String c a = String d b -> c = d /\ a = b.
Proof. by intros [= -> ->]. Qed.

Section Injective.
Context (isPrint : N -> bool).

(** The ways an item is escaped. *)
Inductive escape_view (i : item) : string -> Prop :=
| EvRaw c r : textOf i = String c r -> (exists cp, i = Rune cp (String c r)) -> c <> backslash -> c <> quote ->
    escape_view i (String c r)
| EvSelf c : i = Rune (N_of_ascii c) (String c "") -> c = backslash \/ c = quote ->
    escape_view i (escaped (String c ""))
| EvShort cp t c : i = Rune cp t -> shortEscape cp = Some c -> escape_view i (escaped (String c ""))
| EvX n : (n < 256)%N -> i = Bad (ascii_of_N n) /\ (128 <= n)%N \/ (exists t, i = Rune n t) /\ (n < 128)%N ->
    escape_view i (escaped (String "x" (hexDigits 2 n "")))
| EvU cp t : (cp < 65536)%N -> i = Rune cp t -> escape_view i (escaped (String "u" (hexDigits 4 cp "")))
| EvU8 cp t : (65536 <= cp < 2 ^ 32)%N -> i = Rune cp t -> escape_view i (escaped (String "U" (hexDigits 8 cp ""))).

Lemma escape_viewP i : decoded i -> escape_view i (escapeItem isPrint i).
Proof.
  intros Hi. destruct i as [cp t|b]; cbn [escapeItem].
  2: { apply (EvX _ (N_of_ascii b)); [apply N_of_ascii_bound|]. left. by rewrite ascii_N_embedding. }
  apply decoded_encoding in Hi as He. pose proof (encoding_bound _ _ He) as Hb.
  destruct ((cp =? 34) || (cp =? 92))%N eqn:E.
  { apply orb_true_iff in E as [->%N.eqb_eq| ->%N.eqb_eq]; inversion He; subst; try lia.
    - apply (EvSelf _ c); [congruence|right; by apply N_of_ascii_inj].
    - apply (EvSelf _ c); [congruence|left; by apply N_of_ascii_inj]. }
  apply orb_false_iff in E as [E1%N.eqb_neq E2%N.eqb_neq].
  destruct (printable isPrint cp).
  { assert (exists c r, t = String c r /\ c <> backslash /\ c <> quote) as (c & r & -> & Hc1 & Hc2).
    { inversion He; subst; eexists _, _; (split; [done|]); split; intros ->;
        change (N_of_ascii backslash) with 92%N in *; change (N_of_ascii quote) with 34%N in *; lia. }
    apply EvRaw; eauto. }
  destruct (shortEscape cp) eqn:Es; [by eapply EvShort|].
  destruct ((cp <? 32) || (cp =? 127))%N eqn:Ex.
  { assert (cp < 128)%N by (apply orb_true_iff in Ex as [?%N.ltb_lt|?%N.eqb_eq]; lia).
    apply (EvX _ cp); [lia|]. right. eauto. }
  destruct (N.ltb_spec cp 65536); [by eapply EvU|]. by eapply EvU8.
Qed.

Lemma shortEscape_inj cp cp' c : shortEscape cp = Some c -> shortEscape cp' = Some c -> cp = cp'.
Proof.
  unfold shortEscape. intros H H'. repeat case_match; simplify_eq;
  repeat match goal with H : (_ =? _)%N = true |- _ => apply N.eqb_eq in H end; congruence.
Qed.

Lemma rune_eq cp t t' : decoded (Rune cp t) -> decoded (Rune cp t') -> Rune cp t = Rune cp t'.
Proof. intros H%decoded_encoding H'%decoded_encoding. f_equal. by eapply encoding_inj. Qed.

Lemma shortEscape_letter cp c : shortEscape cp = Some c -> ContainsByte "abfnrtv" c = true.
Proof. unfold shortEscape. intros H. repeat case_match; by simplify_eq. Qed.

(** An escaped item is told apart from every other one by its text, whatever follows. *)
Lemma escapeItem_cut i j x y : decoded i -> decoded j ->
  escapeItem isPrint i +:+ x = escapeItem isPrint j +:+ y -> i = j /\ x = y.
Proof.
  intros Hi Hj H. pose proof (escape_viewP i Hi) as Vi. pose proof (escape_viewP j Hj) as Vj.
  revert Vi Vj H. generalize (escapeItem isPrint i) (escapeItem isPrint j). intros a b Vi Vj H.
  destruct Vi as [c r Ht [cp ->] Hc1 Hc2|c -> Hc|cp t c -> Hs|n Hn Hx|cp t Hn ->|cp t Hn ->];
    destruct Vj as [c' r' Ht' [cp' ->] Hc1' Hc2'|c' -> Hc'|cp' t' c' -> Hs'|n' Hn' Hx'|cp' t' Hn' ->|cp' t' Hn' ->];
    unfold escaped in H; rewrite ?append_cons, ?hexDigits_app in H;
    apply String_inv in H as [H1 H]; try done; try apply String_inv in H as [H2 H];
    try (exfalso; repeat match goal with Hs : shortEscape _ = Some _ |- _ => apply shortEscape_letter in Hs end;
         destruct_or?; subst; discriminate).
  - subst c'. destruct Hi as (d & q & [= <- <-] & Hd). destruct Hj as (d' & q' & [= <- <-] & Hd').
    specialize (Hd x). specialize (Hd' y). rewrite H, Hd' in Hd. injection Hd as -> -> _.
    split; [done|]. by apply append_eq_cut in H as [_ ?].
  - by subst.
  - subst c'. rewrite (shortEscape_inj _ _ _ Hs Hs') in *. split; [by apply rune_eq|done].
  - apply hexDigits_inj in H as [<- H]; [cbn in H; subst y|done..]. split; [|done].
    destruct Hx as [[-> ?]|[[t ->] ?]], Hx' as [[-> ?]|[[t' ->] ?]]; [done|lia|lia|by apply rune_eq].
  - apply hexDigits_inj in H as [<- H]; [cbn in H; subst y|done..]. split; [by apply rune_eq|done].
  - apply hexDigits_inj in H as [<- H]; [cbn in H; subst y|lia..]. split; [by apply rune_eq|done].
Qed.

Lemma escapeItem_head i x : decoded i -> exists c r, escapeItem isPrint i +:+ x = String c r /\ c <> quote.
Proof.
  intros Hi. destruct (escape_viewP i Hi); eexists _, _; (split; [reflexivity|]); done.
Qed.

Lemma escapeText_inj l : forall l', Forall decoded l -> Forall decoded l' -> forall x y,
  escapeText isPrint l +:+ String quote x = escapeText isPrint l' +:+ String quote y -> l = l' /\ x = y.
Proof.
  induction l as [|i l IH]; intros [|j l'] Hl Hl' x y H; cbn [escapeText foldr] in H.
  - by injection H.
  - exfalso. apply Forall_cons in Hl' as [Hj _]. rewrite append_assoc in H.
    destruct (escapeItem_head j (escapeText isPrint l' +:+ String quote y) Hj) as (c & r & E & Hc).
    unfold escapeText in E. rewrite E in H. injection H as H _. by subst.
  - exfalso. apply Forall_cons in Hl as [Hi _]. rewrite append_assoc in H.
    destruct (escapeItem_head i (escapeText isPrint l +:+ String quote x) Hi) as (c & r & E & Hc).
    unfold escapeText in E. rewrite E in H. injection H as H _. by subst.
  - apply Forall_cons in Hl as [Hi Hl], Hl' as [Hj Hl']. rewrite !append_assoc in H.
    apply escapeItem_cut in H as [-> H]; [|done..]. by apply IH in H as [-> ->].
Qed.

(** The quoted text ends at its closing quote, whatever follows. *)
Lemma Quote_cut s t x y : Quote isPrint s +:+ x = Quote isPrint t +:+ y -> s = t /\ x = y.
Proof.
  unfold Quote. rewrite !append_cons, !append_assoc. intros [= H].
  apply escapeText_inj in H as [H ->]; [|apply items_decoded..]. split; [|done].
  apply (f_equal (foldr (fun i t => textOf i +:+ t) "")) in H. by rewrite !items_text in H.
Qed.

(** A quoted text has no line break. *)
Lemma hexDigits_no_byte w c : forall n acc, forallb (fun d => negb (Ascii.eqb (lowerhex d) c)) (N.of_nat <$> seq 0 16) = true ->
  ContainsByte acc c = false -> ContainsByte (hexDigits w n acc) c = false.
Proof.
  induction w as [|w IH]; intros n acc Hc Ha; [done|]. cbn [hexDigits]. apply IH; [done|].
  cbn [ContainsByte]. rewrite Ha, orb_false_r. rewrite List.forallb_forall in Hc. apply negb_true_iff, Hc.
  apply list_elem_of_In, list_elem_of_fmap. exists (N.to_nat (n mod 16)). pose proof (N.mod_lt n 16 ltac:(done)).
  split; [by rewrite N2Nat.id|]. apply elem_of_seq. revert H. generalize (n mod 16)%N. lia.
Qed.

Definition newline : ascii := chr 10.

Lemma escapeItem_line i : decoded i -> ContainsByte (escapeItem isPrint i) newline = false.
Proof.
  intros Hi. destruct i as [cp t|b]; cbn [escapeItem].
  2: { unfold escaped. cbn [ContainsByte]. rewrite append_cons. cbn [ContainsByte]. by apply hexDigits_no_byte. }
  apply decoded_encoding in Hi as He.
  assert (Ht : (cp <> 10)%N -> ContainsByte t newline = false).
  { intros Hne. destruct He; cbn [ContainsByte];
      repeat match goal with |- context [Ascii.eqb ?c newline] => destruct (Ascii.eqb_spec c newline); [subst|] end;
      cbn in *; try done; change (N_of_ascii newline) with 10%N in *; lia. }
  destruct ((cp =? 34) || (cp =? 92))%N eqn:E.
  { unfold escaped. cbn [ContainsByte]. rewrite Ht; [done|]. intros ->. done. }
  destruct (printable isPrint cp) eqn:Ep; [apply Ht; intros ->; done|].
  destruct (shortEscape cp) eqn:Es.
  { unfold escaped. apply shortEscape_letter in Es. cbn [ContainsByte].
    destruct (Ascii.eqb_spec a newline) as [->|]; done. }
  repeat case_match; unfold escaped; rewrite append_cons; cbn [ContainsByte]; by apply hexDigits_no_byte.
Qed.

Lemma Quote_line s : ContainsByte (Quote isPrint s) newline = false.
Proof.
  unfold Quote. cbn [ContainsByte]. rewrite ContainsByte_append. cbn [ContainsByte].
  rewrite orb_false_r. cbn. pose proof (items_decoded s 0) as Hd.
  induction Hd as [|i l Hi _ IH]; [done|]. cbn [escapeText foldr]. rewrite ContainsByte_append, escapeItem_line by done.
  exact IH.
Qed.

End Injective.
