(* ===== verification/AppConfig.v ===== *)
(** * Configuration ([internal/config/config.go])

    The configuration with its defaults, the sizes and durations that are given as
    text, and the validation. [yaml.Unmarshal] and the file system are parameters of
    [Load]; [order] is the order in which the map of buckets is iterated over, and
    [overflowed] what the machine makes of a [float64] that does not fit [int64]
    (the language leaves it open). Errors are constructors that name the field. *)

From Stdlib Require Import Ascii SpecFloat.
From S2P Require Import Prelude GoStrings GoNet GoParse.
Import Strings Index.

Module AppConfig.

(** ** Data *)

Record UpstreamConfig := mkUpstream {
  Endpoint : string; Host : string; Region : string; AccessKey : string; SecretKey : string;
  SessionToken : string; ResponseHeaderTimeout : Z; ResponseHeaderTimeoutText : string }.

Record BucketCacheConfig := mkBucket {
  bc_MaxSize : Z; bc_PageSize : Z; bc_MaxSizeText : string; bc_PageSizeText : string }.

Record CacheConfig := mkCacheConfig {
  CachePath : string; MetaPath : string; MaxSize : Z; PageSize : Z;
  Buckets : gmap string BucketCacheConfig;
  MetadataGCInterval : Z; MetadataMaxAge : Z; MetadataGCBatchSize : Z; SQLiteCheckpointInterval : Z;
  MaxSizeText : string; PageSizeText : string; MetadataGCIntervalText : string;
  MetadataMaxAgeText : string; SQLiteCheckpointIntervalText : string }.

Record HTTPConfig := mkHTTP {
  ReadHeaderTimeout : Z; ReadTimeout : Z; WriteTimeout : Z; IdleTimeout : Z;
  ReadHeaderTimeoutText : string; ReadTimeoutText : string; WriteTimeoutText : string;
  IdleTimeoutText : string }.

Record UploadConfig := mkUpload { SpoolPath : string; MaxSpoolSize : Z; MaxSpoolSizeText : string }.

Record Peer := mkPeer { ID : string; URL : string }.

Record PeerConfig := mkPeerConfig {
  Mode : string; LocalID : string; AuthSecret : string; Peers : list Peer; ReadSharding : string;
  PageShardingMinPages : Z; MaxFillConcurrency : Z; MaxObjectFillConcurrency : Z;
  ForwardTimeout : Z; ForwardTimeoutText : string }.

Record LoggingConfig := mkLogging {
  AccessLog : bool; InternalPeerAccessLog : bool; InternalPeerSuccessLog : bool }.

Record OperatorConfig := mkOperator { Enabled : bool; Path : string; BearerToken : string }.

Record Config := mkConfig {
  Listen : string; Upstream : UpstreamConfig; Cache : CacheConfig; HTTP : HTTPConfig;
  Upload : UploadConfig; PeerPart : PeerConfig; Logging : LoggingConfig; Operator : OperatorConfig }.

Definition defaultListen : string := ":8080".
Definition defaultCachePath : string := "/cache/objects".
Definition defaultMetaPath : string := "/cache/meta".
Definition defaultMaxSize : Z := Z.shiftl 1 40.
Definition defaultPageSize : Z := Z.shiftl 4 20.
Definition defaultMaxSpoolSize : Z := Z.shiftl 10 30.

(** [Default] *)
Definition Default : Config :=
  mkConfig defaultListen
    (mkUpstream "" "" "us-east-1" "" "" "" (30 * Time.Second) "")
    (mkCacheConfig defaultCachePath defaultMetaPath defaultMaxSize defaultPageSize ∅
       Time.Hour (24 * Time.Hour) 512 (6 * Time.Hour) "" "" "" "" "")
    (mkHTTP (5 * Time.Second) (10 * Time.Minute) (10 * Time.Minute) (2 * Time.Minute) "" "" "" "")
    (mkUpload "" defaultMaxSpoolSize "")
    (mkPeerConfig "single" "" "" [] "auto" 2 32 4 (10 * Time.Minute) "")
    (mkLogging true false false)
    (mkOperator false "/debug/peer" "").

(** ** Sizes and durations *)

Inductive SizeError := SizeEmpty | SizeInvalid | SizeNumber | SizeNotPositive | SizeUnit | SizeTooLarge.
Inductive DurationError := DurationEmpty | DurationInvalid | DurationNotPositive.

(** The exponents of the multipliers. *)
Definition units : list (string * Z) :=
  [("", 0); ("B", 0); ("K", 10); ("KB", 10); ("KIB", 10); ("M", 20); ("MB", 20); ("MIB", 20);
   ("G", 30); ("GB", 30); ("GIB", 30); ("T", 40); ("TB", 40); ("TIB", 40)].

Definition unitShift (unit : string) : option Z :=
  snd <$> List.find (fun u => bool_decide (fst u = unit)) units.

(** [strings.ToUpper] as far as it gives ASCII: U+0131 (the dotless i) becomes I and
    U+017F (the long s) becomes S. *)
Fixpoint ToUpperText (s : string) : string :=
  match s with
  | EmptyString => EmptyString
  | String c r =>
      if HasPrefix s (str_of_bytes [196; 177]%N) then
        match r with String _ t => String "I" (ToUpperText t) | EmptyString => EmptyString end
      else if HasPrefix s (str_of_bytes [197; 191]%N) then
        match r with String _ t => String "S" (ToUpperText t) | EmptyString => EmptyString end
      else String (upper_byte c) (ToUpperText r)
  end.

Section Machine.
Context (overflowed : Z).

(** The conversion [int64(f)]. *)
Definition int64Of (f : spec_float) : Z :=
  let z := Float.trunc f in if bool_decide (in_int64 z) then z else overflowed.

Definition ParseBytes (input : string) : result SizeError Z :=
  let value := TrimSpace input in
  if bool_decide (value = "") then Err SizeEmpty else
  let '(digits, rest) := span (fun c => Ascii.eqb c "." || is_digit_byte c) value in
  if bool_decide (digits = "") then Err SizeInvalid else
  match Float.ParseFloat digits with
  | None => Err SizeNumber
  | Some number =>
      if negb (Float.ltb (S754_zero false) number) then Err SizeNotPositive else
      match unitShift (ToUpperText (TrimSpace rest)) with
      | None => Err SizeUnit
      | Some shift =>
          let size := Float.mul number (Float.of_Z (2 ^ shift)) in
          if Float.ltb (Float.of_Z int64_max) size then Err SizeTooLarge
          else Ok (int64Of size)
      end
  end.

Definition ParseDuration (input : string) : result DurationError Z :=
  let value := TrimSpace input in
  if bool_decide (value = "") then Err DurationEmpty else
  match Time.ParseDuration value with
  | None => Err DurationInvalid
  | Some duration => if duration <=? 0 then Err DurationNotPositive else Ok duration
  end.

(** ** Reading *)

Inductive ConfigError :=
| ReadFailed | YamlFailed
| BadSize (field : string) (e : SizeError)
| BadDuration (field : string) (e : DurationError)
| Required (field : string)
| ListenForm | EndpointInvalid | EndpointScheme | EndpointHost | HostInvalid | HostForm
| NotPositive (field : string) | Negative (field : string) | Exceeds (field limit : string)
| BucketNameEmpty | OperatorPathForm
| PeerModeUnknown | ShardingUnknown | NoPeers | PeerIDRequired (i : nat) | PeerDuplicated (id : string)
| PeerURLRequired (i : nat) | PeerURLInvalid (i : nat) | PeerURLScheme (i : nat) | PeerURLHost (i : nat)
| NoLocalPeer.

(** A size that is set when its text is not empty. *)
Definition sizeField (field text : string) (value : Z) : result ConfigError Z :=
  if bool_decide (text = "") then Ok value else
  match ParseBytes text with Ok size => Ok size | Err e => Err (BadSize field e) end.

Definition durationField (field text : string) (value : Z) : result ConfigError Z :=
  if bool_decide (TrimSpace text = "") then Ok value else
  match ParseDuration text with Ok duration => Ok duration | Err e => Err (BadDuration field e) end.

Definition parseBucket (name : string) (bucket : BucketCacheConfig) : result ConfigError BucketCacheConfig :=
  maxSize ← sizeField ("cache.buckets." +:+ name +:+ ".max_size") (bc_MaxSizeText bucket) (bc_MaxSize bucket);
  pageSize ← sizeField ("cache.buckets." +:+ name +:+ ".page_size") (bc_PageSizeText bucket) (bc_PageSize bucket);
  Ok (mkBucket maxSize pageSize (bc_MaxSizeText bucket) (bc_PageSizeText bucket)).

(** The loop over the buckets writes each one back to the map. *)
Fixpoint parseBuckets (l : list (string * BucketCacheConfig)) (m : gmap string BucketCacheConfig)
  : result ConfigError (gmap string BucketCacheConfig) :=
  match l with
  | [] => Ok m
  | (name, bucket) :: l => b ← parseBucket name bucket; parseBuckets l (<[name := b]> m)
  end.

Context (order : list (string * BucketCacheConfig) -> list (string * BucketCacheConfig)).

Definition applyParsedSizes (cfg : Config) : result ConfigError Config :=
  let c := Cache cfg in let u := Upload cfg in
  maxSize ← sizeField "cache.max_size" (MaxSizeText c) (MaxSize c);
  pageSize ← sizeField "cache.page_size" (PageSizeText c) (PageSize c);
  maxSpoolSize ← sizeField "upload.max_spool_size" (MaxSpoolSizeText u) (MaxSpoolSize u);
  buckets ← parseBuckets (order (map_to_list (Buckets c))) (Buckets c);
  Ok (mkConfig (Listen cfg) (Upstream cfg)
        (mkCacheConfig (CachePath c) (MetaPath c) maxSize pageSize buckets (MetadataGCInterval c)
           (MetadataMaxAge c) (MetadataGCBatchSize c) (SQLiteCheckpointInterval c) (MaxSizeText c)
           (PageSizeText c) (MetadataGCIntervalText c) (MetadataMaxAgeText c) (SQLiteCheckpointIntervalText c))
        (HTTP cfg) (mkUpload (SpoolPath u) maxSpoolSize (MaxSpoolSizeText u)) (PeerPart cfg)
        (Logging cfg) (Operator cfg)).

Definition applyParsedDurations (cfg : Config) : result ConfigError Config :=
  let u := Upstream cfg in let c := Cache cfg in let h := HTTP cfg in let p := PeerPart cfg in
  responseHeader ← durationField "upstream.response_header_timeout" (ResponseHeaderTimeoutText u) (ResponseHeaderTimeout u);
  gcInterval ← durationField "cache.metadata_gc_interval" (MetadataGCIntervalText c) (MetadataGCInterval c);
  maxAge ← durationField "cache.metadata_max_age" (MetadataMaxAgeText c) (MetadataMaxAge c);
  checkpoint ← durationField "cache.sqlite_checkpoint_interval" (SQLiteCheckpointIntervalText c) (SQLiteCheckpointInterval c);
  readHeader ← durationField "http.read_header_timeout" (ReadHeaderTimeoutText h) (ReadHeaderTimeout h);
  read ← durationField "http.read_timeout" (ReadTimeoutText h) (ReadTimeout h);
  write ← durationField "http.write_timeout" (WriteTimeoutText h) (WriteTimeout h);
  idle ← durationField "http.idle_timeout" (IdleTimeoutText h) (IdleTimeout h);
  forward ← durationField "peer.forward_timeout" (ForwardTimeoutText p) (ForwardTimeout p);
  Ok (mkConfig (Listen cfg)
        (mkUpstream (Endpoint u) (Host u) (Region u) (AccessKey u) (SecretKey u) (SessionToken u)
           responseHeader (ResponseHeaderTimeoutText u))
        (mkCacheConfig (CachePath c) (MetaPath c) (MaxSize c) (PageSize c) (Buckets c) gcInterval maxAge
           (MetadataGCBatchSize c) checkpoint (MaxSizeText c) (PageSizeText c) (MetadataGCIntervalText c)
           (MetadataMaxAgeText c) (SQLiteCheckpointIntervalText c))
        (mkHTTP readHeader read write idle (ReadHeaderTimeoutText h) (ReadTimeoutText h) (WriteTimeoutText h)
           (IdleTimeoutText h))
        (Upload cfg)
        (mkPeerConfig (Mode p) (LocalID p) (AuthSecret p) (Peers p) (ReadSharding p) (PageShardingMinPages p)
           (MaxFillConcurrency p) (MaxObjectFillConcurrency p) forward (ForwardTimeoutText p))
        (Logging cfg) (Operator cfg)).

(** ** Validation *)

(** [if b { errs = append(errs, e) }] *)
Definition report (b : bool) (e : ConfigError) : list ConfigError := if b then [e] else [].

Definition blank (s : string) : bool := bool_decide (TrimSpace s = "").

Definition checkListen (listen : string) : list ConfigError :=
  if blank listen then [Required "listen"]
  else match NetAddr.SplitHostPort listen with Some _ => [] | None => [ListenForm] end.

Definition checkEndpoint (text : string) : list ConfigError :=
  let endpoint := TrimSpace text in
  if bool_decide (endpoint = "") then [Required "upstream.endpoint"] else
  match UrlParse.Parse endpoint with
  | None => [EndpointInvalid]
  | Some parsed =>
      if negb (bool_decide (UrlParse.Scheme parsed = "http")) && negb (bool_decide (UrlParse.Scheme parsed = "https"))
      then [EndpointScheme]
      else report (bool_decide (UrlParse.Host parsed = "")) EndpointHost
  end.

Definition checkHost (text : string) : list ConfigError :=
  let host := TrimSpace text in
  if bool_decide (host = "") then [] else
  match UrlParse.Parse ("//" +:+ host) with
  | None => [HostInvalid]
  | Some parsed =>
      report (negb (bool_decide (UrlParse.Host parsed = host)) || bool_decide (UrlParse.Hostname parsed = "")
              || UrlParse.HasUser parsed || negb (bool_decide (UrlParse.Path parsed = ""))
              || negb (bool_decide (UrlParse.RawQuery parsed = "")) || negb (bool_decide (UrlParse.Fragment parsed = ""))
              || ContainsAny host (str_of_bytes [32; 9; 13; 10]%N))
        HostForm
  end.

Definition checkBucket (maxSize : Z) (nb : string * BucketCacheConfig) : list ConfigError :=
  let '(name, bucket) := nb in
  if blank name then [BucketNameEmpty] else
  let field := "cache.buckets." +:+ name in
  report (bc_MaxSize bucket <? 0) (Negative (field +:+ ".max_size")) ++
  report (bc_PageSize bucket <? 0) (Negative (field +:+ ".page_size")) ++
  report ((0 <? bc_MaxSize bucket) && (bc_MaxSize bucket <? bc_PageSize bucket))
    (Exceeds (field +:+ ".page_size") (field +:+ ".max_size")) ++
  report ((bc_MaxSize bucket =? 0) && (maxSize <? bc_PageSize bucket))
    (Exceeds (field +:+ ".page_size") "cache.max_size").

Definition checkPeerURL (i : nat) (text : string) : list ConfigError :=
  let peerURL := TrimSpace text in
  if bool_decide (peerURL = "") then [PeerURLRequired i] else
  match UrlParse.Parse peerURL with
  | None => [PeerURLInvalid i]
  | Some parsed =>
      if negb (bool_decide (UrlParse.Scheme parsed = "http")) && negb (bool_decide (UrlParse.Scheme parsed = "https"))
      then [PeerURLScheme i]
      else report (bool_decide (UrlParse.Host parsed = "")) (PeerURLHost i)
  end.

(** The loop over the peers: the errors and [hasLocal]. *)
Fixpoint checkPeers (localID : string) (i : nat) (l : list Peer) (seen : gset string) (hasLocal : bool)
  : list ConfigError * bool :=
  match l with
  | [] => ([], hasLocal)
  | peer :: l =>
      let id := TrimSpace (ID peer) in
      let '(errs, seen, hasLocal) :=
        if bool_decide (id = "") then ([PeerIDRequired i], seen, hasLocal)
        else (report (bool_decide (id ∈ seen)) (PeerDuplicated id), {[id]} ∪ seen,
              if bool_decide (id = localID) then true else hasLocal) in
      let '(errs', hasLocal) := checkPeers localID (S i) l seen hasLocal in
      (errs ++ checkPeerURL i (URL peer) ++ errs', hasLocal)
  end.

Definition validatePeer (cfg : Config) : list ConfigError :=
  let p := PeerPart cfg in
  let mode := TrimSpace (Mode p) in
  if negb (bool_decide (mode = "peer")) then
    if bool_decide (mode = "") || bool_decide (mode = "single") then [] else [PeerModeUnknown]
  else
    let sharding := TrimSpace (ReadSharding p) in
    let '(errs, hasLocal) := checkPeers (LocalID p) 0 (Peers p) ∅ false in
    report (blank (LocalID p)) (Required "peer.local_id") ++
    report (blank (AuthSecret p)) (Required "peer.auth_secret") ++
    report (ForwardTimeout p <=? 0) (NotPositive "peer.forward_timeout") ++
    report (negb (bool_decide (sharding ∈ ["object"; "page"; "auto"]))) ShardingUnknown ++
    report (PageShardingMinPages p <=? 0) (NotPositive "peer.page_sharding_min_pages") ++
    report (MaxFillConcurrency p <=? 0) (NotPositive "peer.max_peer_fill_concurrency") ++
    report (MaxObjectFillConcurrency p <=? 0) (NotPositive "peer.max_peer_object_fill_concurrency") ++
    report (bool_decide (Peers p = [])) NoPeers ++
    errs ++
    report (negb (bool_decide (Peers p = [])) && negb hasLocal) NoLocalPeer.

Definition checkOperator (o : OperatorConfig) : list ConfigError :=
  if Enabled o then
    if blank (Path o) then [Required "operator.path"]
    else report (negb (HasPrefix (TrimSpace (Path o)) "/")) OperatorPathForm
  else [].

(** [Validate]: the errors that are joined, none when the configuration is valid. *)
Definition Validate (cfg : Config) : list ConfigError :=
  let u := Upstream cfg in let c := Cache cfg in let h := HTTP cfg in
  checkListen (Listen cfg) ++ checkEndpoint (Endpoint u) ++ checkHost (Host u) ++
  report (blank (Region u)) (Required "upstream.region") ++
  report (blank (AccessKey u)) (Required "upstream.access_key") ++
  report (blank (SecretKey u)) (Required "upstream.secret_key") ++
  report (ResponseHeaderTimeout u <=? 0) (NotPositive "upstream.response_header_timeout") ++
  report (blank (CachePath c)) (Required "cache.cache_path") ++
  report (blank (MetaPath c)) (Required "cache.meta_path") ++
  report (MaxSize c <=? 0) (NotPositive "cache.max_size") ++
  report (PageSize c <=? 0) (NotPositive "cache.page_size") ++
  report ((0 <? MaxSize c) && (MaxSize c <? PageSize c)) (Exceeds "cache.page_size" "cache.max_size") ++
  concat (checkBucket (MaxSize c) <$> order (map_to_list (Buckets c))) ++
  report (MetadataGCInterval c <=? 0) (NotPositive "cache.metadata_gc_interval") ++
  report (MetadataMaxAge c <=? 0) (NotPositive "cache.metadata_max_age") ++
  report (MetadataGCBatchSize c <=? 0) (NotPositive "cache.metadata_gc_batch_size") ++
  report (SQLiteCheckpointInterval c <=? 0) (NotPositive "cache.sqlite_checkpoint_interval") ++
  report (ReadHeaderTimeout h <=? 0) (NotPositive "http.read_header_timeout") ++
  report (ReadTimeout h <=? 0) (NotPositive "http.read_timeout") ++
  report (WriteTimeout h <=? 0) (NotPositive "http.write_timeout") ++
  report (IdleTimeout h <=? 0) (NotPositive "http.idle_timeout") ++
  report (MaxSpoolSize (Upload cfg) <=? 0) (NotPositive "upload.max_spool_size") ++
  checkOperator (Operator cfg) ++
  validatePeer cfg.

(** ** Loading *)

(** [readFile] is [os.ReadFile] and [unmarshal] is [yaml.Unmarshal] into a
    configuration that is already filled in. *)
Context (readFile : string -> option bytes) (unmarshal : bytes -> Config -> option Config).

Definition readConfig (path : string) : result (list ConfigError) Config :=
  match readFile path with
  | None => Err [ReadFailed]
  | Some data =>
      match unmarshal data Default with
      | None => Err [YamlFailed]
      | Some cfg =>
          match cfg ← applyParsedSizes cfg; applyParsedDurations cfg with
          | Ok cfg => Ok cfg
          | Err e => Err [e]
          end
      end
  end.

Definition Load (path : string) : result (list ConfigError) Config :=
  match readConfig path with
  | Err e => Err e
  | Ok cfg => match Validate cfg with [] => Ok cfg | errs => Err errs end
  end.

End Machine.

End AppConfig.

(** ** Sizes *)

Section Sizes.
Import AppConfig.

Lemma span_app f a b : forall_bytes f a = true -> (match b with EmptyString => true | String c _ => negb (f c) end) = true ->
  span f (a +:+ b) = (a, b).
Proof.
  intros Ha Hb. induction a as [|c a IH]; cbn.
  - destruct b as [|c b]; [done|]. cbn. apply negb_true_iff in Hb. by rewrite Hb.
  - cbn in Ha. apply andb_true_iff in Ha as [-> Ha]. by rewrite IH.
Qed.

Lemma forall_bytes_contains f s : (forall c, ContainsByte s c = true -> f c = true) -> forall_bytes f s = true.
Proof.
  induction s as [|c s IH]; intros H; [done|]. cbn. rewrite (H c) by (cbn; by rewrite Ascii.eqb_refl).
  apply IH. intros d Hd. apply H. cbn. by rewrite Hd, orb_true_r.
Qed.

(** The printed number with a unit of the table is left alone by [TrimSpace] and cut
    after its digits. *)
Lemma number_and_unit n u k : 0 <= n -> (u, k) ∈ units ->
  TrimSpace (FormatInt n +:+ u) = FormatInt n +:+ u /\ FormatInt n <> "" /\
  span (fun c => Ascii.eqb c "." || is_digit_byte c) (FormatInt n +:+ u) = (FormatInt n, u) /\
  TrimSpace u = u /\ unitShift (ToUpperText u) = Some k.
Proof.
  intros Hn Hu. pose proof (pretty_digits n Hn) as [Hall (t & d & Hlast & Hd)].
  destruct (pretty_cons n Hn) as (m & r & Hm & Hfirst). unfold FormatInt.
  assert (Hstart : no_rune_starts space_runes (pretty_N_char m) = true)
    by (apply (is_digit_cases (no_rune_starts space_runes)); [reflexivity|by exists m]).
  assert (Hspan : forall_bytes (fun c => Ascii.eqb c "." || is_digit_byte c) (pretty n) = true).
  { apply forall_bytes_contains. intros c Hc.
    apply (is_digit_cases (fun c => Ascii.eqb c "." || is_digit_byte c)); [reflexivity|auto]. }
  assert (Hdu : exists v e, pretty n +:+ u = v +:+ String e "" /\ no_rune_starts (srev <$> space_runes) e = true).
  { destruct u as [|c u].
    - exists t, d. rewrite append_nil_r. split; [done|].
      apply (is_digit_cases (no_rune_starts (srev <$> space_runes))); [reflexivity|done].
    - unfold units in Hu. set_unfold in Hu. destruct_or! Hu; simplify_eq;
        repeat first
          [ eexists (pretty n), _; split; [reflexivity|reflexivity]
          | eexists (pretty n +:+ String _ ""), _; split; [rewrite append_assoc; reflexivity|reflexivity]
          | eexists (pretty n +:+ String _ (String _ "")), _; split; [rewrite append_assoc; reflexivity|reflexivity] ]. }
  destruct Hdu as (v & e & Hv & He).
  assert (Htrim : TrimSpace (pretty n +:+ u) = pretty n +:+ u).
  { rewrite Hfirst in *. rewrite append_cons in *. by eapply TrimSpace_id. }
  split; [done|]. split; [by rewrite Hfirst|]. split; [|].
  - apply span_app; [done|]. unfold units in Hu. set_unfold in Hu. by destruct_or! Hu; simplify_eq.
  - unfold units in Hu. set_unfold in Hu. by destruct_or! Hu; simplify_eq.
Qed.

Lemma ParseFloat_integer n : 0 < n < 2 ^ 53 ->
  Float.ParseFloat (FormatInt n) = Some (S754_finite false (Z.to_pos (mantissa n)) (Z.log2 n - 52)).
Proof.
  intros Hn. unfold Float.ParseFloat, FormatInt. rewrite Cut_absent by (apply pretty_no_byte; [lia|reflexivity]).
  cbv beta iota. rewrite append_nil_r. destruct (pretty_cons n ltac:(lia)) as (m & r & _ & Hfirst).
  rewrite bool_decide_false by (by rewrite Hfirst). rewrite parse_pretty by lia. cbn [mbind option_bind].
  destruct (Z.eqb_spec n 0); [lia|]. change (10 ^ Z.of_nat (String.length "")) with 1. by rewrite of_ratio_exact.
Qed.

Lemma unit_float u k : (u, k) ∈ units ->
  0 <= k <= 40 /\ Float.of_Z (2 ^ k) = S754_finite false (Z.to_pos (2 ^ 52)) (k - 52).
Proof. unfold units. intros Hu. set_unfold in Hu. by destruct_or! Hu; simplify_eq. Qed.

(** A size that is printed as a whole number below [2^53] with any unit of the table
    is read back exactly, as long as the bytes fit [int64]; the floating-point
    arithmetic of [ParseBytes] loses nothing there. *)
Theorem ParseBytes_exact overflowed n u k :
  0 < n < 2 ^ 53 -> (u, k) ∈ units -> n * 2 ^ k < 2 ^ 63 ->
  ParseBytes overflowed (FormatInt n +:+ u) = Ok (n * 2 ^ k).
Proof.
  intros Hn Hu Hfit. destruct (number_and_unit n u k ltac:(lia) Hu) as (Htrim & Hne & Hspan & Hu' & Hshift).
  destruct (unit_float u k Hu) as [Hk Hfloat].
  assert (Hlog : Z.log2 n + k < 63).
  { rewrite Z.add_comm, <- Z.log2_mul_pow2 by lia. apply Z.log2_lt_pow2; lia. }
  pose proof (Z.log2_nonneg n). unfold ParseBytes. rewrite Htrim.
  rewrite bool_decide_false by (destruct (FormatInt n); done). rewrite Hspan, bool_decide_false by done.
  rewrite ParseFloat_integer by done. cbn [Float.ltb negb]. rewrite Hu', Hshift, Hfloat.
  rewrite mul_pow2 by (try apply mantissa_normal; lia).
  change (Float.of_Z int64_max) with (S754_finite false (Z.to_pos (2 ^ 52)) 11).
  rewrite ltb_exponent by lia. unfold int64Of. rewrite trunc_mantissa by lia.
  rewrite bool_decide_true by (unfold in_int64, int64_min, int64_max; lia). done.
Qed.

Lemma ParseBytes_exact_witness : ParseBytes 0 (FormatInt 512 +:+ "KB") = Ok (512 * 2 ^ 10).
Proof. apply (ParseBytes_exact 0 512 "KB" 10); [lia|unfold units; set_solver|lia]. Defined.

End Sizes.

(** ** What validation guarantees *)

Section Valid.
Import AppConfig.

(** A text that parses to an absolute URL of a web server. *)
Definition web_url (text : string) : Prop := exists u, UrlParse.Parse text = Some u /\
  (UrlParse.Scheme u = "http" \/ UrlParse.Scheme u = "https") /\ UrlParse.Host u <> "".

Definition bucket_valid (maxSize : Z) (b : BucketCacheConfig) : Prop :=
  0 <= bc_MaxSize b /\ 0 <= bc_PageSize b /\
  bc_PageSize b <= (if bc_MaxSize b =? 0 then maxSize else bc_MaxSize b).

Definition ids (l : list Peer) : list string := (fun p => TrimSpace (ID p)) <$> l.

Record peers_valid (p : PeerConfig) : Prop := {
  pv_ids : NoDup (ids (Peers p));
  pv_named : Forall (fun q => TrimSpace (ID q) <> "" /\ web_url (TrimSpace (URL q))) (Peers p);
  pv_local : LocalID p ∈ ids (Peers p);
  pv_secret : TrimSpace (AuthSecret p) <> "";
  pv_sharding : TrimSpace (ReadSharding p) ∈ ["object"; "page"; "auto"];
  pv_limits : 0 < PageShardingMinPages p /\ 0 < MaxFillConcurrency p /\ 0 < MaxObjectFillConcurrency p /\
              0 < ForwardTimeout p }.

Record valid (cfg : Config) : Prop := {
  va_listen : is_Some (NetAddr.SplitHostPort (Listen cfg));
  va_endpoint : web_url (TrimSpace (Endpoint (Upstream cfg)));
  va_keys : TrimSpace (AccessKey (Upstream cfg)) <> "" /\ TrimSpace (SecretKey (Upstream cfg)) <> "";
  va_paths : TrimSpace (CachePath (Cache cfg)) <> "" /\ TrimSpace (MetaPath (Cache cfg)) <> "";
  va_sizes : 0 < PageSize (Cache cfg) <= MaxSize (Cache cfg);
  va_buckets name b : Buckets (Cache cfg) !! name = Some b -> bucket_valid (MaxSize (Cache cfg)) b;
  va_batch : 0 < MetadataGCBatchSize (Cache cfg);
  va_age : 0 < MetadataMaxAge (Cache cfg);
  va_spool : 0 < MaxSpoolSize (Upload cfg);
  va_operator : Enabled (Operator cfg) = true -> HasPrefix (TrimSpace (Path (Operator cfg))) "/" = true;
  va_peers : TrimSpace (Mode (PeerPart cfg)) = "peer" -> peers_valid (PeerPart cfg) }.

Lemma report_nil b e : report b e = [] -> b = false.
Proof. by destruct b. Qed.

Lemma blank_false s : blank s = false -> TrimSpace s <> "".
Proof. unfold blank. by intros ?%bool_decide_eq_false. Qed.

(** Every list of errors in a concatenation that is empty is empty. *)
Ltac no_errors H :=
  repeat match type of H with
  | _ ++ _ = [] => let H' := fresh "Hno" in apply app_eq_nil in H as [H' H]
  end.

Ltac reports :=
  repeat match goal with
  | H : report _ _ = [] |- _ => apply report_nil in H
  | H : blank _ = false |- _ => apply blank_false in H
  end.

Lemma checkURL_web (text : string) (invalid scheme host : ConfigError) :
  (match UrlParse.Parse text with
   | None => [invalid]
   | Some parsed =>
       if negb (bool_decide (UrlParse.Scheme parsed = "http")) && negb (bool_decide (UrlParse.Scheme parsed = "https"))
       then [scheme] else report (bool_decide (UrlParse.Host parsed = "")) host
   end) = [] -> web_url text.
Proof.
  unfold web_url. destruct (UrlParse.Parse text) as [u|]; [|done]. intros H. exists u. split; [done|].
  repeat case_bool_decide; cbn in *; try done; auto.
Qed.

Lemma checkEndpoint_web text : checkEndpoint text = [] -> web_url (TrimSpace text).
Proof. unfold checkEndpoint. case_bool_decide; [done|]. apply checkURL_web. Qed.

Lemma checkPeerURL_web i text : checkPeerURL i text = [] -> web_url (TrimSpace text).
Proof. unfold checkPeerURL. case_bool_decide; [done|]. apply checkURL_web. Qed.

Lemma checkBucket_valid maxSize name b : checkBucket maxSize (name, b) = [] -> bucket_valid maxSize b.
Proof.
  unfold checkBucket. destruct (blank name); [done|]. intros H. no_errors H. reports. zbool.
  unfold bucket_valid. destruct (Z.eqb_spec (bc_MaxSize b) 0); cbn in *; zbool; [lia|].
  destruct (Z.ltb_spec 0 (bc_MaxSize b)); cbn in *; zbool; lia.
Qed.

Lemma checkPeers_valid localID l : forall i seen has has',
  checkPeers localID i l seen has = ([], has') ->
  Forall (fun q => TrimSpace (ID q) <> "" /\ web_url (TrimSpace (URL q))) l /\ NoDup (ids l) /\
  (forall id, id ∈ ids l -> id ∉ seen) /\ (has' = true -> has = true \/ localID ∈ ids l).
Proof.
  induction l as [|p l IH]; intros i seen has has' H; cbn in H.
  { simplify_eq. split_and!; [done|constructor|by intros ? ?%elem_of_nil|auto]. }
  case_bool_decide as Hid; destruct (checkPeers _ _ _ _ _) as [errs h'] eqn:E; simplify_eq.
  match goal with H : _ ++ _ = [] |- _ => no_errors H end. subst. reports.
  apply IH in E as (Hall & Hnd & Hseen & Hlocal). case_bool_decide as Hdup; [done|].
  split; [|split; [|split]].
  - constructor; [|done]. split; [done|]. eapply checkPeerURL_web. eassumption.
  - constructor; [|done]. intros Hin. apply Hseen in Hin. clear -Hin. set_solver.
  - intros id [->|Hin]%elem_of_cons; [done|]. apply Hseen in Hin. clear -Hin. set_solver.
  - intros Hh. apply Hlocal in Hh as [Hh|Hh].
    + case_bool_decide; [right; subst; by apply elem_of_cons; left|auto].
    + right. by apply elem_of_cons; right.
Qed.

Lemma validatePeer_valid cfg : validatePeer cfg = [] -> TrimSpace (Mode (PeerPart cfg)) = "peer" ->
  peers_valid (PeerPart cfg).
Proof.
  unfold validatePeer. intros H Hm. rewrite Hm, bool_decide_true in H by done. cbn [negb] in H.
  destruct (checkPeers _ _ _ _ _) as [errs has] eqn:E. no_errors H. subst. reports.
  apply checkPeers_valid in E as (Hall & Hnd & _ & Hlocal). zbool.
  repeat match goal with H : bool_decide _ = false |- _ => apply bool_decide_eq_false in H
                       | H : bool_decide _ = true |- _ => apply bool_decide_eq_true in H end.
  constructor; try done; try lia.
  - destruct has; [by destruct Hlocal|]. exfalso. rewrite bool_decide_false in H by done. done.
Qed.

Lemma Validate_valid order cfg : (forall l, order l ≡ₚ l) -> Validate order cfg = [] -> valid cfg.
Proof.
  intros Hord H. unfold Validate in H. no_errors H.
  repeat match goal with H : checkEndpoint _ = [] |- _ => apply checkEndpoint_web in H end.
  reports. zbool.
  constructor; try done; try lia.
  - unfold checkListen in Hno. destruct (blank _); [done|]. by destruct (NetAddr.SplitHostPort _).
  - intros name b Hb. apply (checkBucket_valid _ name).
    match goal with Hc : concat _ = [] |- _ => rename Hc into Hbuckets end.
    apply elem_of_map_to_list in Hb. rewrite <- Hord in Hb.
    apply concat_nil_Forall in Hbuckets. rewrite Forall_fmap, Forall_forall in Hbuckets. by apply (Hbuckets _ Hb).
  - intros He. match goal with Hc : checkOperator _ = [] |- _ => rename Hc into Hop end.
    unfold checkOperator in Hop. rewrite He in Hop. destruct (blank _); [done|]. by destruct (HasPrefix _ _).
  - by apply validatePeer_valid.
Qed.

Lemma Load_valid overflowed order readFile unmarshal path cfg : (forall l, order l ≡ₚ l) ->
  Load overflowed order readFile unmarshal path = Ok cfg -> valid cfg.
Proof.
  intros Hord H. unfold Load in H. destruct (readConfig _ _ _ _ _) as [c|]; [|done].
  destruct (Validate order c) eqn:E; [|done]. simplify_eq. by eapply Validate_valid.
Qed.

End Valid.
