(* ===== verification/Range.v ===== *)
(** * Byte ranges and pages ([internal/cacheplan/range.go])

    [ParseRange] turns a [Range] header into an inclusive byte range of an
    object, [PagesForRange] cuts a byte range into the spans of the fixed-size
    pages that hold it, and [PageBounds] gives the bytes of one page.  All
    arithmetic is [int64] arithmetic and wraps around; the theorems say under
    which bounds it does not. *)

From Stdlib Require Import Ascii.
From S2P Require Import Prelude GoStrings.
Import Strings.

#[local] Open Scope go_scope.

(** ** Data *)

Record ByteRange := mkByteRange { Start : Z; End : Z }.

Record PageSpan := mkPageSpan { ps_Index : Z; ps_Start : Z; ps_End : Z }.

#[export] Instance ByteRange_eq_dec : EqDecision ByteRange.
Proof. solve_decision. Defined.
#[export] Instance PageSpan_eq_dec : EqDecision PageSpan.
Proof. solve_decision. Defined.

(** One constructor per error the file returns. *)
Inductive RangeError :=
| ObjectSizeNotPositive
| UnsupportedUnit
| UnsupportedSpec
| InvalidSpec
| InvalidStart (e : IntError)
| StartBeyondObject
| InvalidEnd (e : IntError)
| EndBeforeStart
| InvalidSuffix (e : IntError)
| SuffixZero
| RangeStartNegative
| RangeEndBeforeStart
| PageSizeNotPositive
| PageIndexNegative
| PageStartBeyondObject
with IntError := EmptyInteger | NotAnInteger | NegativeInteger.

Definition minInt64 (a b : Z) : Z := if a <? b then a else b.
Definition maxInt64 (a b : Z) : Z := if b <? a then a else b.

(** ** Parsing *)

Definition parseNonNegativeInt (text : string) : result IntError Z :=
  if bool_decide (text = "") then Err EmptyInteger
  else match ParseInt text 10 with
       | None => Err NotAnInteger
       | Some value => if value <? 0 then Err NegativeInteger else Ok value
       end.

Definition parseSuffixRange (text : string) (objectSize : Z) : result RangeError ByteRange :=
  match parseNonNegativeInt text with
  | Err e => Err (InvalidSuffix e)
  | Ok suffix =>
      if suffix =? 0 then Err SuffixZero
      else if objectSize <=? suffix then Ok (mkByteRange 0 (objectSize -! 1))
      else Ok (mkByteRange (objectSize -! suffix) (objectSize -! 1))
  end.

Definition ParseRange (header : string) (objectSize : Z) : result RangeError ByteRange :=
  if objectSize <=? 0 then Err ObjectSizeNotPositive else
  let value := TrimSpace header in
  if negb (HasPrefix value "bytes=") then Err UnsupportedUnit else
  let spec := TrimSpace (TrimPrefix value "bytes=") in
  if bool_decide (spec = "") || ContainsByte spec ","%char then Err UnsupportedSpec else
  let '(startText, endText, ok) := Cut spec "-"%char in
  if negb ok then Err InvalidSpec else
  if bool_decide (startText = "") then parseSuffixRange endText objectSize else
  match parseNonNegativeInt startText with
  | Err e => Err (InvalidStart e)
  | Ok start =>
      if objectSize <=? start then Err StartBeyondObject else
      if bool_decide (endText = "") then Ok (mkByteRange start (objectSize -! 1)) else
      match parseNonNegativeInt endText with
      | Err e => Err (InvalidEnd e)
      | Ok end_ =>
          if end_ <? start then Err EndBeforeStart else
          let end_ := if objectSize <=? end_ then objectSize -! 1 else end_ in
          Ok (mkByteRange start end_)
      end
  end.

(** ** Pages *)

Definition validateRange (r : ByteRange) : option RangeError :=
  if Start r <? 0 then Some RangeStartNegative
  else if End r <? Start r then Some RangeEndBeforeStart
  else None.

Definition pageSpanOf (r : ByteRange) (pageSize index : Z) : PageSpan :=
  let pageStart := index *! pageSize in
  let pageEnd := pageStart +! pageSize -! 1 in
  mkPageSpan index (maxInt64 (Start r) pageStart) (minInt64 (End r) pageEnd).

(** The loop [for index := first; index <= last; index++]. *)
Fixpoint pagesLoop (fuel : nat) (r : ByteRange) (pageSize index last : Z) : list PageSpan :=
  match fuel with
  | O => []
  | S fuel =>
      if index <=? last
      then pageSpanOf r pageSize index :: pagesLoop fuel r pageSize (index +! 1) last
      else []
  end.

(** The fuel is the number of iterations plus the final test. *)
Definition PagesForRange (r : ByteRange) (pageSize : Z) : result RangeError (list PageSpan) :=
  match validateRange r with
  | Some e => Err e
  | None =>
      if pageSize <=? 0 then Err PageSizeNotPositive else
      let first := Start r /! pageSize in
      let last := End r /! pageSize in
      Ok (pagesLoop (Z.to_nat (last - first + 2)) r pageSize first last)
  end.

Definition PageBounds (index pageSize objectSize : Z) : result RangeError PageSpan :=
  if index <? 0 then Err PageIndexNegative else
  if pageSize <=? 0 then Err PageSizeNotPositive else
  if objectSize <=? 0 then Err ObjectSizeNotPositive else
  let start := index *! pageSize in
  if objectSize <=? start then Err PageStartBeyondObject else
  Ok (mkPageSpan index start (minInt64 (start +! pageSize -! 1) (objectSize -! 1))).

(** ** Facts about the helpers *)

Lemma minInt64_spec a b : minInt64 a b = Z.min a b.
Proof. unfold minInt64. destruct (Z.ltb_spec a b); lia. Qed.

Lemma maxInt64_spec a b : maxInt64 a b = Z.max a b.
Proof. unfold maxInt64. destruct (Z.ltb_spec b a); lia. Qed.

#[export] Hint Rewrite minInt64_spec maxInt64_spec : go_simpl.

Lemma parse_digits_nonneg base s acc v :
  0 <= base -> 0 <= acc -> parse_digits base s acc = Some v -> 0 <= v.
Proof.
  intros Hb. revert acc. induction s as [|c s IH]; cbn; intros acc Ha H; simplify_eq; [done|].
  destruct (digit_val c) as [d|] eqn:Ed; [|done].
  destruct (d <? base); [|done]. eapply IH; [|done].
  unfold digit_val in Ed. split_tests; simplify_eq; zbool; nia.
Qed.

Lemma ParseInt_in_int64 s base v : 0 <= base -> ParseInt s base = Some v -> in_int64 v.
Proof.
  assert (Hm : forall t w, 0 <= base -> parse_magnitude base t = Some w -> 0 <= w).
  { intros [|c t] w Hb H; [done|]. by eapply (parse_digits_nonneg base); [..|exact H]. }
  intros Hb H. int64_unfold. destruct s as [|c r]; [done|]. cbn in H.
  destruct (Ascii.eqb c "-"); apply bind_Some in H as (w & Hw%Hm & H);
    split_tests; simplify_eq; zbool; lia.
Qed.

Lemma parseNonNegativeInt_ok text v :
  parseNonNegativeInt text = Ok v -> text <> "" /\ ParseInt text 10 = Some v /\ 0 <= v <= int64_max.
Proof.
  unfold parseNonNegativeInt. intros H. case_bool_decide; [done|].
  destruct (ParseInt text 10) as [w|] eqn:E; [|done].
  apply ParseInt_in_int64 in E as Hi; [|done].
  destruct (Z.ltb_spec w 0); simplify_eq. int64_unfold. auto with lia.
Qed.

Lemma parseNonNegativeInt_FormatInt v :
  0 <= v <= int64_max -> parseNonNegativeInt (FormatInt v) = Ok v.
Proof.
  intros Hv. unfold parseNonNegativeInt.
  rewrite ParseInt_FormatInt by (int64_unfold; lia).
  destruct (pretty_cons v ltac:(lia)) as (m & t & _ & Ht).
  unfold FormatInt. rewrite Ht. cbn. by rewrite (proj2 (Z.ltb_ge _ _)) by lia.
Qed.

(** ** The loop of [PagesForRange] *)

(** With enough fuel, and a last page below the largest [int64], the loop visits
    exactly the indexes from [index] to [last]. *)
Lemma pagesLoop_seqZ fuel r pageSize index last :
  0 <= index -> last < int64_max -> last - index + 1 < Z.of_nat fuel ->
  pagesLoop fuel r pageSize index last
  = pageSpanOf r pageSize <$> seqZ index (last - index + 1).
Proof.
  revert index. induction fuel as [|fuel IH]; intros index Hi Hl Hf; cbn [pagesLoop].
  - by rewrite seqZ_nil by lia.
  - destruct (Z.leb_spec index last) as [Hle|Hgt].
    + rewrite (seqZ_cons index) by lia. cbn. f_equal.
      replace (index +! 1) with (index + 1) by (no_wrap; lia).
      rewrite IH by lia. do 2 f_equal; lia.
    + by rewrite seqZ_nil by lia.
Qed.

Section pages.
Context (r : ByteRange) (pageSize : Z).
Context (Hsize : 0 < pageSize) (Hstart : 0 <= Start r) (Hend : Start r <= End r).
Context (Hbound : End r + pageSize <= int64_max).

Let first := Start r / pageSize.
Let last := End r / pageSize.

Lemma page_index_bounds : 0 <= first <= last /\ first * pageSize <= Start r < (first + 1) * pageSize
  /\ last * pageSize <= End r < (last + 1) * pageSize.
Proof.
  subst first last.
  pose proof (Z.div_mod (Start r) pageSize ltac:(lia)).
  pose proof (Z.mod_pos_bound (Start r) pageSize Hsize).
  pose proof (Z.div_mod (End r) pageSize ltac:(lia)).
  pose proof (Z.mod_pos_bound (End r) pageSize Hsize).
  pose proof (Z.div_pos (Start r) pageSize ltac:(lia) ltac:(lia)).
  pose proof (Z.div_le_mono (Start r) (End r) pageSize ltac:(lia) ltac:(lia)). nia.
Qed.

Lemma quot64_div z : 0 <= z <= End r -> z /! pageSize = z / pageSize.
Proof.
  intros Hz. unfold quot64. rewrite Z.quot_div_nonneg by lia.
  pose proof (Z.div_pos z pageSize ltac:(lia) ltac:(lia)).
  pose proof (Z.div_le_upper_bound z pageSize z ltac:(lia) ltac:(nia)).
  apply wrap64_id. int64_unfold. lia.
Qed.

(** No span wraps around: it is the intersection of the range and the page. *)
Lemma pageSpanOf_exact index :
  first <= index <= last ->
  pageSpanOf r pageSize index =
  mkPageSpan index (Z.max (Start r) (index * pageSize))
    (Z.min (End r) ((index + 1) * pageSize - 1)).
Proof.
  intros Hi. pose proof page_index_bounds as (? & ? & ?).
  unfold pageSpanOf. autorewrite with go_simpl.
  assert (0 <= index * pageSize <= End r) by nia.
  unfold mul64. rewrite (wrap64_id (index * pageSize)) by (int64_unfold; lia).
  no_wrap. do 2 f_equal; lia.
Qed.

Lemma PagesForRange_eq :
  PagesForRange r pageSize = Ok (pageSpanOf r pageSize <$> seqZ first (last - first + 1)).
Proof.
  pose proof page_index_bounds as (? & ? & ?). unfold PagesForRange, validateRange.
  rewrite (proj2 (Z.ltb_ge _ _)), (proj2 (Z.ltb_ge _ _)), (proj2 (Z.leb_gt _ _)) by lia.
  rewrite !quot64_div by lia. fold first last. f_equal.
  assert (last <= End r) by nia. apply pagesLoop_seqZ; lia.
Qed.

(** The spans of the pages from [index] on tile the rest of the range. *)
Lemma spans_tile {A} (data : list A) (k : nat) index :
  first <= index -> index + Z.of_nat k = last ->
  concat ((fun p => slice (ps_Start p) (ps_End p + 1) data) <$>
            (pageSpanOf r pageSize <$> seqZ index (Z.of_nat k + 1)))
  = slice (Z.max (Start r) (index * pageSize)) (End r + 1) data.
Proof.
  pose proof page_index_bounds as (? & ? & ?).
  revert index. induction k as [|k IH]; intros index Hi Hk.
  - change (Z.of_nat 0 + 1) with 1. rewrite seqZ_cons, seqZ_nil by lia.
    cbn [fmap list_fmap concat]. rewrite app_nil_r, pageSpanOf_exact by lia. cbn [ps_Start ps_End].
    assert (index = last) as -> by lia. f_equal; lia.
  - rewrite seqZ_cons by lia. cbn [fmap list_fmap concat].
    replace (Z.pred (Z.of_nat (S k) + 1)) with (Z.of_nat k + 1) by lia.
    replace (Z.succ index) with (index + 1) by lia.
    rewrite IH, pageSpanOf_exact by lia. cbn [ps_Start ps_End].
    assert ((index + 1) * pageSize <= last * pageSize) by nia.
    assert ((first + 1) * pageSize <= (index + 1) * pageSize) by nia.
    rewrite (Z.max_r (Start r) ((index + 1) * pageSize)) by lia.
    replace (Z.min (End r) ((index + 1) * pageSize - 1) + 1) with ((index + 1) * pageSize) by lia.
    apply slice_app; lia.
Qed.
End pages.

Lemma PagesForRange_inv r pageSize pages :
  PagesForRange r pageSize = Ok pages -> 0 < pageSize /\ 0 <= Start r <= End r.
Proof.
  unfold PagesForRange, validateRange. intros H. split_tests; simplify_eq; zbool; lia.
Qed.

Lemma PagesForRange_total r pageSize :
  0 < pageSize -> 0 <= Start r <= End r -> End r + pageSize <= int64_max ->
  exists page pages, PagesForRange r pageSize = Ok (page :: pages).
Proof.
  intros Hp Hr Hb. rewrite PagesForRange_eq by lia.
  pose proof (Z.div_le_mono (Start r) (End r) pageSize ltac:(lia) ltac:(lia)).
  rewrite seqZ_cons by lia. cbn. eauto.
Qed.

Lemma PagesForRange_inside r pageSize pages :
  End r + pageSize <= int64_max -> PagesForRange r pageSize = Ok pages ->
  Forall (fun p => Start r <= ps_Start p /\ ps_End p <= End r) pages.
Proof.
  intros Hb H. apply PagesForRange_inv in H as Hr. destruct Hr as (Hp & Hs & He).
  rewrite PagesForRange_eq in H by lia. injection H as <-.
  apply Forall_fmap, Forall_forall. intros i Hin. apply elem_of_seqZ in Hin. unfold compose.
  rewrite pageSpanOf_exact by lia. cbn [ps_Start ps_End]. lia.
Qed.

(** * Properties *)

(** A range header that parses gives a non-empty inclusive range inside the
    object: [0 <= Start <= End < objectSize], whatever the header. *)
Theorem ParseRange_within header objectSize r :
  in_int64 objectSize -> ParseRange header objectSize = Ok r ->
  0 <= Start r <= End r /\ End r < objectSize.
Proof.
  int64_unfold. unfold ParseRange, parseSuffixRange. intros Hn H.
  destruct (Z.leb_spec objectSize 0); [done|].
  destruct (negb _); [done|]. destruct (_ || _); [done|].
  destruct (Cut _ _) as [[a b] ok]. destruct (negb ok); [done|]. case_bool_decide.
  - destruct (parseNonNegativeInt b) as [v|] eqn:E; [|done].
    apply parseNonNegativeInt_ok in E as (_ & _ & Hv). int64_unfold.
    split_tests; simplify_eq; zbool; cbn; no_wrap; lia.
  - destruct (parseNonNegativeInt a) as [v|] eqn:E; [|done].
    apply parseNonNegativeInt_ok in E as (_ & _ & Hv). int64_unfold.
    destruct (Z.leb_spec objectSize v); [done|]. case_bool_decide.
    + simplify_eq. cbn. no_wrap. lia.
    + destruct (parseNonNegativeInt b) as [w|]; [|done].
      split_tests; simplify_eq; zbool; cbn; no_wrap; lia.
Qed.

Lemma ParseRange_within_witness :
  in_int64 1000 /\ 0 <= Start (mkByteRange 900 999) <= End (mkByteRange 900 999) /\ 999 < 1000.
Proof.
  split; [vm_compute; intuition congruence|].
  apply (ParseRange_within "bytes=900-2000" 1000); [vm_compute; intuition congruence|].
  vm_compute. reflexivity.
Defined.

(** ** Parsing the headers that are printed *)

Lemma digit_not_space d : is_digit d -> no_rune_starts (srev <$> space_runes) d = true.
Proof. apply is_digit_cases. vm_compute. reflexivity. Qed.

Lemma digit_not_space_head d : is_digit d -> no_rune_starts space_runes d = true.
Proof. apply is_digit_cases. vm_compute. reflexivity. Qed.

(** A spec that starts with a digit or a dash and ends with one is what the two
    [TrimSpace] calls leave of it. *)
Lemma ParseRange_spec c s t d objectSize :
  String c s = t +:+ String d "" ->
  no_rune_starts space_runes c = true -> no_rune_starts (srev <$> space_runes) d = true ->
  ContainsByte (String c s) "," = false -> 0 < objectSize ->
  ParseRange ("bytes=" +:+ String c s) objectSize =
  let '(startText, endText, ok) := Cut (String c s) "-" in
  if negb ok then Err InvalidSpec else
  if bool_decide (startText = "") then parseSuffixRange endText objectSize else
  match parseNonNegativeInt startText with
  | Err e => Err (InvalidStart e)
  | Ok start =>
      if objectSize <=? start then Err StartBeyondObject else
      if bool_decide (endText = "") then Ok (mkByteRange start (objectSize -! 1)) else
      match parseNonNegativeInt endText with
      | Err e => Err (InvalidEnd e)
      | Ok end_ =>
          if end_ <? start then Err EndBeforeStart else
          Ok (mkByteRange start (if objectSize <=? end_ then objectSize -! 1 else end_))
      end
  end.
Proof.
  intros Hs Hc Hd Hcomma Hn. unfold ParseRange.
  rewrite (proj2 (Z.leb_gt _ _)) by lia. cbv zeta.
  assert (Htrim : TrimSpace ("bytes=" +:+ String c s) = "bytes=" +:+ String c s).
  { apply (TrimSpace_id "b" _ ("bytes=" +:+ t) d); [by rewrite Hs, append_assoc|done|done]. }
  rewrite Htrim, HasPrefix_append, TrimPrefix_append. cbn [negb].
  rewrite (TrimSpace_id c s t d) by done. rewrite Hcomma.
  rewrite bool_decide_false by done. done.
Qed.

Section formatted.
Context (s e n : Z) (Hs : 0 <= s) (Hse : s <= e) (He : e <= int64_max).
Context (Hsn : s < n) (Hn : n <= int64_max).

Lemma formatted_spec :
  exists c r t d, FormatInt s +:+ "-" +:+ FormatInt e = String c r /\
    String c r = t +:+ String d "" /\ is_digit c /\ is_digit d.
Proof.
  destruct (pretty_cons s Hs) as (m & r & Hm & Hr).
  destruct (pretty_digits e ltac:(lia)) as [_ (t & d & Ht & Hd)].
  exists (pretty_N_char m), (r +:+ "-" +:+ FormatInt e), (pretty s +:+ "-" +:+ t), d.
  unfold FormatInt. rewrite Hr, Ht, !append_assoc, !append_cons.
  repeat split; [..|by exists m|done]; done.
Qed.

Lemma formatted_no_byte z c :
  0 <= z ->
  forallb (fun d => negb (Ascii.eqb d c))
    ["0"; "1"; "2"; "3"; "4"; "5"; "6"; "7"; "8"; "9"]%char = true ->
  ContainsByte (FormatInt z) c = false.
Proof. intros. by apply pretty_no_byte. Qed.

Lemma FormatInt_nonempty z : 0 <= z -> FormatInt z <> "".
Proof. intros Hz. destruct (pretty_cons z Hz) as (m & r & _ & H). unfold FormatInt. by rewrite H. Qed.

(** The header [bytes=<s>-<e>] of a page fetch parses back, clamped to the object. *)
Lemma ParseRange_bounded :
  ParseRange ("bytes=" +:+ FormatInt s +:+ "-" +:+ FormatInt e) n
  = Ok (mkByteRange s (Z.min e (n - 1))).
Proof.
  destruct formatted_spec as (c & r & t & d & Heq & Ht & Hc & Hd).
  rewrite Heq, (ParseRange_spec c r t d); [|done|by apply digit_not_space_head
    |by apply digit_not_space| |lia]; rewrite <- Heq.
  - rewrite append_cons, Cut_append by (by apply formatted_no_byte).
    change ("" +:+ FormatInt e) with (FormatInt e). cbn [negb]. rewrite bool_decide_false by (by apply FormatInt_nonempty).
    rewrite !parseNonNegativeInt_FormatInt by lia. cbv beta iota.
    rewrite (proj2 (Z.leb_gt n s)), bool_decide_false, (proj2 (Z.ltb_ge e s)) by
      (lia || apply FormatInt_nonempty; lia).
    do 2 f_equal. destruct (Z.leb_spec n e); no_wrap; lia.
  - rewrite !ContainsByte_append, !formatted_no_byte by (done || lia). done.
Qed.
End formatted.

(** A range as the proxy formats it parses back. *)
Lemma ParseRange_formatted s e n :
  0 <= s <= e -> e <= int64_max -> s < n -> n <= int64_max ->
  ParseRange ("bytes=" +:+ FormatInt s +:+ "-" +:+ FormatInt e) n
  = Ok (mkByteRange s (Z.min e (n - 1))).
Proof. intros. apply ParseRange_bounded; lia. Qed.

(** A [Range] header printed from numbers, as the page fetches print it, is
    parsed back to those numbers, with the end clamped to the last byte of the
    object. *)
Theorem ParseRange_roundtrip s e n :
  0 <= s <= e -> e <= int64_max -> s < n -> n <= int64_max ->
  ParseRange ("bytes=" +:+ FormatInt s +:+ "-" +:+ FormatInt e) n
  = Ok (mkByteRange s (Z.min e (n - 1))).
Proof. apply ParseRange_formatted. Qed.

Lemma ParseRange_roundtrip_witness :
  ParseRange ("bytes=" +:+ FormatInt 4096 +:+ "-" +:+ FormatInt 8191) 6000
  = Ok (mkByteRange 4096 5999).
Proof. apply (ParseRange_roundtrip 4096 8191 6000); vm_compute; intuition congruence. Defined.

(** The spans of a range tile it, page by page, one span per page it meets. *)
Lemma PagesForRange_spans r pageSize pages :
  End r + pageSize <= int64_max -> PagesForRange r pageSize = Ok pages ->
  (forall A (data : list A),
     concat ((fun p => slice (ps_Start p) (ps_End p + 1) data) <$> pages)
     = slice (Start r) (End r + 1) data) /\
  Forall (fun p => ps_Index p * pageSize <= ps_Start p <= ps_End p
                   /\ ps_End p < (ps_Index p + 1) * pageSize) pages /\
  ps_Index <$> pages = seqZ (Start r / pageSize) (End r / pageSize - Start r / pageSize + 1).
Proof.
  intros Hb H. apply PagesForRange_inv in H as Hr. destruct Hr as (Hp & Hs & He).
  pose proof (page_index_bounds r pageSize Hp Hs He Hb) as (Hi & Hf & Hl).
  rewrite PagesForRange_eq in H by lia. injection H as <-. split_and!.
  - intros A data.
    pose proof (spans_tile r pageSize Hp Hs He Hb data
      (Z.to_nat (End r / pageSize - Start r / pageSize)) (Start r / pageSize)) as Ht.
    rewrite Z2Nat.id in Ht by lia. rewrite Ht by lia. f_equal. lia.
  - apply Forall_fmap, Forall_forall. intros i Hin. apply elem_of_seqZ in Hin. unfold compose.
    rewrite pageSpanOf_exact by lia. cbn [ps_Index ps_Start ps_End]. nia.
  - rewrite <- list_fmap_compose. apply (list_fmap_id (seqZ _ _)).
Qed.

(** C32: the spans [PagesForRange] returns tile the requested range: read in order,
    the bytes they select from any object are exactly the bytes of the range;
    each span lies inside its own page, and the page indexes are consecutive. *)
Theorem PagesForRange_tiles r pageSize pages :
  End r + pageSize <= int64_max -> PagesForRange r pageSize = Ok pages ->
  (forall A (data : list A),
     concat ((fun p => slice (ps_Start p) (ps_End p + 1) data) <$> pages)
     = slice (Start r) (End r + 1) data) /\
  Forall (fun p => ps_Index p * pageSize <= ps_Start p <= ps_End p
                   /\ ps_End p < (ps_Index p + 1) * pageSize) pages /\
  ps_Index <$> pages = seqZ (Start r / pageSize) (End r / pageSize - Start r / pageSize + 1).
Proof. apply PagesForRange_spans. Qed.

Lemma PagesForRange_tiles_witness :
  concat ((fun p => slice (ps_Start p) (ps_End p + 1) (seqZ 0 20)) <$>
            [mkPageSpan 0 3 7; mkPageSpan 1 8 15; mkPageSpan 2 16 17])
  = slice 3 18 (seqZ 0 20).
Proof.
  apply (PagesForRange_tiles (mkByteRange 3 17) 8); vm_compute; [intuition congruence|reflexivity].
Defined.

(** On the whole object, the page spans are the page bounds: each page
    [PagesForRange] plans is the page [PageBounds] lets be fetched and stored. *)
Theorem PagesForRange_full_bounds n pageSize pages :
  0 < n -> n + pageSize <= int64_max ->
  PagesForRange (mkByteRange 0 (n - 1)) pageSize = Ok pages ->
  Forall (fun p => PageBounds (ps_Index p) pageSize n = Ok p) pages.
Proof.
  intros Hn Hb H. apply PagesForRange_inv in H as Hr. cbn in Hr. destruct Hr as (Hp & _ & _).
  set (r := mkByteRange 0 (n - 1)) in *.
  pose proof (page_index_bounds r pageSize Hp ltac:(done) ltac:(cbn; lia) ltac:(cbn; lia)) as (Hi & Hf & Hl).
  rewrite PagesForRange_eq in H by (cbn; lia). simplify_eq.
  apply Forall_fmap, Forall_forall. intros i Hin. apply elem_of_seqZ in Hin. unfold compose.
  rewrite pageSpanOf_exact by (cbn in *; lia). cbn in *.
  assert (0 <= i * pageSize <= n - 1) by nia.
  unfold PageBounds. autorewrite with go_simpl.
  rewrite (proj2 (Z.ltb_ge _ _)), !(proj2 (Z.leb_gt _ _)) by (no_wrap; lia).
  no_wrap. do 2 f_equal; lia.
Qed.

Lemma PagesForRange_full_bounds_witness :
  Forall (fun p => PageBounds (ps_Index p) 8 18 = Ok p)
    [mkPageSpan 0 0 7; mkPageSpan 1 8 15; mkPageSpan 2 16 17].
Proof.
  apply (PagesForRange_full_bounds 18 8); vm_compute; [reflexivity|intuition congruence|reflexivity].
Defined.

(** The bounds of a page, without overflow. *)
Lemma PageBounds_eq index pageSize n :
  0 <= index -> 0 < pageSize -> 0 < n -> n + pageSize <= int64_max ->
  index * pageSize <= int64_max ->
  PageBounds index pageSize n =
  if index * pageSize <? n
  then Ok (mkPageSpan index (index * pageSize) (Z.min ((index + 1) * pageSize) n - 1))
  else Err PageStartBeyondObject.
Proof.
  intros Hi Hp Hn Hb Hm. unfold PageBounds. autorewrite with go_simpl.
  assert (0 <= index * pageSize) by nia.
  rewrite (proj2 (Z.ltb_ge _ _)), !(proj2 (Z.leb_gt _ 0)) by lia.
  unfold mul64. rewrite (wrap64_id (index * pageSize)) by (int64_unfold; lia).
  destruct (Z.leb_spec n (index * pageSize)), (Z.ltb_spec (index * pageSize) n); try lia; [done|].
  no_wrap. do 2 f_equal; lia.
Qed.

(** [PageBounds] on an index whose product with the page size fits an
    [int64] returns the page when it starts inside the object, clamped to the
    object, and an error otherwise. *)
Theorem PageBounds_exact index pageSize n :
  0 <= index -> 0 < pageSize -> 0 < n -> n + pageSize <= int64_max ->
  index * pageSize <= int64_max ->
  PageBounds index pageSize n =
  if index * pageSize <? n
  then Ok (mkPageSpan index (index * pageSize) (Z.min ((index + 1) * pageSize) n - 1))
  else Err PageStartBeyondObject.
Proof. apply PageBounds_eq. Qed.

Lemma PageBounds_exact_witness : PageBounds 2 8 18 = Ok (mkPageSpan 2 16 17).
Proof. apply (PageBounds_exact 2 8 18); vm_compute; intuition congruence. Defined.

(** Beyond that bound the product wraps around and the check against the
    object size is passed by a page that starts far past the object: page
    [2^62] of a 10-byte object with 4-byte pages is reported as bytes 0-3. *)
Theorem PageBounds_wraps : PageBounds (2 ^ 62) 4 10 = Ok (mkPageSpan (2 ^ 62) 0 3).
Proof. vm_compute. reflexivity. Qed.
