(* ===== verification/S3Request.v ===== *)
(** * S3 requests ([internal/s3request])

    [ParsePathStyle] (path.go) reads the bucket and key of a path-style request,
    and [Classify] (classify.go) decides whether a request may be answered from
    the cache.  Everything the classifier does not recognise passes through. *)

From Stdlib Require Import Ascii.
From S2P Require Import Prelude GoStrings GoNet Range.
Import Strings.

(** ** Targets *)

Record Target := mkTarget { Bucket : string; Key : string }.

#[export] Instance Target_eq_dec : EqDecision Target.
Proof. solve_decision. Defined.

Definition IsObject (t : Target) : bool :=
  negb (bool_decide (Bucket t = "")) && negb (bool_decide (Key t = "")).

(** [None] is the result [(Target{}, false)]. *)
Definition ParsePathStyle (path : string) : option Target :=
  if bool_decide (path = "") || bool_decide (path = "/") || negb (HasPrefix path "/")
  then None else
  let trimmed := TrimPrefix path "/" in
  let '(bucket, key, hasKey) := Cut trimmed "/" in
  if bool_decide (bucket = "") then None else
  match Url.PathUnescape bucket with
  | None => None
  | Some bucket =>
      if negb hasKey || bool_decide (key = "") then Some (mkTarget bucket "") else
      match Url.PathUnescape key with
      | None => None
      | Some key => Some (mkTarget bucket key)
      end
  end.

(** ** Classification *)

Record Request := mkRequest
  { Method : string; req_Target : Target; RawQuery : string; req_Header : Http.Header }.

Inductive Disposition :=
| PassThrough
| CacheableFullObject
| CacheableHeadObject
| CacheableRangeObject.

#[export] Instance Disposition_eq_dec : EqDecision Disposition.
Proof. solve_decision. Defined.

Record Classification := mkClassification { disposition : Disposition; Reason : string }.

Definition MethodGet : string := "GET".
Definition MethodHead : string := "HEAD".

Record benignObjectReadQuery := mkBenign { bq_Method : string; bq_Name : string; bq_Value : string }.

Definition benignObjectReadQueryAllowlist : list benignObjectReadQuery :=
  [mkBenign MethodGet "x-id" "GetObject"].

Definition passThrough (reason : string) : Classification := mkClassification PassThrough reason.

Definition hasSSECustomerHeaders (header : Http.Header) : bool :=
  existsb (fun kv => HasPrefix (ToLower kv.1) "x-amz-server-side-encryption-customer-")
    (map_to_list header).

Definition isUnsignedDecimal (value : string) : bool :=
  negb (bool_decide (value = "")) && all_digits value.

Definition isSingleRangeHeader (value : string) : bool :=
  let value := TrimSpace value in
  if negb (HasPrefix value "bytes=") then false else
  let spec := TrimSpace (TrimPrefix value "bytes=") in
  if bool_decide (spec = "") || ContainsByte spec "," then false else
  let '(start, end_, ok) := Cut spec "-" in
  if negb ok then false else
  let hasStart := negb (bool_decide (start = "")) in
  let hasEnd := negb (bool_decide (end_ = "")) in
  if negb hasStart && negb hasEnd then false else
  if hasStart && negb (isUnsignedDecimal start) then false else
  if hasEnd && negb (isUnsignedDecimal end_) then false else
  if hasStart && hasEnd then
    match ParseInt start 10, ParseInt end_ 10 with
    | Some startValue, Some endValue => startValue <=? endValue
    | _, _ => false
    end
  else if hasStart then bool_decide (is_Some (ParseInt start 10))
  else if hasEnd then bool_decide (is_Some (ParseInt end_ 10))
  else true.

Definition IsBenignObjectReadQuery (method rawQuery : string) : bool :=
  if bool_decide (rawQuery = "") then false else
  let '(values, failed) := Url.ParseQuery rawQuery in
  if failed then false else
  if negb (size values =? 1)%nat then false else
  existsb (fun allowed =>
      bool_decide (method = bq_Method allowed) &&
      bool_decide (default [] (values !! bq_Name allowed) = [bq_Value allowed]))
    benignObjectReadQueryAllowlist.

Definition Classify (req : Request) : Classification :=
  if negb (IsObject (req_Target req)) then passThrough "not_object" else
  if hasSSECustomerHeaders (req_Header req) then passThrough "sse_c" else
  if negb (bool_decide (RawQuery req = ""))
     && negb (IsBenignObjectReadQuery (Method req) (RawQuery req))
  then passThrough "query" else
  let rangeHeader := Http.Get (req_Header req) "Range" in
  if bool_decide (Method req = MethodHead) then
    if negb (bool_decide (rangeHeader = "")) then passThrough "range"
    else mkClassification CacheableHeadObject ""
  else if bool_decide (Method req = MethodGet) then
    if bool_decide (rangeHeader = "") then mkClassification CacheableFullObject "" else
    if isSingleRangeHeader rangeHeader then mkClassification CacheableRangeObject ""
    else passThrough "range"
  else passThrough "method".

(** ** Escaping a target

    The inverse of [ParsePathStyle] used for upstream page reads:
    [escapeS3KeyPath] of [internal/proxy/proxy.go]. *)
Definition escapeS3KeyPath (key : string) : string :=
  Join (Url.PathEscape <$> Split key "/") "/".

(** ** Facts *)

Lemma Join_cons x y xs sep : Join (x :: y :: xs) sep = x +:+ sep +:+ Join (y :: xs) sep.
Proof. done. Qed.

Lemma Split_cons s c : exists x xs, Split s c = x :: xs.
Proof.
  induction s as [|d s (x & xs & IH)]; cbn; [by eexists _, _|].
  rewrite IH. case_match; by eexists _, _.
Qed.

Lemma Split_other d s c x xs :
  Ascii.eqb d c = false -> Split s c = x :: xs -> Split (String d s) c = String d x :: xs.
Proof. cbn. by intros -> ->. Qed.

Lemma PathUnescape_slash s : Url.PathUnescape ("/" +:+ s) = String "/" <$> Url.PathUnescape s.
Proof. done. Qed.

Lemma unescape_escapeS3KeyPath key : Url.PathUnescape (escapeS3KeyPath key) = Some key.
Proof.
  unfold escapeS3KeyPath.
  assert (Hj : forall l, l <> [] ->
    Url.PathUnescape (Join (Url.PathEscape <$> l) "/") = Some (Join l "/")).
  { induction l as [|x [|y l] IH]; intros Hl; [done|apply PathUnescape_PathEscape|].
    change (Url.PathEscape <$> x :: y :: l)
      with (Url.PathEscape x :: Url.PathEscape y :: (Url.PathEscape <$> l)).
    rewrite !Join_cons, PathUnescape_append, PathUnescape_slash.
    change (Url.PathEscape y :: (Url.PathEscape <$> l)) with (Url.PathEscape <$> y :: l).
    by rewrite IH. }
  rewrite Hj by (destruct (Split_cons key "/") as (x & xs & ->); done).
  f_equal. clear Hj. induction key as [|d key IH]; [done|].
  destruct (Split_cons key "/") as (x & xs & Hx). cbn [Split]. rewrite Hx in *.
  destruct (Ascii.eqb d "/") eqn:E.
  - apply Ascii.eqb_eq in E as ->. rewrite Join_cons, IH. done.
  - destruct xs; cbn in *; by subst.
Qed.

Lemma ParsePathStyle_slash rest :
  rest <> "" ->
  ParsePathStyle ("/" +:+ rest) =
  let '(bucket, key, hasKey) := Cut rest "/" in
  if bool_decide (bucket = "") then None else
  match Url.PathUnescape bucket with
  | None => None
  | Some bucket =>
      if negb hasKey || bool_decide (key = "") then Some (mkTarget bucket "") else
      match Url.PathUnescape key with
      | None => None
      | Some key => Some (mkTarget bucket key)
      end
  end.
Proof.
  intros Hr. unfold ParsePathStyle. cbv zeta.
  rewrite HasPrefix_append, TrimPrefix_append, !bool_decide_false; [done|..]; cbn; congruence.
Qed.

Lemma classify_cacheable req :
  disposition (Classify req) <> PassThrough ->
  IsObject (req_Target req) = true /\ hasSSECustomerHeaders (req_Header req) = false /\
  (RawQuery req = "" \/ IsBenignObjectReadQuery (Method req) (RawQuery req) = true).
Proof.
  unfold Classify, passThrough. cbv zeta. intros H.
  destruct (IsObject _); cbn in *; [|done].
  destruct (hasSSECustomerHeaders _); cbn in *; [done|]. split_and!; [done..|].
  case_bool_decide; [by left|]. right. cbn in H. by destruct (IsBenignObjectReadQuery _ _).
Qed.

Lemma benign_query method rawQuery :
  IsBenignObjectReadQuery method rawQuery = true ->
  method = MethodGet /\ Url.ParseQuery rawQuery = ({["x-id" := ["GetObject"]]}, false).
Proof.
  unfold IsBenignObjectReadQuery. case_bool_decide; [done|].
  destruct (Url.ParseQuery rawQuery) as [values failed]. destruct failed; [done|].
  destruct (size values =? 1)%nat eqn:E; [|done]. apply Nat.eqb_eq in E.
  unfold benignObjectReadQueryAllowlist, MethodGet. cbn [existsb bq_Method bq_Name bq_Value negb].
  rewrite orb_false_r. intros Hb. apply andb_true_iff in Hb as [Hm Hv].
  apply bool_decide_eq_true in Hm, Hv.
  split; [done|]. f_equal. destruct (values !! "x-id") as [v|] eqn:El; [|done]. cbn in Hv. subst v.
  by apply map_size_one.
Qed.

Lemma query_benign rawQuery :
  Url.ParseQuery rawQuery = ({["x-id" := ["GetObject"]]}, false) -> IsBenignObjectReadQuery MethodGet rawQuery = true.
Proof.
  intros Hq. unfold IsBenignObjectReadQuery. case_bool_decide as E; [by subst; vm_compute in Hq|]. rewrite Hq.
  vm_compute. reflexivity.
Qed.

Lemma all_digits_ParseInt s : isUnsignedDecimal s = true ->
  ParseInt s 10 = (v ← parse_digits 10 s 0; if v <? 2 ^ 63 then Some v else None).
Proof.
  unfold isUnsignedDecimal. intros H. apply andb_true_iff in H as [Hn Hd].
  destruct s as [|c s]; [done|]. apply ParseInt_unsigned; intros ->; cbn in Hd; done.
Qed.

(** A classified text of digits parses to a natural number when it fits. *)
Lemma decimal_nonneg s v : isUnsignedDecimal s = true -> ParseInt s 10 = Some v ->
  parseNonNegativeInt s = Ok v.
Proof.
  intros Hd Hv. assert (0 <= v).
  { rewrite all_digits_ParseInt in Hv by done. apply bind_Some in Hv as (w & Hw & Hv).
    apply parse_digits_nonneg in Hw; [|lia..]. split_tests; by simplify_eq. }
  unfold parseNonNegativeInt. rewrite Hv.
  apply andb_true_iff in Hd as [Hn _]. apply negb_true_iff in Hn. rewrite Hn.
  by rewrite (proj2 (Z.ltb_ge _ _)) by lia.
Qed.

(** ** Single ranges

    What a [Range] header asks for, apart from how the classifier reads it. *)

Definition digit (c : ascii) : Prop := c ∈ ["0"; "1"; "2"; "3"; "4"; "5"; "6"; "7"; "8"; "9"]%char.

(** A number in decimal digits that is an [int64]. *)
Definition decimal (s : string) (n : Z) : Prop :=
  s <> "" /\ (forall c, ContainsByte s c = true -> digit c) /\ ParseInt s 10 = Some n.

(** From a position to another that is not before it, from a position on, or the last
    bytes. *)
Inductive single_range : string -> Prop :=
| FromTo a b m n : decimal a m -> decimal b n -> m <= n -> single_range (a +:+ "-" +:+ b)
| FromOn a m : decimal a m -> single_range (a +:+ "-")
| LastBytes b n : decimal b n -> single_range ("-" +:+ b).

Definition range_header (value : string) : Prop :=
  exists spec, TrimSpace value = "bytes=" +:+ spec /\ single_range (TrimSpace spec).

Lemma digit_spec c : (48 <=? N_of_ascii c)%N && (N_of_ascii c <=? 57)%N = true <-> digit c.
Proof.
  assert ((48 <=? N_of_ascii c)%N && (N_of_ascii c <=? 57)%N =
    bool_decide (c ∈ ["0"; "1"; "2"; "3"; "4"; "5"; "6"; "7"; "8"; "9"]%char)) as ->
    by (destruct c as [[] [] [] [] [] [] [] []]; vm_compute; reflexivity).
  apply bool_decide_eq_true.
Qed.

Lemma all_digits_spec s : all_digits s = true <-> forall c, ContainsByte s c = true -> digit c.
Proof.
  induction s as [|d s IH]; cbn [all_digits ContainsByte]; [by split|]. cbv zeta. rewrite andb_true_iff, digit_spec, IH.
  split.
  - intros [Hd Hs] c [<-%Ascii.eqb_eq|Hc]%orb_true_iff; auto.
  - intros H. split; [apply H; by rewrite Ascii.eqb_refl|]. intros c Hc. apply H. by rewrite Hc, orb_true_r.
Qed.

Lemma decimal_spec s n : isUnsignedDecimal s = true /\ ParseInt s 10 = Some n <-> decimal s n.
Proof.
  unfold isUnsignedDecimal, decimal. rewrite andb_true_iff, negb_true_iff, bool_decide_eq_false, all_digits_spec. tauto.
Qed.

Lemma decimal_without s n c : decimal s n -> ~ digit c -> ContainsByte s c = false.
Proof. intros (_ & H & _) Hc. destruct (ContainsByte s c) eqn:E; [|done]. by apply H in E. Qed.

Lemma not_digit c : N_of_ascii c = 44%N \/ N_of_ascii c = 45%N -> ~ digit c.
Proof. rewrite <- digit_spec. by intros [-> | ->]. Qed.

Lemma isSingleRangeHeader_sound value : isSingleRangeHeader value = true -> range_header value.
Proof.
  unfold isSingleRangeHeader. cbv zeta. destruct (HasPrefix (TrimSpace value) "bytes=") eqn:Hp; cbn [negb]; [|done].
  apply HasPrefix_true in Hp as [spec Hspec]. rewrite Hspec, TrimPrefix_append. destruct (_ || _); [done|].
  destruct (Cut (TrimSpace spec) "-") as [[a b] []] eqn:Hcut; cbn [negb]; [|done].
  apply Cut_found in Hcut as [Hs _]. intros H. exists spec. split; [done|]. rewrite Hs. change (String "-" b) with ("-" +:+ b).
  case_bool_decide as Ha; case_bool_decide as Hb; cbn [negb andb] in H; [done|..];
    repeat match type of H with (if negb (isUnsignedDecimal ?x) then _ else _) = true =>
      destruct (isUnsignedDecimal x) eqn:?; cbn [negb] in H; [|done] end.
  - apply bool_decide_eq_true in H as [n Hn]. subst a. by apply (LastBytes b n), decimal_spec.
  - apply bool_decide_eq_true in H as [n Hn]. subst b. by apply (FromOn a n), decimal_spec.
  - destruct (ParseInt a 10) as [m|] eqn:Hm, (ParseInt b 10) as [n|] eqn:Hn; try done.
    apply Z.leb_le in H. by apply (FromTo a b m n); [apply decimal_spec..|].
Qed.

Lemma isSingleRangeHeader_complete value : range_header value -> isSingleRangeHeader value = true.
Proof.
  intros (spec & Hspec & Hr). unfold isSingleRangeHeader. cbv zeta. rewrite Hspec, HasPrefix_append, TrimPrefix_append. cbn [negb].
  assert (Hcomma : ~ digit ",") by (by apply not_digit; left). assert (Hminus : ~ digit "-") by (by apply not_digit; right).
  assert (Hcut : forall a b, (forall c, c = ","%char \/ c = "-"%char -> ContainsByte a c = false) -> ContainsByte b "," = false ->
    TrimSpace spec = a +:+ "-" +:+ b ->
    bool_decide (TrimSpace spec = "") || ContainsByte (TrimSpace spec) "," = false /\ Cut (TrimSpace spec) "-" = (a, b, true)).
  { intros a b Ha Hb ->. rewrite !ContainsByte_append, (Ha ","%char), Hb by auto. rewrite bool_decide_false by (by destruct a).
    split; [done|]. apply Cut_append. by apply Ha; right. }
  destruct Hr as [a b m n Ha Hb Hle|a m Ha|b n Hb].
  - destruct (Hcut a b) as [-> ->]; [intros c [-> | ->]; by eapply decimal_without|by eapply decimal_without|done|].
    pose proof Ha as (Hna & _ & Hm). pose proof Hb as (Hnb & _ & Hn). apply decimal_spec in Ha as [-> _], Hb as [-> _].
    rewrite !bool_decide_false, Hm, Hn by done. cbn. by apply Z.leb_le.
  - destruct (Hcut a "") as [-> ->]; [intros c [-> | ->]; by eapply decimal_without|done|done|].
    pose proof Ha as (Hna & _ & Hm). apply decimal_spec in Ha as [-> _]. rewrite (bool_decide_false (a = "")), Hm by done. done.
  - destruct (Hcut "" b) as [-> ->]; [done|by eapply decimal_without|done|].
    pose proof Hb as (Hnb & _ & Hn). apply decimal_spec in Hb as [-> _]. rewrite (bool_decide_false (b = "")), Hn by done. done.
Qed.

(** * Properties *)

(** What may be answered from the cache: an object, no customer-provided key, no query or
    the SDK marker of a [GET], and a [HEAD] without [Range] or a [GET] without [Range] or of
    a single range. *)
Record cacheable (req : Request) : Prop := {
  cb_object : Bucket (req_Target req) <> "" /\ Key (req_Target req) <> "";
  cb_key name values : req_Header req !! name = Some values ->
    HasPrefix (ToLower name) "x-amz-server-side-encryption-customer-" = false;
  cb_query : RawQuery req = "" \/
    Method req = MethodGet /\ Url.ParseQuery (RawQuery req) = ({["x-id" := ["GetObject"]]}, false);
  cb_range : Method req = MethodHead /\ Http.Get (req_Header req) "Range" = "" \/
    Method req = MethodGet /\ (Http.Get (req_Header req) "Range" = "" \/ range_header (Http.Get (req_Header req) "Range")) }.

(** C35: a request is answered from the cache exactly when it names an object, carries no
    customer-provided encryption key, is a GET or a HEAD, has no query other than the
    SDK marker [x-id=GetObject] of a GET (escapes included), and has no Range header or, for a
    GET, one that asks for a single range in decimal positions that fit an [int64], the
    last not before the first. Everything else passes through. *)
Theorem Classify_cacheable_only req : disposition (Classify req) <> PassThrough <-> cacheable req.
Proof.
  split.
  - intros H. apply classify_cacheable in H as Hc. destruct Hc as (Ho & Hs & Hq).
    unfold IsObject in Ho. apply andb_true_iff in Ho as [Hb Hk].
    apply negb_true_iff, bool_decide_eq_false in Hb, Hk. constructor; [done| | |].
    + intros name values Hl. destruct (HasPrefix _ _) eqn:E; [|done].
      assert (hasSSECustomerHeaders (req_Header req) = true); [|congruence].
      apply existsb_exists. exists (name, values). split; [|done].
      by apply list_elem_of_In, elem_of_map_to_list.
    + destruct Hq as [?|Hq]; [by left|]. right. by apply benign_query.
    + unfold Classify, passThrough in H. cbv zeta in H. split_tests; try done;
        repeat match goal with H : bool_decide _ = true |- _ => apply bool_decide_eq_true in H end;
        repeat match goal with H : negb (bool_decide _) = false |- _ =>
          apply negb_false_iff, bool_decide_eq_true in H end; auto 6 using isSingleRangeHeader_sound.
  - intros [[Hb Hk] Hs Hq Hr]. unfold Classify, IsObject. rewrite !bool_decide_false by done. cbn [negb andb].
    assert (hasSSECustomerHeaders (req_Header req) = false) as ->.
    { destruct (hasSSECustomerHeaders _) eqn:E; [|done]. apply existsb_exists in E as ([name values] & Hin & Hp).
      apply list_elem_of_In, elem_of_map_to_list in Hin. specialize (Hs name values Hin). cbn [fst] in Hp. congruence. }
    assert (negb (bool_decide (RawQuery req = "")) && negb (IsBenignObjectReadQuery (Method req) (RawQuery req)) = false) as ->.
    { destruct Hq as [->|[-> Hq]]; [done|]. rewrite (query_benign _ Hq). apply andb_false_r. }
    cbv zeta. destruct Hr as [[-> ->]|[-> [->|Hr]]]; [done..|].
    change (bool_decide (MethodGet = MethodHead)) with false. change (bool_decide (MethodGet = MethodGet)) with true. cbn match.
    case_bool_decide; [done|]. by rewrite isSingleRangeHeader_complete.
Qed.

Lemma Classify_cacheable_only_witness :
  let req := mkRequest "GET" (mkTarget "b" "k") "x%2Did=GetObject" {["Range" := ["bytes=0-9"]]} in
  disposition (Classify req) = CacheableRangeObject /\ cacheable req.
Proof.
  cbv zeta. set (req := mkRequest _ _ _ _).
  assert (Hd : disposition (Classify req) = CacheableRangeObject) by (vm_compute; reflexivity).
  split; [exact Hd|]. apply (Classify_cacheable_only req). rewrite Hd. discriminate.
Defined.

(** The classifier and the range parser agree: a Range header classified as
    cacheable parses for every object it can be satisfied on, and the only
    errors left are an empty object, a start beyond the object and an empty
    suffix. *)
Theorem single_range_parses header objectSize :
  isSingleRangeHeader header = true -> 0 < objectSize ->
  match ParseRange header objectSize with
  | Ok _ => True
  | Err e => e = StartBeyondObject \/ e = SuffixZero
  end.
Proof.
  unfold isSingleRangeHeader, ParseRange, parseSuffixRange. cbv zeta. intros H Hn.
  rewrite (proj2 (Z.leb_gt _ _)) by lia.
  destruct (negb _); [done|]. destruct (_ || _); [done|].
  destruct (Cut _ _) as [[a b] ok]. destruct ok; [cbn [negb] in *|done].
  case_bool_decide as Ha; case_bool_decide as Hb; cbn [negb andb] in H; try done;
    repeat match goal with
    | H : (if negb (isUnsignedDecimal ?x) then _ else _) = true |- _ =>
        destruct (isUnsignedDecimal x) eqn:?; cbn [negb andb] in H; [|done]
    end.
  - apply bool_decide_eq_true in H as [v Hv]. rewrite (decimal_nonneg b v) by done.
    split_tests; auto.
  - apply bool_decide_eq_true in H as [v Hv]. rewrite (decimal_nonneg a v) by done.
    split_tests; auto.
  - destruct (ParseInt a 10) as [v|] eqn:Hv, (ParseInt b 10) as [w|] eqn:Hw; try done.
    rewrite (decimal_nonneg a v), (decimal_nonneg b w) by done. zbool.
    split_tests; zbool; auto; lia.
Qed.

Lemma single_range_parses_witness :
  isSingleRangeHeader "bytes= 5-" = true /\
  match ParseRange "bytes= 5-" 3 with Ok _ => True | Err e => e = StartBeyondObject \/ e = SuffixZero end.
Proof.
  split; [vm_compute; reflexivity|].
  apply (single_range_parses "bytes= 5-" 3); [vm_compute; reflexivity|lia].
Defined.

(** A bucket and a key, escaped the way upstream page reads escape them, are
    read back from the path unchanged, whatever bytes they contain. *)
Theorem ParsePathStyle_escaped bucket key :
  bucket <> "" -> key <> "" ->
  ParsePathStyle ("/" +:+ Url.PathEscape bucket +:+ "/" +:+ escapeS3KeyPath key)
  = Some (mkTarget bucket key).
Proof.
  intros Hb Hk.
  assert (Url.PathEscape bucket <> "") by (by intros ?%PathEscape_empty).
  assert (escapeS3KeyPath key <> "").
  { intros He. pose proof (unescape_escapeS3KeyPath key) as Hu. rewrite He in Hu. cbn in Hu. congruence. }
  rewrite ParsePathStyle_slash by (by destruct (Url.PathEscape bucket)).
  rewrite append_cons, Cut_append by apply PathEscape_no_slash.
  change ("" +:+ escapeS3KeyPath key) with (escapeS3KeyPath key).
  rewrite bool_decide_false, PathUnescape_PathEscape by done. cbn [negb orb].
  by rewrite bool_decide_false, unescape_escapeS3KeyPath by done.
Qed.

Lemma ParsePathStyle_escaped_witness :
  ParsePathStyle ("/" +:+ Url.PathEscape "my bucket" +:+ "/" +:+ escapeS3KeyPath "a/b c?d")
  = Some (mkTarget "my bucket" "a/b c?d").
Proof. apply (ParsePathStyle_escaped "my bucket" "a/b c?d"); discriminate. Defined.
