(* ===== verification/Sha256.v ===== *)
(** * SHA-256 and hexadecimal encoding

    The digest of FIPS 180-4 as [crypto/sha256] computes it, on lists of bytes,
    and [hex.EncodeToString].  Object identities, page paths, peer routing scores
    and ring fingerprints are built from it.  The definitions compute (see
    [sha256_abc]); no theorem of the development assumes that the digest is
    injective. *)

From Stdlib Require Import Ascii.
From S2P Require Import Prelude GoStrings.
Import Strings.

Module Sha256.

Definition mask32 : Z := 4294967295.
Definition w32 (z : Z) : Z := Z.land z mask32.

Definition rotr (x n : Z) : Z := Z.lor (Z.shiftr x n) (w32 (Z.shiftl x (32 - n))).

Definition ch (x y z : Z) : Z := Z.lxor (Z.land x y) (Z.land (Z.lxor x mask32) z).
Definition maj (x y z : Z) : Z := Z.lxor (Z.lxor (Z.land x y) (Z.land x z)) (Z.land y z).
Definition big_sigma0 (x : Z) : Z := Z.lxor (Z.lxor (rotr x 2) (rotr x 13)) (rotr x 22).
Definition big_sigma1 (x : Z) : Z := Z.lxor (Z.lxor (rotr x 6) (rotr x 11)) (rotr x 25).
Definition small_sigma0 (x : Z) : Z := Z.lxor (Z.lxor (rotr x 7) (rotr x 18)) (Z.shiftr x 3).
Definition small_sigma1 (x : Z) : Z := Z.lxor (Z.lxor (rotr x 17) (rotr x 19)) (Z.shiftr x 10).

(** The constants are the first 32 bits of the fractional parts of the cube roots
    of the first 64 primes, the initial state those of the square roots of the
    first 8: [root] is the integer [k]-th root, bit by bit. *)
Fixpoint root (k : Z) (bits : nat) (n acc : Z) : Z :=
  match bits with
  | O => acc
  | S bits =>
      let c := acc + 2 ^ Z.of_nat bits in root k bits n (if c ^ k <=? n then c else acc)
  end.

Definition primes : list Z :=
  Eval vm_compute in
    filter (fun n => forallb (fun d => negb (n mod d =? 0)) (seqZ 2 (n - 2)) = true) (seqZ 2 310).

Definition K : list Z :=
  Eval vm_compute in (fun p => w32 (root 3 36 (p * 2 ^ 96) 0)) <$> primes.

Record state := mkState
  { s_a : Z; s_b : Z; s_c : Z; s_d : Z; s_e : Z; s_f : Z; s_g : Z; s_h : Z }.

Definition H0 : state :=
  Eval vm_compute in
    let h i := w32 (root 2 36 (nth i primes 0 * 2 ^ 64) 0) in
    mkState (h 0%nat) (h 1%nat) (h 2%nat) (h 3%nat) (h 4%nat) (h 5%nat) (h 6%nat) (h 7%nat).

(** The message schedule: [recent] holds the words so far, the last one first. *)
Fixpoint schedule (n : nat) (recent : list Z) : list Z :=
  match n with
  | O => rev recent
  | S n =>
      let at_ i := nth i recent 0 in
      schedule n (w32 (small_sigma1 (at_ 1%nat) + at_ 6%nat + small_sigma0 (at_ 14%nat) + at_ 15%nat) :: recent)
  end.

Definition round (s : state) (kw : Z * Z) : state :=
  let t1 := s_h s + big_sigma1 (s_e s) + ch (s_e s) (s_f s) (s_g s) + kw.1 + kw.2 in
  let t2 := big_sigma0 (s_a s) + maj (s_a s) (s_b s) (s_c s) in
  mkState (w32 (t1 + t2)) (s_a s) (s_b s) (s_c s) (w32 (s_d s + t1)) (s_e s) (s_f s) (s_g s).

Definition add_state (s t : state) : state :=
  mkState (w32 (s_a s + s_a t)) (w32 (s_b s + s_b t)) (w32 (s_c s + s_c t)) (w32 (s_d s + s_d t))
          (w32 (s_e s + s_e t)) (w32 (s_f s + s_f t)) (w32 (s_g s + s_g t)) (w32 (s_h s + s_h t)).

Fixpoint words (n : nat) (l : bytes) : list Z :=
  match n with
  | O => []
  | S n => be_get (take 4 l) :: words n (drop 4 l)
  end.

Definition block (s : state) (l : bytes) : state :=
  add_state s (fold_left round (combine K (schedule 48 (rev (words 16 l)))) s).

Fixpoint blocks (n : nat) (s : state) (l : bytes) : state :=
  match n with
  | O => s
  | S n => blocks n (block s (take 64 l)) (drop 64 l)
  end.

Definition pad (l : bytes) : bytes :=
  let n := zlen l in
  l ++ byte_of_Z 128 :: replicate (Z.to_nat ((55 - n) mod 64)) (byte_of_Z 0) ++ be_put 8 (8 * n).

Definition digest (s : state) : bytes :=
  be_put 4 (s_a s) ++ be_put 4 (s_b s) ++ be_put 4 (s_c s) ++ be_put 4 (s_d s) ++
  be_put 4 (s_e s) ++ be_put 4 (s_f s) ++ be_put 4 (s_g s) ++ be_put 4 (s_h s).

Definition sum256 (l : bytes) : bytes :=
  let m := pad l in digest (blocks (length m / 64) H0 m).

Definition hex_char (n : N) : ascii := ascii_of_N (if n <? 10 then 48 + n else 87 + n)%N.

Fixpoint hex (l : bytes) : string :=
  match l with
  | [] => ""
  | b :: l => String (hex_char (Byte.to_N b / 16)) (String (hex_char (Byte.to_N b mod 16)) (hex l))
  end.

End Sha256.

Definition bytes_of_string (s : string) : bytes := String.list_byte_of_string s.

(** ** Facts *)

Example sha256_abc : Sha256.hex (Sha256.sum256 (bytes_of_string "abc")) =
  "ba7816bf8f01cfea414140de5dae2223b00361a396177a9cb410ff61f20015ad".
Proof. vm_compute. reflexivity. Qed.

Lemma length_sum256 l : length (Sha256.sum256 l) = 32%nat.
Proof. unfold Sha256.sum256, Sha256.digest. cbv zeta. rewrite !length_app, !length_be_put. done. Qed.

Lemma length_hex l : String.length (Sha256.hex l) = (2 * length l)%nat.
Proof. induction l; cbn; lia. Qed.

Lemma hex_char_not n c :
  forallb (fun n => negb (Ascii.eqb (Sha256.hex_char n) c)) (N.of_nat <$> List.seq 0 16) = true ->
  (n < 16)%N -> Ascii.eqb (Sha256.hex_char n) c = false.
Proof.
  intros Hf Hn. apply negb_true_iff.
  apply (N_below (fun n => negb (Ascii.eqb (Sha256.hex_char n) c)) 16); [done|lia].
Qed.

(** A hexadecimal text contains no other byte, such as a slash or a dot. *)
Lemma hex_no_byte l c :
  forallb (fun n => negb (Ascii.eqb (Sha256.hex_char n) c)) (N.of_nat <$> List.seq 0 16) = true ->
  ContainsByte (Sha256.hex l) c = false.
Proof.
  intros Hc. induction l as [|b l IH]; [done|]. cbn [Sha256.hex ContainsByte].
  pose proof (Byte.to_N_bounded b).
  rewrite IH, !hex_char_not; try done; [by apply N.mod_lt|].
  apply N.Div0.div_lt_upper_bound. lia.
Qed.

Lemma hex_char_inj n m : (n < 16)%N -> (m < 16)%N -> Sha256.hex_char n = Sha256.hex_char m -> n = m.
Proof.
  intros Hn Hm H. apply (f_equal N_of_ascii) in H. unfold Sha256.hex_char in H.
  destruct (N.ltb_spec n 10), (N.ltb_spec m 10); rewrite !N_ascii_embedding in H; lia.
Qed.

(** Hexadecimal encoding loses nothing. *)
Lemma hex_inj l k : Sha256.hex l = Sha256.hex k -> l = k.
Proof.
  revert k. induction l as [|b l IH]; intros [|c k]; cbn [Sha256.hex]; [done..|].
  intros [= H1 H2 H]. pose proof (Byte.to_N_bounded b). pose proof (Byte.to_N_bounded c).
  apply hex_char_inj in H1; [|apply N.Div0.div_lt_upper_bound; lia..].
  apply hex_char_inj in H2; [|by apply N.mod_lt..].
  f_equal; [|by apply IH].
  assert (Byte.to_N b = Byte.to_N c) as E
    by (rewrite (N.div_mod (Byte.to_N b) 16), (N.div_mod (Byte.to_N c) 16) by done; congruence).
  pose proof (Byte.of_to_N b). pose proof (Byte.of_to_N c). congruence.
Qed.

#[global] Opaque Sha256.sum256.
