(* ===== verification/Router.v ===== *)
(** * Peer routing ([internal/peer/router.go])

    A [Router] holds the peers of the ring sorted by identifier and picks the
    owner of an object or of a page by rendezvous hashing: the peer with the
    largest SHA-256 score for the routing key, ties broken by identifier.  The
    theorems say that every member of the ring computes the same owner, whatever
    the order of its configuration, and that a peer leaving the ring moves only
    the keys it owned. *)

From Stdlib Require Import Ascii.
From S2P Require Import Prelude GoStrings Sha256.
Import Strings.

Record Peer := mkPeer { ID : string; URL : string }.

#[export] Instance Peer_eq_dec : EqDecision Peer.
Proof. solve_decision. Defined.

Record Router := mkRouter
  { localID : string; peers : list Peer; byID : gmap string Peer; ringID : string }.

Inductive RouterError :=
| LocalIDRequired
| PeerListRequired
| PeerIDRequired
| PeerURLRequired (id : string)
| PeerIDDuplicated (id : string)
| LocalIDNotInList (id : string).

(** Go's [a < b] on strings. *)
Definition strltb (a b : string) : bool := negb (bool_decide (String.le b a)).

Definition id_le (p q : Peer) : Prop := String.le (ID p) (ID q).

#[export] Instance id_le_dec : RelDecision id_le.
Proof. intros p q. unfold id_le. apply _. Defined.

(** ** Scores and fingerprints *)

Definition nul : string := String (chr 0) "".

Definition rendezvousScore (key peerID : string) : Z :=
  be_get (take 8 (Sha256.sum256 (bytes_of_string (key +:+ nul +:+ peerID)))).

Definition ringFingerprint (ps : list Peer) : string :=
  Sha256.hex (Sha256.sum256 (bytes_of_string
    (foldr (fun p s => ID p +:+ nul +:+ URL p +:+ nul +:+ s) "" ps))).

(** ** Construction *)

(** The loop of [newRouter] over the configured peers. *)
Fixpoint addPeers (ps copied : list Peer) (byID : gmap string Peer)
  : result RouterError (list Peer * gmap string Peer) :=
  match ps with
  | [] => Ok (copied, byID)
  | p :: ps =>
      let p := mkPeer (TrimSpace (ID p)) (TrimSpace (URL p)) in
      if bool_decide (ID p = "") then Err PeerIDRequired else
      if bool_decide (URL p = "") then Err (PeerURLRequired (ID p)) else
      match byID !! ID p with
      | Some _ => Err (PeerIDDuplicated (ID p))
      | None => addPeers ps (copied ++ [p]) (<[ID p := p]> byID)
      end
  end.

Definition newRouter (localID : string) (ps : list Peer) (requireLocal : bool)
  : result RouterError Router :=
  let localID := TrimSpace localID in
  if requireLocal && bool_decide (localID = "") then Err LocalIDRequired else
  if (length ps =? 0)%nat then Err PeerListRequired else
  match addPeers ps [] ∅ with
  | Err e => Err e
  | Ok (copied, byID) =>
      let copied := merge_sort id_le copied in
      let missing := match byID !! localID with Some _ => false | None => true end in
      if (requireLocal || negb (bool_decide (localID = ""))) && missing
      then Err (LocalIDNotInList localID)
      else Ok (mkRouter localID copied byID (ringFingerprint copied))
  end.

Definition NewRouter (localID : string) (ps : list Peer) := newRouter localID ps true.
Definition NewOwnerRouter (ps : list Peer) := newRouter "" ps false.

(** ** Owners *)

Fixpoint ownerLoop (routingKey : string) (i : nat) (owner : Peer) (bestScore : Z)
  (ps : list Peer) : Peer :=
  match ps with
  | [] => owner
  | p :: ps =>
      let score := rendezvousScore routingKey (ID p) in
      if (i =? 0)%nat || (bestScore <? score)
         || ((score =? bestScore) && strltb (ID p) (ID owner))
      then ownerLoop routingKey (S i) p score ps
      else ownerLoop routingKey (S i) owner bestScore ps
  end.

Definition ownerForRoutingKey (r : Router) (routingKey : string) : Peer :=
  ownerLoop routingKey 0 (mkPeer "" "") 0 (peers r).

Definition Owner (r : Router) (bucket key : string) : Peer :=
  ownerForRoutingKey r (bucket +:+ "/" +:+ key).

Definition PageOwnerKey (bucket key : string) (pageIndex : Z) : string :=
  bucket +:+ "/" +:+ key +:+ nul +:+ "page" +:+ nul +:+ FormatInt pageIndex.

Definition PageOwner (r : Router) (bucket key : string) (pageIndex : Z) : Peer :=
  if pageIndex <? 0 then mkPeer "" ""
  else ownerForRoutingKey r (PageOwnerKey bucket key pageIndex).

Definition IsLocalOwner (r : Router) (bucket key : string) : bool :=
  negb (bool_decide (localID r = "")) && bool_decide (ID (Owner r bucket key) = localID r).

Definition IsLocalPageOwner (r : Router) (bucket key : string) (pageIndex : Z) : bool :=
  negb (bool_decide (localID r = "")) &&
  bool_decide (ID (PageOwner r bucket key pageIndex) = localID r).

Definition PeerByID (r : Router) (id : string) : option Peer := byID r !! id.

(** ** Well-formed routers *)

Record router_wf (r : Router) : Prop := {
  wf_nonempty : peers r <> [];
  wf_unique : NoDup (ID <$> peers r);
  wf_sorted : StronglySorted id_le (peers r);
  wf_byID : forall i p, byID r !! i = Some p <-> p ∈ peers r /\ ID p = i;
  wf_ids : Forall (fun p => ID p <> "" /\ URL p <> "") (peers r);
  wf_ring : ringID r = ringFingerprint (peers r);
}.

Definition trimPeer (p : Peer) : Peer := mkPeer (TrimSpace (ID p)) (TrimSpace (URL p)).

Definition byID_ok (copied : list Peer) (m : gmap string Peer) : Prop :=
  NoDup (ID <$> copied) /\ (forall i p, m !! i = Some p <-> p ∈ copied /\ ID p = i) /\
  Forall (fun p => ID p <> "" /\ URL p <> "") copied.

Lemma addPeers_ok ps copied m copied' m' :
  byID_ok copied m -> addPeers ps copied m = Ok (copied', m') ->
  copied' = copied ++ (trimPeer <$> ps) /\ byID_ok copied' m'.
Proof.
  revert copied m. induction ps as [|p ps IH]; intros copied m Hok H; cbn in H.
  { simplify_eq. cbn. by rewrite app_nil_r. }
  case_bool_decide as Hid; [done|]. case_bool_decide as Hurl; [done|].
  destruct (m !! TrimSpace (ID p)) as [q|] eqn:El; [done|].
  apply IH in H as [-> Hok']; [split; [by rewrite <- app_assoc|done]|].
  destruct Hok as (Hnd & Hm & Hne). split_and!.
  - rewrite fmap_app. apply NoDup_app. split_and!; [done| |apply NoDup_singleton].
    intros i Hi Hi'. apply list_elem_of_fmap in Hi as (q & -> & Hq). cbn in Hi'.
    apply list_elem_of_singleton in Hi'.
    assert (m !! TrimSpace (ID p) = Some q) by (apply Hm; auto). congruence.
  - intros i q. rewrite lookup_insert, elem_of_app, list_elem_of_singleton.
    case_decide as Hi; cbn in *.
    + split; [by intros [= <-]; auto|]. intros [[Hq| ->] Hq']; [|done].
      assert (m !! i = Some q) by (apply Hm; auto). congruence.
    + rewrite Hm. split; [tauto|]. intros [[?| ->] ?]; [auto|done].
  - apply Forall_app. split; [done|]. by repeat constructor.
Qed.

#[export] Instance id_le_trans : Transitive id_le.
Proof. intros p q s. unfold id_le. apply transitivity. Qed.
#[export] Instance id_le_total : Total id_le.
Proof. intros p q. unfold id_le. apply total, _. Qed.

Lemma newRouter_inv localID0 ps req r :
  newRouter localID0 ps req = Ok r ->
  router_wf r /\ peers r ≡ₚ trimPeer <$> ps /\ localID r = TrimSpace localID0 /\
  (localID r = "" \/ is_Some (PeerByID r (localID r))).
Proof.
  unfold newRouter. cbv zeta. intros H.
  destruct (req && _); [done|].
  destruct (length ps =? 0)%nat eqn:El; [done|]. apply Nat.eqb_neq in El.
  destruct (addPeers ps [] ∅) as [[copied m]|] eqn:Ea; [|done].
  apply addPeers_ok in Ea as [Hc (Hnd & Hm & Hne)]; [|].
  2: { split_and!; [constructor| |constructor]. intros i p. split; [done|]. set_solver. }
  cbn in Hc. subst copied.
  assert (Hp : merge_sort id_le (trimPeer <$> ps) ≡ₚ trimPeer <$> ps) by apply merge_sort_Permutation.
  destruct (_ && match m !! _ with _ => _ end) eqn:Em; simplify_eq. cbn. split_and!; [|done..|].
  - constructor; cbn.
    + intros E. rewrite E in Hp. apply Permutation_nil in Hp. destruct ps; done.
    + by rewrite Hp.
    + exact (StronglySorted_merge_sort id_le _).
    + intros i p. by rewrite Hp.
    + by rewrite Hp.
    + done.
  - unfold PeerByID. cbn. destruct (m !! TrimSpace localID0) as [p|]; [right; by exists p|].
    case_bool_decide; [by left|]. destruct req; discriminate Em.
Qed.

(** ** The owner is the best peer *)

(** [p] is preferred to [q] for the routing key. *)
Definition beats (key : string) (p q : Peer) : Prop :=
  rendezvousScore key (ID q) < rendezvousScore key (ID p) \/
  (rendezvousScore key (ID p) = rendezvousScore key (ID q) /\ String.le (ID p) (ID q)).

Lemma strltb_true a b : strltb a b = true -> String.le a b.
Proof.
  unfold strltb. intros H. apply negb_true_iff, bool_decide_eq_false in H.
  by destruct (total String.le a b).
Qed.

Lemma strltb_false a b : strltb a b = false -> String.le b a.
Proof. unfold strltb. intros H. by apply negb_false_iff, bool_decide_eq_true in H. Qed.

Lemma beats_refl key p : beats key p p.
Proof. right. by split. Qed.

Lemma beats_trans key p q s : beats key p q -> beats key q s -> beats key p s.
Proof.
  unfold beats. intros [H1|[H1 L1]] [H2|[H2 L2]]; [left; lia..|].
  right. split; [congruence|]. by transitivity (ID q).
Qed.

Lemma beats_antisym key p q : beats key p q -> beats key q p -> ID p = ID q.
Proof. unfold beats. intros [|[? ?]] [|[? ?]]; try lia. by apply (anti_symm String.le). Qed.

Lemma ownerLoop_best key i owner ps :
  let o := ownerLoop key (S i) owner (rendezvousScore key (ID owner)) ps in
  o ∈ owner :: ps /\ Forall (beats key o) (owner :: ps).
Proof.
  revert i owner. induction ps as [|p ps IH]; intros i owner; cbn [ownerLoop].
  { cbv zeta. split; [set_solver|]. constructor; [apply beats_refl|constructor]. }
  cbn [Nat.eqb orb].
  destruct (_ || _) eqn:E.
  - destruct (IH (S i) p) as [Hin Hall]. cbv zeta in *. split; [set_solver|].
    constructor; [|done]. inversion Hall as [|? ? Hp _]; subst.
    eapply beats_trans; [exact Hp|]. apply orb_true_iff in E as [E|E]; zbool; [by left|].
    right. split; [done|]. by apply strltb_true.
  - destruct (IH (S i) owner) as [Hin Hall]. cbv zeta in *. split; [set_solver|].
    inversion Hall as [|? ? Ho Hps]; subst. constructor; [done|]. constructor; [|done].
    eapply beats_trans; [exact Ho|]. apply orb_false_iff in E as [E1 E2]. zbool.
    destruct (Z.eqb_spec (rendezvousScore key (ID p)) (rendezvousScore key (ID owner))) as [Hs|Hs].
    + right. split; [done|]. by apply strltb_false.
    + left. lia.
Qed.

Lemma owner_best r key :
  router_wf r ->
  ownerForRoutingKey r key ∈ peers r /\ Forall (beats key (ownerForRoutingKey r key)) (peers r).
Proof.
  intros Hwf. unfold ownerForRoutingKey. destruct (peers r) as [|p ps] eqn:E.
  - by destruct (wf_nonempty r Hwf).
  - cbn. apply (ownerLoop_best key 0 p ps).
Qed.

(** The best peer of a ring with unique identifiers is unique. *)
Lemma best_unique key ps p q :
  NoDup (ID <$> ps) -> p ∈ ps -> q ∈ ps ->
  Forall (beats key p) ps -> Forall (beats key q) ps -> p = q.
Proof.
  intros Hnd Hp Hq Hbp Hbq. rewrite Forall_forall in Hbp, Hbq.
  assert (HID : ID p = ID q) by (eapply beats_antisym; eauto).
  clear -Hnd Hp Hq HID. induction ps as [|x ps IH]; [set_solver|].
  cbn in Hnd. apply NoDup_cons in Hnd as [Hx Hnd].
  apply elem_of_cons in Hp as [->|Hp], Hq as [->|Hq]; auto.
  - destruct Hx. apply list_elem_of_fmap. eauto.
  - destruct Hx. apply list_elem_of_fmap. eauto.
Qed.

(** Rings with the same peers pick the same owner. *)
Lemma owner_of_perm r r' key :
  router_wf r -> router_wf r' -> peers r ≡ₚ peers r' ->
  ownerForRoutingKey r key = ownerForRoutingKey r' key.
Proof.
  intros Hr Hr' Hp. destruct (owner_best r key Hr) as [H1 H2].
  destruct (owner_best r' key Hr') as [H3 H4].
  rewrite <- Hp in H3, H4. eapply best_unique; eauto. apply (wf_unique r Hr).
Qed.

Lemma peers_of_perm r r' :
  router_wf r -> router_wf r' -> peers r ≡ₚ peers r' -> peers r = peers r'.
Proof.
  intros Hr Hr' Hp. apply (StronglySorted_unique_strong id_le).
  - intros p q Hpi Hqi Hle1 Hle2. rewrite <- Hp in Hqi.
    assert (HID : ID p = ID q) by (by apply (anti_symm String.le)).
    assert (byID r !! ID p = Some p) by (by apply (wf_byID r Hr)).
    assert (byID r !! ID q = Some q) by (by apply (wf_byID r Hr)). congruence.
  - apply Hr.
  - apply Hr'.
  - done.
Qed.

(** * Properties *)

(** C34: every node of the ring agrees on routing.  Two routers built from the
    same peers, listed in any order and with any local identifier, have the same
    sorted ring, the same ring fingerprint, and the same owner for every object
    and page. *)
Theorem routing_agreement l l' req req' ps ps' r r' :
  ps ≡ₚ ps' -> newRouter l ps req = Ok r -> newRouter l' ps' req' = Ok r' ->
  peers r = peers r' /\ ringID r = ringID r' /\
  (forall bucket key, Owner r bucket key = Owner r' bucket key) /\
  (forall bucket key i, PageOwner r bucket key i = PageOwner r' bucket key i).
Proof.
  intros Hps Hr Hr'. apply newRouter_inv in Hr as (Hwf & Hp & _), Hr' as (Hwf' & Hp' & _).
  assert (Hpp : peers r ≡ₚ peers r') by (by rewrite Hp, Hp', Hps).
  assert (Heq : peers r = peers r') by (by apply peers_of_perm). split_and!.
  - done.
  - rewrite (wf_ring r Hwf), (wf_ring r' Hwf'). by rewrite Heq.
  - intros bucket key. by apply owner_of_perm.
  - intros bucket key i. unfold PageOwner. case_match; [done|]. by apply owner_of_perm.
Qed.

Definition example_peers : list Peer :=
  [mkPeer "b" "http://b:8080"; mkPeer "a" "http://a:8080"; mkPeer "c" "http://c:8080"].

Lemma routing_agreement_witness :
  exists r r', newRouter " a " example_peers true = Ok r /\
    newRouter "c" (rev example_peers) true = Ok r' /\
    (forall bucket key, Owner r bucket key = Owner r' bucket key).
Proof.
  eexists _, _. split_and!; [vm_compute; reflexivity|vm_compute; reflexivity|].
  eapply (routing_agreement " a " "c" true true example_peers (rev example_peers)).
  - apply Permutation_rev.
  - vm_compute. reflexivity.
  - vm_compute. reflexivity.
Defined.

(** Ownership is total and exclusive.  Every object key has an owner that is
    a member of the ring, found by its identifier; and among the nodes of the
    ring, exactly the one whose local identifier is the owner's considers itself
    the local owner. *)
Theorem owner_exclusive l ps r bucket key :
  newRouter l ps true = Ok r ->
  Owner r bucket key ∈ peers r /\
  PeerByID r (ID (Owner r bucket key)) = Some (Owner r bucket key) /\
  (IsLocalOwner r bucket key = true <-> TrimSpace l = ID (Owner r bucket key)).
Proof.
  intros H. apply newRouter_inv in H as (Hwf & _ & Hl & _).
  destruct (owner_best r (bucket +:+ "/" +:+ key) Hwf) as [Hin _]. split_and!.
  - done.
  - by apply (wf_byID r Hwf).
  - unfold IsLocalOwner. rewrite Hl, andb_true_iff, negb_true_iff, bool_decide_eq_false,
      bool_decide_eq_true. split; [by intros [_ ->]|]. intros E. split; [|done].
    rewrite E. pose proof (wf_ids r Hwf) as Hids. rewrite Forall_forall in Hids.
    by apply Hids.
Qed.

Lemma owner_exclusive_witness :
  exists r, newRouter "a" example_peers true = Ok r /\
  (IsLocalOwner r "bucket" "key" = true <-> TrimSpace "a" = ID (Owner r "bucket" "key")).
Proof.
  eexists. split; [vm_compute; reflexivity|].
  eapply (owner_exclusive "a" example_peers). vm_compute. reflexivity.
Defined.

(** Minimal disruption.  When a ring loses peers, every key whose owner
    stays in the ring keeps its owner: only the keys of the peers that left
    move. *)
Theorem removal_keeps_owner l l' req req' ps ps' r r' key :
  newRouter l ps req = Ok r -> newRouter l' ps' req' = Ok r' -> ps' ⊆ ps ->
  ownerForRoutingKey r key ∈ peers r' ->
  ownerForRoutingKey r' key = ownerForRoutingKey r key.
Proof.
  intros Hr Hr' Hsub Hin. apply newRouter_inv in Hr as (Hwf & Hp & _), Hr' as (Hwf' & Hp' & _).
  destruct (owner_best r key Hwf) as [_ Hbest]. destruct (owner_best r' key Hwf') as [Hin' Hbest'].
  eapply best_unique; [apply (wf_unique r' Hwf')|done..|].
  rewrite Forall_forall in Hbest |- *. intros q Hq. apply Hbest.
  rewrite Hp' in Hq. rewrite Hp. apply list_elem_of_fmap in Hq as (q0 & -> & Hq0).
  apply list_elem_of_fmap. eauto.
Qed.

Lemma removal_keeps_owner_witness :
  exists r r', newRouter "a" example_peers true = Ok r /\
    newRouter "a" (take 2 example_peers) true = Ok r' /\
    ownerForRoutingKey r' "bucket/k1" = ownerForRoutingKey r "bucket/k1".
Proof.
  eexists _, _. split_and!; [vm_compute; reflexivity|vm_compute; reflexivity|].
  eapply (removal_keeps_owner "a" "a" true true example_peers (take 2 example_peers)).
  - vm_compute. reflexivity.
  - vm_compute. reflexivity.
  - set_solver.
  - apply (bool_decide_unpack _). vm_compute. exact I.
Defined.
