(* ===== verification/PageFrame.v ===== *)
(** * Page frames (internal/peer/pageframe.go)

    The wire format in which a peer streams whole pages to the coordinator of a
    read: a six byte header, one frame per page (type, index, length, payload)
    and an end marker. [Io] models the part of the [io] package the format uses:
    readers that deliver their content in arbitrary pieces and writers that may
    fail or be short. [PageFrameWriter] and [PageFrameReader] are the two ends.
    The theorems say that the reader accepts exactly the streams the writer
    produces for the pages that were asked for. *)

From S2P Require Import Prelude.

Module Io.

(** Errors of the [io] package; [Other] is any error of the transport, [Sentinel] a
    value the program declares with [errors.New]. *)
Inductive error :=
| EOF | UnexpectedEOF | ShortWrite | ClosedPipe | Other (n : Z) | Sentinel (text : string).

#[global] Instance error_eq_dec : EqDecision error.
Proof. solve_decision. Defined.

(** ** Readers

    A reader holds its content cut in pieces of any size (empty ones too: [Read]
    may return [0, nil]) and the error it ends with. An [eager] reader returns
    that error together with its last bytes, as [io.Reader] allows. *)
Record Reader := mkReader { chunks : list bytes; fin : error; eager : bool }.

Definition content (r : Reader) : bytes := concat (chunks r).

Definition with_chunks (r : Reader) (cs : list bytes) : Reader :=
  mkReader cs (fin r) (eager r).

(** [r.Read(p)] with [len(p) = k]. *)
Definition Read (k : nat) (r : Reader) : bytes * option error * Reader :=
  match chunks r with
  | [] => ([], Some (fin r), r)
  | c :: cs =>
      if (length c <=? k)%nat then
        (c, if eager r && bool_decide (cs = []) then Some (fin r) else None,
         with_chunks r cs)
      else (take k c, None, with_chunks r (drop k c :: cs))
  end.

(** [io.ReadFull(r, p)] with [len(p) = k]: a loop of [Read]s. *)
Fixpoint readFullLoop (fuel k : nat) (acc : bytes) (r : Reader)
    : bytes * option error * Reader :=
  match k with
  | O => (acc, None, r)
  | S _ =>
      match fuel with
      | O => (acc, Some UnexpectedEOF, r)
      | S fuel =>
          let '(got, err, r') := Read k r in
          let acc' := acc ++ got in
          if (k <=? length got)%nat then (acc', None, r')
          else match err with
               | None => readFullLoop fuel (k - length got) acc' r'
               | Some e =>
                   (acc', Some (if bool_decide (e = EOF) && negb (bool_decide (acc' = []))
                                then UnexpectedEOF else e), r')
               end
      end
  end.

Definition ReadFull (k : nat) (r : Reader) : bytes * option error * Reader :=
  readFullLoop (S (length (chunks r))) k [] r.

(** ** Writers

    A writer records what reached it; [plan] lists the outcome of the next calls
    of [Write], every later call succeeding. *)
Inductive outcome := WAll | WShort (n : nat) | WFail (n : nat) (e : error).

Record Writer := mkWriter { out : bytes; plan : list outcome }.

Definition Write (data : bytes) (w : Writer) : nat * option error * Writer :=
  match plan w with
  | [] => (length data, None, mkWriter (out w ++ data) [])
  | WAll :: p => (length data, None, mkWriter (out w ++ data) p)
  | WShort n :: p =>
      let d := take n data in (length d, None, mkWriter (out w ++ d) p)
  | WFail n e :: p =>
      let d := take n data in (length d, Some e, mkWriter (out w ++ d) p)
  end.

(** The interface [io.Writer]. *)
Class IoWriter (W : Type) := write : bytes -> W -> nat * option error * W.

#[global] Instance Writer_IoWriter : IoWriter Writer := Write.

(** Enough steps for every read of a reader: each consumes a piece or a byte. *)
Definition reads (r : Reader) : nat := S (length (content r) + length (chunks r)).

(** The interface [io.Reader], with a number of steps no loop of reads exceeds. *)
Class IoReader (S : Type) := { read : nat -> S -> bytes * option error * S; steps : S -> nat }.

#[global] Instance Reader_IoReader : IoReader Reader := {| read := Read; steps := reads |}.

(** [io.Copy(w, io.LimitReader(src, n))]: reads of at most [n] bytes in all, into
    buffers whose sizes [S (buf i)] are the library's choice, each written before
    the next. The end of the source is not an error of [Copy]. *)
Fixpoint copyLoop `{IoReader R, IoWriter W} (fuel : nat) (buf : nat -> nat) (n written : nat) (src : R)
    (w : W) : nat * option error * R * W :=
  match n, fuel with
  | O, _ | _, O => (written, None, src, w)
  | S _, S fuel =>
      let '(got, rerr, src') := read (Nat.min (S (buf fuel)) n) src in
      let '(nw, werr, w') := if bool_decide (got = []) then (O, None, w) else write got w in
      let written' := (written + nw)%nat in
      match werr with
      | Some e => (written', Some e, src', w')
      | None =>
          if negb (nw =? length got)%nat then (written', Some ShortWrite, src', w')
          else match rerr with
               | None => copyLoop fuel buf (n - nw) written' src' w'
               | Some e => (written', if bool_decide (e = EOF) then None else Some e, src', w')
               end
      end
  end.

(** [io.CopyN(w, src, n)] *)
Definition CopyN `{IoReader R, IoWriter W} (buf : nat -> nat) (n : nat) (src : R) (w : W)
    : nat * option error * R * W :=
  let '(written, err, src', w') := copyLoop (steps src) buf n 0 src w in
  if (written =? n)%nat then (n, None, src', w')
  else (written, Some (default EOF err), src', w').

(** [io.Copy(w, src)]: a limit the source does not reach. *)
Definition Copy `{IoWriter W} (buf : nat -> nat) (src : Reader) (w : W)
    : nat * option error * Reader * W :=
  copyLoop (reads src) buf (S (length (content src))) 0 src w.

(** ** Facts about readers *)

Lemma Read_spec k r got err r' :
  Read k r = (got, err, r') ->
  content r = got ++ content r' /\ (length got <= k)%nat /\
  (err = None -> chunks r <> []) /\
  (forall e, err = Some e -> content r' = [] /\ e = fin r) /\
  fin r' = fin r /\ eager r' = eager r.
Proof.
  unfold Read, content. destruct (chunks r) as [|c cs] eqn:Ec.
  - intros [= <- <- <-]. rewrite Ec. split_and!; simpl; try done; try lia.
    by intros e [= <-].
  - destruct (length c <=? k)%nat eqn:Hk.
    + apply Nat.leb_le in Hk. intros [= <- <- <-]. simpl. split_and!; auto.
      intros e. destruct (eager r); simpl; [|done]. case_bool_decide; [|done].
      intros [= <-]. by subst cs.
    + apply Nat.leb_gt in Hk. intros [= <- <- <-]. simpl.
      rewrite app_assoc, take_drop. split_and!; try done. rewrite length_take. lia.
Qed.

(** Every read of a positive size makes progress. *)
Lemma Read_reads k r got err r' :
  (0 < k)%nat -> Read k r = (got, err, r') -> err = None -> (reads r' < reads r)%nat.
Proof.
  unfold Read, reads, content. intros Hk.
  destruct (chunks r) as [|c cs] eqn:Ec; [intros [= <- <- <-]; done|].
  destruct (length c <=? k)%nat eqn:Hc; intros [= <- <- <-] _; simpl; rewrite !length_app.
  - lia.
  - apply Nat.leb_gt in Hc. rewrite length_drop. lia.
Qed.

(** [ReadFull] delivers the first [k] bytes when there are as many, whatever the
    pieces they come in, and fails otherwise. *)
Lemma readFullLoop_spec fuel k acc r :
  (length (chunks r) < fuel)%nat ->
  exists e r', readFullLoop fuel k acc r = (acc ++ take k (content r), e, r') /\
    content r' = drop k (content r) /\ (e = None <-> (k <= length (content r))%nat).
Proof.
  revert k acc r. induction fuel as [|fuel IH]; intros k acc r Hf; [lia|].
  destruct k as [|k].
  { exists None, r. simpl. rewrite take_0, drop_0, app_nil_r. split_and!; [done..|].
    split; [lia|done]. }
  cbn [readFullLoop]. destruct (Read (S k) r) as [[got err] r'] eqn:HR.
  pose proof (Read_spec _ _ _ _ _ HR) as (Hc & Hlen & Hne & Herr & _).
  rewrite Hc. destruct (Nat.leb_spec (S k) (length got)).
  - assert (length got = S k) as Hl by lia. exists None, r'.
    rewrite take_app_length', drop_app_length' by done.
    split_and!; [done..|]. rewrite length_app. split; [lia|done].
  - destruct err as [e|].
    + destruct (Herr e eq_refl) as [Hnil _]. rewrite Hnil, app_nil_r, take_ge, drop_ge by lia.
      eexists _, r'. split; [reflexivity|]. split; [done|]. split; [done|lia].
    + assert (length (chunks r') < fuel)%nat as Hf'.
      { revert HR H. unfold Read. destruct (chunks r) as [|c cs]; [done|].
        destruct (length c <=? S k)%nat eqn:Hck; intros HR Hlt; simplify_eq; simpl in *; [lia|].
        apply Nat.leb_gt in Hck. rewrite length_take in Hlt. lia. }
      destruct (IH (S k - length got)%nat (acc ++ got) r' Hf') as (e & r'' & -> & Hr & Hiff).
      exists e, r''. rewrite take_app_ge, drop_app_ge, app_assoc by lia.
      split_and!; auto. rewrite Hiff, length_app. lia.
Qed.

Lemma ReadFull_spec k r :
  exists e r', ReadFull k r = (take k (content r), e, r') /\
    content r' = drop k (content r) /\ (e = None <-> (k <= length (content r))%nat).
Proof. apply (readFullLoop_spec _ k []). lia. Qed.

(** ** Facts about copying *)

Lemma Write_good data w :
  plan w = [] -> Write data w = (length data, None, mkWriter (out w ++ data) []).
Proof. unfold Write. by intros ->. Qed.

(** A reader that delivers a stream of bytes in pieces, until it ends. *)
Class LawfulReader (R : Type) `{IoReader R} := {
  stream : R -> bytes;
  read_stream k r got err r' : read k r = (got, err, r') ->
    stream r = got ++ stream r' /\ (length got <= k)%nat /\ (is_Some err -> stream r' = []) }.

(** A reader whose reads end. *)
Class EndingReader (R : Type) `{LawfulReader R} := {
  steps_pos r : (0 < steps r)%nat;
  read_steps k r got r' : (0 < k)%nat -> read k r = (got, None, r') -> (steps r' < steps r)%nat }.

#[global] Program Instance Reader_LawfulReader : LawfulReader Reader := {| stream := content |}.
Next Obligation.
  intros k r got err r' HR. destruct (Read_spec _ _ _ _ _ HR) as (Hc & Hl & _ & He & _).
  split_and!; [done..|]. intros [e ->]. by apply (He e).
Qed.

#[global] Program Instance Reader_EndingReader : EndingReader Reader.
Next Obligation. intros r. cbn. unfold reads. lia. Qed.
Next Obligation. intros k r got r' Hk HR. by apply (Read_reads k r got None r'). Qed.

Lemma stream_content (r : Reader) : stream r = content r.
Proof. done. Qed.

(** A writer that takes the next [n] bytes: [has_out] is what it holds so far. *)
Class RoomyWriter (W : Type) `{IoWriter W} := {
  has_out : W -> bytes;
  room : W -> nat -> Prop;
  room_write w n data : room w n -> (length data <= n)%nat -> data <> [] ->
    exists w', write data w = (length data, None, w') /\ has_out w' = has_out w ++ data /\
      room w' (n - length data) }.

#[global] Program Instance Writer_RoomyWriter : RoomyWriter Writer := {|
  has_out := out; room w _ := plan w = [] |}.
Next Obligation.
  intros w n data Hp _ _. exists (mkWriter (out w ++ data) []). split_and!; [by apply Write_good|done..].
Qed.

Lemma copyLoop_room `{EndingReader R, RoomyWriter W} fuel buf n cap written (src : R) (w : W) :
  room w cap -> (n <= cap)%nat -> (steps src <= fuel)%nat -> (n <= length (stream src))%nat ->
  exists err src' w', copyLoop fuel buf n written src w = ((written + n)%nat, err, src', w') /\
    has_out w' = has_out w ++ take n (stream src) /\ room w' (cap - n) /\
    stream src' = drop n (stream src).
Proof.
  revert n cap written src w. induction fuel as [|fuel IH]; intros n cap written src w Hp Hcap Hf Hn.
  { pose proof (steps_pos src). lia. }
  destruct n as [|n].
  { exists None, src, w. cbn [copyLoop]. by rewrite take_0, drop_0, app_nil_r, Nat.add_0_r, Nat.sub_0_r. }
  cbn [copyLoop]. set (k := Nat.min (S (buf fuel)) (S n)).
  destruct (read k src) as [[got err] src'] eqn:HR.
  destruct (read_stream _ _ _ _ _ HR) as (Hc & Hlen & Herr).
  assert (exists w1, (if bool_decide (got = []) then (O, None, w) else write got w) = (length got, None, w1) /\
    has_out w1 = has_out w ++ got /\ room w1 (cap - length got)) as (w1 & -> & Ho & Hr).
  { case_bool_decide as Hg; [subst got; exists w; by rewrite app_nil_r, Nat.sub_0_r|].
    apply room_write; [done|lia|done]. }
  cbn beta iota. rewrite Nat.eqb_refl. cbn [negb].
  rewrite Hc, length_app in Hn. rewrite Hc, take_app_ge, drop_app_ge by lia.
  destruct err as [e|].
  - pose proof (Herr ltac:(eauto)) as Hnil. rewrite Hnil in *. simpl in Hn.
    assert (length got = S n) as Hgn by lia. rewrite Hgn, Nat.sub_diag in *.
    eexists _, src', w1. rewrite take_nil, drop_nil, app_nil_r. by split_and!.
  - pose proof (read_steps k src got src' ltac:(lia) HR).
    destruct (IH (S n - length got)%nat (cap - length got)%nat (written + length got)%nat src' w1)
      as (err & s2 & w2 & -> & Ho2 & Hr2 & Hs2); try done; try lia.
    exists err, s2, w2. rewrite Ho2, Ho, <- app_assoc.
    replace (written + length got + (S n - length got))%nat with (written + S n)%nat by lia.
    replace (cap - length got - (S n - length got))%nat with (cap - S n)%nat in Hr2 by lia. done.
Qed.

(** [CopyN] moves exactly the next [n] bytes to a writer with room for them. *)
Lemma CopyN_room `{EndingReader R, RoomyWriter W} buf n cap (src : R) (w : W) :
  room w cap -> (n <= cap)%nat -> (n <= length (stream src))%nat ->
  exists src' w', CopyN buf n src w = (n, None, src', w') /\
    has_out w' = has_out w ++ take n (stream src) /\ room w' (cap - n) /\
    stream src' = drop n (stream src).
Proof.
  intros Hp Hcap Hn. unfold CopyN.
  destruct (copyLoop_room (steps src) buf n cap 0 src w Hp Hcap ltac:(lia) Hn)
    as (err & s' & w' & -> & Ho & Hr & Hs).
  simpl. rewrite Nat.eqb_refl. eauto 6.
Qed.

(** [Copy] moves the whole source to a writer with room for it. *)
Lemma copyLoop_all `{RoomyWriter W} fuel buf n cap written src (w : W) :
  room w cap -> (length (content src) <= cap)%nat -> (reads src <= fuel)%nat ->
  (length (content src) < n)%nat -> fin src = EOF ->
  exists src' w', copyLoop fuel buf n written src w = ((written + length (content src))%nat, None, src', w') /\
    has_out w' = has_out w ++ content src.
Proof.
  revert n cap written src w. induction fuel as [|fuel IH]; intros n cap written src w Hp Hcap Hf Hn Hfin.
  { unfold reads in Hf. lia. }
  destruct n as [|n]; [lia|]. cbn [copyLoop read Reader_IoReader]. set (k := Nat.min (S (buf fuel)) (S n)).
  destruct (Read k src) as [[got err] src'] eqn:HR.
  pose proof (Read_spec _ _ _ _ _ HR) as (Hc & Hlen & _ & Herr & Hfin' & _).
  rewrite Hc, length_app in *.
  assert (exists w1, (if bool_decide (got = []) then (O, None, w) else write got w) = (length got, None, w1) /\
    has_out w1 = has_out w ++ got /\ room w1 (cap - length got)) as (w1 & -> & Ho & Hr).
  { case_bool_decide as Hg; [subst got; exists w; by rewrite app_nil_r, Nat.sub_0_r|].
    apply room_write; [done|lia|done]. }
  cbn beta iota. rewrite Nat.eqb_refl. cbn [negb]. destruct err as [e|].
  - destruct (Herr e eq_refl) as [-> ->]. rewrite Hfin, bool_decide_true by done.
    exists src', w1. by rewrite app_nil_r, Nat.add_0_r.
  - pose proof (Read_reads k src got None src' ltac:(lia) HR eq_refl).
    destruct (IH (S n - length got)%nat (cap - length got)%nat (written + length got)%nat src' w1)
      as (s2 & w2 & -> & Ho2); [done|lia..|congruence|].
    exists s2, w2. by rewrite Ho2, Ho, <- app_assoc, Nat.add_assoc.
Qed.

Lemma Copy_all `{RoomyWriter W} buf cap src (w : W) :
  room w cap -> (length (content src) <= cap)%nat -> fin src = EOF ->
  exists src' w', Copy buf src w = (length (content src), None, src', w') /\
    has_out w' = has_out w ++ content src.
Proof. intros Hp Hcap Hfin. unfold Copy. apply (copyLoop_all _ buf _ cap 0); auto with lia. Qed.

(** On a writer that does not fail, [CopyN] moves exactly the next [n] bytes. *)
Lemma CopyN_good `{EndingReader R} buf n (src : R) w :
  plan w = [] -> (n <= length (stream src))%nat ->
  exists src', CopyN buf n src w
      = (n, None, src', mkWriter (out w ++ take n (stream src)) []) /\
    stream src' = drop n (stream src).
Proof.
  intros Hp Hn. assert (Hw : room w n) by exact Hp.
  destruct (CopyN_room buf n n src w Hw ltac:(lia) Hn) as (s' & [o p] & -> & Ho & Hr & Hs).
  cbn in Ho, Hr. subst o p. eauto.
Qed.

(** Whatever the faults, what [CopyN] wrote is what it took off the source. *)
Lemma Write_out data w n err w' :
  Write data w = (n, err, w') -> out w' = out w ++ take n data /\ (n <= length data)%nat.
Proof.
  unfold Write. destruct (plan w) as [|[|k|k e] p]; intros [= <- <- <-]; simpl;
    rewrite ?length_take; rewrite <- ?firstn_firstn, ?firstn_all;
    try (rewrite Nat.min_comm, <- firstn_firstn, firstn_all); split; try done; lia.
Qed.

Lemma copyLoop_out `{LawfulReader R} fuel buf n written (src : R) w written' err src' w' :
  copyLoop fuel buf n written src w = (written', err, src', w') ->
  exists k, written' = (written + k)%nat /\ (k <= n)%nat /\
    (k <= length (stream src))%nat /\ out w' = out w ++ take k (stream src) /\
    (k = n -> stream src' = drop n (stream src)).
Proof.
  revert n written src w. induction fuel as [|fuel IH]; intros n written src w HL.
  { exists 0%nat. destruct n; injection HL as <- <- <- <-; rewrite take_0, app_nil_r;
      split_and!; auto with lia. }
  destruct n as [|n].
  { exists 0%nat. injection HL as <- <- <- <-; rewrite take_0, app_nil_r; split_and!; auto with lia. }
  cbn [copyLoop] in HL. unfold write, Writer_IoWriter in HL. set (k := Nat.min (S (buf fuel)) (S n)) in *.
  destruct (read k src) as [[got rerr] src1] eqn:HR.
  destruct (read_stream _ _ _ _ _ HR) as (Hc & Hlen & _). rewrite Hc, length_app.
  destruct (if bool_decide (got = []) then (O, None, w) else Write got w)
    as [[nw werr] w1] eqn:HW.
  assert (out w1 = out w ++ take nw got /\ (nw <= length got)%nat) as [Ho Hnw].
  { case_bool_decide; [injection HW as <- <- <-; subst; rewrite app_nil_r; auto with lia|].
    by eapply Write_out. }
  assert (Hdrop : nw = S n -> stream src1 = drop (S n) (got ++ stream src1))
    by (intros ->; rewrite drop_app_length' by lia; done).
  assert (Hdone : out w1 = out w ++ take nw (got ++ stream src1)) by by rewrite take_app_le.
  destruct werr as [e|]; [injection HL as <- <- <- <-; exists nw; split_and!; auto with lia|].
  destruct (Nat.eqb_spec nw (length got)); cbn [negb] in HL;
    [|injection HL as <- <- <- <-; exists nw; split_and!; auto with lia].
  destruct rerr as [e2|]; [injection HL as <- <- <- <-; exists nw; split_and!; auto with lia|].
  apply IH in HL as (j & -> & Hj & Hjl & -> & Hd). exists (nw + j)%nat.
  split_and!; [lia..| |intros He; rewrite Hd, drop_app_ge by lia; f_equal; lia]. rewrite Ho, <- app_assoc. f_equal.
  rewrite (take_app_ge _ _ (nw + j)), !firstn_all2 by lia. do 2 f_equal. lia.
Qed.

Lemma CopyN_out `{LawfulReader R} buf n (src : R) w written src' w' :
  CopyN buf n src w = (written, None, src', w') ->
  (n <= length (stream src))%nat /\ out w' = out w ++ take n (stream src) /\ stream src' = drop n (stream src).
Proof.
  unfold CopyN. destruct (copyLoop _ _ _ _ _ _) as [[[wr err] s1] w1] eqn:HC.
  apply copyLoop_out in HC as (k & -> & ? & ? & Ho & Hd).
  destruct (Nat.eqb_spec (0 + k) n); [|done]. intros [= <- <- <-]. subst n. auto.
Qed.

(** With any faults: at most [n] bytes, the next of the source. *)
Lemma CopyN_any `{LawfulReader R} buf n (src : R) w written err src' w' :
  CopyN buf n src w = (written, err, src', w') ->
  (written <= n)%nat /\ (written <= length (stream src))%nat /\
  out w' = out w ++ take written (stream src).
Proof.
  unfold CopyN. destruct (copyLoop _ _ _ _ _ _) as [[[wr e] s1] w1] eqn:HC.
  apply copyLoop_out in HC as (k & -> & ? & ? & Ho & _).
  destruct (Nat.eqb_spec (0 + k) n); intros [= <- <- <- <-]; [subst n|]; auto.
Qed.

(** What every read keeps, copying keeps. *)
Lemma copyLoop_keeps `{IoReader R, IoWriter W} (I : R -> Prop) fuel buf n written (src : R) (w : W) written' err src' w' :
  (forall k r got e r', I r -> read k r = (got, e, r') -> I r') -> I src ->
  copyLoop fuel buf n written src w = (written', err, src', w') -> I src'.
Proof.
  intros Hread. revert n written src w. induction fuel as [|fuel IH]; intros n written src w Hs HL.
  { by destruct n; injection HL as _ _ <- _. }
  destruct n as [|n]; [by injection HL as _ _ <- _|]. cbn [copyLoop] in HL.
  destruct (read _ src) as [[got rerr] src1] eqn:HR. pose proof (Hread _ _ _ _ _ Hs HR) as Hs1.
  destruct (if bool_decide (got = []) then _ else _) as [[nw werr] w1].
  destruct werr; [by injection HL as _ _ <- _|]. destruct (negb _); [by injection HL as _ _ <- _|].
  destruct rerr; [by injection HL as _ _ <- _|]. by apply IH in HL.
Qed.

Lemma CopyN_keeps `{IoReader R, IoWriter W} (I : R -> Prop) buf n (src : R) (w : W) written err src' w' :
  (forall k r got e r', I r -> read k r = (got, e, r') -> I r') -> I src ->
  CopyN buf n src w = (written, err, src', w') -> I src'.
Proof.
  intros Hread Hs. unfold CopyN. destruct (copyLoop _ _ _ _ _ _) as [[[wr e] s1] w1] eqn:HC.
  pose proof (copyLoop_keeps I _ _ _ _ _ _ _ _ _ _ Hread Hs HC). destruct (wr =? n)%nat; by intros [= <- <- <- <-].
Qed.

Lemma CopyN_count `{IoReader R} buf n (src : R) w written src' w' :
  CopyN buf n src w = (written, None, src', w') -> written = n.
Proof.
  unfold CopyN. destruct (copyLoop _ _ _ _ _ _) as [[[wr e] s1] w1].
  destruct (Nat.eqb_spec wr n); congruence.
Qed.

End Io.

(** ** Constants and data *)

Definition PageFrameVersion : Z := 1.
Definition pageFrameHeaderSize : nat := 6.
Definition pageFrameMetaSize : nat := 16.
Definition pageFrameTypePage : byte := x01.
Definition pageFrameTypeEnd : byte := x02.
Definition pageFrameMagic : bytes := [x53; x33; x50; x46].

(** The sentinel errors; [ErrIo] passes an error of the transport through. The
    text that [fmt.Errorf] wraps around a sentinel is not kept. *)
Inductive FrameError :=
| ErrInvalidPageFrameVersion | ErrInvalidPageFrame | ErrTruncatedPageFrame
| ErrOversizedPageFrame | ErrDuplicatePageFrame | ErrUnexpectedPageFrame
| ErrOutOfOrderPageFrame | ErrUnexpectedEndFrame | ErrPageFrameWriterClosed
| ErrNil | ErrMaxPageBytes | ErrIo (e : Io.error).

#[export] Instance FrameError_eq_dec : EqDecision FrameError.
Proof. solve_decision. Defined.

Record PageFrame := mkPageFrame { pf_Index : Z; pf_Bytes : bytes }.

Record PageFrameWriter := mkPageFrameWriter {
  pfw_w : Io.Writer;
  lastIndex : Z;
  wrotePage : bool;
  pfw_closed : bool }.

(** ** The writer *)

Definition writePageFrameFull (w : Io.Writer) (data : bytes)
    : option FrameError * Io.Writer :=
  let '(written, err, w') := Io.Write data w in
  match err with
  | Some e => (Some (ErrIo e), w')
  | None => if (written =? length data)%nat then (None, w')
            else (Some (ErrIo Io.ShortWrite), w')
  end.

(** [None] for [w] is Go's nil writer. *)
Definition NewPageFrameWriter (w : option Io.Writer)
    : result FrameError PageFrameWriter :=
  match w with
  | None => Err ErrNil
  | Some w =>
      match writePageFrameFull w (pageFrameMagic ++ be_put 2 PageFrameVersion) with
      | (Some e, _) => Err e
      | (None, w') => Ok (mkPageFrameWriter w' 0 false false)
      end
  end.

Definition pfw_with (pw : PageFrameWriter) (w : Io.Writer) : PageFrameWriter :=
  mkPageFrameWriter w (lastIndex pw) (wrotePage pw) (pfw_closed pw).

(** The writer and the source after the call are returned with its error. *)
Definition WritePageFrom `{Io.IoReader R} (buf : nat -> nat) (pw : PageFrameWriter) (index size : Z)
    (src : option R)
    : option FrameError * PageFrameWriter * option R :=
  if pfw_closed pw then (Some ErrPageFrameWriterClosed, pw, src)
  else if index <? 0 then (Some ErrInvalidPageFrame, pw, src)
  else if size <? 0 then (Some ErrInvalidPageFrame, pw, src)
  else match src with
  | None => (Some ErrInvalidPageFrame, pw, src)
  | Some s =>
      if wrotePage pw && (index <=? lastIndex pw)
      then (Some ErrOutOfOrderPageFrame, pw, src)
      else
        let header := pageFrameTypePage :: be_put 8 index ++ be_put 8 size in
        match writePageFrameFull (pfw_w pw) header with
        | (Some e, w1) => (Some e, pfw_with pw w1, src)
        | (None, w1) =>
            if size >? 0 then
              let '(written, err, s', w2) := Io.CopyN buf (Z.to_nat size) s w1 in
              match err with
              | Some e => (Some (ErrIo e), pfw_with pw w2, Some s')
              | None =>
                  if negb (Z.of_nat written =? size)
                  then (Some (ErrIo Io.ShortWrite), pfw_with pw w2, Some s')
                  else (None, mkPageFrameWriter w2 index true (pfw_closed pw), Some s')
              end
            else (None, mkPageFrameWriter w1 index true (pfw_closed pw), src)
        end
  end.

(** [bytes.NewReader(data)] *)
Definition bytesReader (data : bytes) : Io.Reader :=
  Io.mkReader (match data with [] => [] | _ => [data] end) Io.EOF false.

Definition WritePage (buf : nat -> nat) (pw : PageFrameWriter) (index : Z) (data : bytes)
    : option FrameError * PageFrameWriter :=
  (WritePageFrom buf pw index (zlen data) (Some (bytesReader data))).1.

Definition WriteEnd (pw : PageFrameWriter) : option FrameError * PageFrameWriter :=
  if pfw_closed pw then (Some ErrPageFrameWriterClosed, pw)
  else match writePageFrameFull (pfw_w pw) [pageFrameTypeEnd] with
       | (Some e, w1) => (Some e, pfw_with pw w1)
       | (None, w1) => (None, mkPageFrameWriter w1 (lastIndex pw) (wrotePage pw) true)
       end.

(** ** The reader *)

Record PageFrameReader := mkPageFrameReader {
  pfr_r : Io.Reader;
  expected : list Z;
  expectedSet : gset Z;
  seen : gset Z;
  maxPageBytes : Z;
  next : nat;
  ended : bool }.

(** The loop over [expectedPages]: [prev] is [expected[i-1]]. *)
Fixpoint checkExpected (prev : option Z) (set : gset Z) (l : list Z)
    : result FrameError (gset Z) :=
  match l with
  | [] => Ok set
  | index :: l =>
      if index <? 0 then Err ErrInvalidPageFrame
      else if (match prev with Some p => index <=? p | None => false end)
      then Err ErrInvalidPageFrame
      else checkExpected (Some index) ({[index]} ∪ set) l
  end.

Definition NewPageFrameReader (r : option Io.Reader) (expectedPages : list Z)
    (maxPageBytes : Z) : result FrameError PageFrameReader :=
  match r with
  | None => Err ErrNil
  | Some r =>
      if maxPageBytes <=? 0 then Err ErrMaxPageBytes
      else match checkExpected None ∅ expectedPages with
      | Err e => Err e
      | Ok set =>
          let '(header, err, r') := Io.ReadFull pageFrameHeaderSize r in
          match err with
          | Some _ => Err ErrTruncatedPageFrame
          | None =>
              if negb (bool_decide (take 4 header = pageFrameMagic))
              then Err ErrInvalidPageFrameVersion
              else if negb (be_get (take 2 (drop 4 header)) =? PageFrameVersion)
              then Err ErrInvalidPageFrameVersion
              else Ok (mkPageFrameReader r' expectedPages set ∅ maxPageBytes 0 false)
          end
      end
  end.

(** The payload reader of a frame; it shares the transport with the frame reader
    that returned it, so its operations take and return the transport. *)
Record pageFramePayloadReader := mkPayload {
  pageIndex : Z;
  remaining : Z;
  closed : bool }.

Record PageFrameStream := mkPageFrameStream {
  pfs_Index : Z;
  pfs_Size : Z;
  pfs_Body : pageFramePayloadReader }.

Definition pfr_with (rd : PageFrameReader) (r : Io.Reader) : PageFrameReader :=
  mkPageFrameReader r (expected rd) (expectedSet rd) (seen rd) (maxPageBytes rd)
    (next rd) (ended rd).

Definition readPageStream (rd : PageFrameReader)
    : result FrameError PageFrameStream * PageFrameReader :=
  let '(meta, err, r') := Io.ReadFull pageFrameMetaSize (pfr_r rd) in
  let rd1 := pfr_with rd r' in
  match err with
  | Some _ => (Err ErrTruncatedPageFrame, rd1)
  | None =>
      let index := be_get (take 8 meta) in
      if index >? int64_max then (Err ErrInvalidPageFrame, rd1)
      else
        let length := be_get (drop 8 meta) in
        if (length >? maxPageBytes rd) || (length >? int64_max)
        then (Err ErrOversizedPageFrame, rd1)
        else if bool_decide (index ∈ seen rd) then (Err ErrDuplicatePageFrame, rd1)
        else if negb (bool_decide (index ∈ expectedSet rd))
        then (Err ErrUnexpectedPageFrame, rd1)
        else match expected rd !! next rd with
        | None => (Err ErrOutOfOrderPageFrame, rd1)
        | Some want =>
            if negb (index =? want) then (Err ErrOutOfOrderPageFrame, rd1)
            else
              (Ok (mkPageFrameStream index length (mkPayload index length false)),
               mkPageFrameReader r' (expected rd) (expectedSet rd)
                 ({[index]} ∪ seen rd) (maxPageBytes rd) (S (next rd)) (ended rd))
        end
  end.

Definition NextPageStream (rd : PageFrameReader)
    : result FrameError PageFrameStream * PageFrameReader :=
  if ended rd then (Err (ErrIo Io.EOF), rd)
  else
    let '(frameType, err, r') := Io.ReadFull 1 (pfr_r rd) in
    let rd1 := pfr_with rd r' in
    match err with
    | Some _ => (Err ErrTruncatedPageFrame, rd1)
    | None =>
        if bool_decide (frameType = [pageFrameTypePage]) then readPageStream rd1
        else if bool_decide (frameType = [pageFrameTypeEnd]) then
          if negb (next rd =? length (expected rd))%nat
          then (Err ErrUnexpectedEndFrame, rd1)
          else (Err (ErrIo Io.EOF),
                mkPageFrameReader r' (expected rd) (expectedSet rd) (seen rd)
                  (maxPageBytes rd) (next rd) true)
        else (Err ErrInvalidPageFrame, rd1)
    end.

(** [pageFramePayloadReader.Read] with a buffer of [k] bytes. *)
Definition payloadRead (k : nat) (r : Io.Reader) (p : pageFramePayloadReader)
    : bytes * option FrameError * Io.Reader * pageFramePayloadReader :=
  if closed p then ([], Some (ErrIo Io.ClosedPipe), r, p)
  else if remaining p =? 0 then ([], Some (ErrIo Io.EOF), r, p)
  else
    let k := if Z.of_nat k >? remaining p then Z.to_nat (remaining p) else k in
    let '(got, err, r') := Io.Read k r in
    let p' := mkPayload (pageIndex p) (remaining p - zlen got) (closed p) in
    match err with
    | Some e =>
        if bool_decide (e = Io.EOF) && (remaining p' >? 0)
        then (got, Some ErrTruncatedPageFrame, r', p')
        else (got, Some (ErrIo e), r', p')
    | None => (got, None, r', p')
    end.

(** Reading a payload to its end, into buffers whose sizes are the library's
    choice: the loop of [io.ReadAll] and of [io.Copy(io.Discard, r)]. *)
Fixpoint drainLoop (fuel : nat) (buf : nat -> nat) (acc : bytes) (r : Io.Reader)
    (p : pageFramePayloadReader)
    : bytes * option FrameError * Io.Reader * pageFramePayloadReader :=
  match fuel with
  | O => (acc, Some (ErrIo Io.UnexpectedEOF), r, p)
  | S fuel =>
      let '(got, err, r', p') := payloadRead (S (buf fuel)) r p in
      match err with
      | None => drainLoop fuel buf (acc ++ got) r' p'
      | Some e =>
          (acc ++ got, if bool_decide (e = ErrIo Io.EOF) then None else Some e, r', p')
      end
  end.

Definition payloadReadAll (buf : nat -> nat) (r : Io.Reader) (p : pageFramePayloadReader) :=
  drainLoop (Io.reads r) buf [] r p.

Definition payloadClose (buf : nat -> nat) (r : Io.Reader) (p : pageFramePayloadReader)
    : option FrameError * Io.Reader * pageFramePayloadReader :=
  if closed p then (None, r, p)
  else if remaining p =? 0 then (None, r, mkPayload (pageIndex p) (remaining p) true)
  else
    let '(_, err, r', p') := payloadReadAll buf r p in
    (err, r', mkPayload (pageIndex p') (remaining p') true).

Definition NextPage (buf : nat -> nat) (rd : PageFrameReader)
    : result FrameError PageFrame * PageFrameReader :=
  match NextPageStream rd with
  | (Err e, rd1) => (Err e, rd1)
  | (Ok stream, rd1) =>
      let '(data, err, r1, p1) := payloadReadAll buf (pfr_r rd1) (pfs_Body stream) in
      let '(_, r2, _) := payloadClose buf r1 p1 in
      match err with
      | Some e => (Err e, pfr_with rd1 r2)
      | None => (Ok (mkPageFrame (pfs_Index stream) data), pfr_with rd1 r2)
      end
  end.

(** ** The wire format *)

Definition encodeHeader : bytes := pageFrameMagic ++ be_put 2 PageFrameVersion.

Definition encodePage (f : PageFrame) : bytes :=
  pageFrameTypePage :: be_put 8 (pf_Index f) ++ be_put 8 (zlen (pf_Bytes f)) ++ pf_Bytes f.

Definition encodePages (l : list PageFrame) : bytes :=
  encodeHeader ++ concat (encodePage <$> l) ++ [pageFrameTypeEnd].

(** Increasing page indexes that are [int64]s and not negative. *)
Definition indexes_ok (l : list Z) : Prop :=
  StronglySorted Z.lt l /\ Forall (fun i => 0 <= i <= int64_max) l.

(** Reading pages until the reader returns an error, [EOF] included. *)
Fixpoint readPages (fuel : nat) (buf : nat -> nat) (rd : PageFrameReader)
    : list PageFrame * FrameError * PageFrameReader :=
  match NextPage buf rd with
  | (Err e, rd') => ([], e, rd')
  | (Ok f, rd') =>
      match fuel with
      | O => ([f], ErrTruncatedPageFrame, rd')
      | S fuel => let '(l, e, rd'') := readPages fuel buf rd' in (f :: l, e, rd'')
      end
  end.

(** ** Lemmas on the reader *)

Lemma checkExpected_ok prev set l :
  StronglySorted Z.lt l -> Forall (fun i => 0 <= i /\ from_option (fun p => p < i) True prev) l ->
  checkExpected prev set l = Ok (list_to_set l ∪ set).
Proof.
  revert prev set. induction l as [|i l IH]; intros prev set Hs Hf.
  - simpl. f_equal. set_solver.
  - apply StronglySorted_inv in Hs as [Hs Hi]. apply Forall_cons in Hf as [[Hi0 Hp] Hf].
    simpl. replace (i <? 0) with false by lia.
    replace (match prev with Some p => i <=? p | None => false end) with false
      by (destruct prev; simpl in *; lia).
    rewrite IH; auto; [f_equal; set_solver|].
    rewrite !Forall_forall in *. intros x Hx. split; [apply (Hf x Hx)|apply (Hi x Hx)].
Qed.

Lemma checkExpected_inv prev set l s :
  checkExpected prev set l = Ok s ->
  s = list_to_set l ∪ set /\ StronglySorted Z.lt l /\
  Forall (fun i => 0 <= i /\ from_option (fun p => p < i) True prev) l.
Proof.
  revert prev set. induction l as [|i l IH]; intros prev set; simpl.
  - intros [= <-]. split_and!; [set_solver|constructor..].
  - destruct (i <? 0) eqn:Hi; [done|].
    destruct (match prev with Some p => i <=? p | None => false end) eqn:Hp; [done|].
    intros (-> & Hs & Hf)%IH. zbool. split_and!; [set_solver| |].
    + constructor; [done|]. eapply Forall_impl; [done|]. by intros ? [].
    + constructor; [split; [lia|]; destruct prev; simpl; zbool; lia|].
      rewrite !Forall_forall in *. intros x Hx. specialize (Hf x Hx) as [? ?].
      split; [done|]. destruct prev; simpl in *; zbool; lia.
Qed.

(** Draining a payload takes exactly its bytes off the transport. *)
Lemma drainLoop_spec fuel buf acc r p :
  closed p = false -> 0 <= remaining p -> (Io.reads r <= fuel)%nat ->
  let n := Z.to_nat (remaining p) in
  exists err r', drainLoop fuel buf acc r p
      = (acc ++ take n (Io.content r), err, r',
         mkPayload (pageIndex p) (remaining p - zlen (take n (Io.content r))) false) /\
    Io.content r' = drop n (Io.content r) /\
    (n = 0%nat \/ (n < length (Io.content r))%nat -> err = None) /\
    (err = None -> (n <= length (Io.content r))%nat) /\
    err <> Some (ErrIo Io.EOF).
Proof.
  revert acc r p. induction fuel as [|fuel IH]; intros acc r [pi rem cl] Hcl Hrem Hf n.
  { unfold Io.reads in Hf. lia. }
  simpl in *. subst cl. unfold payloadRead. simpl.
  destruct (rem =? 0) eqn:Hz.
  { zbool. subst rem. exists None, r. simpl. unfold n; simpl.
    rewrite app_nil_r, take_0, drop_0, ?app_nil_r by done.
    unfold zlen; simpl. split_and!; try done. lia. }
  zbool. set (k := if Z.of_nat (S (buf fuel)) >? rem then Z.to_nat rem else S (buf fuel)).
  assert (0 < k <= n)%nat as Hk.
  { unfold k, n. destruct (Z.of_nat (S (buf fuel)) >? rem) eqn:E; [lia|].
    rewrite Z.gtb_ltb in E. zbool. lia. }
  destruct (Io.Read k r) as [[got err] r'] eqn:HR.
  pose proof (Io.Read_spec _ _ _ _ _ HR) as (Hc & Hlen & _ & Herr & _).
  rewrite Hc, take_app_ge, drop_app_ge by lia. rewrite !length_app, zlen_app.
  destruct err as [e|]; simpl.
  - destruct (Herr e eq_refl) as [Hnil _]. rewrite Hnil, take_nil, drop_nil, app_nil_r.
    unfold zlen in *; simpl. rewrite Z.add_0_r.
    destruct (bool_decide (e = Io.EOF) && (rem - Z.of_nat (length got) >? 0)) eqn:E; simpl.
    + exists (Some ErrTruncatedPageFrame), r'. rewrite Hnil. apply andb_true_iff in E as [_ E].
      split_and!; try done. intros [|]; lia.
    + eexists _, r'. split; [reflexivity|]. split; [done|].
      destruct (decide (e = Io.EOF)) as [->|Heof].
      * rewrite bool_decide_true in * by done. simpl in E. split_and!; [done| |done]. lia.
      * rewrite (bool_decide_false (ErrIo e = _)) by congruence.
        split_and!; [|done|congruence]. intros [|]; lia.
  - pose proof (Io.Read_reads k r got None r' ltac:(lia) HR eq_refl).
    edestruct (IH (acc ++ got) r' (mkPayload pi (rem - zlen got) false))
      as (err & r2 & -> & Hr2 & H1 & H2 & H3); simpl; unfold zlen in *; try lia; try done.
    simpl in *. replace (Z.to_nat (rem - Z.of_nat (length got))) with (n - length got)%nat in * by lia.
    exists err, r2. rewrite <- app_assoc. split_and!; auto.
    + f_equal. f_equal. lia.
    + intros [|]; apply H1; lia.
    + intros ->. specialize (H2 eq_refl). lia.
Qed.

(** The frame reader after a page header was accepted. *)
Definition advance (rd : PageFrameReader) (r : Io.Reader) (index : Z) : PageFrameReader :=
  mkPageFrameReader r (expected rd) (expectedSet rd) ({[index]} ∪ seen rd)
    (maxPageBytes rd) (S (next rd)) (ended rd).

(** The conditions under which the reader accepts a page header. *)
Definition acceptable (rd : PageFrameReader) (index size : Z) : Prop :=
  (0 <= index <= int64_max) /\ (0 <= size <= maxPageBytes rd) /\ size <= int64_max /\
  (index ∉ seen rd) /\ (index ∈ expectedSet rd) /\ expected rd !! next rd = Some index.

Lemma ReadFull_app k r a b :
  Io.content r = a ++ b -> length a = k ->
  exists r', Io.ReadFull k r = (a, None, r') /\ Io.content r' = b.
Proof.
  intros Hc Hl. destruct (Io.ReadFull_spec k r) as (e & r' & -> & Hr & He).
  rewrite Hc, take_app_length' in * by done. rewrite drop_app_length' in Hr by done.
  exists r'. split; [|done]. destruct e as [e|]; [|done].
  destruct He as [_ He]. discriminate He. rewrite length_app. lia.
Qed.

Lemma ReadFull_inv k r a r' :
  Io.ReadFull k r = (a, None, r') -> Io.content r = a ++ Io.content r' /\ length a = k.
Proof.
  destruct (Io.ReadFull_spec k r) as (e & r1 & -> & Hr & He). intros [= <- -> <-].
  rewrite Hr, take_drop, length_take. split; [done|].
  assert (k <= length (Io.content r))%nat by by apply He. lia.
Qed.

Lemma readPageStream_ok rd index size rest :
  Io.content (pfr_r rd) = be_put 8 index ++ be_put 8 size ++ rest ->
  acceptable rd index size ->
  exists r', Io.content r' = rest /\
    readPageStream rd
    = (Ok (mkPageFrameStream index size (mkPayload index size false)), advance rd r' index).
Proof.
  intros Hc ((?&?) & (?&?) & ? & Hseen & Hexp & Hnext). unfold readPageStream.
  destruct (ReadFull_app pageFrameMetaSize (pfr_r rd) (be_put 8 index ++ be_put 8 size) rest)
    as (r' & -> & Hr').
  { by rewrite <- app_assoc. } { by rewrite length_app, !length_be_put. }
  rewrite take_app_length', drop_app_length' by by rewrite length_be_put.
  unfold int64_max in *. rewrite !be_get_put by lia.
  replace (index >? _) with false by lia.
  replace ((size >? _) || _) with false by lia.
  rewrite bool_decide_false, bool_decide_true, Hnext, Z.eqb_refl by done.
  exists r'. done.
Qed.

Lemma readPageStream_inv rd s rd' :
  readPageStream rd = (Ok s, rd') ->
  exists index size r', s = mkPageFrameStream index size (mkPayload index size false) /\
    Io.content (pfr_r rd) = be_put 8 index ++ be_put 8 size ++ Io.content r' /\
    acceptable rd index size /\ rd' = advance rd r' index.
Proof.
  unfold readPageStream.
  destruct (Io.ReadFull pageFrameMetaSize (pfr_r rd)) as [[meta err] r'] eqn:HR.
  destruct err; [done|]. apply ReadFull_inv in HR as [Hc Hl].
  destruct (be_get (take 8 meta) >? int64_max) eqn:H1; [done|].
  destruct ((be_get (drop 8 meta) >? maxPageBytes rd) || _) eqn:H2; [done|].
  case_bool_decide as H3; [done|]. case_bool_decide as H4; [|done]. cbn [negb].
  destruct (expected rd !! next rd) as [want|] eqn:H5; [|done].
  destruct (be_get (take 8 meta) =? want) eqn:H6; [|done]. cbn [negb].
  intros [= <- <-]. zbool. rewrite Z.gtb_ltb in *. zbool.
  pose proof (be_get_bound (take 8 meta)). pose proof (be_get_bound (drop 8 meta)).
  eexists _, _, r'. split; [done|]. split.
  { rewrite !be_put_get by (rewrite ?length_take, ?length_drop, Hl; done).
    rewrite Hc, app_assoc, take_drop. done. }
  split; [|done]. unfold acceptable. split_and!; try done; try lia. congruence.
Qed.

Lemma NextPageStream_ok rd index size rest :
  Io.content (pfr_r rd) = pageFrameTypePage :: be_put 8 index ++ be_put 8 size ++ rest ->
  ended rd = false -> acceptable rd index size ->
  exists r', Io.content r' = rest /\
    NextPageStream rd
    = (Ok (mkPageFrameStream index size (mkPayload index size false)), advance rd r' index).
Proof.
  intros Hc Hend Hacc. unfold NextPageStream. rewrite Hend.
  destruct (ReadFull_app 1 (pfr_r rd) [pageFrameTypePage] (be_put 8 index ++ be_put 8 size ++ rest))
    as (r1 & -> & Hr1); [done..|]. rewrite bool_decide_true by done.
  destruct (readPageStream_ok (pfr_with rd r1) index size rest) as (r2 & Hr2 & ->); [done..|].
  by exists r2.
Qed.

Lemma NextPageStream_inv rd res rd' :
  NextPageStream rd = (res, rd') ->
  match res with
  | Ok s => ended rd = false /\
      exists index size r', s = mkPageFrameStream index size (mkPayload index size false) /\
        Io.content (pfr_r rd)
        = pageFrameTypePage :: be_put 8 index ++ be_put 8 size ++ Io.content r' /\
        acceptable rd index size /\ rd' = advance rd r' index
  | Err (ErrIo Io.EOF) => ended rd = false ->
      next rd = length (expected rd) /\ ended rd' = true /\
      Io.content (pfr_r rd) = pageFrameTypeEnd :: Io.content (pfr_r rd')
  | Err _ => True
  end.
Proof.
  unfold NextPageStream. destruct (ended rd) eqn:Hend; [by intros [= <- <-]|].
  destruct (Io.ReadFull 1 (pfr_r rd)) as [[t err] r'] eqn:HR.
  destruct err; [by intros [= <- <-]|]. apply ReadFull_inv in HR as [Hc _].
  case_bool_decide as Ht; [subst t|].
  - intros Hs. destruct res as [s|e].
    + apply readPageStream_inv in Hs as (index & size & r2 & -> & Hc2 & Hacc & ->).
      split; [done|]. exists index, size, r2. simpl in *. rewrite Hc, Hc2. done.
    + revert Hs. unfold readPageStream. simpl. destruct (Io.ReadFull _ _) as [[? ?] ?].
      split_tests; intros [= <- <-]; done.
  - case_bool_decide as Ht2; [subst t|by intros [= <- <-]].
    destruct (next rd =? length (expected rd))%nat eqn:Hn; simpl; [|by intros [= <- <-]].
    apply Nat.eqb_eq in Hn. intros [= <- <-]. simpl in *. done.
Qed.

Lemma payload_spec buf r size index :
  0 <= size ->
  exists err r' p', payloadReadAll buf r (mkPayload index size false)
      = (take (Z.to_nat size) (Io.content r), err, r', p') /\
    (size = 0 \/ size < zlen (Io.content r) -> err = None) /\
    (err = None -> size <= zlen (Io.content r) /\ Io.content r' = drop (Z.to_nat size) (Io.content r) /\
                   payloadClose buf r' p' = (None, r', mkPayload index 0 true)) /\
    err <> Some (ErrIo Io.EOF).
Proof.
  intros Hs. unfold payloadReadAll.
  destruct (drainLoop_spec (Io.reads r) buf [] r (mkPayload index size false))
    as (err & r' & -> & Hr & H1 & H2 & H3); simpl; [done|done|lia|].
  unfold zlen. eexists err, r', _. split; [reflexivity|]. simpl in *. split_and!; auto.
  - intros H. apply H1. lia.
  - intros ->. specialize (H2 eq_refl). split_and!; [lia|done|].
    unfold payloadClose. simpl. rewrite length_take.
    replace (size - _) with 0 by lia. done.
Qed.

(** [NextPage] returns a page that is on the wire and acceptable. *)
Lemma NextPage_ok buf rd f rest :
  Io.content (pfr_r rd) = encodePage f ++ rest -> rest <> [] -> ended rd = false ->
  acceptable rd (pf_Index f) (zlen (pf_Bytes f)) ->
  exists r', Io.content r' = rest /\ NextPage buf rd = (Ok f, advance rd r' (pf_Index f)).
Proof.
  intros Hc Hrest Hend Hacc. unfold NextPage, encodePage in *.
  rewrite <- app_comm_cons, <- !app_assoc in Hc.
  destruct (NextPageStream_ok rd _ _ _ Hc Hend Hacc) as (r1 & Hr1 & ->). simpl.
  destruct (payload_spec buf r1 (zlen (pf_Bytes f)) (pf_Index f) (zlen_nonneg _))
    as (err & r2 & p2 & -> & He & Hok & _).
  rewrite Hr1 in *. rewrite zlen_app in *.
  assert (err = None) as ->.
  { apply He. right. destruct rest; [done|]. unfold zlen. simpl. lia. }
  destruct (Hok eq_refl) as (_ & Hr2 & ->).
  unfold zlen in *. rewrite Nat2Z.id, take_app_length, drop_app_length in *.
  exists r2. split; [done|]. by destruct f.
Qed.

(** Every page [NextPage] returns is on the wire and acceptable; [EOF] means the
    end marker was read after the last expected page. *)
Lemma NextPage_inv buf rd res rd' :
  NextPage buf rd = (res, rd') ->
  match res with
  | Ok f => ended rd = false /\ acceptable rd (pf_Index f) (zlen (pf_Bytes f)) /\
      exists r', Io.content (pfr_r rd) = encodePage f ++ Io.content r' /\
        rd' = advance rd r' (pf_Index f)
  | Err (ErrIo Io.EOF) => ended rd = false ->
      next rd = length (expected rd) /\ ended rd' = true /\
      Io.content (pfr_r rd) = pageFrameTypeEnd :: Io.content (pfr_r rd')
  | Err _ => True
  end.
Proof.
  unfold NextPage. destruct (NextPageStream rd) as [[s|e] rd1] eqn:HN;
    apply NextPageStream_inv in HN; [|by intros [= <- <-]].
  destruct HN as (Hend & index & size & r1 & -> & Hc & Hacc & ->). simpl.
  pose proof Hacc as (_ & [Hs _] & _).
  destruct (payload_spec buf r1 size index Hs) as (err & r2 & p2 & -> & _ & Hok & Hne).
  destruct (payloadClose buf r2 p2) as [[? r3] ?] eqn:HC.
  destruct err as [e|]; [intros [= <- <-]; destruct e as [| | | | | | | | | | |[]]; done|].
  destruct (Hok eq_refl) as (Hle & Hr2 & [= -> -> ->]). intros [= <- <-].
  assert (Hz : zlen (take (Z.to_nat size) (Io.content r1)) = size)
    by (unfold zlen in *; rewrite length_take; lia).
  assert (He : Io.content (pfr_r rd)
               = encodePage (mkPageFrame index (take (Z.to_nat size) (Io.content r1)))
                 ++ Io.content r2).
  { unfold encodePage. cbn [pf_Index pf_Bytes].
    rewrite Hz, Hc, Hr2, <- app_comm_cons, <- !app_assoc, take_drop. done. }
  split; [done|]. split; [cbn [pf_Index pf_Bytes]; by rewrite Hz|]. by exists r2.
Qed.

(** The state of a reader that has returned the pages [got] and waits for [todo]. *)
Record reading (rd : PageFrameReader) (got todo : list Z) : Prop := {
  rg_expected : expected rd = got ++ todo;
  rg_set : expectedSet rd = list_to_set (got ++ todo);
  rg_seen : seen rd = list_to_set got;
  rg_next : next rd = length got;
  rg_ended : ended rd = false;
  rg_sorted : StronglySorted Z.lt (got ++ todo) }.

Lemma reading_nodup rd got todo : reading rd got todo -> NoDup (got ++ todo).
Proof.
  intros [_ _ _ _ _ Hs]. induction Hs as [|x l Hs IH Hx]; constructor; [|done].
  intros Hin. rewrite Forall_forall in Hx. specialize (Hx x Hin). lia.
Qed.

Lemma reading_acceptable rd got i todo size :
  reading rd got (i :: todo) -> 0 <= i <= int64_max ->
  0 <= size <= maxPageBytes rd -> size <= int64_max -> acceptable rd i size.
Proof.
  intros Hrd Hi Hsz Hsz'. pose proof (reading_nodup _ _ _ Hrd) as Hnd.
  destruct Hrd as [He Hes Hse Hn _ _].
  apply NoDup_app in Hnd as (_ & Hnd & _).
  split_and!; try done; try lia.
  - rewrite Hse, elem_of_list_to_set. intros Hin. apply (Hnd i Hin). set_solver.
  - rewrite Hes. set_solver.
  - rewrite He, Hn, lookup_app_r, Nat.sub_diag by lia. done.
Qed.

Lemma reading_advance rd got i todo r :
  reading rd got (i :: todo) -> reading (advance rd r i) (got ++ [i]) todo.
Proof.
  intros [He Hes Hse Hn Hend Hs].
  constructor; simpl; rewrite <- ?app_assoc; auto.
  - rewrite Hse, list_to_set_app_L. set_solver.
  - rewrite length_app. simpl. lia.
Qed.

Lemma NewPageFrameReader_inv r exp max rd :
  NewPageFrameReader (Some r) exp max = Ok rd ->
  reading rd [] exp /\ maxPageBytes rd = max /\ 0 < max /\ Forall (fun i => 0 <= i) exp /\
  Io.content r = encodeHeader ++ Io.content (pfr_r rd).
Proof.
  unfold NewPageFrameReader. destruct (max <=? 0) eqn:Hm; [done|].
  destruct (checkExpected None ∅ exp) as [s|] eqn:Hs; [|done].
  apply checkExpected_inv in Hs as (-> & Hs & Hf).
  destruct (Io.ReadFull pageFrameHeaderSize r) as [[h err] r'] eqn:HR.
  destruct err; [done|]. apply ReadFull_inv in HR as [Hc Hl].
  case_bool_decide as Hmag; [|done]. cbn [negb].
  destruct (be_get _ =? PageFrameVersion) eqn:Hv; [|done]. cbn [negb].
  zbool. assert (He : encodeHeader = h).
  { unfold encodeHeader.
    rewrite <- Hv, be_put_get, <- Hmag, (firstn_all2 (n := 2)), take_drop;
      rewrite ?length_take, ?length_drop, ?Hl; done. }
  intros [= <-]. rewrite He. split_and!; [|done|done| |done].
  - constructor; try done. simpl. set_solver.
  - eapply Forall_impl; [done|]. by intros ? [? _].
Qed.

Lemma NewPageFrameReader_ok r exp max rest :
  Io.content r = encodeHeader ++ rest -> 0 < max -> indexes_ok exp ->
  exists rd, NewPageFrameReader (Some r) exp max = Ok rd /\ Io.content (pfr_r rd) = rest.
Proof.
  intros Hc Hm [Hs Hf]. unfold NewPageFrameReader. replace (max <=? 0) with false by lia.
  rewrite checkExpected_ok; [|done|].
  2:{ eapply Forall_impl; [done|]. simpl. intros; lia. }
  destruct (ReadFull_app pageFrameHeaderSize r encodeHeader rest Hc eq_refl) as (r' & -> & Hr).
  vm_compute (bool_decide _). vm_compute (be_get _ =? _). simpl. eauto.
Qed.

(** ** Lemmas on the writer *)

(** Writing a list of pages and the end marker, stopping at the first error. *)
Fixpoint writeRest (buf : nat -> nat) (pw : PageFrameWriter) (l : list PageFrame)
    : result FrameError PageFrameWriter :=
  match l with
  | [] => match WriteEnd pw with (None, pw') => Ok pw' | (Some e, _) => Err e end
  | f :: l =>
      match WritePage buf pw (pf_Index f) (pf_Bytes f) with
      | (None, pw') => writeRest buf pw' l
      | (Some e, _) => Err e
      end
  end.

Definition writePages (buf : nat -> nat) (w : Io.Writer) (l : list PageFrame)
    : result FrameError PageFrameWriter :=
  pw ← NewPageFrameWriter (Some w); writeRest buf pw l.

Lemma writePageFrameFull_inv w data w' :
  writePageFrameFull w data = (None, w') -> Io.out w' = Io.out w ++ data.
Proof.
  unfold writePageFrameFull. destruct (Io.Write data w) as [[n err] w1] eqn:HW.
  apply Io.Write_out in HW as [Ho _]. destruct err; [done|].
  destruct (Nat.eqb_spec n (length data)); [|done]. intros [= <-]. subst n.
  by rewrite Ho, firstn_all.
Qed.

(** Whatever the faults: a part of the data, all of it without an error. *)
Lemma writePageFrameFull_part w data err w' :
  writePageFrameFull w data = (err, w') ->
  exists part, Io.out w' = Io.out w ++ part /\ part `prefix_of` data /\ (err = None -> part = data).
Proof.
  unfold writePageFrameFull. destruct (Io.Write data w) as [[n e] w1] eqn:HW. apply Io.Write_out in HW as [Ho Hn].
  intros Hr. assert (w' = w1) as -> by (destruct e; [|destruct (n =? length data)%nat]; by injection Hr as _ <-).
  exists (take n data). split; [done|]. split; [by exists (drop n data); rewrite take_drop|]. intros ->.
  destruct e; [done|]. destruct (Nat.eqb_spec n (length data)); [|done]. subst n. by rewrite firstn_all.
Qed.

(** A frame whose payload is read off any lawful reader of a prefix of the page. *)
Lemma WritePageFrom_part `{Io.LawfulReader R} buf pw index page (src : R) err pw' src' :
  Io.stream src `prefix_of` page ->
  WritePageFrom buf pw index (zlen page) (Some src) = (err, pw', src') ->
  (exists part, Io.out (pfw_w pw') = Io.out (pfw_w pw) ++ part /\
     part `prefix_of` encodePage (mkPageFrame index page) /\ (err = None -> part = encodePage (mkPageFrame index page))) /\
  (err = None -> pfw_closed pw = false /\ pfw_closed pw' = false) /\
  exists s, src' = Some s /\ (err = None -> Io.stream src = page /\ Io.stream s = []) /\
    forall I : R -> Prop, (forall k r got e r', I r -> Io.read k r = (got, e, r') -> I r') -> I src -> I s.
Proof.
  intros Hpre. unfold WritePageFrom, encodePage. cbn [pf_Index pf_Bytes].
  assert (Hnone : forall e, (Some e, pw, Some src) = (err, pw', src') ->
    (exists part, Io.out (pfw_w pw') = Io.out (pfw_w pw) ++ part /\
       part `prefix_of` pageFrameTypePage :: be_put 8 index ++ be_put 8 (zlen page) ++ page /\
       (err = None -> part = pageFrameTypePage :: be_put 8 index ++ be_put 8 (zlen page) ++ page)) /\
    (err = None -> pfw_closed pw = false /\ pfw_closed pw' = false) /\
    exists s, src' = Some s /\ (err = None -> Io.stream src = page /\ Io.stream s = []) /\
      forall I : R -> Prop, (forall k r got e r', I r -> Io.read k r = (got, e, r') -> I r') -> I src -> I s).
  { intros e [= <- <- <-]. split; [exists []; rewrite app_nil_r; split_and!; [done|apply prefix_nil|done]|]. split; [done|]. exists src. by split_and!. }
  destruct (pfw_closed pw) eqn:Hcl; [apply Hnone|]. destruct (index <? 0); [apply Hnone|].
  destruct (zlen page <? 0); [apply Hnone|]. destruct (_ && _); [apply Hnone|]. clear Hnone.
  set (h := pageFrameTypePage :: be_put 8 index ++ be_put 8 (zlen page)).
  assert (Hh : pageFrameTypePage :: be_put 8 index ++ be_put 8 (zlen page) ++ page = h ++ page)
    by (subst h; by rewrite <- app_comm_cons, <- app_assoc).
  rewrite Hh. destruct (writePageFrameFull (pfw_w pw) h) as [e1 w1] eqn:Hw.
  destruct (writePageFrameFull_part _ _ _ _ Hw) as (part & Ho & Hp & Hall). destruct e1 as [e1|].
  { intros [= <- <- <-]. split; [exists part; split_and!; [done|by apply prefix_app_r|done]|]. split; [done|]. exists src. by split_and!. }
  specialize (Hall eq_refl). subst part. destruct (Z.gtb_spec (zlen page) 0) as [Hpos|Hpos].
  - rewrite zlen_to_nat. destruct (Io.CopyN buf (length page) src w1) as [[[n e2] s2] w2] eqn:HC.
    assert (Hk : forall I : R -> Prop, (forall k r got e r', I r -> Io.read k r = (got, e, r') -> I r') -> I src -> I s2)
      by (intros I HI HS; by eapply Io.CopyN_keeps).
    destruct (Io.CopyN_any _ _ _ _ _ _ _ _ HC) as (_ & Hn & Ho2).
    assert (Hpart : exists part, Io.out w2 = Io.out (pfw_w pw) ++ part /\ part `prefix_of` h ++ page).
    { exists (h ++ take n (Io.stream src)). rewrite Ho2, Ho, <- app_assoc. split; [done|]. apply prefix_app.
      etransitivity; [|exact Hpre]. exists (drop n (Io.stream src)). by rewrite take_drop. }
    destruct Hpart as (part & Hp1 & Hp2). destruct e2 as [e2|].
    { intros [= <- <- <-]. split; [by exists part|]. split; [done|]. exists s2. by split_and!. }
    pose proof (Io.CopyN_count _ _ _ _ _ _ _ HC) as ->. rewrite (proj2 (Z.eqb_eq _ _)) by done. cbn [negb].
    destruct (Io.CopyN_out _ _ _ _ _ _ _ HC) as (Hlen & Ho3 & Hs2). intros [= <- <- <-].
    assert (Hfull : Io.stream src = page).
    { destruct Hpre as [rest Hrest]. rewrite Hrest, length_app in Hlen. destruct rest; [by rewrite app_nil_r in Hrest|cbn in Hlen; lia]. }
    split; [|split; [done|exists s2; split_and!; [done| |done]]].
    + exists (h ++ page). cbn [pfw_w]. rewrite Ho3, Ho, Hfull, firstn_all, <- app_assoc. by split_and!.
    + intros _. rewrite Hs2, Hfull, drop_all. done.
  - assert (page = []) as -> by (destruct page; [done|unfold zlen in Hpos; cbn in Hpos; lia]).
    apply prefix_nil_inv in Hpre. rewrite app_nil_r. intros [= <- <- <-].
    split; [exists h; by split_and!|]. split; [done|]. exists src. by split_and!.
Qed.

Lemma content_bytesReader data : Io.content (bytesReader data) = data.
Proof. destruct data; [done|]. unfold Io.content. simpl. by rewrite app_nil_r. Qed.

(** A page write that reports success put exactly one frame on the wire. *)
Lemma WritePage_inv buf pw index data pw' :
  WritePage buf pw index data = (None, pw') ->
  pfw_closed pw = false /\ 0 <= index /\ (wrotePage pw = true -> lastIndex pw < index) /\
  wrotePage pw' = true /\ lastIndex pw' = index /\ pfw_closed pw' = false /\
  Io.out (pfw_w pw') = Io.out (pfw_w pw) ++ encodePage (mkPageFrame index data).
Proof.
  unfold WritePage, WritePageFrom. destruct (pfw_closed pw) eqn:Hcl; [done|].
  destruct (index <? 0) eqn:Hi; [done|]. destruct (zlen data <? 0) eqn:Hz; [done|].
  destruct (wrotePage pw && (index <=? lastIndex pw)) eqn:Ho; [done|].
  destruct (writePageFrameFull _ _) as [[e|] w1] eqn:HW; [done|].
  apply writePageFrameFull_inv in HW. zbool.
  assert (Hord : wrotePage pw = true -> lastIndex pw < index)
    by (intros Hw; rewrite Hw in Ho; simpl in Ho; zbool; lia).
  destruct (zlen data >? 0) eqn:Hs.
  - destruct (Io.CopyN _ _ _ _) as [[[wr err] s'] w2] eqn:HC. destruct err as [e|]; [done|].
    destruct (Z.of_nat wr =? zlen data); [|done]. cbn [negb fst]. intros [= <-].
    apply Io.CopyN_out in HC as (_ & HC & _). rewrite content_bytesReader in HC.
    unfold zlen in HC. rewrite Nat2Z.id, firstn_all in HC.
    cbn [wrotePage lastIndex pfw_closed pfw_w]. split_and!; try done.
    unfold encodePage. cbn [pf_Index pf_Bytes]. rewrite HC, HW, <- app_assoc, <- app_comm_cons, <- app_assoc. done.
  - cbn [fst]. intros [= <-]. cbn [wrotePage lastIndex pfw_closed pfw_w].
    rewrite Z.gtb_ltb in Hs. apply Z.ltb_ge in Hs.
    assert (data = []) as -> by (destruct data; [done|]; unfold zlen in Hs; simpl in Hs; lia).
    split_and!; done.
Qed.

Lemma writeRest_inv buf pw l pw' :
  writeRest buf pw l = Ok pw' ->
  StronglySorted Z.lt (pf_Index <$> l) /\
  Forall (fun i => 0 <= i /\ (wrotePage pw = true -> lastIndex pw < i)) (pf_Index <$> l) /\
  pfw_closed pw' = true /\
  Io.out (pfw_w pw') = Io.out (pfw_w pw) ++ concat (encodePage <$> l) ++ [pageFrameTypeEnd].
Proof.
  revert pw. induction l as [|f l IH]; intros pw; cbn [writeRest].
  - unfold WriteEnd. destruct (pfw_closed pw); [done|].
    destruct (writePageFrameFull _ _) as [[e|] w1] eqn:HW; [done|]. intros [= <-].
    apply writePageFrameFull_inv in HW. split_and!; [constructor..|done|done].
  - destruct (WritePage _ _ _ _) as [[e|] pw1] eqn:HW; [done|].
    apply WritePage_inv in HW as (_ & H0 & Hlt & Hwr & Hli & _ & Ho). intros H.
    apply IH in H as (Hs & Hf & Hc & Hout). rewrite Hwr, Hli in Hf. rewrite !fmap_cons. split_and!; auto.
    + constructor; [done|]. eapply Forall_impl; [done|]. simpl. intros i []. auto.
    + constructor; [auto|]. eapply Forall_impl; [done|]. simpl. intros i [Hi Hi'].
      split; [done|]. intros Hw. specialize (Hlt Hw). specialize (Hi' eq_refl). lia.
    + rewrite Hout, Ho. cbn [fmap list_fmap concat]. rewrite <- !app_assoc. by destruct f.
Qed.

(** On a transport without faults every increasing sequence is accepted. *)
Lemma WritePage_good buf pw f :
  Io.plan (pfw_w pw) = [] -> pfw_closed pw = false -> 0 <= pf_Index f ->
  (wrotePage pw = true -> lastIndex pw < pf_Index f) ->
  exists w, WritePage buf pw (pf_Index f) (pf_Bytes f)
    = (None, mkPageFrameWriter w (pf_Index f) true false) /\ Io.plan w = [].
Proof.
  intros Hp Hc Hi Hord. unfold WritePage, WritePageFrom. rewrite Hc.
  pose proof (zlen_nonneg (pf_Bytes f)).
  replace (pf_Index f <? 0) with false by lia. replace (zlen (pf_Bytes f) <? 0) with false by lia.
  replace (wrotePage pw && _) with false.
  2:{ destruct (wrotePage pw); [|done]. specialize (Hord eq_refl). simpl. lia. }
  unfold writePageFrameFull. rewrite Io.Write_good, Nat.eqb_refl by done.
  destruct (zlen (pf_Bytes f) >? 0); [|by eexists].
  set (w1 := Io.mkWriter _ _).
  destruct (Io.CopyN_good buf (Z.to_nat (zlen (pf_Bytes f))) (bytesReader (pf_Bytes f)) w1)
    as (s' & -> & _); [done| |].
  { rewrite content_bytesReader. unfold zlen. lia. }
  rewrite Z2Nat.id, Z.eqb_refl by lia. by eexists.
Qed.

Lemma writeRest_good buf pw l :
  Io.plan (pfw_w pw) = [] -> pfw_closed pw = false ->
  StronglySorted Z.lt (pf_Index <$> l) ->
  Forall (fun i => 0 <= i /\ (wrotePage pw = true -> lastIndex pw < i)) (pf_Index <$> l) ->
  exists pw', writeRest buf pw l = Ok pw'.
Proof.
  revert pw. induction l as [|f l IH]; intros pw Hp Hc Hs Hf; cbn [writeRest].
  - unfold WriteEnd, writePageFrameFull. rewrite Hc, Io.Write_good, Nat.eqb_refl by done. eauto.
  - rewrite fmap_cons in *. apply Forall_cons in Hf as [[Hi Hord] Hf].
    apply StronglySorted_inv in Hs as [Hs Hlt].
    destruct (WritePage_good buf pw f Hp Hc Hi Hord) as (w & -> & Hw).
    apply IH; try done. simpl. rewrite Forall_forall in *. intros i Hi'.
    split; [apply (Hf i Hi')|intros _; apply (Hlt i Hi')].
Qed.

(** ** The two ends together *)

Lemma readPages_ok buf l rd got rest :
  Io.content (pfr_r rd) = concat (encodePage <$> l) ++ pageFrameTypeEnd :: rest ->
  reading rd got (pf_Index <$> l) ->
  Forall (fun i => 0 <= i <= int64_max) (pf_Index <$> l) ->
  Forall (fun f => zlen (pf_Bytes f) <= maxPageBytes rd <= int64_max) l ->
  exists rd', readPages (length l) buf rd = (l, ErrIo Io.EOF, rd') /\
    ended rd' = true /\ Io.content (pfr_r rd') = rest.
Proof.
  revert rd got. induction l as [|f l IH]; intros rd got Hc Hrd Hi Hl.
  - cbn [readPages length]. unfold NextPage, NextPageStream. rewrite (rg_ended _ _ _ Hrd).
    destruct (ReadFull_app 1 (pfr_r rd) [pageFrameTypeEnd] rest) as (r' & -> & Hr'); [done..|].
    rewrite bool_decide_false, bool_decide_true by done.
    rewrite (rg_next _ _ _ Hrd), (rg_expected _ _ _ Hrd), app_nil_r, Nat.eqb_refl.
    eexists. split; [reflexivity|]. done.
  - rewrite fmap_cons in Hc; rewrite fmap_cons in Hrd; rewrite fmap_cons in Hi.
    apply Forall_cons in Hi as [Hi Hi']. apply Forall_cons in Hl as [Hl Hl'].
    rewrite concat_cons, <- app_assoc in Hc.
    destruct (NextPage_ok buf rd f _ Hc) as (r' & Hr' & HN).
    + by destruct (concat _).
    + apply Hrd.
    + pose proof (zlen_nonneg (pf_Bytes f)). eapply reading_acceptable; try done; lia.
    + cbn [readPages length]. rewrite HN.
      destruct (IH (advance rd r' (pf_Index f)) (got ++ [pf_Index f])) as (rd' & -> & ?); auto.
      { by apply reading_advance. }
      by exists rd'.
Qed.

Lemma readPages_inv fuel buf rd got todo l e rd' :
  readPages fuel buf rd = (l, e, rd') -> reading rd got todo ->
  (pf_Index <$> l) `prefix_of` todo /\ Forall (fun f => zlen (pf_Bytes f) <= maxPageBytes rd) l /\
  (e = ErrIo Io.EOF -> pf_Index <$> l = todo /\
     Io.content (pfr_r rd)
     = concat (encodePage <$> l) ++ pageFrameTypeEnd :: Io.content (pfr_r rd')).
Proof.
  revert rd got todo l. induction fuel as [|fuel IH]; intros rd got todo l; cbn [readPages];
    destruct (NextPage buf rd) as [res rd1] eqn:HN; apply NextPage_inv in HN; intros H Hrd;
    (destruct res as [f|e1];
     [destruct HN as (_ & Hacc & r' & Hc & ->)
     |injection H as <- <- <-; split_and!;
        [apply prefix_nil|done|intros ->; destruct (HN (rg_ended _ _ _ Hrd)) as (Hn & _ & Hc)];
        rewrite (rg_next _ _ _ Hrd), (rg_expected _ _ _ Hrd), length_app in Hn;
        destruct todo; [done|simpl in Hn; lia]]);
    destruct Hacc as (_ & [_ Hsz] & _ & _ & _ & Hnx);
    (destruct todo as [|i todo];
     [rewrite (rg_expected _ _ _ Hrd), (rg_next _ _ _ Hrd), lookup_app_r, Nat.sub_diag in Hnx by lia; done|]);
    (rewrite (rg_expected _ _ _ Hrd), (rg_next _ _ _ Hrd), lookup_app_r, Nat.sub_diag in Hnx by lia);
    injection Hnx as ->.
  - injection H as <- <- <-. split_and!; [|auto|done]. apply prefix_cons, prefix_nil.
  - destruct (readPages fuel buf _) as [[l1 e1] rd2] eqn:HR. injection H as <- <- <-.
    apply (IH _ (got ++ [pf_Index f]) todo) in HR as (Hp & Hf & He); [|by apply reading_advance].
    rewrite !fmap_cons. split_and!; [by apply prefix_cons|auto|].
    intros ->. destruct (He eq_refl) as [Hl Hc2]. split; [by f_equal|].
    rewrite Hc. rewrite concat_cons, <- app_assoc. f_equal. done.
Qed.

(** C17: round trip. Whatever increasing list of pages is written to a transport
    that does not fail, a reader that asks for those page indexes gets the same
    pages back and then [EOF], however the transport cuts the bytes into pieces,
    whatever error the transport itself ends with and whatever follows the end
    marker, which is left unread. *)
Theorem pageframe_roundtrip (buf buf' : nat -> nat) (l : list PageFrame) (max : Z)
    (Hidx : indexes_ok (pf_Index <$> l)) (Hmax : 0 < max <= int64_max)
    (Hsize : Forall (fun f => zlen (pf_Bytes f) <= max) l) :
  exists pw, writePages buf (Io.mkWriter [] []) l = Ok pw /\
  forall r rest, Io.content r = Io.out (pfw_w pw) ++ rest ->
  exists rd rd', NewPageFrameReader (Some r) (pf_Index <$> l) max = Ok rd /\
    readPages (length l) buf' rd = (l, ErrIo Io.EOF, rd') /\
    ended rd' = true /\ Io.content (pfr_r rd') = rest.
Proof.
  unfold writePages.
  destruct (writeRest_good buf
    (mkPageFrameWriter (Io.mkWriter encodeHeader []) 0 false false) l) as (pw & Hw); cycle -1.
  - exists pw. split; [exact Hw|]. apply writeRest_inv in Hw as (_ & _ & _ & Ho).
    rewrite Ho. intros r rest Hc. simpl in Hc.
    destruct (NewPageFrameReader_ok r (pf_Index <$> l) max
      (concat (encodePage <$> l) ++ pageFrameTypeEnd :: rest)) as (rd & Hrd & Hcr);
      [by rewrite Hc, <- app_assoc|lia|done|].
    pose proof (NewPageFrameReader_inv _ _ _ _ Hrd) as (Hg & Hm & _).
    destruct (readPages_ok buf' l rd [] rest) as (rd' & ? & ? & ?); try done.
    + apply Hidx.
    + rewrite Hm. eapply Forall_impl; [done|]. simpl. lia.
    + by exists rd, rd'.
  - done.
  - done.
  - apply Hidx.
  - eapply Forall_impl; [apply Hidx|]. simpl. intros; split; [lia|done].
Qed.

Lemma pageframe_roundtrip_witness :
  exists pw, writePages (fun _ => 511%nat) (Io.mkWriter [] [])
      [mkPageFrame 3 [x61; x62]; mkPageFrame 7 []] = Ok pw /\
  exists rd rd', NewPageFrameReader
      (Some (Io.mkReader [Io.out (pfw_w pw) ++ [x00]] Io.EOF true)) [3; 7] 4 = Ok rd /\
    readPages 2 (fun _ => 0%nat) rd
      = ([mkPageFrame 3 [x61; x62]; mkPageFrame 7 []], ErrIo Io.EOF, rd') /\
    Io.content (pfr_r rd') = [x00].
Proof.
  destruct (pageframe_roundtrip (fun _ => 511%nat) (fun _ => 0%nat)
    [mkPageFrame 3 [x61; x62]; mkPageFrame 7 []] 4) as (pw & Hw & Hr).
  - split; [repeat constructor; lia|repeat constructor; simpl; int64_unfold; lia].
  - int64_unfold; lia.
  - repeat constructor; unfold zlen; simpl; lia.
  - exists pw. split; [exact Hw|].
    destruct (Hr (Io.mkReader [Io.out (pfw_w pw) ++ [x00]] Io.EOF true) [x00])
      as (rd & rd' & H1 & H2 & _ & H3).
    { unfold Io.content. simpl. apply app_nil_r. }
    exists rd, rd'. done.
Defined.

(** C18: the reader only ever returns requested pages, in the requested order and
    no larger than the limit, whatever bytes the peer sends; and when it reports
    [EOF] the bytes consumed are exactly the encoding of the pages returned and
    these are all the pages requested. So no stream is accepted that the writer
    would not have produced: duplicates, reordered, missing, oversized or
    truncated frames never reach [EOF]. *)
Theorem pageframe_accepts_only (buf : nat -> nat) (r : Io.Reader) (exp : list Z) (max : Z)
    (rd rd' : PageFrameReader) (fuel : nat) (l : list PageFrame) (e : FrameError)
    (Hnew : NewPageFrameReader (Some r) exp max = Ok rd)
    (Hread : readPages fuel buf rd = (l, e, rd')) :
  (pf_Index <$> l) `prefix_of` exp /\
  Forall (fun f => zlen (pf_Bytes f) <= max) l /\
  (e = ErrIo Io.EOF ->
   pf_Index <$> l = exp /\ Io.content r = encodePages l ++ Io.content (pfr_r rd')).
Proof.
  apply NewPageFrameReader_inv in Hnew as (Hg & Hm & _ & _ & Hc).
  eapply readPages_inv in Hread as (Hp & Hf & He); [|done]. rewrite Hm in Hf.
  split_and!; [done..|]. intros Heof. destruct (He Heof) as [-> Hc2]. split; [done|].
  unfold encodePages. rewrite Hc, Hc2, <- !app_assoc. done.
Qed.

Lemma pageframe_accepts_only_witness :
  let r := Io.mkReader [encodePages [mkPageFrame 3 [x61]]; [x00]] Io.EOF false in
  exists rd rd', NewPageFrameReader (Some r) [3] 4 = Ok rd /\
    readPages 1 (fun _ => 0%nat) rd = ([mkPageFrame 3 [x61]], ErrIo Io.EOF, rd') /\
    Io.content r = encodePages [mkPageFrame 3 [x61]] ++ Io.content (pfr_r rd').
Proof.
  intros r. eexists _, _. split; [vm_compute; reflexivity|].
  split; [vm_compute; reflexivity|].
  refine (proj2 (proj2 (proj2 (pageframe_accepts_only (fun _ => 0%nat) r [3] 4 _ _ 1
    [mkPageFrame 3 [x61]] (ErrIo Io.EOF) _ _)) _)); [vm_compute; reflexivity..|reflexivity].
Defined.

Lemma encodePages_prefix l l' k :
  (pf_Index <$> l) = (pf_Index <$> l') ->
  Forall (fun f => zlen (pf_Bytes f) <= int64_max) l ->
  Forall (fun f => zlen (pf_Bytes f) <= int64_max) l' ->
  encodePages l ++ k `prefix_of` encodePages l' -> l = l' /\ k = [].
Proof.
  unfold encodePages. rewrite <- !app_assoc. intros Hi Hl Hl' Hp%prefix_app_inv.
  revert l' Hi Hl Hl' Hp. induction l as [|f l IH]; intros [|f' l']; try done; intros Hi Hl Hl' Hp.
  - simpl in Hp. apply prefix_cons_inv_2 in Hp. by apply prefix_nil_inv in Hp.
  - rewrite !fmap_cons in *. injection Hi as Hi Hi'.
    apply Forall_cons in Hl as [Hf Hl]. apply Forall_cons in Hl' as [Hf' Hl'].
    rewrite !concat_cons in Hp. destruct f as [i d], f' as [i' d']. cbn [pf_Index pf_Bytes] in *. subst i'.
    unfold encodePage in Hp at 1 3. cbn [pf_Index pf_Bytes] in Hp.
    rewrite <- !app_comm_cons, <- !app_assoc in Hp. apply prefix_cons_inv_2 in Hp.
    apply prefix_app_inv in Hp. destruct Hp as [k2 Hk2]. rewrite <- !app_assoc in Hk2.
    apply app_inj_1 in Hk2 as [Hz Hk2]; [|by rewrite !length_be_put].
    assert (zlen d' = zlen d) as Hzz.
    { apply (f_equal be_get) in Hz. unfold int64_max, zlen in *. rewrite !be_get_put in Hz; lia. }
    apply app_inj_1 in Hk2 as [-> Hk2]; [|unfold zlen in Hzz; lia].
    destruct (IH l') as [-> ->]; auto. exists k2. by rewrite Hk2, <- !app_assoc.
Qed.

(** C19: a truncated stream is never taken for a complete one: if the transport
    delivers only a proper prefix of the encoding of some pages, reading those
    pages does not end with [EOF], wherever the cut is. *)
Theorem pageframe_truncation_detected (buf : nat -> nat) (l : list PageFrame) (max : Z)
    (r : Io.Reader) (rd rd' : PageFrameReader) (fuel : nat) (got : list PageFrame)
    (e : FrameError) (missing : bytes)
    (Hcut : encodePages l = Io.content r ++ missing) (Hmiss : missing <> [])
    (Hmax : max <= int64_max) (Hsize : Forall (fun f => zlen (pf_Bytes f) <= max) l)
    (Hnew : NewPageFrameReader (Some r) (pf_Index <$> l) max = Ok rd)
    (Hread : readPages fuel buf rd = (got, e, rd')) :
  e <> ErrIo Io.EOF.
Proof.
  intros ->. apply NewPageFrameReader_inv in Hnew as (Hg & Hm & _ & _ & Hc).
  eapply readPages_inv in Hread as (_ & Hf & He); [|done].
  destruct (He eq_refl) as [Hi Hc2]. rewrite Hm in Hf.
  assert (Hfit : forall k, Forall (fun f => zlen (pf_Bytes f) <= max) k ->
                 Forall (fun f => zlen (pf_Bytes f) <= int64_max) k).
  { intros k Hk. eapply Forall_impl; [done|]. simpl; lia. }
  destruct (encodePages_prefix got l (Io.content (pfr_r rd') ++ missing)) as [_ Hnil]; auto.
  - exists []. rewrite app_nil_r, Hcut, Hc, Hc2. unfold encodePages. by rewrite <- !app_assoc.
  - destruct (Io.content (pfr_r rd')), missing; done.
Qed.

Lemma pageframe_truncation_detected_witness :
  let r := Io.mkReader [encodeHeader ++ encodePage (mkPageFrame 0 [x61])] Io.EOF false in
  exists rd got e rd', NewPageFrameReader (Some r) [0] 4 = Ok rd /\
    readPages 1 (fun _ => 0%nat) rd = (got, e, rd') /\ e <> ErrIo Io.EOF.
Proof.
  intros r. eexists _, _, _, _. split; [vm_compute; reflexivity|].
  split; [vm_compute; reflexivity|].
  eapply (pageframe_truncation_detected (fun _ => 0%nat) [mkPageFrame 0 [x61]] 4 r _ _ 1%nat _ _
    [pageFrameTypeEnd]).
  - reflexivity.
  - discriminate.
  - int64_unfold; lia.
  - repeat constructor; unfold zlen; simpl; lia.
  - vm_compute; reflexivity.
  - vm_compute; reflexivity.
Defined.

(** What a writer reports as written is on the wire. Whatever short writes and
    errors the transport makes, if every page write and the end marker report
    success then the transport holds exactly the encoding of the pages, and their
    indexes are increasing and not negative. *)
Theorem pageframe_writer_sound (buf : nat -> nat) (w : Io.Writer) (l : list PageFrame)
    (pw : PageFrameWriter) (Hok : writePages buf w l = Ok pw) :
  Io.out (pfw_w pw) = Io.out w ++ encodePages l /\ pfw_closed pw = true /\
  StronglySorted Z.lt (pf_Index <$> l) /\ Forall (fun i => 0 <= i) (pf_Index <$> l).
Proof.
  unfold writePages in Hok. destruct (NewPageFrameWriter (Some w)) as [pw0|] eqn:HN; [|done].
  simpl in Hok. unfold NewPageFrameWriter in HN.
  destruct (writePageFrameFull w _) as [[e|] w1] eqn:HW; [done|]. injection HN as <-.
  apply writePageFrameFull_inv in HW. apply writeRest_inv in Hok as (Hs & Hf & Hc & Ho).
  split_and!; [|done|done|].
  - rewrite Ho. cbn [pfw_w]. rewrite HW. unfold encodePages, encodeHeader. by rewrite <- !app_assoc.
  - eapply Forall_impl; [done|]. by intros i [? _].
Qed.

Lemma pageframe_writer_sound_witness :
  exists pw, writePages (fun _ => 0%nat) (Io.mkWriter [] [Io.WAll; Io.WFail 17 (Io.Other 1)])
      [mkPageFrame 0 [x61]] = Err (ErrIo (Io.Other 1)) /\
    writePages (fun _ => 0%nat) (Io.mkWriter [] [Io.WAll; Io.WAll; Io.WFail 1 (Io.Other 1)])
      [mkPageFrame 0 [x61]] = Ok pw /\
    Io.out (pfw_w pw) = encodePages [mkPageFrame 0 [x61]].
Proof.
  eexists. split; [vm_compute; reflexivity|]. split; [vm_compute; reflexivity|].
  refine (proj1 (pageframe_writer_sound (fun _ => 0%nat)
    (Io.mkWriter [] [Io.WAll; Io.WAll; Io.WFail 1 (Io.Other 1)]) [mkPageFrame 0 [x61]] _ _)).
  vm_compute. reflexivity.
Defined.
