(* ===== verification/CachePath.v ===== *)
(** * Object identities and page files ([internal/cache/cache.go])

    [ObjectKey], the identity under which an object is cached, and the
    cache-relative path of the file of one version of one page. [Filepath] models
    what the sources use of [path/filepath] on a Unix system. The theorems say
    that the path of a page determines the object, the page and its version, so
    that two versions never share a file, and that it stays inside the cache
    directory. *)

From Stdlib Require Import Ascii.
From S2P Require Import Prelude GoStrings Sha256 S3Request.
Import Strings.

Module Filepath.

(** The segments of a path after [filepath.Clean]: empty and ["."] segments are
    dropped, [".."] removes the segment before it. [acc] holds the segments kept
    so far, last first. *)
Fixpoint cleanSegs (rooted : bool) (acc segs : list string) : list string :=
  match segs with
  | [] => rev acc
  | s :: segs =>
      if bool_decide (s = "") || bool_decide (s = ".") then cleanSegs rooted acc segs
      else if bool_decide (s = "..") then
        match acc with
        | t :: acc' =>
            if bool_decide (t = "..") then cleanSegs rooted (s :: acc) segs
            else cleanSegs rooted acc' segs
        | [] => if rooted then cleanSegs rooted acc segs else cleanSegs rooted [s] segs
        end
      else cleanSegs rooted (s :: acc) segs
  end.

Definition Clean (path : string) : string :=
  if bool_decide (path = "") then "."
  else
    let rooted := HasPrefix path "/" in
    let body := Join (cleanSegs rooted [] (Split path "/")) "/" in
    if rooted then "/" +:+ body else if bool_decide (body = "") then "." else body.

Fixpoint Join (elem : list string) : string :=
  match elem with
  | [] => ""
  | e :: rest => if bool_decide (e = "") then Join rest else Clean (Strings.Join elem "/")
  end.

Definition IsLocal (path : string) : bool :=
  if bool_decide (path = "") || HasPrefix path "/" then false
  else
    let p := Clean path in
    negb (bool_decide (p = "..") || HasPrefix p "../").

End Filepath.

(** [s[from:upto]]; [None] is the run-time panic of an index out of range. *)
Definition sliceString (s : string) (from upto : nat) : option string :=
  if (upto <=? String.length s)%nat then Some (stake (upto - from) (sdrop from s)) else None.

Definition nulByte : ascii := chr 0.

Definition ObjectKey (bucket key : string) : string :=
  Sha256.hex (Sha256.sum256 (bytes_of_string (bucket +:+ String nulByte key))).

Definition pagePath (objectID : string) (index : Z) : option string :=
  a ← sliceString objectID 0 2;
  b ← sliceString objectID 2 4;
  Some (Filepath.Join ["objects"; a; b; objectID; "page-" +:+ padZero 12 index]).

Definition pagePathForVersion (objectID : string) (index : Z) (etag : string) (epoch : Z)
    : option string :=
  let version := "epoch-" +:+ padZero 20 epoch +:+ "-etag-"
                 +:+ Sha256.hex (Sha256.sum256 (bytes_of_string etag)) in
  a ← sliceString objectID 0 2;
  b ← sliceString objectID 2 4;
  Some (Filepath.Join ["objects"; a; b; objectID; version; "page-" +:+ padZero 12 index]).

(** ** Facts about paths *)

(** A segment that [Clean] keeps as it is. *)
Definition plain (s : string) : bool :=
  negb (bool_decide (s = "")) && negb (bool_decide (s = ".")) && negb (bool_decide (s = ".."))
  && negb (ContainsByte s "/").

Lemma Split_plain s c : ContainsByte s c = false -> Split s c = [s].
Proof.
  induction s as [|d s IH]; cbn; [done|]. intros [-> Hs]%orb_false_iff. by rewrite IH.
Qed.

Lemma Split_append s c r :
  ContainsByte s c = false -> Split (s +:+ String c r) c = s :: Split r c.
Proof.
  induction s as [|d s IH]; cbn; [by rewrite Ascii.eqb_refl|].
  intros [-> Hs]%orb_false_iff. by rewrite IH.
Qed.

Lemma Split_Join l c :
  l <> [] -> Forall (fun s => ContainsByte s c = false) l -> Split (Join l (String c "")) c = l.
Proof.
  induction l as [|s l IH]; intros Hne Hf; [done|]. apply Forall_cons in Hf as [Hs Hf].
  destruct l as [|t l]; [by apply Split_plain|].
  change (Join (s :: t :: l) (String c "")) with (s +:+ String c (Join (t :: l) (String c ""))).
  by rewrite Split_append, IH.
Qed.

Lemma plain_inv s : plain s = true ->
  s <> "" /\ s <> "." /\ s <> ".." /\ ContainsByte s "/" = false.
Proof.
  unfold plain. rewrite !andb_true_iff, !negb_true_iff, !bool_decide_eq_false. tauto.
Qed.

Lemma cleanSegs_plain rooted acc l :
  Forall (fun s => plain s = true) l -> Filepath.cleanSegs rooted acc l = rev acc ++ l.
Proof.
  revert acc. induction l as [|s l IH]; intros acc Hf; cbn; [by rewrite app_nil_r|].
  apply Forall_cons in Hf as [(H1 & H2 & H3 & _)%plain_inv Hf].
  rewrite !bool_decide_false by done. cbn. rewrite IH by done. cbn. by rewrite <- app_assoc.
Qed.

Lemma Clean_plain l :
  l <> [] -> Forall (fun s => plain s = true) l ->
  Filepath.Clean (Join l "/") = Join l "/" /\ HasPrefix (Join l "/") "/" = false /\ Join l "/" <> "".
Proof.
  intros Hne Hf. assert (HJ : HasPrefix (Join l "/") "/" = false /\ Join l "/" <> "").
  { destruct l as [|s l]; [done|]. apply Forall_cons in Hf as [(H1 & _ & _ & H4)%plain_inv _].
    destruct s as [|c s]; [done|]. cbn in H4. apply orb_false_iff in H4 as [H4 _].
    assert (exists r, Join (String c s :: l) "/" = String c r) as [r ->] by (destruct l; eauto).
    split; [|done]. destruct (HasPrefix _ _) eqn:E; [|done].
    apply HasPrefix_true in E as [r' E]. cbn in E. injection E as -> _.
    by rewrite Ascii.eqb_refl in H4. }
  destruct HJ as [HJ1 HJ2]. split; [|done].
  unfold Filepath.Clean. rewrite bool_decide_false, HJ1, Split_Join by
    (done || (eapply Forall_impl; [done|]; by intros s (_ & _ & _ & ?)%plain_inv)).
  rewrite cleanSegs_plain by done. cbn [rev app]. by rewrite bool_decide_false.
Qed.

Lemma FJoin_plain l :
  l <> [] -> Forall (fun s => plain s = true) l -> Filepath.Join l = Join l "/".
Proof.
  intros Hne Hf. pose proof (Clean_plain l Hne Hf) as [HC _].
  destruct l as [|s l]; [done|]. pose proof (Forall_inv Hf) as (H1 & _)%plain_inv.
  cbn [Filepath.Join]. by rewrite bool_decide_false.
Qed.

Lemma ContainsByte_zeros n c : Ascii.eqb "0" c = false -> ContainsByte (zeros n) c = false.
Proof. intros H. induction n; cbn [zeros ContainsByte]; [done|]. by rewrite H. Qed.

Lemma padZero_no_byte w z c :
  0 <= z ->
  forallb (fun d => negb (Ascii.eqb d c)) ["0"; "1"; "2"; "3"; "4"; "5"; "6"; "7"; "8"; "9"]%char = true ->
  ContainsByte (padZero w z) c = false.
Proof.
  intros Hz Hc. unfold padZero. rewrite (proj2 (Z.ltb_ge _ _)) by lia.
  rewrite ContainsByte_append, (pretty_no_byte z c) by done.
  rewrite ContainsByte_zeros; [done|]. cbn in Hc. zbool. done.
Qed.

Lemma plain_prefix p s : plain p = true -> ContainsByte s "/" = false ->
  (2 < String.length p)%nat -> plain (p +:+ s) = true.
Proof.
  intros (H1 & H2 & H3 & H4)%plain_inv Hs Hl. unfold plain.
  rewrite ContainsByte_append, H4, Hs. rewrite !bool_decide_false; [done|..];
    intros E%(f_equal String.length); rewrite length_append in E; cbn in E; lia.
Qed.

(** An identity that [ObjectKey] can return: 64 hexadecimal digits. *)
Definition is_object_id (id : string) : Prop := exists bucket key, id = ObjectKey bucket key.

Lemma length_ObjectKey b k : String.length (ObjectKey b k) = 64%nat.
Proof. unfold ObjectKey. by rewrite length_hex, length_sum256. Qed.

Lemma ObjectKey_no_byte b k c :
  forallb (fun n => negb (Ascii.eqb (Sha256.hex_char n) c)) (N.of_nat <$> List.seq 0 16) = true ->
  ContainsByte (ObjectKey b k) c = false.
Proof. apply hex_no_byte. Qed.

Lemma ContainsByte_stake n s c : ContainsByte s c = false -> ContainsByte (stake n s) c = false.
Proof.
  revert s. induction n as [|n IH]; intros [|d s]; cbn; try done.
  intros [-> Hs]%orb_false_iff. cbn. auto.
Qed.

Lemma ContainsByte_sdrop n s c : ContainsByte s c = false -> ContainsByte (sdrop n s) c = false.
Proof.
  revert s. induction n as [|n IH]; intros [|d s]; cbn; try done.
  intros [_ Hs]%orb_false_iff. auto.
Qed.

Lemma length_stake n s : String.length (stake n s) = Nat.min n (String.length s).
Proof. revert s. induction n as [|n IH]; intros [|c s]; cbn; auto. Qed.

Lemma length_sdrop n s : String.length (sdrop n s) = (String.length s - n)%nat.
Proof. revert s. induction n as [|n IH]; intros [|c s]; cbn; auto. Qed.

Lemma plain_hexish s : String.length s <> 0%nat ->
  ContainsByte s "/" = false -> ContainsByte s "." = false -> plain s = true.
Proof.
  intros Hl Hs Hd. unfold plain. rewrite Hs.
  rewrite !bool_decide_false; [done|..]; intros ->; done.
Qed.

(** The path of a page version, segment by segment. *)
Definition pageSegments (id : string) (index : Z) (etag : string) (epoch : Z) : list string :=
  ["objects"; stake 2 id; stake 2 (sdrop 2 id); id;
   "epoch-" +:+ padZero 20 epoch +:+ "-etag-"
   +:+ Sha256.hex (Sha256.sum256 (bytes_of_string etag)); "page-" +:+ padZero 12 index].

Lemma pageSegments_plain id index etag epoch :
  is_object_id id -> 0 <= index -> 0 <= epoch ->
  Forall (fun s => plain s = true) (pageSegments id index etag epoch).
Proof.
  intros (b & k & ->) Hi He. pose proof (length_ObjectKey b k) as Hl.
  pose proof (ObjectKey_no_byte b k "/" eq_refl) as Hs.
  pose proof (ObjectKey_no_byte b k "." eq_refl) as Hd.
  repeat apply Forall_cons_2; [done|..|by apply Forall_nil].
  - apply plain_hexish; [rewrite length_stake, Hl; done|by apply ContainsByte_stake..].
  - apply plain_hexish; [rewrite length_stake, length_sdrop, Hl; done|
      by apply ContainsByte_stake, ContainsByte_sdrop..].
  - apply plain_hexish; [by rewrite Hl|done..].
  - apply plain_prefix; [done| |cbn; lia].
    rewrite !ContainsByte_append, padZero_no_byte, hex_no_byte by done. done.
  - apply plain_prefix; [done| |cbn; lia]. by rewrite padZero_no_byte.
Qed.

Lemma pagePathForVersion_eq id index etag epoch :
  is_object_id id -> 0 <= index -> 0 <= epoch ->
  pagePathForVersion id index etag epoch = Some (Join (pageSegments id index etag epoch) "/").
Proof.
  intros Hid Hi He. pose proof (pageSegments_plain id index etag epoch Hid Hi He) as Hp.
  destruct Hid as (b & k & ->). unfold pagePathForVersion, sliceString.
  rewrite length_ObjectKey. cbn [Nat.leb mbind option_bind Nat.sub sdrop].
  rewrite <- FJoin_plain by done. done.
Qed.

Lemma pageVersion_inj epoch epoch' h h' :
  0 <= epoch -> 0 <= epoch' ->
  "epoch-" +:+ padZero 20 epoch +:+ "-etag-" +:+ h
  = "epoch-" +:+ padZero 20 epoch' +:+ "-etag-" +:+ h' -> epoch = epoch' /\ h = h'.
Proof.
  intros He He' H. apply append_eq_cut in H as [_ H]; [|done].
  apply (f_equal (fun s => Cut s "-")) in H.
  change ("-etag-" +:+ h) with (String "-" ("etag-" +:+ h)) in H.
  change ("-etag-" +:+ h') with (String "-" ("etag-" +:+ h')) in H.
  rewrite !Cut_append in H by (by apply padZero_no_byte). injection H as Hp Hh.
  split; [by apply (padZero_inj 20)|]. done.
Qed.

Lemma pagePath_inj id id' etag etag' index index' epoch epoch' :
  is_object_id id -> is_object_id id' -> 0 <= index -> 0 <= index' -> 0 <= epoch -> 0 <= epoch' ->
  pagePathForVersion id index etag epoch = pagePathForVersion id' index' etag' epoch' ->
  id = id' /\ index = index' /\ epoch = epoch' /\
  Sha256.sum256 (bytes_of_string etag) = Sha256.sum256 (bytes_of_string etag').
Proof.
  intros Hid Hid' Hi Hi' He He'.
  pose proof (pageSegments_plain id index etag epoch Hid Hi He) as Hp.
  pose proof (pageSegments_plain id' index' etag' epoch' Hid' Hi' He') as Hp'.
  rewrite !pagePathForVersion_eq by done.
  intros H%(inj Some). apply (f_equal (fun s => Split s "/")) in H. cbv beta in H.
  assert (HS : forall l, l <> [] -> Forall (fun s => plain s = true) l ->
               Split (Join l "/") "/" = l).
  { intros l Hl Hf. apply Split_Join; [done|].
    eapply Forall_impl; [exact Hf|]. by intros s (_ & _ & _ & ?)%plain_inv. }
  rewrite !HS in H by done.
  pose proof (f_equal (fun l => nth 3 l "") H) as Hid3.
  pose proof (f_equal (fun l => nth 4 l "") H) as Hv.
  pose proof (f_equal (fun l => nth 5 l "") H) as Hx. unfold pageSegments in Hid3, Hv, Hx.
  cbn [nth] in Hid3, Hv, Hx.
  apply (pageVersion_inj epoch epoch') in Hv as [-> Hh]; [|done..].
  apply append_eq_cut in Hx as [_ Hx]; [|done]. apply padZero_inj in Hx; [|done..].
  split_and!; [done..|]. by apply hex_inj.
Qed.

(** The file of a page version is determined by, and determines, the object,
    the page index, the epoch and the digest of the ETag: distinct versions never
    share a file. The path never leaves the cache directory, and computing it for
    an identity made by [ObjectKey] does not panic. *)
Theorem pagePathForVersion_injective (id id' etag etag' : string) (index index' epoch epoch' : Z)
    (Hid : is_object_id id) (Hid' : is_object_id id')
    (Hi : 0 <= index) (Hi' : 0 <= index') (He : 0 <= epoch) (He' : 0 <= epoch') :
  (exists p, pagePathForVersion id index etag epoch = Some p /\ Filepath.IsLocal p = true) /\
  (pagePathForVersion id index etag epoch = pagePathForVersion id' index' etag' epoch' ->
   id = id' /\ index = index' /\ epoch = epoch' /\
   Sha256.sum256 (bytes_of_string etag) = Sha256.sum256 (bytes_of_string etag')).
Proof.
  split; [|by apply pagePath_inj].
  pose proof (pageSegments_plain id index etag epoch Hid Hi He) as Hp.
  rewrite pagePathForVersion_eq by done. eexists. split; [done|]. unfold Filepath.IsLocal.
  destruct (Clean_plain (pageSegments id index etag epoch)) as (-> & -> & Hne); [done..|].
  by rewrite !bool_decide_false.
Qed.

Lemma pagePathForVersion_injective_witness :
  exists p, pagePathForVersion (ObjectKey "b" "k") 7 "e" 2 = Some p /\ Filepath.IsLocal p = true.
Proof.
  refine (proj1 (pagePathForVersion_injective (ObjectKey "b" "k") (ObjectKey "b" "k") "e" "e"
    7 7 2 2 _ _ _ _ _ _)); [by exists "b", "k"|by exists "b", "k"|lia..].
Defined.

(** Two objects whose bucket names contain no NUL byte have the same identity
    only if SHA-256 collides on two different texts. *)
Theorem ObjectKey_injective (b b' k k' : string)
    (Hb : ContainsByte b nulByte = false) (Hb' : ContainsByte b' nulByte = false)
    (Hid : ObjectKey b k = ObjectKey b' k') :
  (b = b' /\ k = k') \/
  exists m m', m <> m' /\ Sha256.sum256 m = Sha256.sum256 m'.
Proof.
  apply hex_inj in Hid.
  destruct (decide (b +:+ String nulByte k = b' +:+ String nulByte k')) as [E|E].
  - left. apply (f_equal (fun s => Cut s nulByte)) in E. rewrite !Cut_append in E by done.
    by injection E as -> ->.
  - right. eexists _, _. split; [|exact Hid].
    intros H%(f_equal String.string_of_list_byte). unfold bytes_of_string in H.
    by rewrite !String.string_of_list_byte_of_string in H.
Qed.

Lemma ObjectKey_injective_witness :
  ("photos" = "photos" /\ "a" = "a") \/
  exists m m', m <> m' /\ Sha256.sum256 m = Sha256.sum256 m'.
Proof. apply (ObjectKey_injective "photos" "photos" "a" "a"); reflexivity. Defined.

(** A NUL byte in a bucket name makes identities ambiguous: whatever the hash,
    the text of a bucket [x NUL y] with key [z] is also that of bucket [x] with key
    [y NUL z], and both are targets that a request path can name. *)
Theorem ObjectKey_nul_ambiguous (x y z : string) :
  ObjectKey (x +:+ String nulByte y) z = ObjectKey x (y +:+ String nulByte z) /\
  ParsePathStyle "/a%00b/c" = Some (mkTarget (String "a" (String nulByte "b")) "c") /\
  ParsePathStyle "/a/b%00c" = Some (mkTarget "a" (String "b" (String nulByte "c"))).
Proof.
  split; [|by vm_compute]. unfold ObjectKey. by rewrite append_assoc.
Qed.
