(* ===== verification/CacheDB.v ===== *)
(** * The metadata database ([internal/cache/cache.go])

    The three tables of the cache database as finite maps on their primary keys
    and every SQL statement of the sources as a function on them, constraints
    (the foreign key with its cascade, the unique bucket and key) included. The
    program runs each write statement, and each transaction, under one lock:
    [db_step] is one of them, with any arguments, and [rtc db_step] is any
    interleaving of any number of operations. The invariants here hold in every
    such interleaving. *)

From Stdlib Require Import Ascii.
From stdpp Require Import relations.
From S2P Require Import Prelude GoStrings CachePath.

(** ** Tables *)

Record GenRow := mkGenRow { g_epoch : Z; g_updated_at : Z }.

Record ObjectRow := mkObjectRow {
  o_bucket : string; o_key : string; o_etag : string; o_size : Z; o_page_size : Z;
  o_headers_json : string; o_epoch : Z; o_updated_at : Z }.

Record PageRow := mkPageRow {
  p_etag : string; p_epoch : Z; p_size : Z; p_path : string;
  p_created_at : Z; p_last_accessed_at : Z }.

Record DB := mkDB {
  generations : gmap string GenRow;
  objects : gmap string ObjectRow;
  pages : gmap (string * Z) PageRow }.

Definition emptyDB : DB := mkDB ∅ ∅ ∅.

(** [Page] of the sources: the columns a query of [pages] selects. *)
Record Page := mkPage {
  ObjectID : string; Index : Z; ETag : string; Epoch : Z; Size : Z; Path : string }.

Definition pageOf (k : string * Z) (r : PageRow) : Page :=
  mkPage k.1 k.2 (p_etag r) (p_epoch r) (p_size r) (p_path r).

(** ** Statements that change the database *)

(** [INSERT INTO object_generations (id, epoch, updated_at) VALUES (?, 0, ?)
    ON CONFLICT(id) DO NOTHING] *)
Definition sqlEnsureGeneration (id : string) (now : Z) (db : DB) : DB :=
  match generations db !! id with
  | Some _ => db
  | None => mkDB (<[id := mkGenRow 0 now]> (generations db)) (objects db) (pages db)
  end.

(** [UPDATE object_generations SET epoch = ?, updated_at = ? WHERE id = ?] *)
Definition sqlAdvanceGeneration (id : string) (epoch now : Z) (db : DB) : DB :=
  match generations db !! id with
  | Some _ => mkDB (<[id := mkGenRow epoch now]> (generations db)) (objects db) (pages db)
  | None => db
  end.

(** Another row already has this bucket and key: [UNIQUE(bucket, key)]. *)
Definition uniqueViolated (id bucket key : string) (db : DB) : Prop :=
  map_Exists (fun i o => i <> id /\ o_bucket o = bucket /\ o_key o = key) (objects db).

#[export] Instance uniqueViolated_dec id bucket key db : Decision (uniqueViolated id bucket key db).
Proof. unfold uniqueViolated. apply _. Defined.

(** [INSERT INTO objects ... ON CONFLICT(id) DO UPDATE SET ...]; [None] is a
    constraint error, which leaves the table as it was. *)
Definition sqlUpsertObject (id : string) (o : ObjectRow) (db : DB) : option DB :=
  if bool_decide (uniqueViolated id (o_bucket o) (o_key o) db) then None
  else Some (mkDB (generations db) (<[id := o]> (objects db)) (pages db)).

(** [DELETE FROM objects WHERE id = ?], the pages following by the cascade. *)
Definition sqlDeleteObject (id : string) (db : DB) : DB :=
  mkDB (generations db) (delete id (objects db))
    (filter (fun kr => kr.1.1 <> id) (pages db)).

(** [INSERT INTO pages ... ON CONFLICT(object_id, page_index) DO UPDATE SET ...]:
    an existing row keeps its [created_at]. [None] is a foreign key error. *)
Definition sqlUpsertPage (p : Page) (now : Z) (db : DB) : option DB :=
  match objects db !! ObjectID p with
  | None => None
  | Some _ =>
      let k := (ObjectID p, Index p) in
      let created := from_option p_created_at now (pages db !! k) in
      Some (mkDB (generations db) (objects db)
        (<[k := mkPageRow (ETag p) (Epoch p) (Size p) (Path p) created now]> (pages db)))
  end.

(** [DELETE FROM pages WHERE object_id = ? AND page_index = ?], with the number
    of rows affected being positive or not. *)
Definition sqlDeletePage (id : string) (index : Z) (db : DB) : bool * DB :=
  (bool_decide (is_Some (pages db !! (id, index))),
   mkDB (generations db) (objects db) (delete (id, index) (pages db))).

(** [DELETE FROM pages WHERE] every selected column equals that of [p]. *)
Definition sqlDeletePageIfCurrent (p : Page) (db : DB) : bool * DB :=
  let k := (ObjectID p, Index p) in
  match pages db !! k with
  | Some r =>
      if bool_decide (p_etag r = ETag p) && (p_epoch r =? Epoch p) && (p_size r =? Size p)
         && bool_decide (p_path r = Path p)
      then (true, mkDB (generations db) (objects db) (delete k (pages db)))
      else (false, db)
  | None => (false, db)
  end.

(** [UPDATE pages SET last_accessed_at = ? WHERE object_id = ? AND page_index = ?] *)
Definition sqlTouchPage (id : string) (index at_ : Z) (db : DB) : DB :=
  match pages db !! (id, index) with
  | Some r => mkDB (generations db) (objects db)
      (<[(id, index) := mkPageRow (p_etag r) (p_epoch r) (p_size r) (p_path r)
                          (p_created_at r) at_]> (pages db))
  | None => db
  end.

(** An object row of [deleteOldPageLessObjects]'s [victims]. *)
Definition pageLessVictim (olderThan : Z) (db : DB) (id : string) (o : ObjectRow) : Prop :=
  o_updated_at o < olderThan /\ ~ map_Exists (fun k _ => k.1 = id) (pages db).

(** A row of [deleteOldUnreferencedGenerations]'s [victims]. *)
Definition unreferencedVictim (olderThan : Z) (db : DB) (id : string) (g : GenRow) : Prop :=
  g_updated_at g < olderThan /\ objects db !! id = None.

#[export] Instance pageLessVictim_dec t db id o : Decision (pageLessVictim t db id o).
Proof. unfold pageLessVictim. apply _. Defined.
#[export] Instance unreferencedVictim_dec t db id g : Decision (unreferencedVictim t db id g).
Proof. unfold unreferencedVictim. apply _. Defined.

(** [LIMIT] without an order: SQLite scans in an order of its own, here [scan], a
    list of row identifiers, of which the first [limit] that qualify are taken. *)
Definition gcVictims {R} (P : string -> R -> Prop) `{!forall i r, Decision (P i r)}
    (rows : gmap string R) (scan : list string) (limit : Z) : list string :=
  take (Z.to_nat limit)
    (filter (fun i => Is_true (from_option (fun r => bool_decide (P i r)) false (rows !! i))) scan).

Definition sqlDeleteOldPageLessObjects (scan : list string) (olderThan limit : Z) (db : DB)
    : Z * DB :=
  let victims := gcVictims (pageLessVictim olderThan db) (objects db) scan limit in
  (zlen victims, foldr sqlDeleteObject db victims).

Definition sqlDeleteOldUnreferencedGenerations (scan : list string) (olderThan limit : Z) (db : DB)
    : Z * DB :=
  let victims := gcVictims (unreferencedVictim olderThan db) (generations db) scan limit in
  (zlen victims, mkDB (foldr delete (generations db) victims) (objects db) (pages db)).

(** [INSERT OR IGNORE INTO object_generations SELECT id, epoch, updated_at FROM objects] *)
Definition sqlInitGenerations (db : DB) : DB :=
  mkDB (generations db ∪ ((fun o => mkGenRow (o_epoch o) (o_updated_at o)) <$> objects db))
    (objects db) (pages db).

(** ** Queries *)

Definition sqlPage (db : DB) (id : string) (index : Z) : option Page :=
  pageOf (id, index) <$> pages db !! (id, index).

(** [ORDER BY page_index] *)
Definition byIndex (a b : Page) : Prop := Index a <= Index b.
#[export] Instance byIndex_dec a b : Decision (byIndex a b).
Proof. unfold byIndex. apply _. Defined.

Definition sqlListPages (db : DB) (id : string) : list Page :=
  merge_sort byIndex
    (uncurry pageOf <$> filter (fun kr => kr.1.1 = id) (map_to_list (pages db))).

(** [ORDER BY last_accessed_at, created_at, object_id, page_index], text compared
    byte by byte. *)
Definition lruOrder (a b : (string * Z) * PageRow) : Prop :=
  p_last_accessed_at a.2 < p_last_accessed_at b.2 \/
  p_last_accessed_at a.2 = p_last_accessed_at b.2 /\
  (p_created_at a.2 < p_created_at b.2 \/
   p_created_at a.2 = p_created_at b.2 /\
   (a.1.1 <> b.1.1 /\ String.le a.1.1 b.1.1 \/ a.1.1 = b.1.1 /\ a.1.2 <= b.1.2)).
#[export] Instance lruOrder_dec a b : Decision (lruOrder a b).
Proof. unfold lruOrder. apply _. Defined.

Definition sqlOldestPages (db : DB) (limit : Z) : list Page :=
  uncurry pageOf <$> take (Z.to_nat limit) (merge_sort lruOrder (map_to_list (pages db))).

Definition inBucket (db : DB) (bucket : string) (kr : (string * Z) * PageRow) : Prop :=
  o_bucket <$> objects db !! kr.1.1 = Some bucket.

#[export] Instance inBucket_dec db bucket kr : Decision (inBucket db bucket kr).
Proof. unfold inBucket. apply _. Defined.

Definition sqlOldestPagesForBucket (db : DB) (bucket : string) (limit : Z) : list Page :=
  uncurry pageOf <$> take (Z.to_nat limit)
    (merge_sort lruOrder (filter (inBucket db bucket) (map_to_list (pages db)))).

(** [SELECT o.etag, g.epoch, o.bucket FROM objects o JOIN object_generations g
    ON g.id = o.id WHERE o.id = ?] *)
Definition sqlCurrent (db : DB) (id : string) : option (string * Z * string) :=
  o ← objects db !! id; g ← generations db !! id; Some (o_etag o, g_epoch g, o_bucket o).

(** [SELECT SUM(size) FROM pages], and the sums per bucket of the join. *)
Definition pagesTotal (db : DB) : Z := sum_by (fun kr => p_size kr.2) (map_to_list (pages db)).

Definition bucketTotal (db : DB) (bucket : string) : Z :=
  sum_by (fun kr => p_size kr.2) (filter (inBucket db bucket) (map_to_list (pages db))).

Definition bucketsOf (db : DB) : list string :=
  remove_dups (omap (fun kr => o_bucket <$> objects db !! kr.1.1) (map_to_list (pages db))).

(** ** Transactions *)

(** The next epoch of an invalidation: one more than the current one, or at least
    the epoch a peer asks for. *)
Definition nextEpochOf (currentEpoch minEpoch : Z) : Z :=
  if minEpoch >? 0 then if currentEpoch <? minEpoch then minEpoch else currentEpoch
  else add64 currentEpoch 1.

(** Whether the object row goes: a peer's invalidation spares a newer object. *)
Definition shouldDeleteObject (obj : option ObjectRow) (minEpoch : Z) : bool :=
  match obj with
  | None => false
  | Some o => if minEpoch >? 0 then o_epoch o <=? minEpoch else true
  end.

(** What the transaction of [InvalidateObject] returns when every statement
    succeeds: the next epoch, the bucket of the object row it read, the pages it
    deleted, and the database it commits. *)
Definition invalidateTx (id : string) (minEpoch now : Z) (db : DB)
    : Z * string * list Page * DB :=
  let db1 := sqlEnsureGeneration id now db in
  let currentEpoch := from_option g_epoch 0 (generations db1 !! id) in
  let nextEpoch := nextEpochOf currentEpoch minEpoch in
  let obj := objects db1 !! id in
  let del := shouldDeleteObject obj minEpoch in
  let deletedPages := if del then sqlListPages db1 id else [] in
  let db2 := if del then sqlDeleteObject id db1 else db1 in
  let db3 := if nextEpoch >? currentEpoch then sqlAdvanceGeneration id nextEpoch now db2 else db2 in
  (nextEpoch, from_option o_bucket "" obj, deletedPages, db3).

(** Why a page may not be committed. *)
Inductive CommitError :=
| MetadataNotCurrent
| EpochChanged (from to : Z)
| ETagChanged (from to : string).

(** The check that [validatePageCommit] and [putPageIfCurrent] share. *)
Definition checkCurrent (db : DB) (id etag : string) (expectedEpoch : Z)
    : result CommitError string :=
  match sqlCurrent db id with
  | None => Err MetadataNotCurrent
  | Some (currentETag, currentEpoch, bucket) =>
      if negb (currentEpoch =? expectedEpoch) then Err (EpochChanged expectedEpoch currentEpoch)
      else if negb (bool_decide (currentETag = etag)) then Err (ETagChanged etag currentETag)
      else Ok bucket
  end.

(** The transaction of [putPageIfCurrent] when every statement succeeds. *)
Definition putPageTx (p : Page) (expectedEpoch now : Z) (db : DB)
    : result CommitError (string * Z * DB) :=
  match checkCurrent db (ObjectID p) (ETag p) expectedEpoch with
  | Err e => Err e
  | Ok bucket =>
      let previousSize := from_option p_size 0 (pages db !! (ObjectID p, Index p)) in
      match sqlUpsertPage p now db with
      | None => Err MetadataNotCurrent
      | Some db' => Ok (bucket, previousSize, db')
      end
  end.

(** ** Interleavings

    One step is one write statement or one transaction of one operation, with the
    arguments the operation can give it. [T] is a time horizon: generations are
    written with times from [T] on and collected only when older than some time
    up to [T]. [any_step] has no such restriction. *)
Inductive db_step (T : Z) : DB -> DB -> Prop :=
| step_ensure id now db :
    is_object_id id -> T <= now ->
    db_step T db (sqlEnsureGeneration id now db)
| step_object o db db' :
    o_bucket o <> "" -> o_key o <> "" -> o_etag o <> "" -> 0 <= o_size o -> 0 < o_page_size o ->
    0 <= o_epoch o ->
    sqlUpsertObject (ObjectKey (o_bucket o) (o_key o)) o db = Some db' ->
    db_step T db db'
| step_invalidate bucket key minEpoch now db :
    0 <= minEpoch -> T <= now ->
    db_step T db (invalidateTx (ObjectKey bucket key) minEpoch now db).2
| step_put_page p now db b sz db' :
    0 <= Index p -> 0 <= Size p ->
    pagePathForVersion (ObjectID p) (Index p) (ETag p) (Epoch p) = Some (Path p) ->
    putPageTx p (Epoch p) now db = Ok (b, sz, db') ->
    db_step T db db'
| step_delete_page id index db : db_step T db (sqlDeletePage id index db).2
| step_delete_page_if_current p db : db_step T db (sqlDeletePageIfCurrent p db).2
| step_touch id index at_ db : db_step T db (sqlTouchPage id index at_ db)
| step_gc_objects scan t limit db :
    db_step T db (sqlDeleteOldPageLessObjects scan t limit db).2
| step_gc_generations scan t limit db :
    t <= T -> db_step T db (sqlDeleteOldUnreferencedGenerations scan t limit db).2.

Definition any_step (db db' : DB) : Prop := exists T, db_step T db db'.

(** ** The database invariant *)

Definition object_ok (id : string) (o : ObjectRow) : Prop :=
  id = ObjectKey (o_bucket o) (o_key o) /\ o_bucket o <> "" /\ o_key o <> "" /\ o_etag o <> "" /\
  0 <= o_size o /\ 0 < o_page_size o /\ 0 <= o_epoch o.

Definition generation_ok (id : string) (g : GenRow) : Prop :=
  is_object_id id /\ 0 <= g_epoch g.

(** A page row has its object and generation, its epoch is not ahead of the
    generation and its path is that of its version. *)
Definition page_ok (db : DB) (k : string * Z) (r : PageRow) : Prop :=
  is_Some (objects db !! k.1) /\ 0 <= k.2 /\ 0 <= p_epoch r /\ 0 <= p_size r /\
  (exists g, generations db !! k.1 = Some g /\ p_epoch r <= g_epoch g) /\
  pagePathForVersion k.1 k.2 (p_etag r) (p_epoch r) = Some (p_path r).

Record db_ok (db : DB) : Prop := {
  ok_objects : map_Forall object_ok (objects db);
  ok_generations : map_Forall generation_ok (generations db);
  ok_pages : map_Forall (page_ok db) (pages db) }.

(** ** The eviction order is a total order *)

#[export] Instance lruOrder_total : Total lruOrder.
Proof.
  intros [[i x] r] [[j y] q]. unfold lruOrder. simpl.
  assert (Hij : i <> j /\ String.le i j \/ i = j /\ x <= y \/ j <> i /\ String.le j i \/ j = i /\ y <= x).
  { destruct (decide (i = j)) as [->|]; [destruct (Z.le_ge_cases x y); auto 6|].
    destruct (total String.le i j); auto 6. }
  destruct (Z.lt_trichotomy (p_last_accessed_at r) (p_last_accessed_at q)) as [|[|]];
    [by left; left| |by right; left].
  destruct (Z.lt_trichotomy (p_created_at r) (p_created_at q)) as [|[|]]; intuition.
Qed.

#[export] Instance lruOrder_trans : Transitive lruOrder.
Proof.
  intros [[i x] a] [[j y] b] [[k z] c]. unfold lruOrder. simpl.
  intros [H1|[H1 [H2|[H2 [[H3 H3']|[-> H3]]]]]] [K1|[K1 [K2|[K2 [[K3 K3']|[-> K3]]]]]]; try (left; lia);
    right; (split; [lia|]); try (left; lia); right; (split; [lia|]).
  - left. split; [|by transitivity j]. intros ->. apply H3. by apply (anti_symm String.le).
  - by left.
  - by left.
  - right. split; [done|lia].
Qed.

(** ** Each statement keeps the invariant *)

Lemma emptyDB_ok : db_ok emptyDB.
Proof. constructor; apply map_Forall_empty. Qed.

Lemma sqlEnsureGeneration_ok id now db :
  is_object_id id -> db_ok db -> db_ok (sqlEnsureGeneration id now db).
Proof.
  intros Hid [Ho Hg Hp]. unfold sqlEnsureGeneration.
  destruct (generations db !! id) eqn:E; [done|]. constructor; simpl; [done|..].
  - apply map_Forall_insert_2; [by split|done].
  - intros k r Hk. destruct (Hp k r Hk) as (? & ? & ? & ? & (g & Hgk & ?) & ?).
    split_and!; try done. exists g. simpl. split; [|done].
    rewrite lookup_insert_ne; [done|]. intros Heq. congruence.
Qed.

Lemma sqlUpsertObject_ok o db db' :
  o_bucket o <> "" -> o_key o <> "" -> o_etag o <> "" -> 0 <= o_size o -> 0 < o_page_size o ->
  0 <= o_epoch o ->
  sqlUpsertObject (ObjectKey (o_bucket o) (o_key o)) o db = Some db' -> db_ok db -> db_ok db'.
Proof.
  intros ? ? ? ? ? ? H [Ho Hg Hp]. unfold sqlUpsertObject in H.
  case_bool_decide; [done|]. injection H as <-. constructor; simpl; [|done|].
  - apply map_Forall_insert_2; [by split_and!|done].
  - intros k r Hk. destruct (Hp k r Hk) as ((? & ?) & ? & ? & ? & ? & ?).
    split_and!; try done. simpl.
    destruct (decide (ObjectKey (o_bucket o) (o_key o) = k.1)) as [<-|];
      [rewrite lookup_insert_eq; eauto|rewrite lookup_insert_ne by done; eauto].
Qed.

Lemma sqlDeleteObject_ok id db : db_ok db -> db_ok (sqlDeleteObject id db).
Proof.
  intros [Ho Hg Hp]. constructor; simpl; [|done|].
  - intros i o Hi. apply (Ho i o). by apply lookup_delete_Some in Hi as [_ ?].
  - intros k r Hk. apply map_lookup_filter_Some in Hk as [Hk Hne]. simpl in Hne.
    destruct (Hp k r Hk) as (? & ? & ? & ? & ? & ?).
    split_and!; try done. simpl. by rewrite lookup_delete_ne.
Qed.

Lemma sqlAdvanceGeneration_ok id epoch now db :
  (forall g, generations db !! id = Some g -> g_epoch g <= epoch) ->
  db_ok db -> db_ok (sqlAdvanceGeneration id epoch now db).
Proof.
  intros He [Ho Hg Hp]. unfold sqlAdvanceGeneration.
  destruct (generations db !! id) as [g0|] eqn:E; [|done]. specialize (He g0 eq_refl).
  destruct (Hg id g0 E) as [Hid ?].
  constructor; simpl; [done|..].
  - apply map_Forall_insert_2; [split; simpl; [done|lia]|done].
  - intros k r Hk. destruct (Hp k r Hk) as (? & ? & ? & ? & (g & Hgk & ?) & ?).
    split_and!; try done. simpl. destruct (decide (id = k.1)) as [->|].
    + rewrite lookup_insert_eq. eexists. split; [done|]. simpl. simplify_eq. lia.
    + rewrite lookup_insert_ne by done. eauto.
Qed.

Lemma invalidateTx_ok bucket key minEpoch now db :
  db_ok db -> db_ok (invalidateTx (ObjectKey bucket key) minEpoch now db).2.
Proof.
  intros Hdb. unfold invalidateTx. set (id := ObjectKey bucket key).
  assert (H1 : db_ok (sqlEnsureGeneration id now db)).
  { apply sqlEnsureGeneration_ok; [|done]. by eexists _, _. }
  cbv zeta. simpl. set (db1 := sqlEnsureGeneration id now db) in *.
  set (del := shouldDeleteObject (objects db1 !! id) minEpoch).
  assert (H2 : db_ok (if del then sqlDeleteObject id db1 else db1) /\
               generations (if del then sqlDeleteObject id db1 else db1) = generations db1)
    by (destruct del; [split; [by apply sqlDeleteObject_ok|done]|by split]).
  destruct H2 as [H2 Hg]. destruct (nextEpochOf _ _ >? _) eqn:E; [|done].
  apply sqlAdvanceGeneration_ok; [|done]. intros g Hgid. rewrite Hg in Hgid.
  rewrite Hgid in E. simpl in E. rewrite Hgid. simpl. lia.
Qed.

Lemma checkCurrent_ok db id etag e b :
  checkCurrent db id etag e = Ok b ->
  exists o g, objects db !! id = Some o /\ generations db !! id = Some g /\
    g_epoch g = e /\ o_etag o = etag /\ o_bucket o = b.
Proof.
  unfold checkCurrent, sqlCurrent.
  destruct (objects db !! id) as [o|]; [|done]. destruct (generations db !! id) as [g|]; [|done].
  simpl. destruct (g_epoch g =? e) eqn:E; [|done]. simpl. case_bool_decide; [|done]. simpl.
  intros [= <-]. zbool. eauto 10.
Qed.

Lemma putPageTx_inv p e now db b sz db' :
  putPageTx p e now db = Ok (b, sz, db') ->
  exists o g, objects db !! ObjectID p = Some o /\ generations db !! ObjectID p = Some g /\
    g_epoch g = e /\ o_etag o = ETag p /\ o_bucket o = b /\
    sz = from_option p_size 0 (pages db !! (ObjectID p, Index p)) /\
    sqlUpsertPage p now db = Some db'.
Proof.
  unfold putPageTx. destruct (checkCurrent _ _ _ _) as [b'|] eqn:HC; [|done].
  apply checkCurrent_ok in HC as (o & g & ? & ? & ? & ? & ?).
  destruct (sqlUpsertPage p now db) eqn:HU; [|done]. intros [= <- <- <-]. eauto 10.
Qed.

Lemma sqlUpsertPage_pages p now db db' :
  sqlUpsertPage p now db = Some db' ->
  generations db' = generations db /\ objects db' = objects db /\
  exists created, pages db' = <[(ObjectID p, Index p) :=
    mkPageRow (ETag p) (Epoch p) (Size p) (Path p) created now]> (pages db).
Proof.
  unfold sqlUpsertPage. destruct (objects db !! _); [|done]. intros [= <-]. simpl. eauto.
Qed.

Lemma putPageTx_ok p now db b sz db' :
  0 <= Index p -> 0 <= Size p ->
  pagePathForVersion (ObjectID p) (Index p) (ETag p) (Epoch p) = Some (Path p) ->
  putPageTx p (Epoch p) now db = Ok (b, sz, db') -> db_ok db -> db_ok db'.
Proof.
  intros Hi Hs Hpath H [Ho Hg Hp].
  apply putPageTx_inv in H as (o & g & Hoo & Hgg & He & _ & _ & _ & HU).
  apply sqlUpsertPage_pages in HU as (HG & HO & created & HP).
  assert (Hsame : forall k r, page_ok db k r -> page_ok db' k r).
  { intros k r. unfold page_ok. by rewrite HG, HO. }
  constructor; rewrite ?HG, ?HO, ?HP; [done..|].
  apply map_Forall_insert_2.
  - apply Hsame. pose proof (proj2 (Hg _ _ Hgg)). unfold page_ok. simpl.
    split_and!; [eauto|done|lia|done| |done]. exists g. split; [done|lia].
  - intros k r Hk. by apply Hsame, Hp.
Qed.

(** Deleting page rows keeps the invariant. *)
Lemma db_ok_fewer_pages db ps :
  ps ⊆ pages db -> db_ok db -> db_ok (mkDB (generations db) (objects db) ps).
Proof.
  intros Hsub [Ho Hg Hp]. constructor; simpl; [done..|].
  intros k r Hk. apply (Hp k r). by eapply lookup_weaken.
Qed.

Lemma sqlDeletePageIfCurrent_pages p db :
  exists ps, (sqlDeletePageIfCurrent p db).2 = mkDB (generations db) (objects db) ps /\
    ps ⊆ pages db.
Proof.
  unfold sqlDeletePageIfCurrent. destruct (pages db !! _); [destruct (_ && _)|]; simpl.
  - eexists. split; [done|]. apply delete_subseteq.
  - exists (pages db). by destruct db.
  - exists (pages db). by destruct db.
Qed.

Lemma sqlTouchPage_ok id index at_ db : db_ok db -> db_ok (sqlTouchPage id index at_ db).
Proof.
  intros [Ho Hg Hp]. unfold sqlTouchPage. destruct (pages db !! (id, index)) as [r|] eqn:E; [|done].
  constructor; simpl; [done..|]. apply map_Forall_insert_2; [|done]. apply (Hp _ _ E).
Qed.

Lemma gcVictims_elem {R} (P : string -> R -> Prop) `{!forall i r, Decision (P i r)} rows scan limit i :
  i ∈ gcVictims P rows scan limit -> exists r, rows !! i = Some r /\ P i r.
Proof.
  unfold gcVictims. intros Hi%subseteq_take%list_elem_of_filter. destruct Hi as [Hi _].
  destruct (rows !! i) as [r|]; simpl in Hi; [|done].
  exists r. split; [done|]. by apply bool_decide_unpack in Hi.
Qed.

Lemma foldr_delete_lookup {R} (l : list string) (m : gmap string R) i x :
  foldr delete m l !! i = Some x <-> (i ∉ l) /\ m !! i = Some x.
Proof.
  induction l as [|j l IH]; simpl; [set_solver|].
  rewrite lookup_delete_Some, IH. set_solver.
Qed.

Lemma sqlDeleteOldUnreferencedGenerations_ok scan t limit db :
  db_ok db -> db_ok (sqlDeleteOldUnreferencedGenerations scan t limit db).2.
Proof.
  intros [Ho Hg Hp]. unfold sqlDeleteOldUnreferencedGenerations. constructor; simpl; [done|..].
  - intros i g Hi. apply (Hg i g). by apply foldr_delete_lookup in Hi as [_ ?].
  - intros k r Hk. destruct (Hp k r Hk) as ((o & Hok) & ? & ? & ? & (g & Hgk & ?) & ?).
    split_and!; try done. exists g. simpl. split; [|done].
    apply foldr_delete_lookup. split; [|done].
    intros (g' & _ & _ & Hnone)%gcVictims_elem. congruence.
Qed.

Lemma foldr_sqlDeleteObject_ok db victims : db_ok db -> db_ok (foldr sqlDeleteObject db victims).
Proof. intros Hdb. induction victims; simpl; [done|]. by apply sqlDeleteObject_ok. Qed.

Lemma db_step_ok T db db' : db_step T db db' -> db_ok db -> db_ok db'.
Proof.
  intros H Hdb. destruct H.
  - by apply sqlEnsureGeneration_ok.
  - by eapply sqlUpsertObject_ok.
  - by apply invalidateTx_ok.
  - by eapply putPageTx_ok.
  - apply db_ok_fewer_pages; [apply delete_subseteq|done].
  - destruct (sqlDeletePageIfCurrent_pages p db) as (ps & -> & Hps). by apply db_ok_fewer_pages.
  - by apply sqlTouchPage_ok.
  - by apply foldr_sqlDeleteObject_ok.
  - by apply sqlDeleteOldUnreferencedGenerations_ok.
Qed.

Lemma rtc_any_step_ok db db' : rtc any_step db db' -> db_ok db -> db_ok db'.
Proof. induction 1 as [|? ? ? [T HT] _ IH]; eauto using db_step_ok. Qed.

(** ** Epochs fence off stale writes *)

(** The generation of [id] is past [E] and recent, and so are the pages of [id]
    when [strict]. *)
Definition fenced (strict : bool) (T : Z) (id : string) (E : Z) (db : DB) : Prop :=
  (exists g, generations db !! id = Some g /\ E < g_epoch g /\ T <= g_updated_at g) /\
  (strict = true -> map_Forall (fun k r => k.1 = id -> E < p_epoch r) (pages db)).

Lemma fenced_same_generations s T id E db db' :
  generations db' = generations db ->
  (forall k r', pages db' !! k = Some r' ->
   exists r, pages db !! k = Some r /\ p_epoch r' = p_epoch r) ->
  fenced s T id E db -> fenced s T id E db'.
Proof.
  intros HG HP [Hg Hp]. split; [by rewrite HG|]. intros Hs k r' Hk Hid.
  destruct (HP k r' Hk) as (r & Hr & ->). by apply (Hp Hs k r).
Qed.

Lemma sqlEnsureGeneration_fenced s T id E i now db :
  fenced s T id E db -> fenced s T id E (sqlEnsureGeneration i now db).
Proof.
  intros [(g & Hg & ?) Hp]. unfold sqlEnsureGeneration.
  destruct (generations db !! i) eqn:Ei; [by split; eauto|]. split; [|done].
  exists g. simpl. rewrite lookup_insert_ne by congruence. done.
Qed.

Lemma sqlDeleteObject_fenced s T id E i db :
  fenced s T id E db -> fenced s T id E (sqlDeleteObject i db).
Proof.
  apply fenced_same_generations; [done|]. simpl. intros k r' [Hk _]%map_lookup_filter_Some. eauto.
Qed.

Lemma sqlAdvanceGeneration_fenced s T id E i epoch now db :
  T <= now -> (forall g, generations db !! i = Some g -> g_epoch g <= epoch) ->
  fenced s T id E db -> fenced s T id E (sqlAdvanceGeneration i epoch now db).
Proof.
  intros HT He [(g & Hg & ? & ?) Hp]. unfold sqlAdvanceGeneration.
  destruct (generations db !! i) as [gi|] eqn:Ei; [|by split; eauto]. split; [|done]. simpl.
  destruct (decide (i = id)) as [->|].
  - rewrite lookup_insert_eq. eexists. split; [done|]. simpl. specialize (He gi eq_refl).
    simplify_eq. lia.
  - rewrite lookup_insert_ne by done. eauto.
Qed.

Lemma invalidateTx_fenced s T id E i minEpoch now db :
  T <= now -> fenced s T id E db -> fenced s T id E (invalidateTx i minEpoch now db).2.
Proof.
  intros HT Hf. unfold invalidateTx. cbv zeta. simpl.
  pose proof (sqlEnsureGeneration_fenced s T id E i now db Hf) as H1.
  set (db1 := sqlEnsureGeneration i now db) in *.
  set (del := shouldDeleteObject (objects db1 !! i) minEpoch).
  assert (H2 : fenced s T id E (if del then sqlDeleteObject i db1 else db1) /\
               generations (if del then sqlDeleteObject i db1 else db1) = generations db1)
    by (destruct del; [split; [by apply sqlDeleteObject_fenced|done]|by split]).
  destruct H2 as [H2 HG]. destruct (nextEpochOf _ _ >? _) eqn:En; [|done].
  apply sqlAdvanceGeneration_fenced; [done| |done]. rewrite HG. intros g Hg.
  rewrite Hg in *. simpl in *. lia.
Qed.

Lemma foldr_sqlDeleteObject_fenced s T id E db l :
  fenced s T id E db -> fenced s T id E (foldr sqlDeleteObject db l).
Proof. intros H. induction l; simpl; [done|]. by apply sqlDeleteObject_fenced. Qed.

Lemma db_step_fenced s T id E db db' :
  db_step T db db' -> fenced s T id E db -> fenced s T id E db'.
Proof.
  intros H Hf. destruct H as [| | |p now db b sz db' _ _ _ Hput| | | | |].
  - by apply sqlEnsureGeneration_fenced.
  - unfold sqlUpsertObject in *. case_bool_decide; [done|]. simplify_eq.
    revert Hf. apply fenced_same_generations; simpl; eauto.
  - by apply invalidateTx_fenced.
  - apply putPageTx_inv in Hput as (o & g & _ & Hg & He & _ & _ & _ & HU).
    apply sqlUpsertPage_pages in HU as (HG & _ & created & HP).
    destruct Hf as [Hgen Hp]. split; [by rewrite HG|]. intros Hs. rewrite HP.
    apply map_Forall_insert_2; [|by apply Hp]. simpl. intros <-.
    destruct Hgen as (g' & Hg' & ? & _). simplify_eq. lia.
  - revert Hf. apply fenced_same_generations; [done|]. simpl.
    intros k r' [_ Hk]%lookup_delete_Some. eauto.
  - destruct (sqlDeletePageIfCurrent_pages p db) as (ps & -> & Hps).
    revert Hf. apply fenced_same_generations; [done|]. simpl. intros k r' Hk.
    exists r'. split; [by eapply lookup_weaken|done].
  - unfold sqlTouchPage. destruct (pages db !! (id0, index)) as [r|] eqn:Er; [|done].
    revert Hf. apply fenced_same_generations; [done|]. simpl. intros k r' Hk.
    apply lookup_insert_Some in Hk as [[<- <-]|[_ Hk]]; eauto.
  - by apply foldr_sqlDeleteObject_fenced.
  - destruct Hf as [(g & Hg & ? & ?) Hp]. split; [|done]. exists g. split; [|done].
    apply foldr_delete_lookup. split; [|done].
    intros (g' & Hg' & Hold & _)%gcVictims_elem. simplify_eq. lia.
Qed.

Lemma rtc_db_step_fenced s T id E db db' :
  rtc (db_step T) db db' -> fenced s T id E db -> fenced s T id E db'.
Proof. induction 1; eauto using db_step_fenced. Qed.

(** The generation and the pages of an object right after its invalidation. *)
Lemma invalidateTx_establishes id minEpoch now db :
  db_ok db ->
  let current := from_option g_epoch 0 (generations db !! id) in
  current < nextEpochOf current minEpoch ->
  fenced (bool_decide (minEpoch = 0)) now id current (invalidateTx id minEpoch now db).2.
Proof.
  intros Hdb current Hadv. unfold invalidateTx. cbv zeta. simpl.
  assert (Hcur : exists g, generations (sqlEnsureGeneration id now db) !! id = Some g /\
                 g_epoch g = current).
  { unfold sqlEnsureGeneration, current. destruct (generations db !! id) as [g|] eqn:Eg.
    - exists g. by rewrite Eg.
    - eexists. simpl. rewrite lookup_insert_eq. done. }
  destruct Hcur as (g & Hg & Hge).
  assert (Hpages : pages (sqlEnsureGeneration id now db) = pages db /\
                   objects (sqlEnsureGeneration id now db) = objects db)
    by (unfold sqlEnsureGeneration; destruct (generations db !! id); done).
  destruct Hpages as [HP HO]. set (db1 := sqlEnsureGeneration id now db) in *.
  rewrite Hg. simpl. rewrite Hge. replace (nextEpochOf current minEpoch >? current) with true by lia.
  set (del := shouldDeleteObject (objects db1 !! id) minEpoch).
  set (db2 := if del then sqlDeleteObject id db1 else db1).
  assert (HG2 : generations db2 !! id = Some g) by (unfold db2; destruct del; done).
  unfold sqlAdvanceGeneration. rewrite HG2. split; simpl.
  - rewrite lookup_insert_eq. eexists. split; [done|]. cbn [g_epoch g_updated_at]. lia.
  - intros Hm%bool_decide_eq_true k r Hk Hid. exfalso. subst minEpoch. simpl in del.
    assert (Hk' : pages db !! k = Some r).
    { rewrite <- HP. unfold db2 in Hk. destruct del; [|done].
      by apply map_lookup_filter_Some in Hk as [? _]. }
    destruct (ok_pages _ Hdb k r Hk') as ((o & Ho) & _). rewrite Hid, <- HO in Ho.
    unfold db2, del in Hk. rewrite Ho in Hk.
    by apply map_lookup_filter_Some in Hk as [_ ?].
Qed.

(** C22: the metadata invariant. In every interleaving of the statements and
    transactions of any number of operations: object rows are stored under the
    identity of their bucket and key; a page row always has its object row and
    its generation, its epoch is never ahead of the generation, and its path is
    the path of its object, index, ETag and epoch. *)
Theorem db_invariant (db db' : DB) (Hdb : db_ok db) (Hsteps : rtc any_step db db') :
  db_ok db'.
Proof. by eapply rtc_any_step_ok. Qed.

Lemma db_invariant_witness :
  db_ok (sqlTouchPage "x" 0 5 (invalidateTx (ObjectKey "b" "k") 0 3 emptyDB).2).
Proof.
  apply (db_invariant emptyDB).
  - apply emptyDB_ok.
  - apply (rtc_l _ _ (invalidateTx (ObjectKey "b" "k") 0 3 emptyDB).2);
      [exists 0; by apply step_invalidate|].
    apply rtc_once. exists 0. apply step_touch.
Defined.

(** C7: an invalidation fences off every write that began before it. Once the
    transaction of [InvalidateObject] has advanced the epoch of an object (with
    [minEpoch = 0] it always does, short of the largest [int64]), then in every
    later interleaving of operations, as long as metadata collection has not
    reached the time of the invalidation, committing a page that expects the old
    epoch or an earlier one is refused, and (for an invalidation by a local write)
    no page of the object carries such an epoch. *)
Theorem invalidation_fences (db db' : DB) (bucket key : string) (minEpoch now : Z)
    (current := from_option g_epoch 0 (generations db !! ObjectKey bucket key))
    (Hdb : db_ok db)
    (Hadv : 0 < minEpoch /\ current < minEpoch \/ minEpoch = 0 /\ current < int64_max)
    (Hsteps : rtc (db_step now) (invalidateTx (ObjectKey bucket key) minEpoch now db).2 db') :
  (forall p expectedEpoch now', ObjectID p = ObjectKey bucket key -> expectedEpoch <= current ->
     is_ok (putPageTx p expectedEpoch now' db') = false) /\
  (minEpoch = 0 -> forall index r, pages db' !! (ObjectKey bucket key, index) = Some r ->
     current < p_epoch r).
Proof.
  assert (Hc : 0 <= current).
  { unfold current. destruct (generations db !! _) as [g|] eqn:Hg; simpl; [|lia].
    apply (ok_generations _ Hdb _ _ Hg). }
  assert (Hnext : current < nextEpochOf current minEpoch).
  { unfold nextEpochOf. destruct Hadv as [[? ?]|[-> ?]].
    - replace (minEpoch >? 0) with true by lia. replace (current <? minEpoch) with true by lia. lia.
    - change (0 >? 0) with false. no_wrap. lia. }
  pose proof (invalidateTx_establishes _ minEpoch now db Hdb Hnext) as Hf.
  eapply rtc_db_step_fenced in Hf as [(g & Hg & Hlt & _) Hp]; [|done]. split.
  - intros p e now' Hid He. destruct (putPageTx p e now' db') as [[[b sz] d]|] eqn:Hput; [|done].
    apply putPageTx_inv in Hput as (o & g' & _ & Hg' & Hge & _). rewrite Hid in Hg'.
    rewrite Hg in Hg'. injection Hg' as <-. unfold current in *. lia.
  - intros Hm index r Hr. rewrite bool_decide_true in Hp by done. by apply (Hp eq_refl _ _ Hr).
Qed.

Lemma invalidation_fences_witness :
  let db := (invalidateTx (ObjectKey "b" "k") 0 3 emptyDB).2 in
  is_ok (putPageTx (mkPage (ObjectKey "b" "k") 0 "e" 1 4 "p") 1 9
           (invalidateTx (ObjectKey "b" "k") 0 7 db).2) = false.
Proof.
  intros db.
  refine (proj1 (invalidation_fences db _ "b" "k" 0 7 _ _ (rtc_refl _ _))
    (mkPage (ObjectKey "b" "k") 0 "e" 1 4 "p") 1 9 eq_refl _).
  - apply (db_step_ok 0 emptyDB); [apply step_invalidate; lia|apply emptyDB_ok].
  - right. split; [done|]. int64_unfold. vm_compute. done.
  - vm_compute. discriminate.
Defined.

(** The epoch is an [int64] and its increment wraps around: once a peer has
    asked for the largest epoch, a local invalidation returns the smallest
    [int64] and leaves the generation where it was, so that it no longer fences
    off anything. *)
Theorem epoch_wraps (id : string) (now now' : Z) :
  let db := (invalidateTx id int64_max now emptyDB).2 in
  g_epoch <$> generations db !! id = Some int64_max /\
  (invalidateTx id 0 now' db).1.1.1 = int64_min /\
  generations (invalidateTx id 0 now' db).2 = generations db.
Proof.
  intros db. assert (Hdb : db = mkDB {[id := mkGenRow int64_max now]} ∅ ∅).
  { unfold db, invalidateTx, sqlEnsureGeneration, emptyDB. cbn [generations].
    rewrite (lookup_empty (M := gmap string) (A := GenRow)). cbn [generations objects pages].
    rewrite lookup_insert_eq, lookup_empty. cbn [from_option g_epoch shouldDeleteObject snd].
    vm_compute (nextEpochOf _ _ >? _). cbn iota.
    unfold sqlAdvanceGeneration. cbn [generations objects pages]. rewrite lookup_insert_eq.
    by rewrite insert_insert_eq. }
  rewrite Hdb. cbn [generations]. split; [by rewrite lookup_singleton_eq|].
  unfold invalidateTx, sqlEnsureGeneration. cbn [generations].
  rewrite lookup_singleton_eq. cbn [objects generations].
  rewrite lookup_singleton_eq, lookup_empty. cbn [from_option g_epoch shouldDeleteObject fst snd].
  split; [by vm_compute|]. vm_compute (nextEpochOf _ _ >? _). done.
Qed.
