(* ===== verification/CacheStore.v ===== *)
(** * The page cache ([internal/cache/cache.go])

    The operations of [Cache] and [PageWriter] on an explicit state: the metadata
    database, the page files and temporary files, the size counters, the channels
    to the maintenance worker and the page writers in use. Every call that leaves
    the program (a statement, a file operation) first takes an outcome from the
    list [faults], so a theorem that holds for every list holds whatever fails;
    clock readings come from the list [clock] and may go backwards. *)

From Stdlib Require Import Ascii.
From S2P Require Import Prelude GoStrings GoNet PageFrame CachePath CacheDB.
Import Strings.

(** ** State *)

(** A failing call: how much it wrote before failing, and the text of its error. *)
Record fault := mkFault { wrote : nat; text : string }.

Record pageRef := mkPageRef { pr_objectID : string; pr_index : Z }.

#[export] Instance pageRef_eq_dec : EqDecision pageRef.
Proof. solve_decision. Defined.
#[export] Instance pageRef_countable : Countable pageRef.
Proof.
  apply (inj_countable' (fun r => (pr_objectID r, pr_index r)) (fun p => mkPageRef p.1 p.2)).
  by intros [].
Defined.

Record PageWriteOptions := mkPageWriteOptions {
  pwo_ObjectID : string; pwo_Index : Z; pwo_ETag : string; pwo_ExpectedEpoch : Z }.

(** A page writer; its temporary file is [temps !! h] for its handle [h]. *)
Record PageWriter := mkPageWriter {
  options : PageWriteOptions; pw_bucket : string; finalPath : string; pw_size : Z; done_ : bool }.

(** The settings [Open] fixes. *)
Record Config := mkConfig {
  maxSize : Z;
  maxSizeByBucket : gmap string Z;
  metadataMaxAge : Z;
  metadataGCBatchSize : Z;
  metrics : bool }.

(** Page files by cache-relative path, temporary files and writers by handle. *)
Record Files := mkFiles {
  files : gmap string bytes;
  temps : gmap Z bytes;
  writers : gmap Z PageWriter;
  nextHandle : Z }.

(** Counters and channels. [evictionCh] and [metricsCh] hold one signal. *)
Record Counters := mkCounters {
  lastTimestamp : Z;
  cachedSize : Z;
  cachedByBucket : gmap string Z;
  evictionCh : bool;
  touchCh : list pageRef;
  metricsCh : bool;
  evicted : list string }.

Record Cache := mkCache {
  cfg : Config; db : DB; fs : Files; mem : Counters;
  faults : list (option fault); clock : list Z }.

Definition set_db (d : DB) (c : Cache) : Cache :=
  mkCache (cfg c) d (fs c) (mem c) (faults c) (clock c).
Definition set_fs (f : Files) (c : Cache) : Cache :=
  mkCache (cfg c) (db c) f (mem c) (faults c) (clock c).
Definition set_mem (m : Counters) (c : Cache) : Cache :=
  mkCache (cfg c) (db c) (fs c) m (faults c) (clock c).

(** ** Errors and the monad *)

Inductive CacheError :=
| Failure (msg : string)
| CommitRefused (e : CommitError)
| Panic
| OutOfFuel.

Definition M (A : Type) : Type := Cache -> result CacheError A * Cache.

#[export] Instance M_ret : MRet M := fun A a c => (Ok a, c).
#[export] Instance M_bind : MBind M := fun A B f m c =>
  match m c with (Ok a, c') => f a c' | (Err e, c') => (Err e, c') end.

Definition fail {A} (e : CacheError) : M A := fun c => (Err e, c).
Definition get : M Cache := fun c => (Ok c, c).
Definition modify (f : Cache -> Cache) : M () := fun c => (Ok (), f c).
(** Run [m] and give its error as a value. *)
Definition try {A} (m : M A) : M (result CacheError A) := fun c => let '(r, c') := m c in (Ok r, c').
Definition of_option {A} (e : CacheError) (o : option A) : M A :=
  match o with Some a => mret a | None => fail e end.
Definition when (b : bool) (m : M ()) : M () := if b then m else mret ().

(** Take the outcome of the next call that leaves the program. *)
Definition outcome : M (option fault) := fun c =>
  match faults c with
  | [] => (Ok None, c)
  | o :: rest => (Ok o, mkCache (cfg c) (db c) (fs c) (mem c) rest (clock c))
  end.

(** A call that either succeeds or fails with its text after [what]. *)
Definition call (what : string) : M () :=
  o ← outcome; match o with None => mret () | Some f => fail (Failure (what +:+ text f)) end.

(** A call whose error the sources ignore. *)
Definition call_ : M bool := o ← outcome; mret (match o with None => true | Some _ => false end).

(** ** Time *)

(** [time.Now()]; readings that run out are 0. *)
Definition timeNow : M Z := fun c =>
  match clock c with
  | [] => (Ok 0, c)
  | t :: rest => (Ok t, mkCache (cfg c) (db c) (fs c) (mem c) (faults c) rest)
  end.

Definition set_lastTimestamp (t : Z) (m : Counters) : Counters :=
  mkCounters t (cachedSize m) (cachedByBucket m) (evictionCh m) (touchCh m) (metricsCh m) (evicted m).

Definition timestamp : M Z :=
  now ← timeNow;
  c ← get;
  let now := if now <=? lastTimestamp (mem c) then add64 (lastTimestamp (mem c)) 1 else now in
  modify (fun c => set_mem (set_lastTimestamp now (mem c)) c);; mret now.

(** ** Size counters *)

Definition set_sizes (total : Z) (by_ : gmap string Z) (m : Counters) : Counters :=
  mkCounters (lastTimestamp m) total by_ (evictionCh m) (touchCh m) (metricsCh m) (evicted m).

Definition setCacheSize (total : Z) (byBucket : gmap string Z) : M () :=
  modify (fun c => set_mem (set_sizes total byBucket (mem c)) c).

Definition currentSize (c : Cache) : Z := cachedSize (mem c).
Definition currentSizeForBucket (c : Cache) (bucket : string) : Z :=
  default 0 (cachedByBucket (mem c) !! bucket).
Definition maxSizeForBucket (c : Cache) (bucket : string) : Z :=
  default 0 (maxSizeByBucket (cfg c) !! bucket).

Definition adjustCacheSize (bucket : string) (delta : Z) : M () := modify (fun c =>
  if delta =? 0 then c
  else
    let total := add64 (cachedSize (mem c)) delta in
    let total := if total <? 0 then 0 else total in
    let byBucket := cachedByBucket (mem c) in
    let byBucket :=
      if negb (bool_decide (bucket = "")) then
        let n := add64 (default 0 (byBucket !! bucket)) delta in
        if n <=? 0 then delete bucket byBucket else <[bucket := n]> byBucket
      else byBucket in
    set_mem (set_sizes total byBucket (mem c)) c).

(** [int64] sum of the sizes of a list of pages. *)
Definition pagesSize (ps : list Page) : Z := fold_left (fun s p => add64 s (Size p)) ps 0.

Definition readCacheSize : M (Z * gmap string Z) :=
  call "read cache size: ";;
  c ← get;
  let total := pagesTotal (db c) in
  (* SQLite's SUM raises an error when the result is not an int64 *)
  (if bool_decide (in_int64 total) then mret () else fail (Failure "read cache size: integer overflow"));;
  call "read cache size by bucket: ";;
  let byBucket := list_to_map ((fun b => (b, bucketTotal (db c) b)) <$> bucketsOf (db c)) in
  call "read cache size by bucket: ";;
  mret (total, byBucket).

(** ** Signals to the worker *)

Definition requestMetricsRefresh : M () := modify (fun c =>
  if metrics (cfg c) then
    let m := mem c in
    set_mem (mkCounters (lastTimestamp m) (cachedSize m) (cachedByBucket m) (evictionCh m)
               (touchCh m) true (evicted m)) c
  else c).

Definition requestEviction : M () := modify (fun c =>
  let m := mem c in
  set_mem (mkCounters (lastTimestamp m) (cachedSize m) (cachedByBucket m) true
             (touchCh m) (metricsCh m) (evicted m)) c).

Definition touchQueueSize : Z := 1024.

(** A full queue drops the touch. *)
Definition requestTouch (objectID : string) (index : Z) : M () := modify (fun c =>
  let m := mem c in
  if zlen (touchCh m) <? touchQueueSize then
    set_mem (mkCounters (lastTimestamp m) (cachedSize m) (cachedByBucket m) (evictionCh m)
               (touchCh m ++ [mkPageRef objectID index]) (metricsCh m) (evicted m)) c
  else c).

Definition recordEviction (bucket : string) : M () := modify (fun c =>
  if metrics (cfg c) then
    let m := mem c in
    set_mem (mkCounters (lastTimestamp m) (cachedSize m) (cachedByBucket m) (evictionCh m)
               (touchCh m) (metricsCh m) (evicted m ++ [bucket])) c
  else c).

(** ** Files *)

Definition set_files (m : gmap string bytes) (f : Files) : Files :=
  mkFiles m (temps f) (writers f) (nextHandle f).
Definition set_temps (m : gmap Z bytes) (f : Files) : Files :=
  mkFiles (files f) m (writers f) (nextHandle f).
Definition set_writer (h : Z) (w : PageWriter) (f : Files) : Files :=
  mkFiles (files f) (temps f) (<[h := w]> (writers f)) (nextHandle f).

(** [os.Remove] of a page file whose absence is not an error. *)
Definition removeFile (what path : string) : M () :=
  call what;;
  modify (fun c => set_fs (set_files (delete path (files (fs c))) (fs c)) c).

(** [_ = os.Remove(...)] *)
Definition removeFile_ (path : string) : M () :=
  ok ← call_;
  when ok (modify (fun c => set_fs (set_files (delete path (files (fs c))) (fs c)) c)).

Definition removeTemp (h : Z) : M () :=
  call "remove temp page: ";;
  modify (fun c => set_fs (set_temps (delete h (temps (fs c))) (fs c)) c).

Fixpoint removeFiles (what : string) (ps : list Page) : M () :=
  match ps with
  | [] => mret ()
  | p :: ps => removeFile what (Path p);; removeFiles what ps
  end.

(** ** Object metadata *)

Record ObjectMetadata := mkObjectMetadata {
  om_Bucket : string; om_Key : string; om_ETag : string; om_Size : Z; om_PageSize : Z;
  om_Headers : Http.Header }.

Record Object := mkObject {
  ob_ID : string; ob_Bucket : string; ob_Key : string; ob_ETag : string; ob_Size : Z;
  ob_PageSize : Z; ob_Headers : Http.Header; ob_Epoch : Z }.

(** [encoding/json] on headers, as [marshalHeaders] and [unmarshalHeaders] use it:
    decoding what was encoded gives the headers back when they are [encodable]
    (valid UTF-8; other bytes are replaced in the encoding). *)
Class HeaderCodec := {
  json_Marshal : Http.Header -> string;
  json_Unmarshal : string -> option Http.Header;
  encodable : Http.Header -> Prop;
  json_roundtrip : forall h, encodable h -> json_Unmarshal (json_Marshal h) = Some h;
  json_nonempty : forall h, json_Marshal h <> "" }.

Definition ensureGeneration (objectID : string) : M () :=
  now ← timestamp;
  call "ensure object generation: ";;
  modify (fun c => set_db (sqlEnsureGeneration objectID now (db c)) c).

Definition generation (objectID : string) : M Z :=
  call "read object generation: ";;
  c ← get;
  of_option (Failure "read object generation: sql: no rows in result set")
    (g_epoch <$> generations (db c) !! objectID).

Section Headers.
Context `{HeaderCodec}.

Definition marshalHeaders (h : Http.Header) : string := json_Marshal h.

Definition unmarshalHeaders (input : string) : M Http.Header :=
  if bool_decide (input = "") then mret ∅
  else of_option (Failure "unmarshal headers") (json_Unmarshal input).

Definition GetObject (bucket key : string) : M (option Object) :=
  call "get object: ";;
  c ← get;
  match objects (db c) !! ObjectKey bucket key with
  | None => mret None
  | Some o =>
      headers ← unmarshalHeaders (o_headers_json o);
      mret (Some (mkObject (ObjectKey bucket key) (o_bucket o) (o_key o) (o_etag o) (o_size o)
                    (o_page_size o) headers (o_epoch o)))
  end.

Definition PutObject (meta : ObjectMetadata) : M Object :=
  if bool_decide (om_Bucket meta = "") then fail (Failure "bucket is required")
  else if bool_decide (om_Key meta = "") then fail (Failure "key is required")
  else if bool_decide (om_ETag meta = "") then fail (Failure "etag is required")
  else if om_Size meta <? 0 then fail (Failure "object size must not be negative")
  else if om_PageSize meta <=? 0 then fail (Failure "page size must be greater than zero")
  else
    let id := ObjectKey (om_Bucket meta) (om_Key meta) in
    let headersJSON := marshalHeaders (om_Headers meta) in
    now ← timestamp;
    ensureGeneration id;;
    epoch ← generation id;
    call "put object: ";;
    c ← get;
    d ← of_option (Failure "put object: UNIQUE constraint failed")
          (sqlUpsertObject id
             (mkObjectRow (om_Bucket meta) (om_Key meta) (om_ETag meta) (om_Size meta)
                (om_PageSize meta) headersJSON epoch now) (db c));
    modify (set_db d);;
    obj ← GetObject (om_Bucket meta) (om_Key meta);
    of_option (Failure "object was not readable after insert") obj.

End Headers.

Definition InvalidateObject (bucket key : string) (minEpoch : Z) : M Z :=
  if bool_decide (bucket = "") then fail (Failure "bucket is required")
  else if bool_decide (key = "") then fail (Failure "key is required")
  else if minEpoch <? 0 then fail (Failure "minimum epoch must not be negative")
  else
    let id := ObjectKey bucket key in
    now ← timestamp;
    call "begin invalidate object: ";;
    call "ensure object generation: ";;
    call "read object generation: ";;
    call "read object for invalidation: ";;
    c ← get;
    let current := from_option g_epoch 0 (generations (db c) !! id) in
    let '(nextEpoch, obj_Bucket, ps, d) := invalidateTx id minEpoch now (db c) in
    when (shouldDeleteObject (objects (db c) !! id) minEpoch)
      (call "list pages: ";; call "list pages: ";; call "delete object: ");;
    when (nextEpoch >? current) (call "advance object generation: ");;
    call "commit invalidate object: ";;
    modify (set_db d);;
    removeFiles "delete page file: " ps;;
    when (negb (bool_decide (ps = [])))
      (adjustCacheSize obj_Bucket (sub64 0 (pagesSize ps));; requestMetricsRefresh);;
    mret nextEpoch.

Definition DeleteObject (bucket key : string) : M () :=
  _ ← InvalidateObject bucket key 0; mret ().

(** ** Page rows *)

Definition validatePage (p : Page) : M () :=
  if bool_decide (ObjectID p = "") then fail (Failure "object id is required")
  else if Index p <? 0 then fail (Failure "page index must not be negative")
  else if bool_decide (ETag p = "") then fail (Failure "etag is required")
  else if Epoch p <? 0 then fail (Failure "page epoch must not be negative")
  else if Size p <? 0 then fail (Failure "page size must not be negative")
  else if bool_decide (Path p = "") then fail (Failure "page path is required")
  else if negb (Filepath.IsLocal (Path p)) then fail (Failure "page path must be cache-relative")
  else mret ().

Definition getPage (objectID : string) (index : Z) : M (option Page) :=
  call "get page: ";; c ← get; mret (sqlPage (db c) objectID index).

(** [pageBucket]: an unknown object has the empty bucket. *)
Definition pageBucket (objectID : string) : M string :=
  call "read page bucket: ";;
  c ← get; mret (from_option o_bucket "" (objects (db c) !! objectID)).

(** [bucket, _ := c.pageBucket(...)] *)
Definition pageBucket_ (objectID : string) : M string :=
  r ← try (pageBucket objectID); mret (match r with Ok b => b | Err _ => "" end).

Definition ListPages (objectID : string) : M (list Page) :=
  call "list pages: ";; c ← get; call "list pages: ";; mret (sqlListPages (db c) objectID).

Definition PutPage (p : Page) : M () :=
  validatePage p;;
  previous ← getPage (ObjectID p) (Index p);
  now ← timestamp;
  call "put page: ";;
  c ← get;
  d ← of_option (Failure "put page: FOREIGN KEY constraint failed") (sqlUpsertPage p now (db c));
  modify (set_db d);;
  bucket ← pageBucket_ (ObjectID p);
  let delta := match previous with Some q => sub64 (Size p) (Size q) | None => Size p end in
  adjustCacheSize bucket delta;;
  requestMetricsRefresh.

Definition deletePage (objectID : string) (index : Z) : M bool :=
  call "delete stale page row: ";;
  c ← get;
  let '(deleted, d) := sqlDeletePage objectID index (db c) in
  modify (set_db d);;
  call "read deleted page count: ";;
  mret deleted.

Definition deletePageIfCurrent (p : Page) : M bool :=
  call "delete stale page row: ";;
  c ← get;
  let '(deleted, d) := sqlDeletePageIfCurrent p (db c) in
  modify (set_db d);;
  call "read deleted page count: ";;
  mret deleted.

Definition touchPage (objectID : string) (index at_ : Z) : M () :=
  call "touch page: ";;
  modify (fun c => set_db (sqlTouchPage objectID index at_ (db c)) c).

Definition liftCommit {A} (r : result CommitError A) : M A :=
  match r with Ok a => mret a | Err e => fail (CommitRefused e) end.

Definition validatePageCommit (objectID etag : string) (expectedEpoch : Z) : M () :=
  call "validate page commit: ";;
  c ← get;
  _ ← liftCommit (checkCurrent (db c) objectID etag expectedEpoch);
  mret ().

(** The transaction changes the database only when it commits. *)
Definition putPageIfCurrent (p : Page) (expectedEpoch : Z) : M (string * Z) :=
  validatePage p;;
  call "begin put page: ";;
  call "validate page commit: ";;
  c ← get;
  _ ← liftCommit (checkCurrent (db c) (ObjectID p) (ETag p) expectedEpoch);
  call "read previous page size: ";;
  now ← timestamp;
  call "put page: ";;
  r ← liftCommit (putPageTx p expectedEpoch now (db c));
  let '(bucket, previousSize, d) := r in
  call "commit put page: ";;
  modify (set_db d);;
  mret (bucket, previousSize).

(** ** Writing pages *)

Definition BeginPageWrite (opts : PageWriteOptions) : M Z :=
  if bool_decide (pwo_ObjectID opts = "") then fail (Failure "object id is required")
  else if pwo_Index opts <? 0 then fail (Failure "page index must not be negative")
  else if bool_decide (pwo_ETag opts = "") then fail (Failure "etag is required")
  else
    validatePageCommit (pwo_ObjectID opts) (pwo_ETag opts) (pwo_ExpectedEpoch opts);;
    bucket ← pageBucket (pwo_ObjectID opts);
    relPath ← of_option Panic
      (pagePathForVersion (pwo_ObjectID opts) (pwo_Index opts) (pwo_ETag opts)
         (pwo_ExpectedEpoch opts));
    call "create page directory: ";;
    call "create temp page: ";;
    c ← get;
    let h := nextHandle (fs c) in
    modify (fun c =>
      let f := fs c in
      set_fs (mkFiles (files f) (<[h := []]> (temps f))
                (<[h := mkPageWriter opts bucket relPath 0 false]> (writers f)) (h + 1)) c);;
    mret h.

(** The writer behind a handle; the sources never use a handle that
    [BeginPageWrite] did not return. *)
Definition writer (h : Z) : M PageWriter :=
  c ← get; of_option Panic (writers (fs c) !! h).

Definition set_writerM (h : Z) (w : PageWriter) : M () :=
  modify (fun c => set_fs (set_writer h w (fs c)) c).

(** [tmp.Write(data)]: a failing write may have written a prefix. *)
Definition appendTemp (h : Z) (data : bytes) : M () :=
  modify (fun c => set_fs (set_temps (<[h := default [] (temps (fs c) !! h) ++ data]> (temps (fs c)))
                             (fs c)) c).

Definition Write (h : Z) (data : bytes) : M nat :=
  w ← writer h;
  c ← get;
  if done_ w then fail (Failure "page writer is closed")
  else if zlen data >? sub64 (maxSize (cfg c)) (pw_size w)
  then fail (Failure "page size exceeds cache max size")
  else
    let max := maxSizeForBucket c (pw_bucket w) in
    if (max >? 0) && (zlen data >? sub64 max (pw_size w))
    then fail (Failure "page size exceeds cache max size for bucket")
    else
      o ← outcome;
      let data' := match o with None => data | Some f => take (wrote f) data end in
      appendTemp h data';;
      set_writerM h (mkPageWriter (options w) (pw_bucket w) (finalPath w)
                       (add64 (pw_size w) (zlen data')) (done_ w));;
      match o with
      | None => mret (length data')
      | Some f => fail (Failure (text f))
      end.

Definition PageWriter_Size (h : Z) : M Z := w ← writer h; mret (pw_size w).

Definition closeWriter (w : PageWriter) : PageWriter :=
  mkPageWriter (options w) (pw_bucket w) (finalPath w) (pw_size w) true.

Definition Abort (h : Z) : M () :=
  w ← writer h;
  if done_ w then mret ()
  else
    set_writerM h (closeWriter w);;
    r ← try (call "close temp page: ");
    r' ← try (removeTemp h);
    match r, r' with
    | Err e, _ => fail e
    | Ok _, Err e => fail e
    | Ok _, Ok _ => mret ()
    end.

(** [os.Rename(w.tmpPath, w.finalPath)] *)
Definition renameTemp (h : Z) (path : string) : M () :=
  call "commit page file: ";;
  modify (fun c =>
    let f := fs c in
    let data := default [] (temps f !! h) in
    set_fs (mkFiles (<[path := data]> (files f)) (delete h (temps f)) (writers f)
              (nextHandle f)) c).

(** Run [m]; when it fails run [cleanup], whose error is ignored, and fail as
    [m] did. *)
Definition orElse {A B} (m : M A) (cleanup : M B) : M A :=
  r ← try m;
  match r with
  | Ok a => mret a
  | Err e => _ ← try cleanup; fail e
  end.

Definition Commit (h : Z) : M Page :=
  w ← writer h;
  if done_ w then fail (Failure "page writer is closed")
  else
    let o := options w in
    orElse (call "sync temp page: ") (Abort h);;
    orElse (call "close temp page: ") (_ ← try (removeTemp h); set_writerM h (closeWriter w));;
    set_writerM h (closeWriter w);;
    orElse (renameTemp h (finalPath w)) (removeTemp h);;
    path ← of_option Panic
      (pagePathForVersion (pwo_ObjectID o) (pwo_Index o) (pwo_ETag o) (pwo_ExpectedEpoch o));
    let page := mkPage (pwo_ObjectID o) (pwo_Index o) (pwo_ETag o) (pwo_ExpectedEpoch o)
                  (pw_size w) path in
    r ← orElse (putPageIfCurrent page (pwo_ExpectedEpoch o)) (removeFile_ (finalPath w));
    let '(bucket, previousSize) := r in
    adjustCacheSize bucket (sub64 (Size page) previousSize);;
    requestMetricsRefresh;;
    requestEviction;;
    mret page.

(** [io.Copy(writer, source)] with read buffers of sizes [S (buf i)]. *)
Fixpoint copyToWriter (fuel : nat) (buf : nat -> nat) (h written : Z) (src : Io.Reader) : M Z :=
  match fuel with
  | O => fail OutOfFuel
  | S fuel =>
      let '(got, rerr, src') := Io.Read (S (buf fuel)) src in
      n ← (if bool_decide (got = []) then mret O else Write h got);
      match rerr with
      | None => copyToWriter fuel buf h (written + Z.of_nat n) src'
      | Some e =>
          if bool_decide (e = Io.EOF) then mret (written + Z.of_nat n)
          else fail (Failure "write temp page: source failed")
      end
  end.

Record PageWrite := mkPageWrite { pwr_options : PageWriteOptions; pwr_Size : Z;
  pwr_Source : option Io.Reader }.

(** [defer cleanup()] around [m]. *)
Definition deferring {A B} (m : M A) (cleanup : M B) : M A :=
  r ← try m; _ ← try cleanup; match r with Ok a => mret a | Err e => fail e end.

Definition StorePage (buf : nat -> nat) (write : PageWrite) : M Page :=
  if pwr_Size write <? 0 then fail (Failure "page size must not be negative")
  else match pwr_Source write with
  | None => fail (Failure "page source is required")
  | Some source =>
      h ← BeginPageWrite (pwr_options write);
      deferring
        (written ← copyToWriter (Io.reads source) buf h 0 source;
         if negb (written =? pwr_Size write) then fail (Failure "write temp page: wrong size")
         else Commit h)
        (Abort h)
  end.

(** ** Reading pages *)

(** [os.Open] and [Stat]: the content the open file will deliver. *)
Definition OpenPage (objectID : string) (index : Z) (expectedETag : string) (expectedEpoch : Z)
    : M (option bytes) :=
  r ← getPage objectID index;
  match r with
  | None => mret None
  | Some page =>
      if negb (bool_decide (ETag page = expectedETag)) || negb (Epoch page =? expectedEpoch) then
        bucket ← pageBucket_ objectID;
        deleted ← deletePageIfCurrent page;
        removeFile "delete stale page file: " (Path page);;
        when deleted (adjustCacheSize bucket (sub64 0 (Size page));; requestMetricsRefresh);;
        mret None
      else
        call "open page file: ";;
        c ← get;
        match files (fs c) !! Path page with
        | None =>
            bucket ← pageBucket_ objectID;
            deleted ← deletePage objectID index;
            when deleted (adjustCacheSize bucket (sub64 0 (Size page));; requestMetricsRefresh);;
            mret None
        | Some data =>
            call "stat page file: ";;
            if negb (zlen data =? Size page) then
              bucket ← pageBucket_ objectID;
              deleted ← deletePage objectID index;
              removeFile "delete corrupt page file: " (Path page);;
              when deleted (adjustCacheSize bucket (sub64 0 (Size page));; requestMetricsRefresh);;
              mret None
            else
              requestTouch objectID index;;
              mret (Some data)
        end
  end.

(** ** Eviction *)

Definition evictionBatchSize : Z := 128.

Definition oldestPages (limit : Z) : M (list Page) :=
  call "select eviction candidates: ";; c ← get;
  call "select eviction candidates: ";; mret (sqlOldestPages (db c) limit).

Definition oldestPagesForBucket (bucket : string) (limit : Z) : M (list Page) :=
  call "select bucket eviction candidates: ";; c ← get;
  call "select bucket eviction candidates: ";; mret (sqlOldestPagesForBucket (db c) bucket limit).

Definition removePage (p : Page) : M () :=
  bucket ← pageBucket_ (ObjectID p);
  deleted ← deletePage (ObjectID p) (Index p);
  removeFile "delete evicted page file: " (Path p);;
  when deleted (adjustCacheSize bucket (sub64 0 (Size p));; requestMetricsRefresh);;
  recordEviction bucket.

(** The inner loop: remove pages until [targetBytes] are gone. *)
Fixpoint removeUntil (targetBytes removedBytes : Z) (ps : list Page) : M () :=
  match ps with
  | [] => mret ()
  | p :: ps =>
      removePage p;;
      let removedBytes := add64 removedBytes (Size p) in
      if removedBytes >=? targetBytes then mret () else removeUntil targetBytes removedBytes ps
  end.

Fixpoint evictLoop (fuel : nat) : M () :=
  match fuel with
  | O => fail OutOfFuel
  | S fuel =>
      c ← get;
      let size := currentSize c in
      if size <=? maxSize (cfg c) then requestMetricsRefresh
      else
        ps ← oldestPages evictionBatchSize;
        if bool_decide (ps = []) then mret ()
        else removeUntil (sub64 size (maxSize (cfg c))) 0 ps;; evictLoop fuel
  end.

Fixpoint evictBucketLoop (fuel : nat) (bucket : string) (max : Z) : M () :=
  match fuel with
  | O => fail OutOfFuel
  | S fuel =>
      c ← get;
      let size := currentSizeForBucket c bucket in
      if size <=? max then mret ()
      else
        ps ← oldestPagesForBucket bucket evictionBatchSize;
        if bool_decide (ps = []) then mret ()
        else removeUntil (sub64 size max) 0 ps;; evictBucketLoop fuel bucket max
  end.

(** One iteration removes a row at least, so the number of rows bounds them. *)
Definition evictFuel (c : Cache) : nat := S (size (pages (db c))).

(** [range c.maxSizeByBucket] visits the buckets in some order. *)
Fixpoint evictBuckets (order : list (string * Z)) : M () :=
  match order with
  | [] => mret ()
  | (bucket, max) :: order =>
      c ← get; evictBucketLoop (evictFuel c) bucket max;; evictBuckets order
  end.

Definition Evict (order : list (string * Z)) : M () :=
  evictBuckets order;; c ← get; evictLoop (evictFuel c).

(** ** Metadata collection *)

Definition deleteOldPageLessObjects (scan : list string) (olderThan limit : Z) : M Z :=
  call "delete old page-less objects: ";;
  c ← get;
  let '(n, d) := sqlDeleteOldPageLessObjects scan olderThan limit (db c) in
  modify (set_db d);;
  call "read old page-less object count: ";; mret n.

Definition deleteOldUnreferencedGenerations (scan : list string) (olderThan limit : Z) : M Z :=
  call "delete old object generations: ";;
  c ← get;
  let '(n, d) := sqlDeleteOldUnreferencedGenerations scan olderThan limit (db c) in
  modify (set_db d);;
  call "read old object generation count: ";; mret n.

Definition collectMetadata (scanO scanG : list string) : M (Z * Z) :=
  now ← timeNow;
  c ← get;
  let cutoff := sub64 now (metadataMaxAge (cfg c)) in
  objectsDeleted ← deleteOldPageLessObjects scanO cutoff (metadataGCBatchSize (cfg c));
  generationsDeleted ← deleteOldUnreferencedGenerations scanG cutoff (metadataGCBatchSize (cfg c));
  mret (objectsDeleted, generationsDeleted).

Definition checkpointSQLite : M () := call "checkpoint cache db: ";; call "checkpoint cache db: ".

(** ** The maintenance worker *)

(** [range pending] visits the references in some order; those touched are
    removed, those after a failure stay. *)
Fixpoint touchAll (now : Z) (order : list pageRef) (pending : gset pageRef)
    : M (gset pageRef * option CacheError) :=
  match order with
  | [] => mret (pending, None)
  | ref :: order =>
      r ← try (touchPage (pr_objectID ref) (pr_index ref) now);
      match r with
      | Err e => mret (pending, Some e)
      | Ok _ => touchAll now order (pending ∖ {[ref]})
      end
  end.

Definition flushTouches (order : list pageRef) (pending : gset pageRef)
    : M (gset pageRef * option CacheError) :=
  if bool_decide (pending = ∅) then mret (pending, None)
  else now ← timestamp; touchAll now order pending.

Inductive event :=
| EvDone (order : list pageRef)
| EvEvict (order : list (string * Z))
| EvMetrics
| EvTouch (order : list pageRef)
| TickTouch (order : list pageRef)
| TickGC (scanO scanG : list string)
| TickCheckpoint
| TickMetrics.

Definition touchFlushBatchSize : Z := 256.

Definition drainMetrics : M () := modify (fun c =>
  let m := mem c in
  set_mem (mkCounters (lastTimestamp m) (cachedSize m) (cachedByBucket m) (evictionCh m)
             (touchCh m) false (evicted m)) c).
Definition drainEviction : M () := modify (fun c =>
  let m := mem c in
  set_mem (mkCounters (lastTimestamp m) (cachedSize m) (cachedByBucket m) false
             (touchCh m) (metricsCh m) (evicted m)) c).
Definition popTouch : M (option pageRef) := fun c =>
  let m := mem c in
  match touchCh m with
  | [] => (Ok None, c)
  | ref :: rest =>
      (Ok (Some ref),
       set_mem (mkCounters (lastTimestamp m) (cachedSize m) (cachedByBucket m) (evictionCh m)
                  rest (metricsCh m) (evicted m)) c)
  end.

(** One iteration of [maintenanceLoop]'s [select]; the state of the loop is the
    pending touches and the dirty flag, and [None] ends it. *)
Definition maintenanceStep (ev : event) (pending : gset pageRef) (metricsDirty : bool)
    : M (option (gset pageRef * bool)) :=
  match ev with
  | EvDone order => _ ← flushTouches order pending; mret None
  | EvEvict order => drainEviction;; _ ← try (Evict order); mret (Some (pending, metricsDirty))
  | EvMetrics => drainMetrics;; mret (Some (pending, true))
  | EvTouch order =>
      r ← popTouch;
      match r with
      | None => mret (Some (pending, metricsDirty))
      | Some ref =>
          let pending := {[ref]} ∪ pending in
          if Z.of_nat (size pending) >=? touchFlushBatchSize
          then r ← flushTouches order pending; mret (Some (r.1, metricsDirty))
          else mret (Some (pending, metricsDirty))
      end
  | TickTouch order => r ← flushTouches order pending; mret (Some (r.1, metricsDirty))
  | TickGC so sg => _ ← try (collectMetadata so sg); mret (Some (pending, metricsDirty))
  | TickCheckpoint => _ ← try checkpointSQLite; mret (Some (pending, metricsDirty))
  | TickMetrics => mret (Some (pending, false))
  end.

(** ** Opening *)

Definition copyMaxSizeByBucket (input : gmap string Z) : gmap string Z :=
  filter (fun kv => 0 < kv.2) input.

Record Options := mkOptions {
  CachePath : string; MetaPath : string; MaxSize : Z; MaxSizeByBucket : gmap string Z;
  MetadataMaxAge : Z; MetadataGCBatchSize : Z; Metrics : bool }.

Definition defaultMetadataMaxAge : Z := 24 * 3600 * 1000000000.
Definition defaultMetadataGCBatchSize : Z := 512.

Definition configOf (opts : Options) : Config :=
  mkConfig (if MaxSize opts <=? 0 then Z.shiftl 1 60 else MaxSize opts)
    (copyMaxSizeByBucket (MaxSizeByBucket opts))
    (if MetadataMaxAge opts <=? 0 then defaultMetadataMaxAge else MetadataMaxAge opts)
    (if MetadataGCBatchSize opts <=? 0 then defaultMetadataGCBatchSize
     else MetadataGCBatchSize opts)
    (Metrics opts).

Fixpoint calls (n : nat) (what : string) : M () :=
  match n with O => mret () | S n => call what;; calls n what end.

(** Ten schema statements, which change nothing on a database that has the
    tables, the two inspections of the columns, and the generations of objects
    stored before generations existed. *)
Definition init : M () :=
  calls 10 "init cache db: ";;
  calls 2 "inspect object generations schema: ";;
  calls 2 "inspect pages schema: ";;
  call "init object generations: ";;
  modify (fun c => set_db (sqlInitGenerations (db c)) c).

Definition isCorruptDatabaseError (e : CacheError) : bool :=
  match e with
  | Failure msg =>
      let t := ToLower msg in
      Contains t "file is not a database" || Contains t "database disk image is malformed"
  | _ => false
  end.

(** The page files go first, then the database. *)
Definition resetLocalCacheState : M () :=
  call "reset cache objects after corrupt db: ";;
  modify (fun c => set_fs (set_files ∅ (fs c)) c);;
  call "recreate cache objects after corrupt db: ";;
  call "remove corrupt cache db file: ";;
  modify (set_db emptyDB);;
  calls 2 "remove corrupt cache db file: ".

(** [Open] on the database and files found on disk, before the worker starts. *)
Definition Open (opts : Options) (disk : DB) (found : gmap string bytes)
    (fl : list (option fault)) (cl : list Z) : result CacheError Cache :=
  let start := mkCache (configOf opts) disk (mkFiles found ∅ ∅ 0)
                 (mkCounters 0 0 ∅ false [] false []) fl cl in
  let run : M () :=
    (if bool_decide (CachePath opts = "") then fail (Failure "cache path is required") else mret ());;
    (if bool_decide (MetaPath opts = "") then fail (Failure "metadata path is required") else mret ());;
    call "create cache directories: ";;
    call "create metadata directory: ";;
    call "open cache db: ";;
    r ← try init;
    match r with
    | Ok _ => mret ()
    | Err e =>
        if isCorruptDatabaseError e
        then resetLocalCacheState;; call "open cache db after reset: ";; init
        else fail e
    end;;
    sizes ← readCacheSize;
    setCacheSize sizes.1 sizes.2 in
  match run start with
  | (Ok _, c) => Ok c
  | (Err e, _) => Err e
  end.
