(* ===== verification/CacheLogic.v ===== *)
(** * A program logic for the cache's operations

    [wp m Q c]: running [m] from [c] ends in a result and a state that satisfy
    [Q]. The rules decompose an operation into its calls; [wp_go] applies them.
    A call that leaves the program has two continuations, one where it succeeds
    and one where it fails, so a [wp] covers every sequence of failures. *)

From S2P Require Import Prelude GoStrings GoNet PageFrame CachePath CacheDB CacheStore.

Definition wp {A} (m : M A) (Q : result CacheError A -> Cache -> Prop) (c : Cache) : Prop :=
  Q (m c).1 (m c).2.

Definition set_faults (l : list (option fault)) (c : Cache) : Cache :=
  mkCache (cfg c) (db c) (fs c) (mem c) l (clock c).

Definition set_time (k : list Z) (t : Z) (c : Cache) : Cache :=
  mkCache (cfg c) (db c) (fs c) (set_lastTimestamp t (mem c)) (faults c) k.

Section Rules.
Context {A B : Type}.
Implicit Types (c : Cache).

Lemma wp_ret (a : A) Q c : Q (Ok a) c -> wp (mret a) Q c.
Proof. done. Qed.

Lemma wp_fail e (Q : result CacheError A -> Cache -> Prop) c : Q (Err e) c -> wp (fail e) Q c.
Proof. done. Qed.

Lemma wp_bind (m : M A) (f : A -> M B) Q c :
  wp m (fun r c' => match r with Ok a => wp (f a) Q c' | Err e => Q (Err e) c' end) c ->
  wp (m ≫= f) Q c.
Proof. unfold wp, mbind, M_bind. by destruct (m c) as [[a|e] c']. Qed.

Lemma wp_get (Q : result CacheError Cache -> Cache -> Prop) c : Q (Ok c) c -> wp get Q c.
Proof. done. Qed.

Lemma wp_modify f (Q : result CacheError () -> Cache -> Prop) c :
  Q (Ok ()) (f c) -> wp (modify f) Q c.
Proof. done. Qed.

Lemma wp_try (m : M A) Q c : wp m (fun r c' => Q (Ok r) c') c -> wp (try m) Q c.
Proof. unfold wp, try. by destruct (m c). Qed.

Lemma wp_when_true m (Q : result CacheError () -> Cache -> Prop) c : wp m Q c -> wp (when true m) Q c.
Proof. done. Qed.

Lemma wp_when b m (Q : result CacheError () -> Cache -> Prop) c :
  (b = true -> wp m Q c) -> (b = false -> Q (Ok ()) c) -> wp (when b m) Q c.
Proof. destruct b; intros H1 H2; [by apply H1|by apply H2]. Qed.

Lemma wp_of_option e (o : option A) Q c :
  (forall a, o = Some a -> Q (Ok a) c) -> (o = None -> Q (Err e) c) -> wp (of_option e o) Q c.
Proof. destruct o; intros; [apply wp_ret|apply wp_fail]; auto. Qed.

Lemma wp_mono (m : M A) (Q Q' : result CacheError A -> Cache -> Prop) c :
  wp m Q c -> (forall r c', Q r c' -> Q' r c') -> wp m Q' c.
Proof. unfold wp. auto. Qed.

Lemma wp_and (m : M A) (Q Q' : result CacheError A -> Cache -> Prop) c :
  wp m Q c -> wp m Q' c -> wp m (fun r c' => Q r c' /\ Q' r c') c.
Proof. by split. Qed.

End Rules.

Lemma wp_outcome (Q : result CacheError (option fault) -> Cache -> Prop) c :
  (forall o l, Q (Ok o) (set_faults l c)) -> wp outcome Q c.
Proof.
  intros H. unfold wp, outcome. destruct (faults c) as [|o l] eqn:E; simpl; [|apply H].
  replace c with (set_faults [] c); [apply H|]. by destruct c; simpl in *; subst.
Qed.

Lemma wp_call what (Q : result CacheError () -> Cache -> Prop) c :
  (forall l, Q (Ok ()) (set_faults l c)) ->
  (forall msg l, Q (Err (Failure msg)) (set_faults l c)) -> wp (call what) Q c.
Proof.
  intros H1 H2. unfold call. apply wp_bind, wp_outcome. intros [f|] l; [apply wp_fail, H2|apply wp_ret, H1].
Qed.

(** As [wp_call], remembering that a call fails only if something is to fail. *)
Lemma wp_call_faults what (Q : result CacheError () -> Cache -> Prop) c :
  (forall l, (faults c = [] -> l = []) -> Q (Ok ()) (set_faults l c)) ->
  (forall msg l, faults c <> [] -> Q (Err (Failure msg)) (set_faults l c)) -> wp (call what) Q c.
Proof.
  intros H1 H2. unfold wp, call, outcome, mbind, M_bind.
  destruct (faults c) as [|[f|] l] eqn:E; cbn.
  - replace c with (set_faults [] c); [by apply H1|]. by destruct c; cbn in *; subst.
  - by apply H2.
  - by apply H1.
Qed.

Lemma wp_call_ (Q : result CacheError bool -> Cache -> Prop) c :
  (forall b l, Q (Ok b) (set_faults l c)) -> wp call_ Q c.
Proof. intros H. unfold call_. apply wp_bind, wp_outcome. intros o l. apply wp_ret, H. Qed.

Lemma wp_timeNow (Q : result CacheError Z -> Cache -> Prop) c :
  (forall t k, Q (Ok t) (set_time k (lastTimestamp (mem c)) c)) -> wp timeNow Q c.
Proof.
  intros H. unfold wp, timeNow. destruct c as [cf d f m fl k0]. simpl in *.
  assert (Hm : set_lastTimestamp (lastTimestamp m) m = m) by by destruct m.
  unfold set_time in H. simpl in H. rewrite Hm in H. destruct k0; simpl; apply H.
Qed.

(** Timestamps increase, short of the largest [int64]. *)
Lemma wp_timestamp (Q : result CacheError Z -> Cache -> Prop) c :
  (forall t k, (in_int64 (lastTimestamp (mem c)) -> lastTimestamp (mem c) < int64_max ->
                lastTimestamp (mem c) < t) ->
     Q (Ok t) (set_time k t c)) -> wp timestamp Q c.
Proof.
  intros H. unfold timestamp. apply wp_bind, wp_timeNow. intros t k.
  apply (H (if t <=? lastTimestamp (mem c) then add64 (lastTimestamp (mem c)) 1 else t) k).
  destruct (t <=? lastTimestamp (mem c)) eqn:E; zbool; [|lia].
  int64_unfold. intros. no_wrap. lia.
Qed.

(** A property that every operation satisfies whatever fails: [wp] for the
    result of the run. *)
Lemma wp_run {A} (m : M A) Q c r c' : wp m Q c -> m c = (r, c') -> Q r c'.
Proof. unfold wp. intros H E. by rewrite E in H. Qed.

Ltac wp_step :=
  lazymatch goal with
  | |- wp (mbind _ _) _ _ => apply wp_bind
  | |- wp (mret _) _ _ => apply wp_ret
  | |- wp (fail _) _ _ => apply wp_fail
  | |- wp get _ _ => apply wp_get
  | |- wp (modify _) _ _ => apply wp_modify
  | |- wp (try _) _ _ => apply wp_try
  | |- wp (when true _) _ _ => apply wp_when_true
  | |- wp (when _ _) _ _ => apply wp_when; intros ?
  | |- wp (of_option _ _) _ _ => apply wp_of_option; [intros ? ?|intros ?]
  | |- wp outcome _ _ => apply wp_outcome; intros ? ?
  | |- wp (call _) _ _ => apply wp_call; [intros ?|intros ? ?]
  | |- wp call_ _ _ => apply wp_call_; intros ? ?
  | |- wp timestamp _ _ => apply wp_timestamp; intros ? ? ?
  | |- wp timeNow _ _ => apply wp_timeNow; intros ? ?
  | |- wp (if ?b then _ else _) _ _ => destruct b eqn:?
  | |- wp (match ?o with Some _ => _ | None => _ end) _ _ => destruct o eqn:?
  | |- wp (let _ := _ in _) _ _ => cbv zeta
  | |- wp ((fun _ => _) _) _ _ => cbv beta
  | |- match ?r with Ok _ => _ | Err _ => _ end => cbv beta iota
  end.

Ltac wp_go := repeat (wp_step; cbv beta iota).
