(* ===== verification/CacheInv.v ===== *)
(** * The cache invariant ([internal/cache/cache.go])

    Every operation, whatever calls fail, changes the database only by steps of
    [db_step], keeps the page files and writers consistent and does not panic.
    The files invariant is stated for any predicate [Good] on a page version and
    its content: if every content committed satisfies it, so does every content
    ever read back. *)

From stdpp Require Import relations.
From S2P Require Import Prelude GoStrings GoNet PageFrame CachePath CacheDB CacheStore CacheLogic.

(** ** The invariant *)

(** Options that [BeginPageWrite] accepted. *)
Definition opts_ok (o : PageWriteOptions) : Prop :=
  is_object_id (pwo_ObjectID o) /\ 0 <= pwo_Index o /\ 0 <= pwo_ExpectedEpoch o /\ pwo_ETag o <> "".

Definition pathOf (o : PageWriteOptions) : option string :=
  pagePathForVersion (pwo_ObjectID o) (pwo_Index o) (pwo_ETag o) (pwo_ExpectedEpoch o).

(** A writer of the program: it writes to the path of its version, and until it
    is closed its temporary file holds what was written. *)
Definition writer_ok (f : Files) (h : Z) (w : PageWriter) : Prop :=
  opts_ok (options w) /\ pathOf (options w) = Some (finalPath w) /\ h < nextHandle f /\
  0 <= pw_size w <= int64_max /\
  (done_ w = false -> zlen (default [] (temps f !! h)) = pw_size w).

Section Invariant.
Context (Good : PageWriteOptions -> bytes -> Prop).

(** A page file holds a content committed for the version its path names. *)
Definition file_ok (path : string) (data : bytes) : Prop :=
  exists o, opts_ok o /\ pathOf o = Some path /\ Good o data.

Record state_ok (d : DB) (f : Files) : Prop := {
  so_db : db_ok d;
  so_files : map_Forall file_ok (files f);
  so_writers : map_Forall (writer_ok f) (writers f) }.

Definition cache_ok (c : Cache) : Prop :=
  state_ok (db c) (fs c) /\ 0 <= maxSize (cfg c) <= int64_max.

(** From [c0] to [c] the invariant holds and the database moved by steps. *)
Record evolved (c0 c : Cache) : Prop := {
  ev_ok : cache_ok c;
  ev_steps : rtc any_step (db c0) (db c);
  ev_cfg : cfg c = cfg c0 }.

(** An operation that keeps the invariant and never panics, whatever fails. *)
Definition keeps {A} (m : M A) : Prop :=
  forall c0 c, evolved c0 c -> wp m (fun r c' => evolved c0 c' /\ r <> Err Panic) c.

Lemma evolved_refl c : cache_ok c -> evolved c c.
Proof. by constructor. Qed.

(** Only the database and the files matter. *)
Lemma evolved_same c0 c c' :
  db c' = db c -> fs c' = fs c -> cfg c' = cfg c -> evolved c0 c -> evolved c0 c'.
Proof.
  intros Hd Hf Hc [Hok Hst Hcf]. constructor.
  - unfold cache_ok in *. by rewrite Hd, Hf, Hc.
  - by rewrite Hd.
  - by rewrite Hc.
Qed.

Lemma evolved_faults c0 c l : evolved c0 c -> evolved c0 (set_faults l c).
Proof. by apply evolved_same. Qed.

Lemma evolved_time c0 c k t : evolved c0 c -> evolved c0 (set_time k t c).
Proof. by apply evolved_same. Qed.

Lemma evolved_db c0 c d :
  any_step (db c) d -> evolved c0 c -> evolved c0 (set_db d c).
Proof.
  intros Hs [[[Hdb Hf Hw] Hm] Hst Hcf]. constructor; [|by eapply rtc_r|done].
  destruct Hs as [T HT]. split; [|done]. constructor; [by eapply db_step_ok|done..].
Qed.

Lemma evolved_fs c0 c f :
  (state_ok (db c) (fs c) -> state_ok (db c) f) -> evolved c0 c -> evolved c0 (set_fs f c).
Proof. intros Hf [[Hok Hm] Hst Hcf]. constructor; [split; [by apply Hf|done]|done..]. Qed.

Lemma ev_db c0 c : evolved c0 c -> db_ok (db c).
Proof. intros [[[] _] _ _]. done. Qed.

Hint Resolve evolved_faults evolved_time : go.

(** ** Closure of [keeps] *)

Lemma keeps_ret {A} (a : A) : keeps (mret a).
Proof. intros c0 c H. apply wp_ret. by split. Qed.

Lemma keeps_fail {A} e : e <> Panic -> keeps (fail (A := A) e).
Proof. intros He c0 c H. apply wp_fail. split; [done|congruence]. Qed.

Lemma keeps_bind {A B} (m : M A) (f : A -> M B) :
  keeps m -> (forall a, keeps (f a)) -> keeps (m ≫= f).
Proof.
  intros Hm Hf c0 c H. apply wp_bind. eapply wp_mono; [by apply Hm|].
  intros [a|e] c' [Hc' Hne]; [by apply Hf|]. split; [done|congruence].
Qed.

(** As [keeps_bind], with what is known of the first result. *)
Lemma keeps_bind_post {A B} (P : A -> Prop) (m : M A) (f : A -> M B) :
  (forall c0 c, evolved c0 c ->
   wp m (fun r c' => evolved c0 c' /\ r <> Err Panic /\ forall a, r = Ok a -> P a) c) ->
  (forall a, P a -> keeps (f a)) -> keeps (m ≫= f).
Proof.
  intros Hm Hf c0 c H. apply wp_bind. eapply wp_mono; [by apply Hm|].
  intros [a|e] c' (Hc' & Hne & HP); [by apply Hf; [apply HP|]|]. split; [done|congruence].
Qed.

Lemma keeps_get : keeps get.
Proof. intros c0 c H. apply wp_get. by split. Qed.

Lemma keeps_try {A} (m : M A) : keeps m -> keeps (try m).
Proof.
  intros Hm c0 c H. apply wp_try. eapply wp_mono; [by apply Hm|]. intros r c' [? _]. by split.
Qed.

Lemma keeps_when b m : keeps m -> keeps (when b m).
Proof. destruct b; [done|]. intros _. apply keeps_ret. Qed.

Lemma keeps_of_option {A} e (o : option A) : e <> Panic -> keeps (of_option e o).
Proof. intros He. destruct o; [apply keeps_ret|by apply keeps_fail]. Qed.

Lemma keeps_call what : keeps (call what).
Proof. intros c0 c H. wp_go; split; auto with go. Qed.

Lemma keeps_call_ : keeps call_.
Proof. intros c0 c H. wp_go; split; auto with go. Qed.

Lemma keeps_outcome : keeps outcome.
Proof. intros c0 c H. wp_go; split; auto with go. Qed.

Lemma keeps_timestamp : keeps timestamp.
Proof. intros c0 c H. wp_go; split; auto with go. Qed.

Lemma keeps_timeNow : keeps timeNow.
Proof. intros c0 c H. wp_go; split; auto with go. Qed.

(** A change of counters or channels. *)
Lemma keeps_modify_same f :
  (forall c, db (f c) = db c /\ fs (f c) = fs c /\ cfg (f c) = cfg c) -> keeps (modify f).
Proof.
  intros Hf c0 c H. apply wp_modify. split; [|done].
  destruct (Hf c) as (? & ? & ?). by eapply evolved_same.
Qed.

(** A statement run on the current database. *)
Lemma keeps_modify_db (f : DB -> DB) :
  (forall d, db_ok d -> any_step d (f d)) -> keeps (modify (fun c => set_db (f (db c)) c)).
Proof.
  intros Hf c0 c H. apply wp_modify. split; [|done]. apply evolved_db; [|done].
  apply Hf. by eapply ev_db.
Qed.

Lemma keeps_if {A} (b : bool) (m m' : M A) : keeps m -> keeps m' -> keeps (if b then m else m').
Proof. by destruct b. Qed.

Lemma keeps_delete_file path :
  keeps (modify (fun c => set_fs (set_files (delete path (files (fs c))) (fs c)) c)).
Proof.
  intros c0 c H. apply wp_modify. split; [|done]. apply evolved_fs; [|done].
  intros [Hd Hf Hw]. constructor; [done| |done]. simpl. by apply map_Forall_delete.
Qed.

Lemma keeps_removeFile what path : keeps (removeFile what path).
Proof. apply keeps_bind; [apply keeps_call|]. intros _. apply keeps_delete_file. Qed.

Lemma keeps_removeFile_ path : keeps (removeFile_ path).
Proof.
  apply keeps_bind; [apply keeps_call_|]. intros b. apply keeps_when, keeps_delete_file.
Qed.

Lemma keeps_removeFiles what ps : keeps (removeFiles what ps).
Proof.
  induction ps; simpl; [apply keeps_ret|]. apply keeps_bind; [apply keeps_removeFile|done].
Qed.

(** Removing the temporary file of a closed writer. *)
Lemma removeTemp_evolved h c0 c :
  evolved c0 c -> (forall w, writers (fs c) !! h = Some w -> done_ w = true) ->
  wp (removeTemp h) (fun r c' => evolved c0 c' /\ r <> Err Panic /\ writers (fs c') = writers (fs c)) c.
Proof.
  intros H Hw. unfold removeTemp. wp_go; split_and!; auto with go.
  apply evolved_fs; [|auto with go]. intros [Hd Hf Hwr]. constructor; [done..|].
  intros i w Hi. destruct (Hwr i w Hi) as (? & ? & ? & ? & Ht). split_and!; try done; try lia.
  simpl. intros Hdone. destruct (decide (i = h)) as [->|]; [|rewrite lookup_delete_ne by done; auto].
  rewrite (Hw w Hi) in Hdone. done.
Qed.
End Invariant.

#[export] Hint Resolve evolved_faults evolved_time : go.
#[export] Hint Resolve keeps_ret keeps_bind keeps_get keeps_try keeps_when keeps_call keeps_call_
  keeps_outcome keeps_timestamp keeps_timeNow keeps_removeFile keeps_removeFile_ keeps_removeFiles : go.

(** Prove [keeps] along the structure of an operation. *)
Ltac keeps_step :=
  lazymatch goal with
  | |- keeps _ (mret _) => apply keeps_ret
  | |- keeps _ (mbind _ _) => apply keeps_bind; [|intros ?]
  | |- keeps _ get => apply keeps_get
  | |- keeps _ (call _) => apply keeps_call
  | |- keeps _ call_ => apply keeps_call_
  | |- keeps _ outcome => apply keeps_outcome
  | |- keeps _ (try _) => apply keeps_try
  | |- keeps _ (when _ _) => apply keeps_when
  | |- keeps _ timestamp => apply keeps_timestamp
  | |- keeps _ timeNow => apply keeps_timeNow
  | |- keeps _ (fail _) => apply keeps_fail; discriminate
  | |- keeps _ (of_option _ _) => apply keeps_of_option; discriminate
  | |- keeps _ (if _ then _ else _) => apply keeps_if
  | |- keeps _ (let _ := _ in _) => cbv zeta
  | |- keeps _ (_ _) => solve [auto with go nocore]
  | |- keeps _ _ => solve [auto with go nocore]
  end.
Ltac keeps_go := repeat keeps_step.

(** ** Reading the database, then writing it under the same lock *)

Section Snapshot.
Context (Good : PageWriteOptions -> bytes -> Prop).

Definition keeps_at {A} (d : DB) (m : M A) : Prop :=
  forall c0 c, evolved Good c0 c -> db c = d -> wp m (fun r c' => evolved Good c0 c' /\ r <> Err Panic) c.

Lemma keeps_at_keeps {A} d (m : M A) : keeps Good m -> keeps_at d m.
Proof. intros Hm c0 c H _. by apply Hm. Qed.

Lemma keeps_get_at {A} (f : Cache -> M A) :
  (forall c, db_ok (db c) -> keeps_at (db c) (f c)) -> keeps Good (get ≫= f).
Proof. intros Hf c0 c H. apply wp_bind, wp_get. apply Hf; [by eapply ev_db|done..]. Qed.

Lemma keeps_at_call {A} d what (f : () -> M A) :
  (forall u, keeps_at d (f u)) -> keeps_at d (call what ≫= f).
Proof.
  intros Hf c0 c H Hd. wp_step. wp_step; [apply Hf; auto with go|]. split; auto with go.
Qed.

Lemma keeps_at_timestamp {A} d (f : Z -> M A) :
  (forall t, keeps_at d (f t)) -> keeps_at d (timestamp ≫= f).
Proof. intros Hf c0 c H Hd. wp_step. wp_step. apply Hf; auto with go. Qed.

Lemma keeps_at_when {A} d b what (m : M ()) (f : () -> M A) :
  (m = call what \/ m = (call what ;; call what ;; call "delete object: ")) ->
  (forall u, keeps_at d (f u)) -> keeps_at d (when b m ≫= f).
Proof.
  intros Hm Hf c0 c H Hd. destruct b; simpl; [|by apply Hf].
  destruct Hm as [->| ->]; wp_go; try (split; auto with go; fail); apply Hf; auto 10 with go.
Qed.

Lemma keeps_at_lift {A B} d (r : result CommitError A) (f : A -> M B) :
  (forall a, r = Ok a -> keeps_at d (f a)) -> keeps_at d (liftCommit r ≫= f).
Proof.
  intros Hf c0 c H Hd. destruct r as [a|e]; simpl; [by apply (Hf a)|]. by split.
Qed.

Lemma keeps_at_option {A B} d e (o : option A) (f : A -> M B) :
  e <> Panic -> (forall a, o = Some a -> keeps_at d (f a)) -> keeps_at d (of_option e o ≫= f).
Proof.
  intros He Hf c0 c H Hd. apply wp_bind. destruct o as [a|]; [by apply (Hf a)|].
  apply wp_fail. split; [done|congruence].
Qed.

Lemma keeps_at_set {A} d d' (f : () -> M A) :
  (db_ok d -> any_step d d') -> (forall u, keeps Good (f u)) -> keeps_at d (modify (set_db d') ≫= f).
Proof.
  intros Hs Hf c0 c H Hd. wp_step. wp_step. apply Hf. apply evolved_db; [|done].
  rewrite Hd. apply Hs. rewrite <- Hd. by eapply ev_db.
Qed.
End Snapshot.

Ltac same_go := apply keeps_modify_same; intros ?; repeat case_match; done.

Section Operations.
Context (Good : PageWriteOptions -> bytes -> Prop).
Abbreviation keeps := (keeps Good).

Lemma keeps_adjustCacheSize b d : keeps (adjustCacheSize b d).
Proof. apply keeps_modify_same. intros c. destruct (d =? 0); done. Qed.
Lemma keeps_requestMetricsRefresh : keeps requestMetricsRefresh.
Proof. apply keeps_modify_same. intros c. destruct (metrics (cfg c)); done. Qed.
Lemma keeps_requestEviction : keeps requestEviction.
Proof. by apply keeps_modify_same. Qed.
Lemma keeps_requestTouch id i : keeps (requestTouch id i).
Proof. apply keeps_modify_same. intros c. cbv zeta. destruct (zlen (touchCh (mem c)) <? touchQueueSize); done. Qed.
Lemma keeps_recordEviction b : keeps (recordEviction b).
Proof. apply keeps_modify_same. intros c. destruct (metrics (cfg c)); done. Qed.

Hint Resolve keeps_adjustCacheSize keeps_requestMetricsRefresh keeps_requestEviction
  keeps_requestTouch keeps_recordEviction : go.

(** *** Metadata *)

Lemma keeps_ensureGeneration id : is_object_id id -> keeps (ensureGeneration id).
Proof.
  intros Hid. unfold ensureGeneration. keeps_go. apply keeps_modify_db.
  intros d _. exists a. by apply step_ensure.
Qed.

Lemma keeps_generation id : keeps (generation id).
Proof. unfold generation. keeps_go. Qed.

Lemma keeps_GetObject `{HeaderCodec} b k : keeps (GetObject b k).
Proof.
  unfold GetObject. keeps_go. destruct (objects _ !! _); keeps_go.
  unfold unmarshalHeaders. keeps_go.
Qed.

(** The epoch read is that of the generation row. *)
Lemma generation_nonneg id c0 c :
  evolved Good c0 c ->
  wp (generation id) (fun r c' => evolved Good c0 c' /\ r <> Err Panic /\
    (forall e, r = Ok e -> 0 <= e)) c.
Proof.
  intros H. unfold generation. wp_go; split_and!; auto with go; try congruence.
  intros e [= <-]. simpl in *. destruct (generations (db c) !! id) as [g|] eqn:Eg; [|done].
  injection H0 as <-. apply (ok_generations _ (ev_db _ _ _ H) _ _ Eg).
Qed.

Lemma keeps_PutObject `{HeaderCodec} meta : keeps (PutObject meta).
Proof.
  unfold PutObject. case_bool_decide; [keeps_go|]. case_bool_decide; [keeps_go|].
  case_bool_decide; [keeps_go|]. destruct (om_Size meta <? 0) eqn:Hs; [keeps_go|].
  destruct (om_PageSize meta <=? 0) eqn:Hp; [keeps_go|]. zbool. cbv zeta.
  apply keeps_bind; [apply keeps_timestamp|]. intros now.
  apply keeps_bind; [apply keeps_ensureGeneration; by eexists _, _|]. intros _.
  apply (keeps_bind_post _ (fun e => 0 <= e)); [intros; by apply generation_nonneg|].
  intros epoch He. apply keeps_bind; [apply keeps_call|intros _].
  apply keeps_get_at. intros c2 Hok. apply keeps_at_option; [done|]. intros d Hd.
  apply keeps_at_set.
  - intros _. exists 0.
    apply (step_object 0 (mkObjectRow (om_Bucket meta) (om_Key meta) (om_ETag meta) (om_Size meta)
             (om_PageSize meta) (marshalHeaders (om_Headers meta)) epoch now)); simpl; assumption.
  - intros _. apply keeps_bind; [apply keeps_GetObject|]. intros obj. keeps_go.
Qed.

Lemma keeps_InvalidateObject b k m : keeps (InvalidateObject b k m).
Proof.
  unfold InvalidateObject. case_bool_decide; [keeps_go|]. case_bool_decide; [keeps_go|].
  destruct (m <? 0) eqn:Hm; [keeps_go|]. zbool. cbv zeta.
  apply keeps_bind; [apply keeps_timestamp|]. intros now.
  do 4 (apply keeps_bind; [apply keeps_call|intros _]).
  apply keeps_get_at. intros c Hok.
  destruct (invalidateTx (ObjectKey b k) m now (db c)) as [[[next bkt] ps] d] eqn:E.
  eapply keeps_at_when; [by right|]. intros _.
  eapply keeps_at_when; [by left|]. intros _.
  apply keeps_at_call. intros _. apply keeps_at_set.
  - intros _. exists now. pose proof (step_invalidate now b k m now (db c) Hm ltac:(lia)) as Hst.
    by rewrite E in Hst.
  - intros _. keeps_go; auto with go.
Qed.

Lemma keeps_DeleteObject b k : keeps (DeleteObject b k).
Proof. apply keeps_bind; [apply keeps_InvalidateObject|]. intros ?. apply keeps_ret. Qed.

(** *** Page rows *)

Lemma keeps_getPage id i : keeps (getPage id i).
Proof. unfold getPage. keeps_go. Qed.
Lemma keeps_pageBucket id : keeps (pageBucket id).
Proof. unfold pageBucket. keeps_go. Qed.
Lemma keeps_pageBucket_ id : keeps (pageBucket_ id).
Proof. unfold pageBucket_. keeps_go. apply keeps_pageBucket. Qed.
Lemma keeps_ListPages id : keeps (ListPages id).
Proof. unfold ListPages. keeps_go. Qed.

Lemma keeps_deletePage id i : keeps (deletePage id i).
Proof.
  unfold deletePage. apply keeps_bind; [apply keeps_call|intros _].
  apply keeps_get_at. intros c _. destruct (sqlDeletePage id i (db c)) as [b d] eqn:E.
  apply keeps_at_set; [|intros _; keeps_go]. intros _. exists 0.
  pose proof (step_delete_page 0 id i (db c)) as H. by rewrite E in H.
Qed.

Lemma keeps_deletePageIfCurrent p : keeps (deletePageIfCurrent p).
Proof.
  unfold deletePageIfCurrent. apply keeps_bind; [apply keeps_call|intros _].
  apply keeps_get_at. intros c _. destruct (sqlDeletePageIfCurrent p (db c)) as [b d] eqn:E.
  apply keeps_at_set; [|intros _; keeps_go]. intros _. exists 0.
  pose proof (step_delete_page_if_current 0 p (db c)) as H. by rewrite E in H.
Qed.

Lemma keeps_touchPage id i t : keeps (touchPage id i t).
Proof.
  unfold touchPage. keeps_go. apply keeps_modify_db. intros d _. exists 0. apply step_touch.
Qed.

Lemma keeps_validatePage p : keeps (validatePage p).
Proof. unfold validatePage. keeps_go. Qed.

Lemma keeps_validatePageCommit id etag e : keeps (validatePageCommit id etag e).
Proof.
  unfold validatePageCommit. keeps_go. destruct (checkCurrent _ _ _ _); simpl; keeps_go.
Qed.

Lemma keeps_putPageIfCurrent p :
  0 <= Index p -> 0 <= Size p ->
  pagePathForVersion (ObjectID p) (Index p) (ETag p) (Epoch p) = Some (Path p) ->
  keeps (putPageIfCurrent p (Epoch p)).
Proof.
  intros Hi Hs Hp. unfold putPageIfCurrent.
  apply keeps_bind; [apply keeps_validatePage|intros _].
  do 2 (apply keeps_bind; [apply keeps_call|intros _]).
  apply keeps_get_at. intros c _. apply keeps_at_lift. intros _ _.
  apply keeps_at_call. intros _. apply keeps_at_timestamp. intros now.
  apply keeps_at_call. intros _. apply keeps_at_lift. intros [[b sz] d] Hput.
  apply keeps_at_call. intros _. apply keeps_at_set; [|intros _; keeps_go].
  intros _. exists 0. by eapply step_put_page.
Qed.

End Operations.

#[export] Hint Resolve keeps_adjustCacheSize keeps_requestMetricsRefresh keeps_requestEviction
  keeps_requestTouch keeps_recordEviction keeps_getPage keeps_pageBucket keeps_pageBucket_
  keeps_deletePage keeps_deletePageIfCurrent keeps_touchPage : go.

(** *** Page writers *)

Section Writers.
Context (Good : PageWriteOptions -> bytes -> Prop).
Abbreviation keeps := (keeps Good).
Abbreviation evolved := (evolved Good).

Lemma validatePageCommit_post id etag e c0 c :
  evolved c0 c ->
  wp (validatePageCommit id etag e) (fun r c' => evolved c0 c' /\ r <> Err Panic /\
    forall a, r = Ok a -> is_object_id id /\ 0 <= e) c.
Proof.
  intros H. pose proof (ev_db _ _ _ H) as Hdb. unfold validatePageCommit, liftCommit. wp_go; try by split_and!; auto with go.
  destruct (checkCurrent _ _ _ _) as [b|] eqn:E; wp_go; split_and!; auto with go; try congruence.
  intros _ _. apply checkCurrent_ok in E as (o & g & Ho & Hg & <- & _).
  simpl in *. destruct (ok_objects _ Hdb _ _ Ho) as [-> _]. split; [by eexists _, _|].
  apply (ok_generations _ Hdb _ _ Hg).
Qed.

Lemma keeps_BeginPageWrite opts : keeps (BeginPageWrite opts).
Proof.
  unfold BeginPageWrite. case_bool_decide; [keeps_go|]. destruct (_ <? 0) eqn:Hi; [keeps_go|].
  case_bool_decide; [keeps_go|]. zbool.
  eapply (keeps_bind_post _ (fun _ => is_object_id (pwo_ObjectID opts) /\ 0 <= pwo_ExpectedEpoch opts));
    [intros; by apply validatePageCommit_post|]. intros _ [Hid He].
  apply keeps_bind; [auto with go|]. intros bucket.
  pose proof (pagePathForVersion_eq _ _ (pwo_ETag opts) _ Hid Hi He) as Hp. rewrite Hp. simpl.
  intros c0 c Hev. wp_go; try by split; auto with go. split; [|done].
  apply evolved_fs; [|auto with go]. simpl. intros [Hd Hf Hw]. constructor; [done..|]. simpl.
  assert (Hold : map_Forall (writer_ok (mkFiles (files (fs c)) (<[nextHandle (fs c) := []]> (temps (fs c)))
            (writers (fs c)) (nextHandle (fs c) + 1))) (writers (fs c))).
  { intros h w Hh. destruct (Hw h w Hh) as (? & ? & ? & ? & Ht). split_and!; try done; simpl; try lia.
    rewrite lookup_insert_ne by lia. done. }
  apply map_Forall_insert_2; [|exact Hold].
  split_and!; try done; simpl; int64_unfold; try lia. by rewrite lookup_insert_eq.
Qed.

(** Closing a writer, whatever becomes of its temporary file. *)
Lemma close_evolved_temps c0 c h w t :
  evolved c0 c -> writers (fs c) !! h = Some w -> (forall i, i <> h -> t !! i = temps (fs c) !! i) ->
  evolved c0 (set_fs (set_writer h (closeWriter w) (set_temps t (fs c))) c).
Proof.
  intros H Hw Ht. apply evolved_fs; [|done]. intros [Hd Hf Hwr]. constructor; [done..|].
  simpl. destruct (Hwr h w Hw) as (? & ? & ? & ? & _).
  intros i v Hi. apply lookup_insert_Some in Hi as [[<- <-]|[Hne Hi]].
  - by split_and!; try done; simpl; try lia.
  - destruct (Hwr i v Hi) as (? & ? & ? & ? & ?). split_and!; try done; simpl; try lia.
    by rewrite Ht by congruence.
Qed.

Lemma close_evolved c0 c h w :
  evolved c0 c -> writers (fs c) !! h = Some w ->
  evolved c0 (set_fs (set_writer h (closeWriter w) (fs c)) c).
Proof.
  intros H Hw. pose proof (close_evolved_temps c0 c h w (temps (fs c)) H Hw ltac:(done)) as Hc.
  by destruct c as [? ? [] ? ? ?].
Qed.

Lemma writer_some h w c (Q : result CacheError PageWriter -> Cache -> Prop) :
  writers (fs c) !! h = Some w -> Q (Ok w) c -> wp (writer h) Q c.
Proof. intros Hw HQ. unfold writer. wp_go; by simplify_eq. Qed.

Lemma Abort_evolved c0 c h :
  evolved c0 c -> is_Some (writers (fs c) !! h) ->
  wp (Abort h) (fun r c' => evolved c0 c' /\ r <> Err Panic /\
    exists w, writers (fs c') !! h = Some w /\ done_ w = true) c.
Proof.
  intros H [w Hw]. unfold Abort. wp_step. eapply writer_some; [done|].
  destruct (done_ w) eqn:Hd; [wp_go; by eauto|].
  wp_step. unfold set_writerM. wp_step. pose proof (close_evolved c0 c h w H Hw) as H1.
  set (c1 := set_fs _ c) in *.
  assert (Hw1 : writers (fs c1) !! h = Some (closeWriter w)) by apply lookup_insert_eq.
  assert (Hclosed : forall l v, writers (fs (set_faults l c1)) !! h = Some v -> done_ v = true).
  { intros l v Hv. simpl in Hv. rewrite lookup_insert_eq in Hv. by simplify_eq. }
  wp_step. wp_step. wp_step; wp_step; wp_step;
    (eapply wp_mono; [apply removeTemp_evolved; [by apply evolved_faults|by apply Hclosed]|]);
    intros r c2 (H2 & Hne & Hw2); (assert (Hw3 : writers (fs c2) !! h = Some (closeWriter w))
      by (rewrite Hw2; exact Hw1)).
  - destruct r; wp_go; split_and!; eauto; try congruence.
  - wp_go. split_and!; eauto; try congruence.
Qed.

(** A failed cleanup does not matter. *)
Lemma removeTemp_any c0 c h :
  evolved c0 c -> (forall w, writers (fs c) !! h = Some w -> done_ w = true) ->
  wp (removeTemp h) (fun _ c' => evolved c0 c') c.
Proof. intros H Hw. eapply wp_mono; [by apply removeTemp_evolved|]. by intros ? ? []. Qed.

Lemma Write_evolved c0 c h data :
  evolved c0 c -> is_Some (writers (fs c) !! h) ->
  wp (Write h data) (fun r c' => evolved c0 c' /\ r <> Err Panic /\
    exists w w', writers (fs c) !! h = Some w /\ writers (fs c') !! h = Some w' /\
      options w' = options w /\ done_ w' = done_ w /\
      (forall n, r = Ok n -> n = length data /\ done_ w = false /\
         temps (fs c') !! h = Some (default [] (temps (fs c) !! h) ++ data))) c.
Proof.
  intros H [w Hw]. unfold Write. wp_step. eapply writer_some; [done|]. wp_step. wp_step.
  assert (Hfail : forall e, e <> Panic -> evolved c0 c /\ Err (A := nat) e <> Err Panic /\
    exists w0 w', writers (fs c) !! h = Some w0 /\ writers (fs c) !! h = Some w' /\
      options w' = options w0 /\ done_ w' = done_ w0 /\
      (forall n, Err e = Ok n -> n = length data /\ done_ w0 = false /\
         temps (fs c) !! h = Some (default [] (temps (fs c) !! h) ++ data))).
  { intros e He. split_and!; [done|congruence|]. exists w, w. by split_and!. }
  destruct (done_ w) eqn:Hdone; [apply wp_fail; by apply Hfail|].
  destruct (zlen data >? _) eqn:Hmax; [apply wp_fail; by apply Hfail|]. cbv zeta.
  destruct ((_ >? 0) && _); [apply wp_fail; by apply Hfail|].
  wp_step. wp_step. cbv zeta. set (data' := match o with Some f => _ | None => data end).
  assert (Hlen : zlen data' <= zlen data) by (unfold data', zlen; destruct o; [rewrite length_take|]; lia).
  rewrite Z.gtb_ltb in Hmax. zbool.
  destruct H as [[[Hd Hf Hwr] Hms] Hst Hcf]. destruct (Hwr h w Hw) as (Hop & Hpa & Hnx & Hsz & Ht).
  specialize (Ht Hdone). pose proof (zlen_nonneg data'). unfold sub64 in Hmax.
  rewrite wrap64_id in Hmax by (int64_unfold; lia).
  assert (Hadd : add64 (pw_size w) (zlen data') = pw_size w + zlen data') by (no_wrap; lia).
  unfold appendTemp, set_writerM. wp_step. wp_step. wp_step. wp_step. rewrite Hadd.
  assert (Hev : evolved c0 (set_fs (set_writer h (mkPageWriter (options w) (pw_bucket w) (finalPath w)
      (pw_size w + zlen data') false) (set_temps (<[h := default [] (temps (fs c) !! h) ++ data']>
      (temps (fs c))) (fs c))) (set_faults l c))).
  { constructor; [split; [|done]|done..]. constructor; [done..|]. simpl.
    intros i v Hi. apply lookup_insert_Some in Hi as [[<- <-]|[Hne Hi]].
    - split_and!; simpl; try done; try lia.
      intros _. rewrite lookup_insert_eq. simpl. rewrite zlen_app. lia.
    - destruct (Hwr i v Hi) as (? & ? & ? & ? & Ht').
      split_and!; simpl; try done; try lia. by rewrite lookup_insert_ne. }
  set (c1 := set_fs _ (set_faults l c)) in Hev.
  match goal with |- wp _ _ ?x => change x with c1 end.
  assert (Hw1 : writers (fs c1) !! h = Some (mkPageWriter (options w) (pw_bucket w) (finalPath w)
      (pw_size w + zlen data') false)) by apply lookup_insert_eq.
  destruct o as [f|]; wp_go; split_and!; try done; eexists _, _;
    (split; [exact Hw|]); (split; [exact Hw1|]); simpl; split_and!; try done.
  intros n [= <-]. split_and!; try done. by rewrite lookup_insert_eq.
Qed.
Lemma wp_orElse {A B} (m : M A) (cleanup : M B) Q c :
  wp m (fun r c' => match r with
                    | Ok a => Q (Ok a) c'
                    | Err e => wp cleanup (fun _ c'' => Q (Err e) c'') c' end) c ->
  wp (orElse m cleanup) Q c.
Proof.
  intros H. unfold orElse. wp_step. wp_step. eapply wp_mono; [exact H|].
  intros [a|e] c' HQ; wp_step; [done|]. wp_step. eapply wp_mono; [exact HQ|]. intros. by wp_step.
Qed.

Lemma wp_deferring {A B} (m : M A) (cleanup : M B) Q c :
  wp m (fun r c' => wp cleanup (fun _ c'' => Q r c'') c') c -> wp (deferring m cleanup) Q c.
Proof.
  intros H. unfold deferring. wp_step. wp_step. eapply wp_mono; [exact H|].
  intros r c' HQ. wp_step. wp_step. eapply wp_mono; [exact HQ|]. intros r' c'' HQ'.
  destruct r; by wp_step.
Qed.

(** Renaming the temporary file of a closed writer to its page file. *)
Lemma renameTemp_evolved c0 c h w :
  evolved c0 c -> writers (fs c) !! h = Some w -> done_ w = true ->
  Good (options w) (default [] (temps (fs c) !! h)) ->
  wp (renameTemp h (finalPath w)) (fun r c' => evolved c0 c' /\ r <> Err Panic /\
    writers (fs c') = writers (fs c)) c.
Proof.
  intros H Hw Hd HG. unfold renameTemp. wp_go; split_and!; auto with go.
  apply evolved_fs; [|auto with go]. simpl. intros [Hdb Hf Hwr].
  destruct (Hwr h w Hw) as (? & ? & _). constructor; [done|..]; simpl.
  - apply map_Forall_insert_2; [|done]. by exists (options w).
  - intros i v Hi. destruct (Hwr i v Hi) as (? & ? & ? & ? & Ht).
    split_and!; try done; simpl; try lia. intros Hdone.
    rewrite lookup_delete_ne by (intros <-; congruence). auto.
Qed.

(** What a commit does after the temporary file was synced and closed. *)
Lemma commit_tail c0 c h w :
  evolved c0 c -> writers (fs c) !! h = Some w -> done_ w = true ->
  Good (options w) (default [] (temps (fs c) !! h)) ->
  wp (orElse (renameTemp h (finalPath w)) (removeTemp h);;
      path ← of_option Panic (pathOf (options w));
      let page := mkPage (pwo_ObjectID (options w)) (pwo_Index (options w)) (pwo_ETag (options w))
                    (pwo_ExpectedEpoch (options w)) (pw_size w) path in
      r ← orElse (putPageIfCurrent page (pwo_ExpectedEpoch (options w))) (removeFile_ (finalPath w));
      let '(bucket, previousSize) := r in
      adjustCacheSize bucket (sub64 (Size page) previousSize);;
      requestMetricsRefresh;; requestEviction;; mret page)
    (fun r c' => evolved c0 c' /\ r <> Err Panic) c.
Proof.
  intros H Hw Hd HG. pose proof (ev_ok _ _ _ H) as [[_ _ Hwr] _].
  destruct (Hwr h w Hw) as ((_ & Hi & _ & _) & Hp & _ & Hs & _).
  wp_step. apply wp_orElse. eapply wp_mono; [by apply renameTemp_evolved|].
  intros [[]|e] c1 (H1 & Hne & Hw1).
  2:{ eapply wp_mono; [apply removeTemp_any; [done|]|intros; split; [done|congruence]].
      rewrite Hw1. intros v Hv. by simplify_eq. }
  rewrite Hp. wp_step. apply wp_ret. cbv zeta. revert c0 c1 H1 Hne Hw1 H. intros c0 c1 H1 _ _ _.
  revert c0 c1 H1. match goal with |- forall c0 c1, _ -> wp ?m _ _ => change (keeps m) end.
  apply keeps_bind.
  - intros c0' c1 H1. apply wp_orElse. eapply wp_mono.
    + exact (keeps_putPageIfCurrent Good
        (mkPage (pwo_ObjectID (options w)) (pwo_Index (options w)) (pwo_ETag (options w))
           (pwo_ExpectedEpoch (options w)) (pw_size w) (finalPath w)) Hi (proj1 Hs) Hp c0' c1 H1).
    + intros [a|e] c2 [H2 Hne2]; [done|]. eapply wp_mono; [by apply keeps_removeFile_|].
      intros ? ? []. split; [done|congruence].
  - intros [bucket prev]. keeps_go.
Qed.

Lemma Commit_evolved c0 c h w :
  evolved c0 c -> writers (fs c) !! h = Some w ->
  (done_ w = false -> Good (options w) (default [] (temps (fs c) !! h))) ->
  wp (Commit h) (fun r c' => evolved c0 c' /\ r <> Err Panic) c.
Proof.
  intros H Hw HG. unfold Commit. wp_step. eapply writer_some; [done|].
  destruct (done_ w) eqn:Hd; [wp_go; by split|]. specialize (HG eq_refl). cbv zeta.
  wp_step. apply wp_orElse. wp_step.
  2:{ eapply wp_mono; [apply Abort_evolved; [by apply evolved_faults|by eexists]|].
      intros r c' (? & ? & _). split; [done|congruence]. }
  wp_step. apply wp_orElse. wp_step.
  2:{ unfold removeTemp, set_writerM. wp_go; (split; [|done]).
      - apply (close_evolved_temps c0 (set_faults l1 c)); [auto with go|done|].
        intros i Hi. by rewrite lookup_delete_ne.
      - apply (close_evolved c0 (set_faults l1 c)); [auto with go|done]. }
  wp_step. unfold set_writerM. wp_step.
  apply (commit_tail c0 _ h (closeWriter w)); [|by apply lookup_insert_eq|done|done].
  apply (close_evolved c0 (set_faults _ (set_faults _ c))); auto with go.
Qed.
End Writers.

(** *** Storing and reading pages *)

Section Pages.
Context (Good : PageWriteOptions -> bytes -> Prop).
Abbreviation keeps := (keeps Good).
Abbreviation evolved := (evolved Good).

Definition temp (c : Cache) (h : Z) : bytes := default [] (temps (fs c) !! h).

(** Copying a source appends all of it to the temporary file. *)
Lemma copyToWriter_evolved fuel buf h written src c0 c w :
  evolved c0 c -> writers (fs c) !! h = Some w -> done_ w = false ->
  wp (copyToWriter fuel buf h written src) (fun r c' => evolved c0 c' /\ r <> Err Panic /\
    exists w', writers (fs c') !! h = Some w' /\ options w' = options w /\ done_ w' = false /\
      forall n, r = Ok n -> n = written + zlen (Io.content src) /\
        temp c' h = temp c h ++ Io.content src) c.
Proof.
  revert written src c w. induction fuel as [|fuel IH]; intros written src c w H Hw Hd.
  { cbn [copyToWriter]. wp_step. split_and!; [done..|]. exists w. split_and!; try done. }
  cbn [copyToWriter]. destruct (Io.Read (S (buf fuel)) src) as [[got rerr] src'] eqn:HR.
  pose proof (Io.Read_spec _ _ _ _ _ HR) as (Hc & _ & _ & Herr & _). rewrite Hc.
  assert (Hone : wp (if bool_decide (got = []) then mret 0%nat else Write h got)
    (fun r c' => evolved c0 c' /\ r <> Err Panic /\
       exists w', writers (fs c') !! h = Some w' /\ options w' = options w /\ done_ w' = false /\
         forall n, r = Ok n -> n = length got /\ temp c' h = temp c h ++ got) c).
  { case_bool_decide as Hg.
    - subst got. wp_step. split_and!; [done..|]. exists w. split_and!; try done.
      intros n [= <-]. by rewrite app_nil_r.
    - eapply wp_mono; [by apply Write_evolved|].
      intros r c' (H1 & Hne & w0 & w' & Hw0 & Hw' & Ho & Hd' & Hok). simplify_eq.
      split_and!; [done..|]. exists w'. split_and!; [done|done|congruence|].
      intros n Hn. destruct (Hok n Hn) as (-> & _ & Ht). split; [done|]. unfold temp. by rewrite Ht. }
  wp_step. eapply wp_mono; [exact Hone|].
  intros [n|e] c1 (H1 & Hne & w1 & Hw1 & Ho1 & Hd1 & Hok).
  2:{ split_and!; [done|congruence|]. exists w1. by split_and!. }
  destruct (Hok n eq_refl) as [-> Ht].
  destruct rerr as [e|].
  - destruct (Herr e eq_refl) as [Hnil _]. rewrite Hnil, app_nil_r.
    case_bool_decide; wp_step; (split_and!; [done..|]); exists w1; split_and!; try done;
      try congruence; intros n [= <-]; done.
  - eapply wp_mono; [by apply (IH _ src' c1 w1)|].
    intros r c2 (H2 & Hne2 & w2 & Hw2 & Ho2 & Hd2 & Hok2). split_and!; [done..|].
    exists w2. split_and!; [done|congruence|done|]. intros n Hn.
    destruct (Hok2 n Hn) as [-> Ht2]. rewrite Ht2, Ht, zlen_app, app_assoc.
    split; [unfold zlen; lia|done].
Qed.

(** [BeginPageWrite] returns a fresh writer with an empty file. *)
Lemma BeginPageWrite_post opts c :
  wp (BeginPageWrite opts) (fun r c' => forall h, r = Ok h ->
    exists w, writers (fs c') !! h = Some w /\ options w = opts /\ done_ w = false /\ temp c' h = []) c.
Proof.
  unfold BeginPageWrite, validatePageCommit, liftCommit, pageBucket. wp_go; try done.
  destruct (checkCurrent _ _ _ _); wp_go; try done. intros h [= <-].
  eexists. simpl. rewrite lookup_insert_eq. split_and!; [done..|]. unfold temp. simpl.
  by rewrite lookup_insert_eq.
Qed.

Lemma Abort_any c0 c h : evolved c0 c -> wp (Abort h) (fun _ c' => evolved c0 c') c.
Proof.
  intros H. destruct (writers (fs c) !! h) as [w|] eqn:Hw.
  - eapply wp_mono; [apply Abort_evolved; [done|by eexists]|]. by intros ? ? (? & _).
  - unfold Abort, writer. wp_step. wp_step. wp_step. wp_step; [congruence|done].
Qed.

Lemma keeps_StorePage buf write :
  (forall src, pwr_Source write = Some src -> Good (pwr_options write) (Io.content src)) ->
  keeps (StorePage buf write).
Proof.
  intros HG. unfold StorePage. destruct (_ <? 0); [keeps_go|].
  destruct (pwr_Source write) as [src|] eqn:Hsrc; [|keeps_go]. specialize (HG src eq_refl).
  intros c0 c H. wp_step.
  eapply wp_mono; [apply wp_and; [by apply keeps_BeginPageWrite|apply BeginPageWrite_post]|].
  intros [h|e] c1 [[H1 Hne] HP]; [|split; [done|congruence]].
  destruct (HP h eq_refl) as (w & Hw & Ho & Hd & Ht).
  apply wp_deferring. wp_step. eapply wp_mono; [by apply copyToWriter_evolved|].
  assert (Habort : forall c3 (r' : result CacheError Page), evolved c0 c3 -> r' <> Err Panic ->
    wp (Abort h) (fun _ c'' => evolved c0 c'' /\ r' <> Err Panic) c3).
  { intros c3 r' H3 Hr. eapply wp_mono; [by apply Abort_any|]. done. }
  intros [n|e] c2 (H2 & Hne2 & w2 & Hw2 & Ho2 & Hd2 & Hok); [|apply Habort; congruence].
  destruct (negb _); [wp_step; by apply Habort|].
  eapply wp_mono; [apply (Commit_evolved Good c0 c2 h w2); [done..|]|].
  - intros _. destruct (Hok n eq_refl) as [_ Ht2]. unfold temp in Ht2, Ht.
    by rewrite Ht2, Ht, Ho2, Ho.
  - intros r c3 [H3 Hr]. by apply Habort.
Qed.

(** [OpenPage] returns only a content that was committed for the version asked
    for, with the size of the page row. *)
Lemma keeps_OpenPage id i etag e : keeps (OpenPage id i etag e).
Proof.
  unfold OpenPage. keeps_go. destruct a as [page|]; [|keeps_go]. keeps_go.
  destruct (files _ !! _) as [data|]; keeps_go.
Qed.

(** An operation that cannot return a content. *)
Definition nothing (r : result CacheError (option bytes)) : Prop :=
  forall data, r <> Ok (Some data).

Lemma wp_nothing {A} (m : M A) c :
  wp (m;; mret None) (fun r _ => nothing r) c.
Proof.
  wp_step. unfold wp. destruct (m c) as [[a|e] c']; [|intros data; discriminate].
  cbn. intros data. discriminate.
Qed.

Lemma wp_nothing_bind {A} (m : M A) (f : A -> M (option bytes)) c :
  (forall a c', wp (f a) (fun r _ => nothing r) c') -> wp (m ≫= f) (fun r _ => nothing r) c.
Proof.
  intros H. wp_step. unfold wp. destruct (m c) as [[a|e] c']; [apply H|intros data; discriminate].
Qed.

Lemma OpenPage_post id i etag e c :
  wp (OpenPage id i etag e) (fun r c' => forall data, r = Ok (Some data) ->
    exists row, pages (db c) !! (id, i) = Some row /\ p_etag row = etag /\ p_epoch row = e /\
      zlen data = p_size row /\ files (fs c) !! p_path row = Some data /\
      db c' = db c /\ fs c' = fs c) c.
Proof.
  assert (Hnone : forall (m : M (option bytes)) c', wp m (fun r _ => nothing r) c' ->
    wp m (fun r c1 => forall data, r = Ok (Some data) ->
      exists row, pages (db c) !! (id, i) = Some row /\ p_etag row = etag /\ p_epoch row = e /\
      zlen data = p_size row /\ files (fs c) !! p_path row = Some data /\
      db c1 = db c /\ fs c1 = fs c) c').
  { intros m c' Hm. eapply wp_mono; [exact Hm|]. intros r c1 Hn data ->. by destruct (Hn data). }
  unfold OpenPage, getPage. do 2 wp_step. wp_step; [|done]. do 3 wp_step. unfold sqlPage. simpl.
  destruct (pages (db c) !! (id, i)) as [row|] eqn:Hrow; simpl; [|apply Hnone, wp_ret; done].
  destruct (negb _ || negb _) eqn:Hstale.
  { apply Hnone. do 4 (apply wp_nothing_bind; intros ? ?). by apply wp_ret. }
  wp_step. wp_step; [|done]. do 2 wp_step. simpl.
  destruct (files (fs c) !! p_path row) as [data|] eqn:Hfile.
  - wp_step. wp_step; [|done]. destruct (negb (zlen data =? p_size row)) eqn:Hsize.
    { apply Hnone. do 4 (apply wp_nothing_bind; intros ? ?). by apply wp_ret. }
    apply orb_false_iff in Hstale as [H1 H2]. zbool. apply bool_decide_eq_true in H1.
    wp_go. intros d [= <-]. exists row. split_and!; try done;
      cbv zeta; unfold requestTouch; simpl; by destruct (zlen (touchCh (mem c)) <? touchQueueSize).
  - apply Hnone. do 3 (apply wp_nothing_bind; intros ? ?). by apply wp_ret.
Qed.

Lemma keeps_oldestPages n : keeps (oldestPages n).
Proof. unfold oldestPages. keeps_go. Qed.
Lemma keeps_oldestPagesForBucket b n : keeps (oldestPagesForBucket b n).
Proof. unfold oldestPagesForBucket. keeps_go. Qed.

(** *** Eviction, collection, maintenance *)

Lemma keeps_removePage p : keeps (removePage p).
Proof. unfold removePage. keeps_go. Qed.

Lemma keeps_removeUntil t r ps : keeps (removeUntil t r ps).
Proof.
  revert r. induction ps as [|p ps IH]; intros r; cbn [removeUntil]; [keeps_go|].
  apply keeps_bind; [apply keeps_removePage|]. intros _. cbv zeta. apply keeps_if; [keeps_go|apply IH].
Qed.

Lemma keeps_evictLoop fuel : keeps (evictLoop fuel).
Proof.
  induction fuel as [|fuel IH]; cbn [evictLoop]; [by apply keeps_fail|].
  apply keeps_bind; [apply keeps_get|]. intros c. cbv zeta. apply keeps_if; [auto with go|].
  apply keeps_bind; [apply keeps_oldestPages|]. intros ps. apply keeps_if; [keeps_go|].
  apply keeps_bind; [apply keeps_removeUntil|done].
Qed.

Lemma keeps_evictBucketLoop fuel b m : keeps (evictBucketLoop fuel b m).
Proof.
  induction fuel as [|fuel IH]; cbn [evictBucketLoop]; [by apply keeps_fail|].
  apply keeps_bind; [apply keeps_get|]. intros c. cbv zeta. apply keeps_if; [keeps_go|].
  apply keeps_bind; [apply keeps_oldestPagesForBucket|]. intros ps. apply keeps_if; [keeps_go|].
  apply keeps_bind; [apply keeps_removeUntil|done].
Qed.

Lemma keeps_Evict order : keeps (Evict order).
Proof.
  unfold Evict. apply keeps_bind.
  - induction order as [|[b m] order IH]; cbn [evictBuckets]; [keeps_go|].
    apply keeps_bind; [apply keeps_get|]. intros c.
    apply keeps_bind; [apply keeps_evictBucketLoop|done].
  - intros _. apply keeps_bind; [apply keeps_get|]. intros c. apply keeps_evictLoop.
Qed.

Lemma keeps_collectMetadata so sg : keeps (collectMetadata so sg).
Proof.
  unfold collectMetadata, deleteOldPageLessObjects, deleteOldUnreferencedGenerations.
  apply keeps_bind; [apply keeps_timeNow|]. intros now.
  apply keeps_bind; [apply keeps_get|]. intros c. cbv zeta. apply keeps_bind.
  - apply keeps_bind; [apply keeps_call|intros _]. apply keeps_get_at. intros c1 _.
    destruct (sqlDeleteOldPageLessObjects _ _ _ _) as [n d] eqn:E.
    apply keeps_at_set; [|intros _; keeps_go]. intros _. exists 0.
    match type of E with sqlDeleteOldPageLessObjects ?s ?t ?l ?d0 = _ =>
      pose proof (step_gc_objects 0 s t l d0) as Hst; by rewrite E in Hst end.
  - intros n. apply keeps_bind; [|intros; keeps_go].
    apply keeps_bind; [apply keeps_call|intros _]. apply keeps_get_at. intros c1 _.
    destruct (sqlDeleteOldUnreferencedGenerations _ _ _ _) as [n' d] eqn:E.
    apply keeps_at_set; [|intros _; keeps_go]. intros _.
    match type of E with sqlDeleteOldUnreferencedGenerations ?s ?t ?l ?d0 = _ =>
      exists t; pose proof (step_gc_generations t s t l d0 ltac:(lia)) as Hst; by rewrite E in Hst end.
Qed.

Lemma keeps_touchAll now order pending : keeps (touchAll now order pending).
Proof.
  revert pending. induction order as [|r order IH]; intros pending; cbn [touchAll]; [keeps_go|].
  apply keeps_bind; [apply keeps_try; auto with go|]. intros [u|e]; [apply IH|keeps_go].
Qed.

Lemma keeps_flushTouches order pending : keeps (flushTouches order pending).
Proof.
  unfold flushTouches. apply keeps_if; [keeps_go|].
  apply keeps_bind; [apply keeps_timestamp|]. intros now. apply keeps_touchAll.
Qed.

Lemma keeps_popTouch : keeps popTouch.
Proof.
  intros c0 c H. unfold wp, popTouch. cbv zeta. destruct (touchCh (mem c)); (split; [|done]);
    by apply (evolved_same Good c0 c).
Qed.

Lemma keeps_maintenanceStep ev pending dirty : keeps (maintenanceStep ev pending dirty).
Proof.
  assert (Hd1 : keeps drainEviction) by by apply keeps_modify_same.
  assert (Hd2 : keeps drainMetrics) by by apply keeps_modify_same.
  destruct ev; cbn [maintenanceStep].
  - apply keeps_bind; [apply keeps_flushTouches|intros; keeps_go].
  - apply keeps_bind; [done|intros _]. apply keeps_bind; [apply keeps_try, keeps_Evict|intros; keeps_go].
  - apply keeps_bind; [done|intros; keeps_go].
  - apply keeps_bind; [apply keeps_popTouch|]. intros [ref|]; [|keeps_go]. cbv zeta.
    apply keeps_if; [|keeps_go]. apply keeps_bind; [apply keeps_flushTouches|intros; keeps_go].
  - apply keeps_bind; [apply keeps_flushTouches|intros; keeps_go].
  - apply keeps_bind; [apply keeps_try, keeps_collectMetadata|intros; keeps_go].
  - apply keeps_bind; [apply keeps_try; unfold checkpointSQLite; keeps_go|intros; keeps_go].
  - keeps_go.
Qed.
End Pages.
