(* ===== verification/CacheOps.v ===== *)
(** * The operations that the program calls ([internal/cache/cache.go])

    The operations as one type [op], one run of an operation as [cache_step], and
    the theorems about all of them: they keep the invariant whatever fails, they
    refine the database's steps, and a page that is served is one that was
    committed for the version asked for. [PutPage], which is exported and called by
    tests only, is not one of them: it stores any path and any epoch
    ([PutPage_breaks_invariant]). *)

From stdpp Require Import relations.
From S2P Require Import Prelude GoStrings GoNet Sha256 PageFrame CachePath CacheDB CacheStore.
From S2P Require Import CacheLogic CacheInv.

(** The operations of [Cache] and of its page writers that the proxy calls, and the
    iterations of the maintenance worker. *)
Inductive op :=
| OpPutObject (meta : ObjectMetadata)
| OpGetObject (bucket key : string)
| OpInvalidateObject (bucket key : string) (minEpoch : Z)
| OpDeleteObject (bucket key : string)
| OpListPages (objectID : string)
| OpStorePage (buf : nat -> nat) (write : PageWrite)
| OpBeginPageWrite (opts : PageWriteOptions)
| OpWrite (h : Z) (data : bytes)
| OpCommit (h : Z)
| OpAbort (h : Z)
| OpOpenPage (objectID : string) (index : Z) (expectedETag : string) (expectedEpoch : Z)
| OpMaintenance (ev : event) (pending : gset pageRef) (dirty : bool).

Definition run `{HeaderCodec} (o : op) : M () :=
  match o with
  | OpPutObject meta => _ ← PutObject meta; mret ()
  | OpGetObject b k => _ ← GetObject b k; mret ()
  | OpInvalidateObject b k m => _ ← InvalidateObject b k m; mret ()
  | OpDeleteObject b k => DeleteObject b k
  | OpListPages id => _ ← ListPages id; mret ()
  | OpStorePage buf w => _ ← StorePage buf w; mret ()
  | OpBeginPageWrite o => _ ← BeginPageWrite o; mret ()
  | OpWrite h d => _ ← Write h d; mret ()
  | OpCommit h => _ ← Commit h; mret ()
  | OpAbort h => Abort h
  | OpOpenPage id i e n => _ ← OpenPage id i e n; mret ()
  | OpMaintenance ev p d => _ ← maintenanceStep ev p d; mret ()
  end.

(** The calls the program makes: writers are used through handles that
    [BeginPageWrite] returned, and what is committed for a version satisfies
    [Good]. *)
Definition allowed (Good : PageWriteOptions -> bytes -> Prop) (c : Cache) (o : op) : Prop :=
  match o with
  | OpStorePage _ write =>
      forall src, pwr_Source write = Some src -> Good (pwr_options write) (Io.content src)
  | OpWrite h _ | OpAbort h => is_Some (writers (fs c) !! h)
  | OpCommit h => exists w, writers (fs c) !! h = Some w /\
      (done_ w = false -> Good (options w) (temp c h))
  | _ => True
  end.

Definition set_env (fl : list (option fault)) (cl : list Z) (c : Cache) : Cache :=
  mkCache (cfg c) (db c) (fs c) (mem c) fl cl.

(** One operation, with any failures and any clock. *)
Definition cache_step `{HeaderCodec} Good (c c' : Cache) : Prop :=
  exists o fl cl, allowed Good c o /\ c' = (run o (set_env fl cl c)).2.

(** ** Facts *)

Section Ops.
Context `{HeaderCodec} (Good : PageWriteOptions -> bytes -> Prop).

Lemma wp_void {A} (m : M A) c0 c :
  wp m (fun r c' => evolved Good c0 c' /\ r <> Err Panic) c ->
  wp (_ ← m; mret ()) (fun r c' => evolved Good c0 c' /\ r <> Err Panic) c.
Proof.
  intros Hm. wp_step. eapply wp_mono; [exact Hm|]. intros [a|e] c' [? ?]; [wp_step; by split|].
  split; [done|congruence].
Qed.

Lemma run_evolved o c0 c :
  evolved Good c0 c -> allowed Good c o ->
  wp (run o) (fun r c' => evolved Good c0 c' /\ r <> Err Panic) c.
Proof.
  intros Hev Hal. destruct o; cbn [run];
    lazymatch goal with |- wp (mbind _ _) _ _ => apply wp_void | _ => idtac end.
  - by apply keeps_PutObject.
  - by apply keeps_GetObject.
  - by apply keeps_InvalidateObject.
  - by apply keeps_DeleteObject.
  - by apply keeps_ListPages.
  - by apply keeps_StorePage.
  - by apply keeps_BeginPageWrite.
  - eapply wp_mono; [by apply Write_evolved|]. by intros ? ? (? & ? & _).
  - destruct Hal as (w & Hw & HG). by eapply Commit_evolved.
  - eapply wp_mono; [by apply Abort_evolved|]. by intros ? ? (? & ? & _).
  - by apply keeps_OpenPage.
  - by apply keeps_maintenanceStep.
Qed.

Lemma cache_step_ok c c' : cache_step Good c c' -> cache_ok Good c -> cache_ok Good c'.
Proof.
  intros (o & fl & cl & Hal & ->) Hok.
  assert (Hev : evolved Good (set_env fl cl c) (set_env fl cl c)) by by apply evolved_refl.
  destruct (run_evolved o _ _ Hev) as [[? _ _] _]; [by destruct o|done].
Qed.

Lemma rtc_cache_step_ok c c' : rtc (cache_step Good) c c' -> cache_ok Good c -> cache_ok Good c'.
Proof. induction 1; eauto using cache_step_ok. Qed.

(** C6: every operation of the cache that the program calls ([op]), whichever of its
    calls to the database and to the file system fail, changes the database by a
    sequence of the atomic steps [db_step] and keeps the cache invariant (metadata, page
    files, page writers). It never panics. Writers are used through the handles that
    [BeginPageWrite] returned ([allowed]); [PutPage], which only tests call, is left
    out. *)
Theorem operations_refine_steps (o : op) (c : Cache)
    (Hok : cache_ok Good c) (Hal : allowed Good c o) :
  let '(r, c') := run o c in
  rtc any_step (db c) (db c') /\ cache_ok Good c' /\ r <> Err Panic.
Proof.
  pose proof (run_evolved o c c (evolved_refl Good c Hok) Hal) as [Hev Hr].
  destruct (run o c) as [r c']. by destruct Hev.
Qed.

(** A page that is served was committed for the version asked for. *)
Lemma OpenPage_good c c' id etag index epoch data :
  cache_ok Good c -> OpenPage id index etag epoch c = (Ok (Some data), c') ->
  exists row o, pages (db c) !! (id, index) = Some row /\
    p_etag row = etag /\ p_epoch row = epoch /\ p_size row = zlen data /\
    pwo_ObjectID o = id /\ pwo_Index o = index /\ pwo_ExpectedEpoch o = epoch /\
    Sha256.sum256 (bytes_of_string (pwo_ETag o)) = Sha256.sum256 (bytes_of_string etag) /\
    Good o data.
Proof.
  intros [[Hdb Hf _] _] Hopen.
  pose proof (wp_run _ _ _ _ _ (OpenPage_post id index etag epoch c) Hopen data eq_refl)
    as (row & Hrow & Het & Hep & Hz & Hfile & _).
  destruct (Hf _ _ Hfile) as (o & (Hoid & Hoi & Hoe & _) & Hpath & HG).
  destruct (ok_pages _ Hdb _ _ Hrow) as ((obj & Hobj) & Hi & He & _ & _ & Hp). simpl in *.
  destruct (ok_objects _ Hdb _ _ Hobj) as [Hid _].
  unfold pathOf in Hpath. rewrite <- Hp in Hpath.
  apply pagePath_inj in Hpath as (? & ? & ? & ?); [|done|by eexists _, _|done..].
  exists row, o. subst etag epoch. split_and!; done.
Qed.

(** C5: the content served for a page is one that was committed for the object,
    index, ETag and epoch asked for. In every state that any sequence of
    operations with any failures leads to, if [OpenPage] returns a content then
    the page has a row of that ETag and epoch whose size is that of the content,
    and the content satisfies whatever property [Good] all contents committed for
    that object, index, epoch and ETag digest have. *)
Theorem served_content_was_committed (c0 c c' : Cache) (id etag : string) (index epoch : Z)
    (data : bytes) (Hok : cache_ok Good c0) (Hsteps : rtc (cache_step Good) c0 c)
    (Hopen : OpenPage id index etag epoch c = (Ok (Some data), c')) :
  exists row o, pages (db c) !! (id, index) = Some row /\
    p_etag row = etag /\ p_epoch row = epoch /\ p_size row = zlen data /\
    pwo_ObjectID o = id /\ pwo_Index o = index /\ pwo_ExpectedEpoch o = epoch /\
    Sha256.sum256 (bytes_of_string (pwo_ETag o)) = Sha256.sum256 (bytes_of_string etag) /\
    Good o data.
Proof.
  apply rtc_cache_step_ok in Hsteps; [|done]. by apply (OpenPage_good c c').
Qed.

End Ops.

(** ** Witnesses *)

(** A codec for empty headers. *)
#[local] Instance emptyCodec : HeaderCodec.
Proof.
  refine (Build_HeaderCodec (fun _ => "{}") (fun _ => Some ∅) (fun h => h = ∅) _ _); [by intros h ->|done].
Defined.

Definition emptyCache (max : Z) : Cache :=
  mkCache (mkConfig max ∅ 1 512 false) emptyDB (mkFiles ∅ ∅ ∅ 0)
    (mkCounters 0 0 ∅ false [] false []) [] [].

Lemma emptyCache_ok Good max : 0 <= max <= int64_max -> cache_ok Good (emptyCache max).
Proof. intros Hm. split; [|done]. constructor; [apply emptyDB_ok|apply map_Forall_empty..]. Qed.

Lemma operations_refine_steps_witness :
  let c := emptyCache 100 in
  let '(r, c') := run (OpInvalidateObject "b" "k" 0) c in
  rtc any_step (db c) (db c') /\ cache_ok (fun _ _ => True) c' /\ r <> Err Panic.
Proof.
  apply (operations_refine_steps (fun _ _ => True) (OpInvalidateObject "b" "k" 0) (emptyCache 100)).
  - apply emptyCache_ok. int64_unfold; lia.
  - exact I.
Defined.

Definition demoMeta : ObjectMetadata := mkObjectMetadata "b" "k" "e1" 3 8 ∅.
Definition demoOpts : PageWriteOptions := mkPageWriteOptions (ObjectKey "b" "k") 0 "e1" 0.
Definition demoWrite : PageWrite :=
  mkPageWrite demoOpts 3 (Some (Io.mkReader [[x61]; [x62; x63]] Io.EOF false)).
Definition demoPut : Cache := (run (OpPutObject demoMeta) (set_env [] [] (emptyCache 100))).2.
Definition demoCache : Cache :=
  (run (OpStorePage (fun _ => 7%nat) demoWrite) (set_env [] [] demoPut)).2.

Lemma demo_steps Good : Good demoOpts [x61; x62; x63] ->
  rtc (cache_step Good) (emptyCache 100) demoCache.
Proof.
  intros HG. apply (rtc_l _ _ demoPut); [|apply rtc_once].
  - exists (OpPutObject demoMeta), [], []. split; [exact I|reflexivity].
  - exists (OpStorePage (fun _ => 7%nat) demoWrite), [], []. split; [|reflexivity].
    intros src [= <-]. exact HG.
Qed.

Lemma demoCache_db_ok : db_ok (db demoCache).
Proof.
  assert (Hok : cache_ok (fun _ _ => True) demoCache).
  { apply (@rtc_cache_step_ok emptyCodec _ (emptyCache 100)); [apply demo_steps; exact I|].
    apply emptyCache_ok. int64_unfold; lia. }
  apply (so_db _ _ _ (proj1 Hok)).
Qed.

Lemma served_content_was_committed_witness :
  exists c' row o, OpenPage (ObjectKey "b" "k") 0 "e1" 0 demoCache = (Ok (Some [x61; x62; x63]), c') /\
    pages (db demoCache) !! (ObjectKey "b" "k", 0) = Some row /\
    pwo_ObjectID o = ObjectKey "b" "k" /\ pwo_Index o = 0.
Proof.
  assert (Hopen : (OpenPage (ObjectKey "b" "k") 0 "e1" 0 demoCache).1 = Ok (Some [x61; x62; x63])).
  { vm_compute. reflexivity. }
  destruct (OpenPage (ObjectKey "b" "k") 0 "e1" 0 demoCache) as [r c'] eqn:E. cbn [fst] in Hopen.
  subst r.
  destruct (served_content_was_committed (fun _ d => d = [x61; x62; x63]) (emptyCache 100) demoCache
    c' (ObjectKey "b" "k") "e1" 0 0 [x61; x62; x63]) as (row & o & Hrow & _ & _ & _ & Hid & Hi & _).
  - apply emptyCache_ok. int64_unfold; lia.
  - apply demo_steps. reflexivity.
  - exact E.
  - exists c', row, o. split; [reflexivity|]. split; [exact Hrow|]. split; [exact Hid|exact Hi].
Defined.

(** [PutPage] checks neither the path nor the epoch of the page: on a cache with a page
    of three bytes it replaces the row by one with the path of no version, and reports
    success. *)
Theorem PutPage_breaks_invariant :
  let r := PutPage (mkPage (ObjectKey "b" "k") 0 "e1" 0 3 "pages/x") demoCache in
  r.1 = Ok () /\ db_ok (db demoCache) /\ ~ db_ok (db r.2).
Proof.
  cbv zeta. split; [vm_compute; reflexivity|]. split; [apply demoCache_db_ok|]. intros Hok.
  assert (Hrow : (fun r => (p_etag r, p_epoch r, p_path r)) <$>
    pages (db (PutPage (mkPage (ObjectKey "b" "k") 0 "e1" 0 3 "pages/x") demoCache).2) !! (ObjectKey "b" "k", 0) = Some ("e1", 0, "pages/x"))
    by (vm_compute; reflexivity).
  destruct (_ !! (ObjectKey "b" "k", 0)) as [row|] eqn:E; [|discriminate Hrow]. injection Hrow as H1 H2 H3.
  destruct (ok_pages _ Hok _ _ E) as (_ & _ & _ & _ & _ & Hpath). rewrite H1, H2, H3 in Hpath. cbn [fst snd] in Hpath.
  assert (Hno : bool_decide (pagePathForVersion (ObjectKey "b" "k") 0 "e1" 0 = Some "pages/x") = false) by (vm_compute; reflexivity).
  apply bool_decide_eq_false in Hno. exact (Hno Hpath).
Qed.
