(* ===== verification/CacheSize.v ===== *)
(** * Size accounting and eviction ([internal/cache/cache.go])

    The counter [cachedSize] against the sum of the page rows, and the eviction
    loop: it ends, brings the cache under its limit and removes the least
    recently used pages. *)

From stdpp Require Import relations.
From S2P Require Import Prelude GoStrings GoNet PageFrame CachePath CacheDB CacheStore CacheLogic.
From S2P Require Import CacheInv CacheOps.

(** ** Sums over the page table *)

Definition total (m : gmap (string * Z) PageRow) : Z :=
  sum_by (fun kr => p_size kr.2) (map_to_list m).

Lemma total_insert m k r : m !! k = None -> total (<[k := r]> m) = p_size r + total m.
Proof. intros Hk. unfold total. by rewrite map_to_list_insert. Qed.

Lemma total_delete m k r : m !! k = Some r -> total m = p_size r + total (delete k m).
Proof. intros Hk. unfold total. by rewrite <- (map_to_list_delete m k r Hk). Qed.

Lemma total_upsert m k r :
  total (<[k := r]> m) = total m - from_option p_size 0 (m !! k) + p_size r.
Proof.
  destruct (m !! k) as [q|] eqn:Hk; simpl.
  - rewrite (total_delete m k q Hk), <- insert_delete_eq, total_insert by apply lookup_delete_eq. lia.
  - rewrite total_insert by done. lia.
Qed.

Lemma total_nonneg m : map_Forall (fun _ r => 0 <= p_size r) m -> 0 <= total m.
Proof.
  intros H. apply sum_by_nonneg. intros [k r] Hk. apply elem_of_map_to_list in Hk. by apply (H k).
Qed.

(** Deleting the pages of an object takes their sizes off the sum. *)
Lemma total_filter m id :
  total m = total (filter (fun kr => kr.1.1 <> id) m)
          + sum_by (fun kr => p_size kr.2) (filter (fun kr => kr.1.1 = id) (map_to_list m)).
Proof.
  induction m as [|k r m Hk IH] using map_ind; [done|].
  rewrite total_insert by done. unfold total at 1 in IH.
  rewrite (sum_by_Permutation _ _ _ (filter_Permutation _ _ _ (map_to_list_insert m k r Hk))).
  rewrite filter_cons. cbn [fst snd]. case_decide as Hd.
  - rewrite map_filter_insert_False by (intros Hx; by apply Hx). rewrite delete_id by done.
    rewrite sum_by_cons. unfold total in *. cbn [snd]. lia.
  - rewrite map_filter_insert_True by done.
    rewrite total_insert by (apply map_lookup_filter_None; by left). unfold total in *. lia.
Qed.

(** ** Operations that do not move the balance *)

Definition balance (c : Cache) : Z * Z := (total (pages (db c)), cachedSize (mem c)).

Definition quiet {A} (m : M A) : Prop := forall c, wp m (fun _ c' => balance c' = balance c) c.

Lemma quiet_ret {A} (a : A) : quiet (mret a).
Proof. by intros c. Qed.
Lemma quiet_fail {A} e : quiet (fail (A := A) e).
Proof. by intros c. Qed.
Lemma quiet_get : quiet get.
Proof. by intros c. Qed.
Lemma quiet_bind {A B} (m : M A) (f : A -> M B) : quiet m -> (forall a, quiet (f a)) -> quiet (m ≫= f).
Proof.
  intros Hm Hf c. wp_step. eapply wp_mono; [apply Hm|]. intros [a|e] c' Hc'; [|done].
  rewrite <- Hc'. apply Hf.
Qed.
Lemma quiet_try {A} (m : M A) : quiet m -> quiet (try m).
Proof. intros Hm c. wp_step. apply Hm. Qed.
Lemma quiet_when b m : quiet m -> quiet (when b m).
Proof. destruct b; [done|]. intros _. apply quiet_ret. Qed.
Lemma quiet_of_option {A} e (o : option A) : quiet (of_option e o).
Proof. destruct o; [apply quiet_ret|apply quiet_fail]. Qed.
Lemma quiet_lift {A} (r : result CommitError A) : quiet (liftCommit r).
Proof. destruct r; [apply quiet_ret|apply quiet_fail]. Qed.
Lemma quiet_call what : quiet (call what).
Proof. intros c. by wp_go. Qed.
Lemma quiet_call_ : quiet call_.
Proof. intros c. by wp_go. Qed.
Lemma quiet_outcome : quiet outcome.
Proof. intros c. by wp_go. Qed.
Lemma quiet_timestamp : quiet timestamp.
Proof. intros c. by wp_go. Qed.
Lemma quiet_timeNow : quiet timeNow.
Proof. intros c. by wp_go. Qed.
Lemma quiet_if {A} (b : bool) (m m' : M A) : quiet m -> quiet m' -> quiet (if b then m else m').
Proof. by destruct b. Qed.
Lemma quiet_modify f : (forall c, balance (f c) = balance c) -> quiet (modify f).
Proof. intros Hf c. apply wp_modify, Hf. Qed.

Lemma quiet_orElse {A B} (m : M A) (cleanup : M B) : quiet m -> quiet cleanup -> quiet (orElse m cleanup).
Proof.
  intros Hm Hc. apply quiet_bind; [by apply quiet_try|]. intros [a|e]; [apply quiet_ret|].
  apply quiet_bind; [by apply quiet_try|]. intros _. apply quiet_fail.
Qed.

Ltac quiet_step :=
  lazymatch goal with
  | |- quiet (mret _) => apply quiet_ret
  | |- quiet (mbind _ _) => apply quiet_bind; [|intros ?]
  | |- quiet get => apply quiet_get
  | |- quiet (call _) => apply quiet_call
  | |- quiet call_ => apply quiet_call_
  | |- quiet outcome => apply quiet_outcome
  | |- quiet (try _) => apply quiet_try
  | |- quiet (when _ _) => apply quiet_when
  | |- quiet timestamp => apply quiet_timestamp
  | |- quiet timeNow => apply quiet_timeNow
  | |- quiet (fail _) => apply quiet_fail
  | |- quiet (of_option _ _) => apply quiet_of_option
  | |- quiet (liftCommit _) => apply quiet_lift
  | |- quiet (orElse _ _) => apply quiet_orElse
  | |- quiet (if _ then _ else _) => apply quiet_if
  | |- quiet (match ?o with Some _ => _ | None => _ end) => destruct o
  | |- quiet (match ?o with Ok _ => _ | Err _ => _ end) => destruct o
  | |- quiet (let _ := _ in _) => cbv zeta
  | |- quiet (modify (fun c => set_fs _ c)) => by apply quiet_modify
  | |- quiet _ => solve [auto with go nocore]
  end.
Ltac quiet_go := repeat quiet_step.

Lemma quiet_removeFile w p : quiet (removeFile w p).
Proof. unfold removeFile. quiet_go. Qed.
Lemma quiet_removeFile_ p : quiet (removeFile_ p).
Proof. unfold removeFile_. quiet_go. Qed.
Lemma quiet_removeTemp h : quiet (removeTemp h).
Proof. unfold removeTemp. quiet_go. Qed.
Lemma quiet_renameTemp h p : quiet (renameTemp h p).
Proof. unfold renameTemp. quiet_go. Qed.
#[local] Hint Resolve quiet_removeFile quiet_removeFile_ quiet_removeTemp quiet_renameTemp : go.

Lemma quiet_removeFiles w ps : quiet (removeFiles w ps).
Proof. induction ps; cbn [removeFiles]; quiet_go. Qed.
Lemma quiet_requestMetricsRefresh : quiet requestMetricsRefresh.
Proof. apply quiet_modify. intros c. by destruct (metrics (cfg c)). Qed.
Lemma quiet_requestEviction : quiet requestEviction.
Proof. by apply quiet_modify. Qed.
Lemma quiet_requestTouch id i : quiet (requestTouch id i).
Proof. apply quiet_modify. intros c. cbv zeta. by destruct (zlen (touchCh (mem c)) <? touchQueueSize). Qed.
Lemma quiet_recordEviction b : quiet (recordEviction b).
Proof. apply quiet_modify. intros c. by destruct (metrics (cfg c)). Qed.
Lemma quiet_writer h : quiet (writer h).
Proof. unfold writer. quiet_go. Qed.
Lemma quiet_set_writerM h w : quiet (set_writerM h w).
Proof. unfold set_writerM. quiet_go. Qed.
Lemma quiet_appendTemp h d : quiet (appendTemp h d).
Proof. unfold appendTemp. quiet_go. Qed.
#[local] Hint Resolve quiet_removeFiles quiet_requestMetricsRefresh quiet_requestEviction
  quiet_requestTouch quiet_recordEviction quiet_writer quiet_set_writerM quiet_appendTemp : go.

Lemma quiet_Abort h : quiet (Abort h).
Proof. unfold Abort. quiet_go. destruct a1, a2; quiet_go. Qed.
Lemma quiet_Write h d : quiet (Write h d).
Proof. unfold Write. quiet_go. Qed.
Lemma quiet_getPage id i : quiet (getPage id i).
Proof. unfold getPage. quiet_go. Qed.
Lemma quiet_pageBucket id : quiet (pageBucket id).
Proof. unfold pageBucket. quiet_go. Qed.
#[local] Hint Resolve quiet_Abort quiet_Write quiet_getPage quiet_pageBucket : go.
Lemma quiet_pageBucket_ id : quiet (pageBucket_ id).
Proof. unfold pageBucket_. quiet_go. Qed.
Lemma quiet_validatePage p : quiet (validatePage p).
Proof. unfold validatePage. quiet_go. Qed.
Lemma quiet_validatePageCommit id e n : quiet (validatePageCommit id e n).
Proof. unfold validatePageCommit. quiet_go. Qed.
Lemma quiet_oldestPages n : quiet (oldestPages n).
Proof. unfold oldestPages. quiet_go. Qed.
#[local] Hint Resolve quiet_pageBucket_ quiet_validatePage quiet_validatePageCommit quiet_oldestPages : go.
Lemma quiet_BeginPageWrite o : quiet (BeginPageWrite o).
Proof. unfold BeginPageWrite. quiet_go. Qed.
Lemma quiet_copyToWriter fuel buf h n src : quiet (copyToWriter fuel buf h n src).
Proof.
  revert n src. induction fuel as [|fuel IH]; intros n src; cbn [copyToWriter]; [quiet_go|].
  destruct (Io.Read _ _) as [[got rerr] src']. quiet_go.
Qed.
Lemma quiet_touchPage id i t : quiet (touchPage id i t).
Proof.
  unfold touchPage. quiet_go. apply quiet_modify. intros c. unfold balance. cbn [db mem set_db].
  f_equal. unfold sqlTouchPage. destruct (pages (db c) !! (id, i)) as [r|] eqn:E; [|done]. simpl.
  rewrite total_upsert, E. simpl. lia.
Qed.
Lemma quiet_ensureGeneration id : quiet (ensureGeneration id).
Proof.
  unfold ensureGeneration. quiet_go. apply quiet_modify. intros c. unfold balance, sqlEnsureGeneration.
  by destruct (generations (db c) !! id).
Qed.
Lemma quiet_generation id : quiet (generation id).
Proof. unfold generation. quiet_go. Qed.
Lemma quiet_GetObject `{HeaderCodec} b k : quiet (GetObject b k).
Proof. unfold GetObject, unmarshalHeaders. quiet_go. Qed.
#[local] Hint Resolve quiet_touchPage quiet_ensureGeneration quiet_generation quiet_GetObject : go.

(** Storing metadata leaves the pages alone. *)
Lemma quiet_PutObject `{HeaderCodec} meta : quiet (PutObject meta).
Proof.
  unfold PutObject. do 5 (apply quiet_if; [quiet_go|]). cbv zeta.
  do 4 (apply quiet_bind; [auto using quiet_timestamp, quiet_call with go|intros ?]).
  intros c. wp_step. wp_step. wp_step. unfold sqlUpsertObject. case_bool_decide; simpl; [done|].
  wp_step. wp_step. wp_step.
  match goal with |- wp ?m _ ?c' => assert (Hq : quiet m) by quiet_go; apply (Hq c') end.
Qed.

(** ** The counter follows the rows *)

(** The counter is the sum of the page rows, an [int64]. *)
Definition settled (c : Cache) : Prop :=
  cachedSize (mem c) = total (pages (db c)) /\ 0 <= total (pages (db c)) <= int64_max.

Lemma settled_balance c c' : balance c' = balance c -> settled c -> settled c'.
Proof. unfold settled, balance. intros [= H1 H2]. by rewrite H1, H2. Qed.

Lemma settled_quiet {A} (m : M A) c : quiet m -> settled c -> wp m (fun _ c' => settled c') c.
Proof. intros Hm Hs. eapply wp_mono; [apply Hm|]. intros r c' Hb. by apply (settled_balance c). Qed.

Lemma settled_bind {A B} (m : M A) (f : A -> M B) (Q : result CacheError B -> Cache -> Prop) c :
  quiet m -> settled c -> (forall a c', settled c' -> wp (f a) Q c') ->
  (forall e c', settled c' -> Q (Err e) c') -> wp (m ≫= f) Q c.
Proof.
  intros Hm Hs Hf He. wp_step. eapply wp_mono; [by apply settled_quiet|].
  intros [a|e] c' Hs'; [by apply Hf|by apply He].
Qed.

Lemma wrap64_wrap64_r a b : wrap64 (a + wrap64 b) = wrap64 (a + b).
Proof.
  unfold wrap64. f_equal.
  replace (a + ((b + 2 ^ 63) mod 2 ^ 64 - 2 ^ 63) + 2 ^ 63) with (a + (b + 2 ^ 63) mod 2 ^ 64) by lia.
  rewrite Zplus_mod_idemp_r. f_equal. lia.
Qed.

Definition fits (c : Cache) : Prop := 0 <= total (pages (db c)) <= int64_max.

(** The counter is right unless the sum does not fit an [int64]. *)
Definition settles (c : Cache) : Prop := fits c -> settled c.

Lemma settles_quiet {A} (m : M A) c : quiet m -> settles c -> wp m (fun _ c' => settles c') c.
Proof.
  intros Hm Hs. eapply wp_mono; [apply Hm|]. intros r c' Hb Hf. apply (settled_balance c); [done|].
  apply Hs. unfold fits in *. by injection Hb as <- _.
Qed.

(** Adjusting by the change of the sum, wrap-around included, settles. *)
Lemma adjust_settles b delta c :
  0 <= cachedSize (mem c) <= int64_max ->
  (fits c -> wrap64 (cachedSize (mem c) + delta) = total (pages (db c))) ->
  wp (adjustCacheSize b delta) (fun r c' => settles c' /\ db c' = db c /\ cfg c' = cfg c /\
    fs c' = fs c /\ r = Ok ()) c.
Proof.
  intros Hold Hd. unfold adjustCacheSize. wp_step. destruct (delta =? 0) eqn:E; zbool.
  - split_and!; try done. intros Hf. specialize (Hd Hf).
    subst delta. rewrite Z.add_0_r, wrap64_id in Hd by (int64_unfold; lia). by split.
  - split_and!; try done. intros Hf. specialize (Hd Hf). split; [|done]. simpl.
    unfold add64. rewrite Hd. unfold fits in Hf. simpl in Hf.
    by replace (total (pages (db c)) <? 0) with false by lia.
Qed.

Lemma putPageIfCurrent_moves p e c :
  wp (putPageIfCurrent p e) (fun r c' => cachedSize (mem c') = cachedSize (mem c) /\
    match r with
    | Ok (b, prev) => total (pages (db c')) = total (pages (db c)) - prev + Size p
    | Err _ => total (pages (db c')) = total (pages (db c))
    end) c.
Proof.
  unfold putPageIfCurrent. wp_step. eapply wp_mono; [apply (quiet_validatePage p)|].
  intros [[]|err] c1 [= HT HC]; rewrite <- HT, <- HC; clear HT HC; [|done].
  unfold liftCommit. wp_go; try by split. destruct (checkCurrent _ _ _ _); [|by split].
  wp_go; try by split. destruct (putPageTx _ _ _ _) as [[[b prev] d]|] eqn:Hput; [|by split].
  wp_go; try by split. split; [done|]. simpl in *.
  apply putPageTx_inv in Hput as (o & g & _ & _ & _ & _ & _ & -> & HU).
  apply sqlUpsertPage_pages in HU as (_ & _ & created & ->). by rewrite total_upsert.
Qed.

(** A commit, successful or not, leaves the counter at the sum. *)
Lemma Commit_settles h c : settled c -> wp (Commit h) (fun _ c' => settles c') c.
Proof.
  intros Hs. unfold Commit. apply settled_bind; auto using quiet_writer.
  2:{ by intros e c' H' _. }
  intros w c1 H1. destruct (done_ w); [wp_step; by intros _|]. cbv zeta.
  do 4 (apply settled_bind; [quiet_go; auto using quiet_Abort with go|done| |by intros ? ? ? _];
        clear dependent c1; intros ? c1 H1).
  apply settled_bind; [quiet_go|done| |by intros ? ? ? _]. clear dependent c1. intros path c1 H1.
  wp_step. apply wp_orElse. eapply wp_mono; [apply putPageIfCurrent_moves|]. destruct H1 as [H1 Hf1].
  intros [[b prev]|e] c2 [HC HT].
  2:{ eapply wp_mono; [apply quiet_removeFile_|]. intros r3 c3 Hb _.
      apply (settled_balance c2); [done|]. unfold settled. by rewrite HC, HT. }
  wp_step. eapply wp_mono; [apply adjust_settles; rewrite HC, H1; [lia|]|].
  - intros Hf2. unfold sub64. cbn [Size] in *. unfold fits in Hf2.
    rewrite wrap64_wrap64_r, wrap64_id; [|int64_unfold]; lia.
  - intros r3 c3 (H3 & _ & _ & _ & ->).
    match goal with |- wp ?m _ _ => assert (Hq : quiet m) by quiet_go end. by apply settles_quiet.
Qed.

Lemma quiet_deferring_settles {A B} (m : M A) (cleanup : M B) c :
  quiet cleanup -> wp m (fun _ c' => settles c') c ->
  wp (deferring m cleanup) (fun _ c' => settles c') c.
Proof.
  intros Hc Hm. apply wp_deferring. eapply wp_mono; [exact Hm|]. intros r c' Hs. by apply settles_quiet.
Qed.

Lemma StorePage_settles buf write c : settled c -> wp (StorePage buf write) (fun _ c' => settles c') c.
Proof.
  intros Hs. unfold StorePage. destruct (_ <? 0); [wp_step; by intros _|].
  destruct (pwr_Source write) as [src|]; [|wp_step; by intros _].
  apply settled_bind; [apply quiet_BeginPageWrite|done| |by intros ? ? ? _]. intros h c1 H1.
  apply quiet_deferring_settles; [apply quiet_Abort|].
  apply settled_bind; [apply quiet_copyToWriter|done| |by intros ? ? ? _]. intros n c2 H2.
  destruct (negb _); [wp_step; by intros _|]. by apply Commit_settles.
Qed.

(** ** Deletions *)

Lemma wrap64_wrap64_l a b : wrap64 (wrap64 a + b) = wrap64 (a + b).
Proof. by rewrite Z.add_comm, wrap64_wrap64_r, Z.add_comm. Qed.

Lemma pagesSize_wrap ps : pagesSize ps = wrap64 (sum_by Size ps).
Proof.
  unfold pagesSize.
  assert (H : forall a, fold_left (fun s p => add64 s (Size p)) ps (wrap64 a) = wrap64 (a + sum_by Size ps)).
  { induction ps as [|p ps IH]; intros a; [simpl; by rewrite Z.add_0_r|]. cbn [fold_left].
    unfold add64 at 2. rewrite wrap64_wrap64_l, IH, sum_by_cons. f_equal. lia. }
  apply (H 0).
Qed.

Lemma sum_pageOf l : sum_by Size (uncurry pageOf <$> l) = sum_by (fun kr => p_size kr.2) l.
Proof. induction l as [|[k r] l IH]; [done|]. rewrite fmap_cons, !sum_by_cons, IH. done. Qed.

Lemma sum_sqlListPages d id :
  sum_by Size (sqlListPages d id)
  = sum_by (fun kr => p_size kr.2) (filter (fun kr => kr.1.1 = id) (map_to_list (pages d))).
Proof. unfold sqlListPages. by rewrite merge_sort_Permutation, sum_pageOf. Qed.

Lemma invalidateTx_total id m now d :
  let '(_, _, ps, d') := invalidateTx id m now d in
  total (pages d') = total (pages d) - sum_by Size ps.
Proof.
  unfold invalidateTx. cbv zeta. set (d1 := sqlEnsureGeneration id now d).
  assert (H1 : pages d1 = pages d) by (unfold d1, sqlEnsureGeneration; by destruct (generations d !! id)).
  destruct (shouldDeleteObject _ _).
  - rewrite sum_sqlListPages, H1.
    assert (Hp : forall d2, pages (if (nextEpochOf (from_option g_epoch 0 (generations d1 !! id)) m
      >? from_option g_epoch 0 (generations d1 !! id))%Z then sqlAdvanceGeneration id
      (nextEpochOf (from_option g_epoch 0 (generations d1 !! id)) m) now d2 else d2) = pages d2).
    { intros d2. destruct (_ >? _); [|done]. unfold sqlAdvanceGeneration.
      by destruct (generations d2 !! id). }
    rewrite Hp. simpl. rewrite H1. rewrite (total_filter (pages d) id). lia.
  - simpl. destruct (_ >? _); [unfold sqlAdvanceGeneration; destruct (generations d1 !! id)|];
      simpl; rewrite ?H1; lia.
Qed.

Definition okThen (P : Cache -> Prop) {A} (r : result CacheError A) (c : Cache) : Prop :=
  is_ok r = true -> P c.

Lemma balance_bind {A B} (m : M A) (f : A -> M B) P c :
  quiet m -> (forall a c', balance c' = balance c -> wp (f a) (okThen P) c') ->
  wp (m ≫= f) (okThen P) c.
Proof.
  intros Hm Hf. wp_step. eapply wp_mono; [apply Hm|]. intros [a|e] c' Hb; [by apply Hf|done].
Qed.

(** A run of quiet calls after which the counter is settled. *)
Lemma quiet_then_settled {A} (m : M A) c : quiet m -> settled c -> wp m (okThen settled) c.
Proof. intros Hm Hs. eapply wp_mono; [by apply settled_quiet|]. by intros r c' H _. Qed.

(** After the rows lost [lost] bytes, subtracting them settles the counter. *)
Lemma subtract_settles {A} b lost (f : () -> M A) c :
  0 <= cachedSize (mem c) <= int64_max -> 0 <= total (pages (db c)) ->
  total (pages (db c)) = cachedSize (mem c) - lost -> total (pages (db c)) <= cachedSize (mem c) ->
  (forall u, quiet (f u)) ->
  wp (adjustCacheSize b (sub64 0 (wrap64 lost)) ≫= f) (okThen settled) c.
Proof.
  intros Hc Hp Ht Hle Hf. wp_step. eapply wp_mono; [apply adjust_settles; [done|]|].
  - intros _. unfold sub64. rewrite wrap64_wrap64_r.
    replace (cachedSize (mem c) + (0 - wrap64 lost)) with (cachedSize (mem c) + - wrap64 lost) by lia.
    replace (- wrap64 lost) with (-1 * wrap64 lost) by lia.
    assert (Hneg : wrap64 (cachedSize (mem c) + -1 * wrap64 lost) = wrap64 (cachedSize (mem c) - lost)).
    { unfold wrap64. f_equal. rewrite <- (Z_mod_plus_full _ (- ((lost + 2 ^ 63) / 2 ^ 64)) (2 ^ 64)).
      f_equal. pose proof (Z.div_mod (lost + 2 ^ 63) (2 ^ 64) ltac:(lia)). lia. }
    rewrite Hneg, <- Ht. apply wrap64_id. int64_unfold; lia.
  - intros r c1 (Hs & Hd & _ & _ & ->). apply quiet_then_settled; [apply Hf|].
    apply Hs. unfold fits. rewrite Hd. lia.
Qed.

Lemma db_ok_total d : db_ok d -> 0 <= total (pages d).
Proof. intros H. apply total_nonneg. intros k r Hk. apply (ok_pages _ H k r Hk). Qed.

Lemma invalidateTx_lost id m now d :
  db_ok d -> 0 <= sum_by Size (invalidateTx id m now d).1.2.
Proof.
  intros H. unfold invalidateTx. cbv zeta. cbn [fst snd]. destruct (shouldDeleteObject _ _); [|done].
  rewrite sum_sqlListPages. apply sum_by_nonneg. intros [k r] [_ Hk]%list_elem_of_filter.
  apply elem_of_map_to_list in Hk.
  assert (Hp : pages (sqlEnsureGeneration id now d) = pages d)
    by (unfold sqlEnsureGeneration; by destruct (generations d !! id)).
  rewrite Hp in Hk. apply (ok_pages _ H k r Hk).
Qed.

Lemma InvalidateObject_settles b k m c :
  settled c -> db_ok (db c) -> wp (InvalidateObject b k m) (okThen settled) c.
Proof.
  intros Hs Hdb. unfold InvalidateObject. do 3 (destruct (_ : bool); [by wp_step|]). cbv zeta.
  wp_step. wp_step. do 4 (wp_step; wp_step; [|done]). wp_step. wp_step.
  cbn [db set_faults set_time].
  pose proof (invalidateTx_total (ObjectKey b k) m t (db c)) as Ht.
  pose proof (invalidateTx_ok b k m t (db c) Hdb) as Hok.
  pose proof (invalidateTx_lost (ObjectKey b k) m t (db c) Hdb) as Hle.
  destruct (invalidateTx (ObjectKey b k) m t (db c)) as [[[next bkt] ps] d]. cbn [fst snd] in Hok, Hle.
  set (c1 := set_faults _ _).
  assert (H1 : cachedSize (mem c1) = total (pages (db c))) by apply Hs. clearbody c1.
  do 3 (apply balance_bind; [quiet_go|]; intros ? c2 [= _ H2]; rewrite <- H2 in H1;
        clear dependent c1; rename c2 into c1).
  wp_step. wp_step. apply balance_bind; [apply quiet_removeFiles|]. intros _ c3 [= HT HC].
  cbn [db mem set_db] in HT, HC. rewrite H1 in HC. pose proof (db_ok_total d Hok).
  destruct Hs as [_ Hf]. destruct (bool_decide (ps = [])) eqn:E; cbn [negb when].
  - apply bool_decide_eq_true in E. subst ps. cbn in Ht. apply quiet_then_settled; [quiet_go|].
    split; rewrite HT; lia.
  - wp_step. rewrite pagesSize_wrap. eapply wp_mono.
    + apply subtract_settles; [lia..|]. intros _. apply quiet_requestMetricsRefresh.
    + intros [[]|e] c4 H4; [|done]. wp_step. intros _. by apply H4.
Qed.

(** ** Eviction *)

(** Calls that change neither the database nor the settings. *)
Definition still {A} (m : M A) : Prop := forall c, wp m (fun _ c' => db c' = db c /\ cfg c' = cfg c) c.

Lemma still_bind {A B} (m : M A) (f : A -> M B) : still m -> (forall a, still (f a)) -> still (m ≫= f).
Proof.
  intros Hm Hf c. wp_step. eapply wp_mono; [apply Hm|]. intros [a|e] c' [<- <-]; [apply Hf|done].
Qed.
Lemma still_modify f : (forall c, db (f c) = db c /\ cfg (f c) = cfg c) -> still (modify f).
Proof. intros Hf c. apply wp_modify, Hf. Qed.
Lemma still_ret {A} (a : A) : still (mret a).
Proof. by intros c. Qed.
Lemma still_when b m : still m -> still (when b m).
Proof. destruct b; [done|]. intros _. apply still_ret. Qed.
Lemma still_removeFile w p : still (removeFile w p).
Proof. intros c. unfold removeFile. by wp_go. Qed.
Lemma still_adjustCacheSize b d : still (adjustCacheSize b d).
Proof. apply still_modify. intros c. by destruct (d =? 0). Qed.
Lemma still_requestMetricsRefresh : still requestMetricsRefresh.
Proof. apply still_modify. intros c. by destruct (metrics (cfg c)). Qed.
Lemma still_recordEviction b : still (recordEviction b).
Proof. apply still_modify. intros c. by destruct (metrics (cfg c)). Qed.
Lemma still_oldestPages n : still (oldestPages n).
Proof. intros c. unfold oldestPages. by wp_go. Qed.

Definition withoutPage (k : string * Z) (d : DB) : DB :=
  mkDB (generations d) (objects d) (delete k (pages d)).

(** [pageBucket_] only consumes outcomes. *)
Lemma pageBucket_spec id c :
  wp (pageBucket_ id) (fun r c' => exists b l, r = Ok b /\ c' = set_faults l c) c.
Proof.
  unfold pageBucket_, pageBucket. wp_go; eauto.
Qed.

Lemma deletePage_spec id i c :
  wp (deletePage id i) (fun r c' => match r with
    | Ok b => b = bool_decide (is_Some (pages (db c) !! (id, i))) /\
              db c' = withoutPage (id, i) (db c) /\ mem c' = mem c /\ cfg c' = cfg c
    | Err _ => True end) c.
Proof. unfold deletePage, sqlDeletePage. by wp_go. Qed.

(** Removing a page that is in the table: the row goes and the counter follows. *)
Lemma removePage_spec p row c :
  settled c -> db_ok (db c) -> pages (db c) !! (ObjectID p, Index p) = Some row -> p_size row = Size p ->
  wp (removePage p) (okThen (fun c' => settled c' /\ cfg c' = cfg c /\
    db c' = withoutPage (ObjectID p, Index p) (db c))) c.
Proof.
  intros [Hs Hf] Hdb Hrow Hsz. unfold removePage.
  wp_step. eapply wp_mono; [apply pageBucket_spec|]. intros r c0 (b & l & -> & ->).
  wp_step. eapply wp_mono; [apply deletePage_spec|]. intros [del|e] c1; [|done].
  intros (-> & Hd1 & Hm1 & Hc1). cbn [db mem cfg set_faults] in *.
  rewrite bool_decide_true by (rewrite Hrow; eauto).
  assert (Htot : total (pages (db c)) = Size p + total (pages (db c1))).
  { rewrite Hd1. simpl. rewrite (total_delete _ _ _ Hrow). lia. }
  assert (Hnn : 0 <= total (pages (db c1))).
  { rewrite Hd1. apply total_nonneg. intros k r Hk. cbn [pages withoutPage] in Hk. apply lookup_delete_Some in Hk as [_ Hk].
    apply (ok_pages _ Hdb k r Hk). }
  pose proof (ok_pages _ Hdb _ _ Hrow) as (_ & _ & _ & Hp & _).
  assert (Hw : Size p = wrap64 (Size p)) by (symmetry; apply wrap64_id; int64_unfold; lia).
  wp_step. eapply wp_mono; [apply wp_and; [apply (quiet_removeFile "delete evicted page file: " (Path p))
    |apply still_removeFile]|]. intros [[]|e] c2 [[= HT HC] [Hd2 Hc2]]; [|done].
  match goal with |- wp ?m _ _ => assert (Hst : still m) end.
  { apply still_bind; [apply still_when, still_bind; [apply still_adjustCacheSize|intros; apply still_requestMetricsRefresh]|].
    intros; apply still_recordEviction. }
  eapply wp_mono; [apply wp_and; [|apply Hst]|].
  - wp_step. cbn [when]. rewrite Hw. eapply wp_mono.
    + apply subtract_settles; [rewrite ?HT, ?HC, ?Hm1, ?Hs; lia..|]. intros; apply quiet_requestMetricsRefresh.
    + intros [[]|e] c3 H3; [|done]. apply quiet_then_settled; [apply quiet_recordEviction|by apply H3].
  - intros r c3 [H3 [Hd3 Hc3]] Hr. split_and!; [by apply H3|congruence|congruence].
Qed.

(** Calls that succeed when nothing outside fails, and never run out of fuel. *)
Definition tame_post (c : Cache) {A} (r : result CacheError A) (c' : Cache) : Prop :=
  (faults c = [] -> faults c' = [] /\ is_ok r = true) /\ r <> Err OutOfFuel.
Definition tame {A} (m : M A) : Prop := forall c, wp m (tame_post c) c.

Lemma tame_ret {A} (a : A) : tame (mret a).
Proof. by intros c. Qed.
Lemma tame_bind {A B} (m : M A) (f : A -> M B) : tame m -> (forall a, tame (f a)) -> tame (m ≫= f).
Proof.
  intros Hm Hf c. wp_step. eapply wp_mono; [apply Hm|]. intros [a|e] c' [H1 H2].
  - eapply wp_mono; [apply Hf|]. intros r c'' [H3 H4]. split; [|done]. intros Hc. apply H3, H1, Hc.
  - split; [|congruence]. intros Hc. by destruct (H1 Hc).
Qed.
Lemma tame_modify f : (forall c, faults (f c) = faults c) -> tame (modify f).
Proof. intros Hf c. apply wp_modify. split; [|done]. by rewrite Hf. Qed.
Lemma tame_call w : tame (call w).
Proof.
  intros c. unfold wp, call, outcome, tame_post, mbind, M_bind.
  destruct (faults c) as [|[f|] l] eqn:E; cbn; (split; [|congruence]); by intros ?.
Qed.
Lemma tame_get : tame get.
Proof. by intros c. Qed.
Lemma tame_when b m : tame m -> tame (when b m).
Proof. destruct b; [done|]. intros _. apply tame_ret. Qed.
Lemma tame_try {A} (m : M A) : tame m -> tame (try m).
Proof. intros Hm c. wp_step. eapply wp_mono; [apply Hm|]. intros r c' [H1 _]. split; [|done].
  intros Hc. by destruct (H1 Hc). Qed.
Lemma tame_adjustCacheSize b d : tame (adjustCacheSize b d).
Proof. apply tame_modify. intros c. by destruct (d =? 0). Qed.
Lemma tame_requestMetricsRefresh : tame requestMetricsRefresh.
Proof. apply tame_modify. intros c. by destruct (metrics (cfg c)). Qed.
Lemma tame_recordEviction b : tame (recordEviction b).
Proof. apply tame_modify. intros c. by destruct (metrics (cfg c)). Qed.
#[local] Hint Resolve tame_ret tame_call tame_get tame_adjustCacheSize
  tame_requestMetricsRefresh tame_recordEviction : go.

Ltac tame_go := repeat (lazymatch goal with
  | |- tame (mbind _ _) => apply tame_bind; [|intros ?]
  | |- tame (when _ _) => apply tame_when
  | |- tame (try _) => apply tame_try
  | |- tame (modify (set_db _)) => by apply tame_modify
  | |- tame (modify (fun c => set_fs _ c)) => by apply tame_modify
  | |- tame _ => solve [auto with go nocore]
  end).

Lemma tame_removePage p : tame (removePage p).
Proof.
  unfold removePage, pageBucket_, pageBucket, deletePage, sqlDeletePage, removeFile. tame_go.
Qed.

Lemma tame_removeUntil t r ps : tame (removeUntil t r ps).
Proof.
  revert r. induction ps as [|p ps IH]; intros r; cbn [removeUntil]; [apply tame_ret|].
  apply tame_bind; [apply tame_removePage|]. intros _. cbv zeta. destruct (_ >=? _); [apply tame_ret|apply IH].
Qed.

Lemma tame_oldestPages n : tame (oldestPages n).
Proof. unfold oldestPages. tame_go. Qed.

(** [d] without the pages of a list of rows. *)
Fixpoint withoutAll (d : DB) (krs : list ((string * Z) * PageRow)) : DB :=
  match krs with [] => d | kr :: krs => withoutAll (withoutPage kr.1 d) krs end.

Lemma withoutAll_lookup d krs k r :
  pages (withoutAll d krs) !! k = Some r <-> (k ∉ krs.*1) /\ pages d !! k = Some r.
Proof.
  revert d. induction krs as [|kr krs IH]; intros d; cbn [withoutAll fmap list_fmap]; [set_solver|].
  rewrite IH. cbn [withoutPage pages]. rewrite lookup_delete_Some. set_solver.
Qed.

Lemma withoutAll_ok d krs : db_ok d -> db_ok (withoutAll d krs).
Proof.
  revert d. induction krs as [|kr krs IH]; intros d H; [done|]. apply IH.
  apply db_ok_fewer_pages; [apply delete_subseteq|done].
Qed.

(** The inner loop removes a nonempty prefix of the pages it is given. *)
Lemma removeUntil_spec target removed krs c :
  settled c -> db_ok (db c) -> NoDup krs.*1 ->
  (forall k r, (k, r) ∈ krs -> pages (db c) !! k = Some r) ->
  wp (removeUntil target removed (uncurry pageOf <$> krs)) (okThen (fun c' =>
    settled c' /\ cfg c' = cfg c /\ exists gone kept, krs = gone ++ kept /\
      (krs <> [] -> gone <> []) /\ db c' = withoutAll (db c) gone)) c.
Proof.
  revert removed c. induction krs as [|[k r] krs IH]; intros removed c Hs Hdb Hnd Hin.
  { intros _. split_and!; try done. by exists [], []. }
  apply NoDup_cons in Hnd as [Hk Hnd]. rewrite fmap_cons. cbn [removeUntil].
  assert (Hrow : pages (db c) !! k = Some r) by (apply Hin; set_solver).
  wp_step. eapply wp_mono; [apply (removePage_spec _ r); [done|done| |done]|].
  { cbn. by destruct k. }
  intros [[]|e] c1 H1; [|done]. destruct (H1 eq_refl) as (Hs1 & Hc1 & Hd1). cbv beta iota zeta.
  replace (ObjectID (uncurry pageOf (k, r)), Index (uncurry pageOf (k, r))) with k in Hd1 by by destruct k.
  destruct (_ >=? _).
  - wp_step. intros _. split_and!; try done. exists [(k, r)], krs. by split_and!.
  - eapply wp_mono; [apply IH; [done| |done|]|].
    + rewrite Hd1. apply db_ok_fewer_pages; [apply delete_subseteq|done].
    + intros k' r' Hin'. rewrite Hd1. simpl. rewrite lookup_delete_ne; [apply Hin; set_solver|].
      intros ->. apply Hk. apply list_elem_of_fmap. by exists (k', r').
    + intros res c2 H2 Hok. destruct (H2 Hok) as (? & ? & gone & kept & -> & _ & Hd2).
      split_and!; [done|congruence|]. exists ((k, r) :: gone), kept. split_and!; [done|done|].
      by rewrite Hd2, Hd1.
Qed.

(** Of the pages of [m], those missing from [m'] come before those kept. *)
Definition evicts_oldest (m m' : gmap (string * Z) PageRow) : Prop :=
  m' ⊆ m /\ forall k r k' r', m !! k = Some r -> m' !! k = None -> m' !! k' = Some r' ->
    lruOrder (k, r) (k', r').

Lemma evicts_oldest_refl m : evicts_oldest m m.
Proof. split; [done|]. intros. congruence. Qed.

Lemma evicts_oldest_trans m1 m2 m3 :
  evicts_oldest m1 m2 -> evicts_oldest m2 m3 -> evicts_oldest m1 m3.
Proof.
  intros [H1 L1] [H2 L2]. split; [by transitivity m2|]. intros k r k' r' Hk Hgone Hk'.
  destruct (m2 !! k) as [r2|] eqn:E.
  - assert (r2 = r) as -> by (pose proof (lookup_weaken _ _ _ _ E H1); congruence). by apply (L2 k r k' r').
  - apply (L1 k r k' r'); [done..|]. by eapply lookup_weaken.
Qed.

Definition byAge (d : DB) := merge_sort lruOrder (map_to_list (pages d)).

Lemma byAge_elem d k r : (k, r) ∈ byAge d <-> pages d !! k = Some r.
Proof. unfold byAge. rewrite merge_sort_Permutation. apply elem_of_map_to_list. Qed.

Lemma byAge_NoDup d : NoDup (byAge d).*1.
Proof. unfold byAge. rewrite merge_sort_Permutation. apply NoDup_fst_map_to_list. Qed.

(** Removing a prefix of the rows in order of age evicts the oldest. *)
Lemma withoutAll_oldest d gone kept :
  byAge d = gone ++ kept -> evicts_oldest (pages d) (pages (withoutAll d gone)).
Proof.
  intros H. assert (Hs : StronglySorted lruOrder (gone ++ kept)).
  { rewrite <- H. apply (StronglySorted_merge_sort lruOrder). }
  split.
  - apply map_subseteq_spec. intros k r Hk. by apply withoutAll_lookup in Hk as [_ ?].
  - intros k r k' r' Hk Hgone Hk'. apply withoutAll_lookup in Hk' as [Hn Hk'].
    assert (Hin : (k, r) ∈ gone).
    { apply byAge_elem in Hk. rewrite H in Hk. apply elem_of_app in Hk as [|Hk]; [done|]. exfalso.
      destruct (pages (withoutAll d gone) !! k) eqn:E; [done|].
      assert (Hx : pages (withoutAll d gone) !! k = Some r); [|congruence].
      apply withoutAll_lookup. split; [|apply byAge_elem; rewrite H; set_solver].
      pose proof (byAge_NoDup d) as Hnd. rewrite H, fmap_app in Hnd.
      apply NoDup_app in Hnd as (_ & Hnd & _). intros Hin. apply (Hnd k Hin).
      apply list_elem_of_fmap. by exists (k, r). }
    assert (Hin' : (k', r') ∈ kept).
    { apply byAge_elem in Hk'. rewrite H in Hk'. apply elem_of_app in Hk' as [Hk'|]; [|done].
      exfalso. apply Hn. apply list_elem_of_fmap. by exists (k', r'). }
    clear -Hs Hin Hin'. induction gone as [|x gone IH]; [set_solver|].
    apply StronglySorted_inv in Hs as [Hs Hx]. apply elem_of_cons in Hin as [<-|Hin]; [|by apply IH].
    rewrite Forall_forall in Hx. apply Hx. set_solver.
Qed.

Lemma withoutAll_smaller d gone :
  gone <> [] -> (forall k r, (k, r) ∈ gone -> pages d !! k = Some r) ->
  (size (pages (withoutAll d gone)) < size (pages d))%nat.
Proof.
  intros Hne Hin. destruct gone as [|[k r] gone]; [done|].
  assert (Hk : pages d !! k = Some r) by (apply Hin; set_solver). cbn [withoutAll fst].
  apply Nat.le_lt_trans with (size (delete k (pages d))).
  - apply map_subseteq_size, map_subseteq_spec. intros j q Hj.
    by apply withoutAll_lookup in Hj as [_ Hj].
  - rewrite map_size_delete, Hk. simpl.
    assert (size (pages d) <> 0)%nat; [|lia]. intros H%map_size_empty_inv. by rewrite H in Hk.
Qed.

(** What a run of the eviction loop guarantees. *)
Definition evicted_post (c : Cache) (r : result CacheError ()) (c' : Cache) : Prop :=
  tame_post c r c' /\ okThen (fun c' => settled c' /\ db_ok (db c') /\ cfg c' = cfg c /\
    cachedSize (mem c') <= maxSize (cfg c) /\ evicts_oldest (pages (db c)) (pages (db c'))) r c'.

Lemma tame_post_trans {A B} c (a : A) c1 (r : result CacheError B) c2 :
  tame_post c (Ok a) c1 -> tame_post c1 r c2 -> tame_post c r c2.
Proof. intros [H1 _] [H2 H3]. split; [|done]. intros Hc. apply H2, H1, Hc. Qed.

Lemma tame_post_err {A B} c e c1 :
  tame_post c (Err (A := A) e) c1 -> tame_post c (Err (A := B) e) c1.
Proof. intros [H1 H2]. split; [|congruence]. intros Hc. by destruct (H1 Hc). Qed.

Lemma oldestPages_spec n c :
  wp (oldestPages n) (fun r c' => tame_post c r c' /\ (exists l, c' = set_faults l c) /\
    forall ps, r = Ok ps -> ps = sqlOldestPages (db c) n) c.
Proof.
  eapply wp_mono; [apply wp_and; [apply tame_oldestPages|]|intros r c' H; exact H].
  unfold oldestPages. wp_go; (split; [by eexists|]); intros ps [= <-]; done.
Qed.

Lemma evictLoop_spec fuel c :
  settled c -> db_ok (db c) -> 0 <= maxSize (cfg c) -> (size (pages (db c)) < fuel)%nat ->
  wp (evictLoop fuel) (evicted_post c) c.
Proof.
  revert c. induction fuel as [|fuel IH]; intros c Hs Hdb Hmax Hfuel; [lia|]. cbn [evictLoop].
  wp_step. wp_step. cbv zeta. unfold currentSize. destruct (cachedSize (mem c) <=? _) eqn:Hsz; zbool.
  { eapply wp_mono; [apply wp_and; [apply tame_requestMetricsRefresh|
      apply wp_and; [apply quiet_requestMetricsRefresh|apply still_requestMetricsRefresh]]|].
    intros r c1 (Ht & Hb & Hd & Hc). split; [done|]. intros _. rewrite Hd, Hc.
    split_and!; [by apply (settled_balance c)|done..| |apply evicts_oldest_refl].
    injection Hb as _ ->. done. }
  wp_step. eapply wp_mono; [apply oldestPages_spec|].
  intros [ps|e] c1 (Ht1 & (l & ->) & Hps); [|by split; [eapply tame_post_err, Ht1|]].
  specialize (Hps ps eq_refl). unfold sqlOldestPages in Hps. fold (byAge (db c)) in Hps.
  set (krs := take (Z.to_nat evictionBatchSize) (byAge (db c))) in *.
  assert (Hin : forall k r, (k, r) ∈ krs -> pages (db c) !! k = Some r).
  { intros k r Hk. apply byAge_elem. unfold krs in Hk. by apply subseteq_take in Hk. }
  assert (Hne : krs <> []).
  { intros Hk. assert (Hnil : byAge (db c) = []) by (unfold krs in Hk; destruct (byAge (db c)); done).
    destruct Hs as [Hs _]. rewrite Hs in Hsz. unfold total in Hsz.
    rewrite <- (merge_sort_Permutation lruOrder (map_to_list (pages (db c)))) in Hsz.
    fold (byAge (db c)) in Hsz. rewrite Hnil in Hsz. cbn in Hsz. lia. }
  rewrite bool_decide_false by (subst ps; by destruct krs).
  wp_step. subst ps. eapply wp_mono; [apply wp_and; [apply tame_removeUntil|apply removeUntil_spec]|].
  - done.
  - done.
  - cbn [db set_faults]. pose proof (byAge_NoDup (db c)) as Hnd.
    rewrite <- (take_drop (Z.to_nat evictionBatchSize) (byAge (db c))), fmap_app in Hnd.
    by apply NoDup_app in Hnd as [? _].
  - done.
  - intros [[]|e] c2 [Ht2 H2].
    2:{ split; [|done]. eapply tame_post_trans; [exact Ht1|]. by eapply tame_post_err. }
    destruct (H2 eq_refl) as (Hs2 & Hc2 & gone & kept & Hsplit & Hgone & Hd2).
    cbn [db cfg set_faults] in *. specialize (Hgone Hne).
    assert (Hage : byAge (db c) = gone ++ (kept ++ drop (Z.to_nat evictionBatchSize) (byAge (db c)))).
    { rewrite app_assoc, <- Hsplit. unfold krs. by rewrite take_drop. }
    eapply wp_mono; [apply IH; [done| |by rewrite Hc2|]|].
    + rewrite Hd2. by apply withoutAll_ok.
    + rewrite Hd2. assert (Hin' : forall k r, (k, r) ∈ gone -> pages (db c) !! k = Some r)
        by (intros k r Hk; apply Hin; rewrite Hsplit; set_solver).
      pose proof (withoutAll_smaller (db c) gone Hgone Hin'). lia.
    + intros r c3 [Ht3 H3]. split; [by eapply tame_post_trans, tame_post_trans|].
      intros Hok. destruct (H3 Hok) as (? & ? & Hc3 & Hle & Hold). rewrite Hc3, Hc2 in *.
      split_and!; [done..|]. eapply evicts_oldest_trans; [|exact Hold]. rewrite Hd2.
      by eapply withoutAll_oldest.
Qed.

(** *** Limits per bucket *)

Lemma oldestPagesForBucket_spec b n c :
  wp (oldestPagesForBucket b n) (fun r c' => tame_post c r c' /\ (exists l, c' = set_faults l c) /\
    forall ps, r = Ok ps -> ps = sqlOldestPagesForBucket (db c) b n) c.
Proof.
  eapply wp_mono; [apply wp_and; [|]|intros r c' H; exact H].
  - assert (Ht : tame (oldestPagesForBucket b n)) by (unfold oldestPagesForBucket; tame_go). apply Ht.
  - unfold oldestPagesForBucket. wp_go; (split; [by eexists|]); intros ps [= <-]; done.
Qed.

Definition bucketRows (d : DB) (b : string) : list ((string * Z) * PageRow) :=
  take (Z.to_nat evictionBatchSize) (merge_sort lruOrder (filter (inBucket d b) (map_to_list (pages d)))).

Lemma bucketRows_elem d b k r : (k, r) ∈ bucketRows d b -> pages d !! k = Some r.
Proof.
  unfold bucketRows. intros Hk%subseteq_take. rewrite merge_sort_Permutation in Hk.
  apply list_elem_of_filter in Hk as [_ Hk]. by apply elem_of_map_to_list.
Qed.

Lemma bucketRows_NoDup d b : NoDup (bucketRows d b).*1.
Proof.
  unfold bucketRows. set (l := merge_sort _ _). assert (Hl : NoDup l.*1).
  { unfold l. rewrite merge_sort_Permutation.
    apply (sublist_NoDup _ (map_to_list (pages d)).*1);
      [apply NoDup_fst_map_to_list|apply fmap_sublist, sublist_filter]. }
  rewrite <- (take_drop (Z.to_nat evictionBatchSize) l), fmap_app in Hl.
  by apply NoDup_app in Hl as [? _].
Qed.

Definition trimmed_post (c : Cache) (r : result CacheError ()) (c' : Cache) : Prop :=
  tame_post c r c' /\ okThen (fun c' => settled c' /\ db_ok (db c') /\ cfg c' = cfg c) r c'.

Lemma evictBucketLoop_spec fuel b max c :
  settled c -> db_ok (db c) -> (size (pages (db c)) < fuel)%nat ->
  wp (evictBucketLoop fuel b max) (trimmed_post c) c.
Proof.
  revert c. induction fuel as [|fuel IH]; intros c Hs Hdb Hfuel; [lia|]. cbn [evictBucketLoop].
  wp_step. wp_step. cbv zeta. destruct (currentSizeForBucket c b <=? max); [wp_step; by split|].
  wp_step. eapply wp_mono; [apply oldestPagesForBucket_spec|].
  intros [ps|e] c1 (Ht1 & (l & ->) & Hps); [|by split; [eapply tame_post_err, Ht1|]].
  specialize (Hps ps eq_refl). subst ps. unfold sqlOldestPagesForBucket. fold (bucketRows (db c) b).
  case_bool_decide as Hnil; [wp_step; split; [by eapply tame_post_trans|by intros _]|].
  wp_step. eapply wp_mono; [apply wp_and; [apply tame_removeUntil|apply removeUntil_spec]|].
  - done.
  - done.
  - apply bucketRows_NoDup.
  - intros k r. apply bucketRows_elem.
  - intros [[]|e] c2 [Ht2 H2].
    2:{ split; [|done]. eapply tame_post_trans; [exact Ht1|]. by eapply tame_post_err. }
    destruct (H2 eq_refl) as (Hs2 & Hc2 & gone & kept & Hsplit & Hgone & Hd2).
    cbn [db cfg set_faults] in *.
    eapply wp_mono; [apply IH; [done| |]|].
    + rewrite Hd2. by apply withoutAll_ok.
    + rewrite Hd2. assert (Hin' : forall k r, (k, r) ∈ gone -> pages (db c) !! k = Some r)
        by (intros k r Hk; apply (bucketRows_elem _ b); rewrite Hsplit; set_solver).
      assert (Hg : gone <> []) by (apply Hgone; intros E; by rewrite E in Hnil).
      pose proof (withoutAll_smaller (db c) gone Hg Hin'). lia.
    + intros r c3 [Ht3 H3]. split; [by eapply tame_post_trans, tame_post_trans|].
      intros Hok. destruct (H3 Hok) as (? & ? & Hc3). by rewrite Hc3, Hc2.
Qed.

Lemma evictBuckets_spec order c :
  settled c -> db_ok (db c) -> wp (evictBuckets order) (trimmed_post c) c.
Proof.
  revert c. induction order as [|[b max] order IH]; intros c Hs Hdb; cbn [evictBuckets].
  { wp_step. by split. }
  wp_step. wp_step. wp_step. eapply wp_mono; [apply evictBucketLoop_spec; [done..|unfold evictFuel; lia]|].
  intros [[]|e] c1 [Ht1 H1]; [|by split; [eapply tame_post_err, Ht1|]].
  destruct (H1 eq_refl) as (Hs1 & Hdb1 & Hc1). eapply wp_mono; [by apply IH|].
  intros r c2 [Ht2 H2]. split; [by eapply tame_post_trans|]. intros Hok. rewrite <- Hc1. by apply H2.
Qed.

Lemma Evict_spec order c :
  settled c -> db_ok (db c) -> 0 <= maxSize (cfg c) ->
  wp (Evict order) (fun r c' => tame_post c r c' /\ okThen (fun c' => settled c' /\
    cachedSize (mem c') <= maxSize (cfg c) /\
    (order = [] -> evicts_oldest (pages (db c)) (pages (db c')))) r c') c.
Proof.
  intros Hs Hdb Hmax. unfold Evict. destruct order as [|x order].
  - cbn [evictBuckets]. do 4 wp_step.
    eapply wp_mono; [apply evictLoop_spec; [done..|unfold evictFuel; lia]|].
    intros r c' [Ht H]. split; [done|]. intros Hok. destruct (H Hok) as (? & ? & ? & ? & ?). done.
  - wp_step. eapply wp_mono; [by apply evictBuckets_spec|].
    intros [[]|e] c1 [Ht1 H1]; [|by split; [eapply tame_post_err, Ht1|]].
    destruct (H1 eq_refl) as (Hs1 & Hdb1 & Hc1). wp_step. wp_step.
    eapply wp_mono; [apply evictLoop_spec; [done..|by rewrite Hc1|unfold evictFuel; lia]|].
    intros r c' [Ht H]. split; [by eapply tame_post_trans|]. intros Hok.
    destruct (H Hok) as (? & ? & ? & Hle & ?). rewrite Hc1 in Hle. done.
Qed.

(** C20: eviction ends, whatever the page table and whatever fails; if nothing
    fails it succeeds, and when it succeeds the cached size is at most the limit
    and still the sum of the page rows. Without limits per bucket the pages it
    removed all come before the pages it kept in the order of last access,
    creation, object and index. *)
Theorem Evict_bounds (c : Cache) (order : list (string * Z))
    (Hs : settled c) (Hdb : db_ok (db c)) (Hmax : 0 <= maxSize (cfg c)) :
  let '(r, c') := Evict order c in
  r <> Err OutOfFuel /\ (faults c = [] -> r = Ok ()) /\
  (r = Ok () -> cachedSize (mem c') <= maxSize (cfg c) /\
     cachedSize (mem c') = pagesTotal (db c') /\
     (order = [] -> evicts_oldest (pages (db c)) (pages (db c')))).
Proof.
  destruct (Evict order c) as [r c'] eqn:E.
  pose proof (wp_run _ _ _ _ _ (Evict_spec order c Hs Hdb Hmax) E) as [[Ht Hne] Hok].
  split_and!; [done| |].
  - intros Hf. destruct (Ht Hf) as [_ Hr]. by destruct r as [[]|].
  - intros ->. destruct (Hok eq_refl) as ([Hc _] & Hle & Hold). done.
Qed.

(** *** Putting a page row *)

Lemma getPage_spec id i c :
  wp (getPage id i) (fun r c' => mem c' = mem c /\ db c' = db c /\ forall o, r = Ok o -> o = sqlPage (db c) id i) c.
Proof. unfold getPage. wp_go; split_and!; try done; by intros o [= <-]. Qed.

(** Putting a page row, successful or not, leaves the counter at the sum. *)
Lemma PutPage_settles p c : settled c -> wp (PutPage p) (fun _ c' => settles c') c.
Proof.
  intros Hs. unfold PutPage. apply settled_bind; [apply quiet_validatePage|done| |by intros ? ? ? _].
  clear dependent c. intros _ c [Hs Hf]. wp_step. eapply wp_mono; [apply getPage_spec|].
  intros [prev|e] c1 (Hm & Hd & Hprev); [|intros _; unfold settled; by rewrite Hm, Hd].
  specialize (Hprev prev eq_refl). wp_step. apply wp_timestamp. intros now k _. wp_step.
  apply wp_call; [intros l|by intros msg l _; unfold settled; cbn; rewrite Hm, Hd].
  wp_step. wp_step. cbn [db set_faults set_time]. wp_step.
  destruct (sqlUpsertPage p now (db c1)) as [d|] eqn:HU; cbn [of_option]; wp_step; [|by intros _; unfold settled; cbn; rewrite Hm, Hd].
  wp_step. wp_step. apply sqlUpsertPage_pages in HU as (_ & _ & created & HU). rewrite Hd in HU.
  wp_step. eapply wp_mono; [apply pageBucket_spec|]. intros r c2 (b & l2 & -> & ->). cbv zeta.
  match goal with |- wp (?m;; requestMetricsRefresh) _ ?c0 => set (c3 := c0) end.
  assert (Hm3 : cachedSize (mem c3) = total (pages (db c))) by (cbn; by rewrite Hm).
  assert (Ht3 : total (pages (db c3)) = total (pages (db c)) - from_option Size 0 prev + Size p).
  { cbn. rewrite HU, total_upsert, Hprev. unfold sqlPage. cbn [p_size]. by destruct (pages (db c) !! _). }
  clearbody c3. wp_step. eapply wp_mono; [apply adjust_settles; rewrite Hm3; [lia|]|].
  - intros Hfit. rewrite Ht3. unfold fits in Hfit. rewrite Ht3 in Hfit. destruct prev as [q|]; cbn [from_option] in *.
    + unfold sub64. rewrite wrap64_wrap64_r, wrap64_id; [|int64_unfold]; lia.
    + rewrite wrap64_id; [|int64_unfold]; lia.
  - intros r3 c4 (H4 & _ & _ & _ & ->). by apply (settles_quiet requestMetricsRefresh), H4; apply quiet_requestMetricsRefresh.
Qed.

(** *** Stale pages found when reading *)

(** After a row was deleted, dropping its size from the counter settles. *)
Lemma drop_row_settles {A} k row b (pre : M ()) (rest : M A) c c1 :
  settled c -> db_ok (db c) -> pages (db c) !! k = Some row -> quiet pre -> quiet rest ->
  db c1 = withoutPage k (db c) -> mem c1 = mem c ->
  wp (pre;; when true (adjustCacheSize b (sub64 0 (p_size row));; requestMetricsRefresh);; rest)
    (okThen settled) c1.
Proof.
  intros [Hs Hf] Hdb Hrow Hpre Hrest Hd Hm.
  assert (Htot : total (pages (db c)) = p_size row + total (pages (db c1)))
    by (rewrite Hd; apply total_delete, Hrow).
  assert (Hnn : 0 <= total (pages (db c1)))
    by (apply db_ok_total; rewrite Hd; apply db_ok_fewer_pages; [apply delete_subseteq|done]).
  pose proof (ok_pages _ Hdb _ _ Hrow) as (_ & _ & _ & Hp & _).
  assert (Hw : p_size row = wrap64 (p_size row)) by (symmetry; apply wrap64_id; int64_unfold; lia).
  apply balance_bind; [done|]. intros _ c2 [= HT HC]. cbn [when]. wp_step. rewrite Hw. eapply wp_mono.
  - apply subtract_settles; [rewrite ?HT, ?HC, ?Hm, ?Hs; lia..|]. intros; apply quiet_requestMetricsRefresh.
  - intros [[]|e] c3 H3; [|done]. apply quiet_then_settled; [done|by apply H3].
Qed.

Lemma deletePageIfCurrent_spec k row c :
  pages (db c) !! k = Some row ->
  wp (deletePageIfCurrent (pageOf k row)) (fun r c' => match r with
    | Ok b => b = true /\ db c' = withoutPage k (db c) /\ mem c' = mem c
    | Err _ => True end) c.
Proof.
  intros Hrow. unfold deletePageIfCurrent, sqlDeletePageIfCurrent. wp_step. wp_step; [|done].
  wp_step. wp_step. cbn [pageOf ObjectID Index ETag Epoch Size Path db set_faults].
  rewrite <- surjective_pairing, Hrow, !bool_decide_true, !Z.eqb_refl by done. cbn [andb]. by wp_go.
Qed.

Lemma OpenPage_settles id i etag e c :
  settled c -> db_ok (db c) -> wp (OpenPage id i etag e) (okThen settled) c.
Proof.
  intros Hs Hdb. unfold OpenPage, getPage. do 2 wp_step. wp_step; [|done]. do 3 wp_step.
  unfold sqlPage. cbn [db set_faults]. destruct (pages (db c) !! (id, i)) as [row|] eqn:Hrow;
    cbn [fmap option_fmap option_map]; [|wp_step; by intros _].
  destruct (negb _ || negb _).
  { wp_step. eapply wp_mono; [apply pageBucket_spec|]. intros r c1 (b & l1 & -> & ->).
    wp_step. eapply wp_mono; [by apply deletePageIfCurrent_spec|].
    intros [del|err] c2; [|done]. intros (-> & Hd & Hm).
    by apply (drop_row_settles (id, i) row b (removeFile _ _) (mret None) c);
      [done|done|done|apply quiet_removeFile|apply quiet_ret|done|done]. }
  wp_step. wp_step; [|done]. do 2 wp_step. destruct (files _ !! _) as [data|].
  - wp_step. wp_step; [|done]. destruct (negb _).
    + wp_step. eapply wp_mono; [apply pageBucket_spec|]. intros r c1 (b & l2 & -> & ->).
      wp_step. eapply wp_mono; [by apply deletePage_spec|].
      intros [del|err] c2; [|done]. intros (-> & Hd & Hm & _). cbn [db set_faults] in *.
      rewrite bool_decide_true by (rewrite Hrow; eauto).
      by apply (drop_row_settles (id, i) row b (removeFile _ _) (mret None) c);
        [done|done|done|apply quiet_removeFile|apply quiet_ret|done|done].
    + apply quiet_then_settled; [|done]. apply quiet_bind; [apply quiet_requestTouch|intros; apply quiet_ret].
  - wp_step. eapply wp_mono; [apply pageBucket_spec|]. intros r c1 (b & l2 & -> & ->).
    wp_step. eapply wp_mono; [by apply deletePage_spec|].
    intros [del|err] c2; [|done]. intros (-> & Hd & Hm & _). cbn [db set_faults] in *.
    rewrite bool_decide_true by (rewrite Hrow; eauto).
    exact (drop_row_settles (id, i) row b (mret ()) (mret None) c c2 Hs Hdb Hrow
             (quiet_ret _) (quiet_ret _) Hd Hm).
Qed.

(** C21: the size counter is the sum of the page rows. Every operation that stores or
    drops pages leaves [cachedSize] equal to [SUM(size)] over the page table: putting,
    storing and committing a page whether or not they succeed, as long as the sum is an
    [int64]; invalidating and deleting an object, removing a page given as its row has it,
    evicting under a limit that is not negative, and dropping a page that is found damaged
    when it is read, if they report success. What only changes metadata leaves both
    alone. *)
Theorem size_accounting `{HeaderCodec} (c : Cache) (Hs : settled c) (Hdb : db_ok (db c)) :
  (forall meta, let '(_, c') := PutObject meta c in settled c') /\
  (forall p, let '(_, c') := PutPage p c in fits c' -> settled c') /\
  (forall buf w, let '(_, c') := StorePage buf w c in fits c' -> settled c') /\
  (forall h, let '(_, c') := Commit h c in fits c' -> settled c') /\
  (forall b k m, let '(r, c') := InvalidateObject b k m c in is_ok r = true -> settled c') /\
  (forall b k, let '(r, c') := DeleteObject b k c in is_ok r = true -> settled c') /\
  (forall p row, pages (db c) !! (ObjectID p, Index p) = Some row -> p_size row = Size p ->
     let '(r, c') := removePage p c in is_ok r = true -> settled c' /\ db c' = withoutPage (ObjectID p, Index p) (db c)) /\
  (forall order, 0 <= maxSize (cfg c) -> let '(r, c') := Evict order c in is_ok r = true -> settled c') /\
  (forall id i etag e, let '(r, c') := OpenPage id i etag e c in is_ok r = true -> settled c').
Proof.
  split_and!.
  - intros meta. pose proof (settled_quiet _ c (quiet_PutObject meta) Hs) as H1. unfold wp in H1.
    by destruct (PutObject meta c).
  - intros p. pose proof (PutPage_settles p c Hs) as H1. unfold wp in H1. by destruct (PutPage p c).
  - intros buf w. pose proof (StorePage_settles buf w c Hs) as H1. unfold wp in H1.
    by destruct (StorePage buf w c).
  - intros h. pose proof (Commit_settles h c Hs) as H1. unfold wp in H1. by destruct (Commit h c).
  - intros b k m. pose proof (InvalidateObject_settles b k m c Hs Hdb) as H1. unfold wp in H1.
    by destruct (InvalidateObject b k m c).
  - intros b k. pose proof (InvalidateObject_settles b k 0 c Hs Hdb) as H1. unfold DeleteObject, mbind, M_bind.
    unfold wp in H1. destruct (InvalidateObject b k 0 c) as [[e|e] c']; [|done]. intros _. by apply H1.
  - intros p row Hrow Hsz. pose proof (removePage_spec p row c Hs Hdb Hrow Hsz) as H1. unfold wp in H1.
    destruct (removePage p c). intros Hok. destruct (H1 Hok) as (? & _ & ?). done.
  - intros order Hmax. pose proof (Evict_spec order c Hs Hdb Hmax) as H1. unfold wp in H1.
    destruct (Evict order c). intros Hok. by apply H1.
  - intros id i etag e. pose proof (OpenPage_settles id i etag e c Hs Hdb) as H1. unfold wp in H1.
    by destruct (OpenPage id i etag e c).
Qed.

(** A page of three bytes is stored, another is put beside it, and the object is invalidated. *)
Lemma size_accounting_witness :
  let p := mkPage (ObjectKey "b" "k") 1 "e1" 0 5 "pages/x" in
  let '(r, c1) := PutPage p demoCache in
  let '(r', c2) := InvalidateObject "b" "k" 0 demoCache in
  cachedSize (mem demoCache) = 3 /\ r = Ok () /\ cachedSize (mem c1) = 8 /\ settled c1 /\
  r' = Ok 1 /\ cachedSize (mem c2) = 0 /\ settled c2.
Proof.
  assert (Hs : settled demoCache) by (split; [vm_compute; reflexivity|vm_compute; split; discriminate]).
  destruct (@size_accounting emptyCodec demoCache Hs demoCache_db_ok) as (_ & Hput & _ & _ & Hinv & _).
  set (p := mkPage (ObjectKey "b" "k") 1 "e1" 0 5 "pages/x"). specialize (Hput p). specialize (Hinv "b" "k" 0).
  assert (H1 : let '(r, c1) := PutPage p demoCache in r = Ok () /\ cachedSize (mem c1) = 8 /\ total (pages (db c1)) = 8)
    by (vm_compute; split_and!; reflexivity).
  assert (H2 : let '(r, c2) := InvalidateObject "b" "k" 0 demoCache in r = Ok 1 /\ cachedSize (mem c2) = 0)
    by (vm_compute; split_and!; reflexivity).
  cbv zeta. destruct (PutPage p demoCache) as [r c1]. destruct (InvalidateObject "b" "k" 0 demoCache) as [r' c2].
  destruct H1 as (-> & E1 & T1). destruct H2 as (-> & E2). split; [vm_compute; reflexivity|]. split; [reflexivity|].
  split; [exact E1|]. split; [apply Hput; unfold fits; rewrite T1; vm_compute; split; discriminate|]. split; [reflexivity|].
  split; [exact E2|]. apply Hinv. reflexivity.
Defined.

(** The same cache with another limit, and nothing failing. *)
Definition limited (max : Z) (c : Cache) : Cache :=
  mkCache (mkConfig max ∅ 1 512 false) (db c) (fs c) (mem c) [] [].

Lemma limited_db_ok Good max c : cache_ok Good c -> db_ok (db (limited max c)).
Proof. intros [[H _ _] _]. exact H. Qed.

(** A page of 3 bytes, at most 2 allowed. *)
Lemma Evict_bounds_witness :
  let '(r, c') := Evict [] (limited 2 demoCache) in r = Ok () /\ cachedSize (mem c') <= 2.
Proof.
  assert (Hs : settled (limited 2 demoCache)).
  { split; [vm_compute; reflexivity|]. vm_compute. split; discriminate. }
  assert (Hdb : db_ok (db (limited 2 demoCache))).
  { apply (limited_db_ok (fun _ _ => True)).
    apply (@rtc_cache_step_ok emptyCodec _ (emptyCache 100)); [apply demo_steps; exact I|].
    apply emptyCache_ok. int64_unfold; lia. }
  assert (Hm : 0 <= maxSize (cfg (limited 2 demoCache))) by (unfold limited; cbn [cfg maxSize]; lia).
  pose proof (Evict_bounds (limited 2 demoCache) [] Hs Hdb Hm) as H.
  assert (Hf : faults (limited 2 demoCache) = []) by (unfold limited; reflexivity).
  assert (Hx : maxSize (cfg (limited 2 demoCache)) = 2) by (unfold limited; reflexivity).
  rewrite Hx in H. clear Hx. destruct (Evict [] (limited 2 demoCache)) as [r c'].
  destruct H as (_ & Hok & Hle). specialize (Hok Hf). subst r. destruct (Hle eq_refl) as [H1 _].
  split; [reflexivity|exact H1].
Defined.

(** A page file that cannot be deleted makes the counter drift. When an
    invalidation has committed and removing a page file then fails, the rows are
    gone but the counter still includes them. *)
Theorem invalidation_drift :
  let c := set_env (repeat None 9 ++ [Some (mkFault 0 "permission denied")]) [] demoCache in
  let '(r, c') := InvalidateObject "b" "k" 0 c in
  settled c /\ r = Err (Failure "delete page file: permission denied") /\
  cachedSize (mem c') = 3 /\ pagesTotal (db c') = 0.
Proof. vm_compute. repeat split; discriminate. Qed.
