(* ===== verification/CacheTrips.v ===== *)
(** * Round trips through the cache ([internal/cache/cache.go])

    What [PutObject] stores [GetObject] returns, and what [StorePage] stores
    [OpenPage] returns, byte for byte, however the source delivers it. *)

From stdpp Require Import relations.
From S2P Require Import Prelude GoStrings GoNet PageFrame CachePath CacheDB CacheStore CacheLogic.
From S2P Require Import CacheInv CacheOps.

(** ** Objects *)

Definition objectOf (meta : ObjectMetadata) (epoch : Z) : Object :=
  mkObject (ObjectKey (om_Bucket meta) (om_Key meta)) (om_Bucket meta) (om_Key meta) (om_ETag meta)
    (om_Size meta) (om_PageSize meta) (om_Headers meta) epoch.

(** The row that holds an object. *)
Definition holds_object `{HeaderCodec} (c : Cache) (meta : ObjectMetadata) (epoch : Z) : Prop :=
  exists t, objects (db c) !! ObjectKey (om_Bucket meta) (om_Key meta)
    = Some (mkObjectRow (om_Bucket meta) (om_Key meta) (om_ETag meta) (om_Size meta)
              (om_PageSize meta) (json_Marshal (om_Headers meta)) epoch t).

Lemma wp_trivial {A} (m : M A) (Q : result CacheError A -> Cache -> Prop) c :
  (forall r c', Q r c') -> wp m Q c.
Proof. intros H. apply H. Qed.

Section Objects.
Context `{HeaderCodec}.

Lemma GetObject_holds meta epoch c :
  encodable (om_Headers meta) -> holds_object c meta epoch ->
  wp (GetObject (om_Bucket meta) (om_Key meta)) (fun r c' =>
    (exists l, c' = set_faults l c) /\ (faults c = [] -> r = Ok (Some (objectOf meta epoch))) /\
    (forall o, r = Ok o -> o = Some (objectOf meta epoch))) c.
Proof.
  intros He [t Ht]. unfold GetObject. wp_step. apply wp_call_faults.
  - intros l Hl. wp_step. wp_step. cbn [db set_faults]. rewrite Ht. wp_step.
    unfold unmarshalHeaders. cbn [o_headers_json].
    rewrite bool_decide_false, json_roundtrip by (done || apply json_nonempty). cbn [of_option].
    do 2 wp_step. split_and!; [by exists l|done|by intros o [= <-]].
  - intros msg l Hne. split_and!; [by exists l|done|done].
Qed.

Lemma PutObject_holds meta c :
  encodable (om_Headers meta) ->
  wp (PutObject meta) (fun r c' => forall obj, r = Ok obj ->
    exists epoch, obj = objectOf meta epoch /\ holds_object c' meta epoch) c.
Proof.
  intros He. unfold PutObject. do 5 (destruct (_ : bool); [by wp_step|]). cbv zeta.
  wp_step. wp_step. wp_step. eapply wp_trivial. intros [[]|e] c1; [|done].
  wp_step. eapply wp_trivial. intros [epoch|e] c2; [|done].
  wp_step. wp_step; [|done]. do 3 wp_step. wp_step; [|done].
  unfold sqlUpsertObject in *. case_bool_decide; [done|]. simplify_eq.
  wp_step. wp_step. wp_step. eapply wp_mono; [apply (GetObject_holds meta epoch); [done|]|].
  - eexists. cbn [db set_db objects]. rewrite lookup_insert_eq. done.
  - intros [o|e] c3 ((l' & ->) & _ & Ho); [|done]. rewrite (Ho o eq_refl). cbn [of_option].
    wp_step. intros obj [= <-].
    exists epoch. split; [done|]. eexists. cbn [db set_db set_faults objects]. by rewrite lookup_insert_eq.
Qed.

(** What [PutObject] stores is what [GetObject] returns. Whatever else failed
    on the way and whatever the clock says, if [PutObject] reports success then the
    object it returns has the metadata it was given, and a lookup that does not
    fail returns the same object. *)
Theorem PutObject_GetObject (meta : ObjectMetadata) (c c1 : Cache) (obj : Object)
    (He : encodable (om_Headers meta)) (Hput : PutObject meta c = (Ok obj, c1)) :
  (exists epoch, obj = objectOf meta epoch) /\
  forall cl, (GetObject (om_Bucket meta) (om_Key meta) (set_env [] cl c1)).1 = Ok (Some obj).
Proof.
  destruct (wp_run _ _ _ _ _ (PutObject_holds meta c He) Hput obj eq_refl) as (epoch & -> & Hh).
  split; [by eexists|]. intros cl.
  destruct (GetObject_holds meta epoch (set_env [] cl c1) He Hh) as (_ & Hok & _). by apply Hok.
Qed.
End Objects.

Lemma PutObject_GetObject_witness :
  exists obj c1, @PutObject emptyCodec demoMeta (emptyCache 100) = (Ok obj, c1) /\
    ob_ETag obj = "e1" /\
    (@GetObject emptyCodec "b" "k" (set_env [] [] c1)).1 = Ok (Some obj).
Proof.
  destruct (@PutObject emptyCodec demoMeta (emptyCache 100)) as [r c1] eqn:E.
  assert (Hr : exists obj, r = Ok obj).
  { assert (Hok : is_ok (@PutObject emptyCodec demoMeta (emptyCache 100)).1 = true) by (vm_compute; reflexivity).
    rewrite E in Hok. destruct r as [obj|]; [by exists obj|discriminate]. }
  destruct Hr as [obj ->]. exists obj, c1. split; [reflexivity|].
  destruct (@PutObject_GetObject emptyCodec demoMeta (emptyCache 100) c1 obj eq_refl E) as [[ep He] Hg].
  split; [by rewrite He|exact (Hg [])].
Defined.

(** ** Pages *)

(** The row and the file that hold one version of a page. *)
Definition holds_page (c : Cache) (o : PageWriteOptions) (data : bytes) : Prop :=
  exists row, pages (db c) !! (pwo_ObjectID o, pwo_Index o) = Some row /\
    p_etag row = pwo_ETag o /\ p_epoch row = pwo_ExpectedEpoch o /\ p_size row = zlen data /\
    pathOf o = Some (p_path row) /\ files (fs c) !! p_path row = Some data.

Lemma putPageIfCurrent_row p e c :
  wp (putPageIfCurrent p e) (fun r c' => forall x, r = Ok x ->
    fs c' = fs c /\ exists row, pages (db c') !! (ObjectID p, Index p) = Some row /\
      p_etag row = ETag p /\ p_epoch row = Epoch p /\ p_size row = Size p /\ p_path row = Path p) c.
Proof.
  unfold putPageIfCurrent, liftCommit, validatePage. wp_go; try done.
  destruct (checkCurrent _ _ _ _); [|done]. wp_go; try done.
  destruct (putPageTx _ _ _ _) as [[[b prev] d]|] eqn:Hput; [|done]. wp_go; try done.
  intros x [= <-]. split; [done|]. cbn [db set_db].
  apply putPageTx_inv in Hput as (o & g & _ & _ & _ & _ & _ & _ & HU).
  apply sqlUpsertPage_pages in HU as (_ & _ & created & ->). rewrite lookup_insert_eq. by eexists.
Qed.

(** A commit that succeeds leaves the content under the path of its version. *)
Lemma Commit_holds h w c :
  writers (fs c) !! h = Some w -> done_ w = false -> pathOf (options w) = Some (finalPath w) ->
  pw_size w = zlen (temp c h) ->
  wp (Commit h) (fun r c' => forall p, r = Ok p ->
    holds_page c' (options w) (temp c h) /\ exists w', writers (fs c') !! h = Some w' /\ done_ w' = true) c.
Proof.
  intros Hw Hd Hp Hsz. unfold Commit. wp_step. eapply writer_some; [done|]. rewrite Hd. cbv zeta.
  wp_step. apply wp_orElse. wp_step; [|by apply wp_trivial].
  wp_step. apply wp_orElse. wp_step; [|by apply wp_trivial].
  wp_step. unfold set_writerM. wp_step. wp_step. apply wp_orElse. unfold renameTemp. wp_step.
  wp_step; [|by apply wp_trivial]. wp_step.
  pose proof Hp as Hpo. unfold pathOf in Hp. rewrite Hp. wp_step. apply wp_ret. cbv zeta.
  wp_step. apply wp_orElse. eapply wp_mono; [apply putPageIfCurrent_row|].
  intros [[b prev]|e] c1 H1; [|by apply wp_trivial].
  destruct (H1 _ eq_refl) as (Hfs & row & Hrow & He & Hn & Hs & Hpath). cbn in Hrow, He, Hn, Hs, Hpath.
  assert (Hout : forall c2, db c2 = db c1 -> fs c2 = fs c1 ->
    holds_page c2 (options w) (temp c h) /\ exists w', writers (fs c2) !! h = Some w' /\ done_ w' = true).
  { intros c2 H2 H2'. unfold holds_page. rewrite H2, H2', Hfs. cbn. split.
    - exists row. split_and!; [done..|congruence|by rewrite Hpath|]. rewrite Hpath. by rewrite lookup_insert_eq.
    - rewrite lookup_insert_eq. by eexists. }
  unfold adjustCacheSize, requestMetricsRefresh, requestEviction. wp_go. intros p [= <-].
  apply Hout; repeat case_match; done.
Qed.

Lemma StorePage_holds buf write src c :
  cache_ok (fun _ _ => True) c -> pwr_Source write = Some src ->
  wp (StorePage buf write) (fun r c' => forall p, r = Ok p ->
    holds_page c' (pwr_options write) (Io.content src) /\ zlen (Io.content src) = pwr_Size write) c.
Proof.
  intros Hok Hsrc. unfold StorePage. destruct (_ <? 0); [done|]. rewrite Hsrc. wp_step.
  eapply wp_mono; [apply wp_and; [apply (keeps_BeginPageWrite (fun _ _ => True)); by apply evolved_refl
    |apply BeginPageWrite_post]|].
  intros [h|e] c1 [[H1 _] HP]; [|done]. destruct (HP h eq_refl) as (w & Hw & Ho & Hd & Ht).
  apply wp_deferring. wp_step.
  eapply wp_mono; [by apply (copyToWriter_evolved (fun _ _ => True) _ _ _ _ _ c c1 w)|].
  intros [n|e] c2 (H2 & _ & w2 & Hw2 & Ho2 & Hd2 & Hn); [|by apply wp_trivial].
  destruct (Hn n eq_refl) as [-> Ht2]. rewrite Ht in Ht2. cbn [app] in Ht2.
  destruct (negb _) eqn:Hz; [wp_step; by apply wp_trivial|]. zbool.
  pose proof (ev_ok _ _ _ H2) as [[_ _ Hwr] _].
  destruct (Hwr h w2 Hw2) as (_ & Hp & _ & _ & Hsz). specialize (Hsz Hd2). fold (temp c2 h) in Hsz.
  eapply wp_mono; [apply (Commit_holds h w2); done|].
  intros r c3 H3. destruct r as [p|e]; [|by apply wp_trivial].
  destruct (H3 p eq_refl) as (Hh & w3 & Hw3 & Hd3). rewrite Ht2, Ho2, Ho in Hh.
  unfold Abort. wp_step. eapply writer_some; [done|]. rewrite Hd3. wp_step. by intros q [= <-].
Qed.

(** A page that is held is served, if nothing fails, and rows and files stay. *)
Lemma OpenPage_holds o data c :
  holds_page c o data -> faults c = [] ->
  wp (OpenPage (pwo_ObjectID o) (pwo_Index o) (pwo_ETag o) (pwo_ExpectedEpoch o))
    (fun r c' => r = Ok (Some data) /\ faults c' = [] /\ cfg c' = cfg c /\ db c' = db c /\ fs c' = fs c) c.
Proof.
  intros (row & Hrow & He & Hn & Hs & _ & Hf) Hfl. unfold OpenPage, getPage. wp_step. wp_step.
  apply wp_call_faults; [|done]. intros l Hl. specialize (Hl Hfl). subst l. do 3 wp_step. unfold sqlPage. cbn [db set_faults].
  rewrite Hrow. cbn [fmap option_fmap option_map pageOf ETag Epoch Size Path].
  rewrite He, Hn, bool_decide_true, Z.eqb_refl by done. cbn [negb orb]. wp_step.
  apply wp_call_faults; [|by intros ? ? []]. intros l2 Hl2. specialize (Hl2 eq_refl). subst l2. do 2 wp_step.
  cbn [fs set_faults]. rewrite Hf. wp_step. apply wp_call_faults.
  - intros l3 Hl3. specialize (Hl3 eq_refl). subst l3. rewrite Hs, Z.eqb_refl. cbn [negb].
    unfold requestTouch. do 3 wp_step. split_and!; [done|case_match; done..].
  - by intros ? ? [].
Qed.

(** C23: what [StorePage] stores is what [OpenPage] returns. However the source cuts
    its bytes into pieces, whatever fails and whatever the clock says, if
    [StorePage] reports success then the source had the announced size and opening
    the page of that object, index, ETag and epoch, when nothing fails, returns
    exactly the bytes of the source. *)
Theorem StorePage_OpenPage (buf : nat -> nat) (opts : PageWriteOptions) (size : Z) (src : Io.Reader)
    (c c1 : Cache) (page : Page) (cl : list Z) (Hok : cache_ok (fun _ _ => True) c)
    (Hstore : StorePage buf (mkPageWrite opts size (Some src)) c = (Ok page, c1)) :
  zlen (Io.content src) = size /\
  (OpenPage (pwo_ObjectID opts) (pwo_Index opts) (pwo_ETag opts) (pwo_ExpectedEpoch opts)
     (set_env [] cl c1)).1 = Ok (Some (Io.content src)).
Proof.
  destruct (wp_run _ _ _ _ _ (StorePage_holds buf (mkPageWrite opts size (Some src)) src c Hok eq_refl)
    Hstore page eq_refl) as [Hh Hz]. split; [done|].
  by apply (OpenPage_holds opts (Io.content src) (set_env [] cl c1)).
Qed.

Lemma StorePage_OpenPage_witness :
  exists page c1, StorePage (fun _ => 7%nat) demoWrite demoPut = (Ok page, c1) /\
    (OpenPage (ObjectKey "b" "k") 0 "e1" 0 (set_env [] [] c1)).1 = Ok (Some [x61; x62; x63]).
Proof.
  destruct (StorePage (fun _ => 7%nat) demoWrite demoPut) as [r c1] eqn:E.
  assert (Hr : exists page, r = Ok page).
  { assert (Hok : is_ok (StorePage (fun _ => 7%nat) demoWrite demoPut).1 = true) by (vm_compute; reflexivity).
    rewrite E in Hok. destruct r as [p|]; [by exists p|discriminate]. }
  destruct Hr as [page ->]. exists page, c1. split; [reflexivity|].
  refine (proj2 (StorePage_OpenPage (fun _ => 7%nat) demoOpts 3
    (Io.mkReader [[x61]; [x62; x63]] Io.EOF false) demoPut c1 page [] _ E)).
  apply (@cache_step_ok emptyCodec _ (emptyCache 100)).
  - exists (OpPutObject demoMeta), [], []. split; [exact I|reflexivity].
  - apply emptyCache_ok. int64_unfold; lia.
Defined.

(** ** Files left behind *)

Definition demoMeta2 : ObjectMetadata := mkObjectMetadata "b" "k" "e2" 1 8 ∅.
Definition demoWrite2 : PageWrite :=
  mkPageWrite (mkPageWriteOptions (ObjectKey "b" "k") 0 "e2" 0) 1
    (Some (Io.mkReader [[x64]] Io.EOF false)).

(** Storing a page over the row of another version leaves the file of that
    version behind: after the metadata of an object was replaced (a new ETag, no
    invalidation in between), a page of the new version stored, and the object
    deleted, no row is left and the counter is 0, but the file of the first version
    is still there and nothing refers to it. *)
Theorem replaced_version_leaks_file :
  let c2 := (@run emptyCodec (OpPutObject demoMeta2) demoCache).2 in
  let c3 := (@run emptyCodec (OpStorePage (fun _ => 7%nat) demoWrite2) c2).2 in
  let c4 := (@run emptyCodec (OpDeleteObject "b" "k") c3).2 in
  pages (db c4) = ∅ /\ cachedSize (mem c4) = 0 /\
  (path ← pathOf demoOpts; files (fs c4) !! path) = Some [x61; x62; x63].
Proof. vm_compute. split_and!; reflexivity. Qed.

(** ** Page sizes *)

Definition abcdef : bytes := [x61; x62; x63; x64; x65; x66].
Definition demoMetaBy (pageSize : Z) : ObjectMetadata := mkObjectMetadata "b" "k" "e1" 6 pageSize ∅.
Definition demoWriteBy3 : PageWrite :=
  mkPageWrite (mkPageWriteOptions (ObjectKey "b" "k") 1 "e1" 0) 3
    (Some (bytesReader (slice 3 6 abcdef))).

(** Pages of another page size stay servable. An object is stored with pages of
    3 bytes and its page 1 is cached; its metadata is put again, same ETag, with
    pages of 2 bytes (a peer whose page size differs asks for a page). The epoch
    does not change and the page is not dropped: page 1 is served with the bytes
    3-5 of the object instead of its bytes 2-3. *)
Theorem page_size_change_keeps_pages :
  let c1 := (@run emptyCodec (OpPutObject (demoMetaBy 3)) (emptyCache 100)).2 in
  let c2 := (@run emptyCodec (OpStorePage (fun _ => 7%nat) demoWriteBy3) c1).2 in
  let c3 := (@run emptyCodec (OpPutObject (demoMetaBy 2)) c2).2 in
  (ob_PageSize <$> (match (@GetObject emptyCodec "b" "k" c3).1 with Ok o => o | Err _ => None end)) = Some 2 /\
  (OpenPage (ObjectKey "b" "k") 1 "e1" 0 c3).1 = Ok (Some (slice 3 6 abcdef)) /\
  slice 3 6 abcdef <> slice 2 4 abcdef.
Proof. vm_compute. split_and!; [reflexivity..|discriminate]. Qed.
