(* ===== verification/CacheLive.v ===== *)
(** * The cache when nothing fails ([internal/cache/cache.go])

    The theorems of [CacheInv] and [CacheOps] hold whatever fails, and so they allow every
    operation to fail. Here no call that leaves the program fails, the object is the
    one the metadata describe and a page fits the limits: then opening a page, beginning,
    writing and committing one all succeed, a page that was committed is there to be opened,
    and it stays there whatever is done to the other pages. *)

From S2P Require Import Prelude GoStrings GoNet Sha256 PageFrame CachePath CacheDB CacheStore CacheLogic.
From S2P Require Import CacheInv CacheOps CacheTrips.

Section Calm.
Context (Good : PageWriteOptions -> bytes -> Prop) (obj : Object) (page : Z -> bytes).

Definition wopts (index : Z) : PageWriteOptions :=
  mkPageWriteOptions (ob_ID obj) index (ob_ETag obj) (ob_Epoch obj).

(** The page of this index is in the cache. *)
Definition stocked (c : Cache) (i : Z) : Prop := 0 <= i /\ holds_page c (wopts i) (page i).

(** The rows of the object are the ones of [obj]. *)
Definition current (d : DB) : Prop := exists row g,
  objects d !! ob_ID obj = Some row /\ o_etag row = ob_ETag obj /\ o_bucket row = ob_Bucket obj /\
  generations d !! ob_ID obj = Some g /\ g_epoch g = ob_Epoch obj.

Record calm (K : gset Z) (c : Cache) : Prop := {
  ca_faults : faults c = [];
  ca_current : current (db c);
  ca_fits : ob_PageSize obj <= maxSize (cfg c) <= int64_max;
  ca_bucket : 0 < maxSizeForBucket c (ob_Bucket obj) -> ob_PageSize obj <= maxSizeForBucket c (ob_Bucket obj);
  ca_int64 : maxSizeForBucket c (ob_Bucket obj) <= int64_max;
  ca_stock : forall i, i ∈ K -> stocked c i }.

(** What [calm] depends on. *)
Lemma calm_stock K K' c c' : calm K c -> faults c' = [] -> cfg c' = cfg c -> objects (db c') = objects (db c) ->
  generations (db c') = generations (db c) -> (forall i, i ∈ K' -> stocked c' i) -> calm K' c'.
Proof.
  intros [Hf Hcur Hfit Hb Hm _] Hf' Hc Ho Hg Hst. constructor; [done| |by rewrite Hc|..|done].
  - unfold current in *. by rewrite Ho, Hg.
  - unfold maxSizeForBucket in *. by rewrite Hc.
  - unfold maxSizeForBucket in *. by rewrite Hc.
Qed.

Lemma calm_same K c c' : calm K c -> faults c' = [] -> cfg c' = cfg c -> db c' = db c -> files (fs c') = files (fs c) -> calm K c'.
Proof.
  intros Hc Hf' Hcf Hd Hfl. apply (calm_stock K K c c'); [done..|by rewrite Hd|by rewrite Hd|].
  intros i Hi. unfold stocked, holds_page. rewrite Hd, Hfl. by apply (ca_stock _ _ Hc).
Qed.

Lemma wp_call_calm what (Q : result CacheError () -> Cache -> Prop) c :
  faults c = [] -> Q (Ok ()) c -> wp (call what) Q c.
Proof. intros Hf HQ. unfold wp, call, outcome, mbind, M_bind. by rewrite Hf. Qed.

Lemma wp_outcome_calm (Q : result CacheError (option fault) -> Cache -> Prop) c :
  faults c = [] -> Q (Ok None) c -> wp outcome Q c.
Proof. intros Hf HQ. unfold wp, outcome. by rewrite Hf. Qed.

Lemma checkCurrent_calm d : current d -> checkCurrent d (ob_ID obj) (ob_ETag obj) (ob_Epoch obj) = Ok (ob_Bucket obj).
Proof.
  intros (row & g & Ho & He & Hb & Hg & Hn). unfold checkCurrent, sqlCurrent. rewrite Ho, Hg. cbn.
  by rewrite Hn, He, Hb, Z.eqb_refl, bool_decide_true.
Qed.

(** What the invariant of the database says of the object. *)
Definition identified : Prop := is_object_id (ob_ID obj) /\ ob_ETag obj <> "" /\ 0 <= ob_Epoch obj.

Lemma current_ok c : cache_ok Good c -> current (db c) -> identified.
Proof.
  intros [[[Ho Hg _] _ _] _] (row & g & Hr & He & Hb & Hgr & Hn).
  destruct (Ho _ _ Hr) as (Hid & _ & _ & Het & _). destruct (Hg _ _ Hgr) as [_ Hz].
  rewrite He in Het. rewrite Hn in Hz. split_and!; [by eexists _, _|done|done].
Qed.

(** Then its identifier is not empty and its pages have paths inside the cache. *)
Lemma identified_path index : identified -> 0 <= index -> ob_ID obj <> "" /\
  exists path, pagePathForVersion (ob_ID obj) index (ob_ETag obj) (ob_Epoch obj) = Some path /\ Filepath.IsLocal path = true.
Proof.
  intros (Hid & _ & Hep) Hi. split.
  - destruct Hid as (b & k & ->). intros E. by apply (f_equal String.length) in E; rewrite length_ObjectKey in E.
  - exact (proj1 (pagePathForVersion_injective _ _ (ob_ETag obj) (ob_ETag obj) index index _ _ Hid Hid Hi Hi Hep Hep)).
Qed.

(** ** Opening a page *)

(** The pages other than the one of index [j] and the files other than [q] are the same. *)
Definition beside (j : Z) (q : string) (c c' : Cache) : Prop :=
  (forall i, i <> j -> pages (db c') !! (ob_ID obj, i) = pages (db c) !! (ob_ID obj, i)) /\
  (forall q', q' <> q -> files (fs c') !! q' = files (fs c) !! q').

(** What an operation on that page leaves alone. *)
Definition apart (j : Z) (q : string) (c c' : Cache) : Prop :=
  cfg c' = cfg c /\ objects (db c') = objects (db c) /\ generations (db c') = generations (db c) /\ beside j q c c'.

Lemma apart_refl j q c : apart j q c c.
Proof. by split_and!. Qed.

Lemma apart_trans j q c1 c2 c3 : apart j q c1 c2 -> apart j q c2 c3 -> apart j q c1 c3.
Proof.
  intros (? & ? & ? & P1 & F1) (? & ? & ? & P2 & F2). split_and!; [congruence..|].
  split; [intros i Hi; by rewrite P2, P1|intros q' Hq; by rewrite F2, F1].
Qed.

Lemma stocked_beside j q c c' i :
  beside j q c c' -> i <> j -> pathOf (wopts i) <> Some q -> stocked c i -> stocked c' i.
Proof.
  intros [Hp Hf] Hij Hq (Hi & row & Hrow & ? & ? & ? & Hpath & Hfile). split; [done|].
  exists row. cbn [wopts pwo_ObjectID pwo_Index] in *. rewrite Hp by done. split_and!; [done..|].
  rewrite Hf; [done|]. congruence.
Qed.

(** When nothing fails, [m] succeeds and changes nothing but the row of page [j], the file
    [q] and counters. *)
Definition mild (j : Z) (q : string) {A} (m : M A) : Prop := forall c, faults c = [] ->
  wp m (fun r c' => is_ok r = true /\ faults c' = [] /\ apart j q c c') c.

Section Mild.
Context (j : Z) (q : string).
Abbreviation mild := (mild j q).

Lemma mild_ret {A} (a : A) : mild (mret a).
Proof. intros c Hf. split_and!; [done..|apply apart_refl]. Qed.
Lemma mild_get : mild get.
Proof. intros c Hf. split_and!; [done..|apply apart_refl]. Qed.
Lemma mild_bind {A B} (m : M A) (f : A -> M B) : mild m -> (forall a, mild (f a)) -> mild (m ≫= f).
Proof.
  intros Hm Hg c Hf. wp_step. eapply wp_mono; [by apply Hm|]. intros [a|e] c1 (Hok & Hf1 & H1); [|done].
  eapply wp_mono; [by apply Hg|]. intros r c2 (Hok2 & Hf2 & H2). split_and!; [done..|]. by eapply apart_trans.
Qed.
Lemma mild_call what : mild (call what).
Proof. intros c Hf. apply wp_call_calm; [done|]. split_and!; [done..|apply apart_refl]. Qed.
Lemma mild_try {A} (m : M A) : mild m -> mild (try m).
Proof. intros Hm c Hf. wp_step. eapply wp_mono; [by apply Hm|]. by intros r c' (_ & ? & ?). Qed.
Lemma mild_when b m : mild m -> mild (when b m).
Proof. destruct b; [done|]. intros _. apply mild_ret. Qed.
Lemma mild_if {A} (b : bool) (m m' : M A) : mild m -> mild m' -> mild (if b then m else m').
Proof. by destruct b. Qed.
Lemma mild_modify f : (forall c, faults (f c) = faults c /\ cfg (f c) = cfg c /\ db (f c) = db c /\ fs (f c) = fs c) ->
  mild (modify f).
Proof.
  intros H c Hf. apply wp_modify. destruct (H c) as (-> & Hc & Hd & Hfs). split_and!; [done..|].
  unfold apart, beside. by rewrite Hc, Hd, Hfs.
Qed.
Lemma mild_removeFile what : mild (removeFile what q).
Proof.
  unfold removeFile. apply mild_bind; [apply mild_call|]. intros _ c Hf. wp_step.
  split_and!; [done..|]. split_and!; [done..|]. split; [done|]. intros q' Hq. cbn [fs set_fs files set_files]. by rewrite lookup_delete_ne.
Qed.
Lemma mild_deletePage : mild (deletePage (ob_ID obj) j).
Proof.
  unfold deletePage, sqlDeletePage. apply mild_bind; [apply mild_call|]. intros _ c Hf.
  wp_step. wp_step. wp_step. wp_step. wp_step. apply wp_call_calm; [exact Hf|]. wp_step. split_and!; [done..|].
  split_and!; [done..|]. split; [|done]. intros i Hi. cbn [db set_db pages]. rewrite lookup_delete_ne by congruence. done.
Qed.
Lemma mild_deletePageIfCurrent p : ObjectID p = ob_ID obj -> Index p = j -> mild (deletePageIfCurrent p).
Proof.
  intros Hid Hj. unfold deletePageIfCurrent. apply mild_bind; [apply mild_call|]. intros _ c Hf. do 2 wp_step.
  unfold sqlDeletePageIfCurrent. rewrite Hid, Hj.
  destruct (pages (db c) !! (ob_ID obj, j)) as [r|]; [destruct (_ && _)|];
    wp_step; wp_step; wp_step; (apply wp_call_calm; [exact Hf|]); wp_step; (split_and!; [done..|]); [|by unfold apart, beside..].
  split_and!; [done..|]. split; [|done]. intros i Hi. cbn [db set_db pages]. rewrite lookup_delete_ne by congruence. done.
Qed.
End Mild.

Ltac mild_step :=
  lazymatch goal with
  | |- mild _ _ (mret _) => apply mild_ret
  | |- mild _ _ (removeFile _ _) => apply mild_removeFile
  | |- mild _ _ (deletePage _ _) => apply mild_deletePage
  | |- mild _ _ (deletePageIfCurrent _) => by apply mild_deletePageIfCurrent
  | |- mild _ _ (mbind _ _) => apply mild_bind; [|intros ?]
  | |- mild _ _ get => apply mild_get
  | |- mild _ _ (call _) => apply mild_call
  | |- mild _ _ (try _) => apply mild_try
  | |- mild _ _ (when _ _) => apply mild_when
  | |- mild _ _ (if _ then _ else _) => apply mild_if
  | |- mild _ _ (match ?o with _ => _ end) => destruct o
  | |- mild _ _ (modify _) => apply mild_modify; intros ?; cbv zeta; repeat case_match; done
  end.

Lemma mild_OpenPage c index : faults c = [] ->
  wp (OpenPage (ob_ID obj) index (ob_ETag obj) (ob_Epoch obj))
    (fun r c' => is_ok r = true /\ faults c' = [] /\
       match pages (db c) !! (ob_ID obj, index) with Some row => apart index (p_path row) c c' | None => c' = c end) c.
Proof.
  intros Hf. unfold OpenPage, getPage. wp_step. wp_step. apply wp_call_calm; [done|]. do 3 wp_step. unfold sqlPage.
  destruct (pages (db c) !! (ob_ID obj, index)) as [row|]; cbn [fmap option_fmap option_map]; [|wp_step; by split_and!].
  revert Hf. revert c. cbn [pageOf ETag Epoch Size Path fst snd].
  match goal with |- forall c, faults c = [] -> wp ?m _ c => change (mild index (p_path row) m) end.
  unfold pageBucket_, pageBucket, adjustCacheSize, requestMetricsRefresh, requestTouch.
  repeat mild_step.
Qed.

(** Paths of different pages differ. *)
Lemma paths_apart i j etag epoch q : identified -> 0 <= i -> 0 <= j -> 0 <= epoch -> i <> j ->
  pagePathForVersion (ob_ID obj) j etag epoch = Some q -> pathOf (wopts i) <> Some q.
Proof.
  intros (Hid & _ & Hep) Hi Hj He Hij Hq Hp. unfold pathOf, wopts in Hp. cbn in Hp. rewrite <- Hq in Hp.
  by apply (pagePathForVersion_injective _ _ _ _ _ _ _ _ Hid Hid Hi Hj Hep He) in Hp as (_ & ? & _).
Qed.

(** A page in stock is found. *)
Lemma OpenPage_stocked K c index : calm K c -> index ∈ K ->
  wp (OpenPage (ob_ID obj) index (ob_ETag obj) (ob_Epoch obj)) (fun r c' => r = Ok (Some (page index)) /\ calm K c') c.
Proof.
  intros Hc Hin. destruct (ca_stock _ _ Hc index Hin) as [_ Hh].
  eapply wp_mono; [apply (OpenPage_holds (wopts index) (page index) c Hh), (ca_faults _ _ Hc)|].
  intros r c' (-> & Hf' & Hcf & Hd & Hfs). split; [done|]. by apply (calm_same K c); [..|rewrite Hfs].
Qed.

(** Opening a page succeeds: with its content or without one; the pages in stock stay. *)
Lemma OpenPage_calm K c index : identified -> cache_ok Good c -> calm K c -> 0 <= index ->
  wp (OpenPage (ob_ID obj) index (ob_ETag obj) (ob_Epoch obj)) (fun r c' => is_ok r = true /\ calm K c' /\
    (index ∈ K -> r = Ok (Some (page index)))) c.
Proof.
  intros Hid Hok Hc Hi. pose proof (ca_faults _ _ Hc) as Hf.
  destruct (decide (index ∈ K)) as [Hin|Hout].
  - eapply wp_mono; [by apply OpenPage_stocked|]. by intros r c' [-> ?].
  - eapply wp_mono; [by apply (mild_OpenPage c index)|]. intros r c' (Hr & Hf' & Hrow). split_and!; [done| |done].
    destruct (pages (db c) !! (ob_ID obj, index)) as [row|] eqn:E; [|by subst c'].
    destruct Hrow as (H1 & H2 & H3 & Hb). apply (calm_stock K K c); [done..|].
    intros i HiK. assert (i <> index) by congruence. pose proof (ca_stock _ _ Hc i HiK) as Hst.
    destruct (ok_pages _ (so_db _ _ _ (proj1 Hok)) _ _ E) as (_ & _ & Hep & _ & _ & Hpath).
    apply (stocked_beside index (p_path row) c); [done..| |done]. by eapply paths_apart; [..|exact Hpath]; [|apply Hst|..].
Qed.

(** A page that was found is in stock. *)
Lemma OpenPage_finds K c index : identified -> cache_ok Good c -> calm K c -> 0 <= index ->
  wp (OpenPage (ob_ID obj) index (ob_ETag obj) (ob_Epoch obj))
    (fun r c' => r = Ok (Some (page index)) -> calm ({[index]} ∪ K) c') c.
Proof.
  intros Hid Hok Hc Hi. unfold wp.
  destruct (OpenPage (ob_ID obj) index (ob_ETag obj) (ob_Epoch obj) c) as [r c'] eqn:E. intros Hr. cbn in Hr. subst r.
  pose proof (wp_run _ _ _ _ _ (OpenPage_post _ index _ _ c) E _ eq_refl) as (row & Hrow & He & Hn & Hz & Hfile & _).
  destruct (ok_pages _ (so_db _ _ _ (proj1 Hok)) _ _ Hrow) as (_ & _ & _ & _ & _ & Hpath). cbn in Hpath.
  assert (Hst : stocked c index).
  { split; [done|]. exists row. split_and!; try done. unfold pathOf, wopts. cbn. by rewrite <- Hpath, He, Hn. }
  assert (Hc1 : calm ({[index]} ∪ K) c).
  { apply (calm_stock K _ c); [done|apply (ca_faults _ _ Hc)|done..|].
    intros i [->%elem_of_singleton|Hin]%elem_of_union; [done|by apply (ca_stock _ _ Hc)]. }
  by destruct (wp_run _ _ _ _ _ (OpenPage_calm _ c index Hid Hok Hc1 Hi) E) as (_ & ? & _).
Qed.

(** ** Writing a page *)

(** A page writer of the object with what was written to it. *)
Definition mine (c : Cache) (h index : Z) (t : bytes) : Prop := exists w,
  writers (fs c) !! h = Some w /\ options w = wopts index /\ pw_bucket w = ob_Bucket obj /\ done_ w = false /\
  pathOf (wopts index) = Some (finalPath w) /\ pw_size w = zlen t /\ temp c h = t.

Lemma BeginPageWrite_calm K c index : identified -> calm K c -> 0 <= index ->
  wp (BeginPageWrite (wopts index)) (fun r c' => exists h, r = Ok h /\ calm K c' /\ mine c' h index []) c.
Proof.
  intros Hok Hc Hi. pose proof (ca_faults _ _ Hc) as Hf. pose proof (ca_current _ _ Hc) as Hcur.
  destruct (identified_path index Hok Hi) as (Hne & path & Hpath & _). destruct Hok as (_ & Het & _).
  unfold BeginPageWrite, validatePageCommit, pageBucket. cbn [pwo_ObjectID pwo_Index pwo_ETag pwo_ExpectedEpoch wopts].
  rewrite (bool_decide_false _ Hne), (bool_decide_false _ Het), (proj2 (Z.ltb_ge _ _)) by done.
  wp_step. wp_step. apply wp_call_calm; [exact Hf|]. wp_step. wp_step.
  rewrite (checkCurrent_calm _ Hcur). cbn [liftCommit]. do 3 wp_step.
  wp_step. wp_step. apply wp_call_calm; [exact Hf|]. do 3 wp_step.
  rewrite Hpath. cbn [of_option]. wp_step. wp_step. wp_step. apply wp_call_calm; [exact Hf|].
  wp_step. apply wp_call_calm; [exact Hf|]. do 5 wp_step.
  eexists. split; [reflexivity|]. split; [by apply (calm_same K c)|].
  destruct Hcur as (row & g & Hr & _ & Hb & _). rewrite Hr. cbn [from_option].
  eexists. cbn [fs set_fs writers]. rewrite lookup_insert_eq. split_and!; [done..|].
  unfold temp. cbn. by rewrite lookup_insert_eq.
Qed.

Lemma Write_calm K c h index t chunk : calm K c -> mine c h index t ->
  zlen (t ++ chunk) <= ob_PageSize obj ->
  wp (Write h chunk) (fun r c' => r = Ok (length chunk) /\ calm K c' /\ mine c' h index (t ++ chunk)) c.
Proof.
  intros Hc (w & Hw & Ho & Hb & Hd & Hp & Hs & Ht) Hlen. pose proof (ca_faults _ _ Hc) as Hf.
  pose proof (ca_fits _ _ Hc) as [Hfit Hmax]. pose proof (ca_bucket _ _ Hc) as Hbk. pose proof (ca_int64 _ _ Hc) as Hbm.
  rewrite zlen_app in Hlen. pose proof (zlen_nonneg t). pose proof (zlen_nonneg chunk).
  unfold Write. wp_step. eapply writer_some; [done|]. do 2 wp_step. rewrite Hd, Hs, Hb.
  unfold sub64. rewrite wrap64_id by (int64_unfold; lia). rewrite gtb_false by lia.
  set (max := maxSizeForBucket c (ob_Bucket obj)) in *. cbv zeta.
  assert (Hfits : (max >? 0) && (zlen chunk >? wrap64 (max - zlen t)) = false).
  { destruct (max >? 0) eqn:E; [|done]. cbn [andb]. rewrite Z.gtb_ltb in E. zbool.
    rewrite wrap64_id by (int64_unfold; lia). apply gtb_false. lia. }
  rewrite Hfits. wp_step. apply wp_outcome_calm; [done|]. cbv zeta. unfold appendTemp, set_writerM. do 5 wp_step.
  split; [done|]. split; [by apply (calm_same K c)|]. eexists. split; [apply lookup_insert_eq|].
  cbn [options pw_bucket done_ finalPath pw_size]. split_and!; [done..| |].
  - rewrite zlen_app. unfold add64. rewrite wrap64_id by (int64_unfold; lia). done.
  - unfold temp in *. cbn [fs set_fs set_temps set_writer temps]. by rewrite lookup_insert_eq, Ht.
Qed.

(** ** Committing it *)

Lemma putPageIfCurrent_calm c index size path : identified -> calm ∅ c -> 0 <= index -> 0 <= size ->
  pathOf (wopts index) = Some path ->
  wp (putPageIfCurrent (mkPage (ob_ID obj) index (ob_ETag obj) (ob_Epoch obj) size path) (ob_Epoch obj))
    (fun r c' => is_ok r = true /\ calm ∅ c' /\ beside index path c c') c.
Proof.
  intros Hok Hc Hi Hsz Hpath. pose proof (ca_faults _ _ Hc) as Hf. pose proof (ca_current _ _ Hc) as Hcur.
  destruct (identified_path index Hok Hi) as (Hne & path' & Hpath' & Hloc). destruct Hok as (_ & Het & Hep).
  unfold pathOf, wopts in Hpath. cbn in Hpath. rewrite Hpath' in Hpath. injection Hpath as ->.
  unfold putPageIfCurrent, validatePage. cbn [ObjectID Index ETag Epoch Size Path].
  rewrite (bool_decide_false _ Hne), (bool_decide_false _ Het), Hloc, !(proj2 (Z.ltb_ge _ _)) by done.
  rewrite bool_decide_false by (by intros ->). cbn [negb].
  do 2 wp_step. wp_step. apply wp_call_calm; [exact Hf|]. wp_step. apply wp_call_calm; [exact Hf|].
  do 2 wp_step. rewrite (checkCurrent_calm _ Hcur). cbn [liftCommit]. do 2 wp_step.
  wp_step. apply wp_call_calm; [exact Hf|]. do 2 wp_step. wp_step. apply wp_call_calm; [exact Hf|].
  unfold putPageTx. cbn [ObjectID ETag]. rewrite (checkCurrent_calm _ Hcur). cbv zeta.
  unfold sqlUpsertPage. cbn [ObjectID Index]. pose proof Hcur as (row & g & Hr & _). rewrite Hr.
  cbn [liftCommit]. do 2 wp_step. wp_step. apply wp_call_calm; [exact Hf|]. do 3 wp_step.
  split_and!; [done|by apply (calm_stock ∅ ∅ c); [..|set_solver]|]. split; [|done].
  intros i Hij. cbn [db set_db pages]. rewrite lookup_insert_ne by congruence. done.
Qed.

(** A commit adds the page to the stock. *)
Lemma Commit_calm K c h index : identified -> calm K c -> mine c h index (page index) -> 0 <= index ->
  wp (Commit h) (fun r c' => is_ok r = true /\ calm ({[index]} ∪ K) c') c.
Proof.
  intros Hid Hc Hm Hi. pose proof (ca_faults _ _ Hc) as Hf. assert (Hc0 : calm ∅ c) by (by apply (calm_stock K ∅ c); [..|set_solver]).
  pose proof Hm as (w & Hw & Ho & Hb & Hd & Hp & Hs & Ht).
  assert (Hok : wp (Commit h) (fun r c' => is_ok r = true /\ calm ∅ c' /\ beside index (finalPath w) c c') c).
  { unfold Commit. wp_step. eapply writer_some; [done|]. rewrite Hd. cbv zeta.
    wp_step. apply wp_orElse, wp_call_calm; [exact Hf|].
    wp_step. apply wp_orElse, wp_call_calm; [exact Hf|].
    wp_step. unfold set_writerM. wp_step. wp_step. apply wp_orElse. unfold renameTemp. wp_step.
    apply wp_call_calm; [exact Hf|]. wp_step. rewrite Ho. pose proof Hp as Hp'. unfold pathOf in Hp'. rewrite Hp'.
    wp_step. apply wp_ret. cbv zeta. wp_step. apply wp_orElse. eapply wp_mono.
    - apply (putPageIfCurrent_calm _ index (pw_size w)); [done|by apply (calm_stock ∅ ∅ c); [..|set_solver]|done| |exact Hp].
      rewrite Hs. apply zlen_nonneg.
    - intros [[b prev]|e] c1 (Hr & Hc1 & [Hb1 Hb2]); [|done].
      assert (Hbs : beside index (finalPath w) c c1).
      { split; [exact Hb1|]. intros q' Hq. rewrite Hb2 by done. cbn [fs set_fs files]. rewrite lookup_insert_ne by done. done. }
      unfold adjustCacheSize, requestMetricsRefresh, requestEviction.
      wp_go. split_and!; [done| |].
      + apply (calm_stock ∅ ∅ c1); [done|..|set_solver]; repeat case_match; try done; apply (ca_faults _ _ Hc1).
      + destruct Hbs as [Hp1 Hf1]. split; [intros i Hij; rewrite <- (Hp1 i Hij)|intros q' Hq; rewrite <- (Hf1 q' Hq)];
          repeat case_match; done. }
  rewrite <- Ho in Hp.
  eapply wp_mono; [apply wp_and; [exact Hok|apply (Commit_holds h w); [done..|by rewrite Ht]]|].
  intros [pg|e] c' [(Hr & Hc' & Hbs) Hh]; [|done]. split; [done|]. destruct (Hh pg eq_refl) as [H1 _]. rewrite Ho, Ht in H1.
  apply (calm_stock ∅ _ c'); [done|apply (ca_faults _ _ Hc')|done..|].
  intros i [->%elem_of_singleton|Hin]%elem_of_union; [by split|].
  destruct (decide (i = index)) as [->|Hne]; [by split|]. pose proof (ca_stock _ _ Hc i Hin) as Hst.
  apply (stocked_beside index (finalPath w) c); [done..| |done]. rewrite Ho in Hp.
  eapply paths_apart; [done|apply Hst|done|apply Hid|done|exact Hp].
Qed.

Lemma Abort_calm K c h : calm K c -> wp (Abort h) (fun _ c' => calm K c') c.
Proof.
  intros Hc. pose proof (ca_faults _ _ Hc) as Hf. unfold Abort. wp_step.
  unfold writer. wp_step. wp_step. wp_step; [|done]. wp_step; [by wp_step|].
  unfold set_writerM. wp_step. wp_step. wp_step. wp_step. apply wp_call_calm; [exact Hf|].
  wp_step. wp_step. unfold removeTemp. wp_step. apply wp_call_calm; [exact Hf|]. wp_step. wp_step.
  by apply (calm_same K c).
Qed.

End Calm.

(** ** Metadata *)

Section Metadata.
Context `{HeaderCodec} (Good : PageWriteOptions -> bytes -> Prop).

Lemma GetObject_calm bucket key c : faults c = [] -> (GetObject bucket key c).2 = c.
Proof.
  intros Hf. unfold GetObject, mbind at 1, M_bind at 1, call, outcome. unfold mbind, M_bind. rewrite Hf. cbn.
  destruct (objects (db c) !! ObjectKey bucket key) as [o|]; [|done]. unfold unmarshalHeaders.
  case_bool_decide; [done|]. by destruct (json_Unmarshal (o_headers_json o)).
Qed.

Lemma wp_timestamp_calm c (Q : result CacheError Z -> Cache -> Prop) :
  (forall now c', faults c' = faults c -> cfg c' = cfg c -> db c' = db c -> fs c' = fs c -> Q (Ok now) c') ->
  wp timestamp Q c.
Proof.
  intros HQ. unfold timestamp, timeNow. unfold wp, mbind, M_bind. cbn. destruct (clock c) as [|t rest]; cbn; by apply HQ.
Qed.

(** Metadata are stored, and then they are current. *)
Lemma PutObject_calm meta c :
  faults c = [] -> cache_ok Good c -> encodable (om_Headers meta) ->
  om_Bucket meta <> "" -> om_Key meta <> "" -> om_ETag meta <> "" -> 0 <= om_Size meta -> 0 < om_PageSize meta ->
  wp (PutObject meta) (fun r c' => exists epoch, r = Ok (objectOf meta epoch) /\ faults c' = [] /\ cfg c' = cfg c /\
    current (objectOf meta epoch) (db c')) c.
Proof.
  intros Hf Hok He Hb Hk Ht Hs Hp. unfold PutObject.
  rewrite !bool_decide_false, (proj2 (Z.ltb_ge _ _)), (proj2 (Z.leb_gt _ _)) by done. cbv zeta. wp_step.
  apply wp_timestamp_calm. intros now c1 Hf1 Hc1 Hd1 _. unfold ensureGeneration. wp_step. wp_step.
  apply wp_timestamp_calm. intros now2 c2 Hf2 Hc2 Hd2 _. wp_step. apply wp_call_calm; [congruence|]. wp_step.
  set (id := ObjectKey (om_Bucket meta) (om_Key meta)). set (c3 := set_db _ c2).
  assert (Hf3 : faults c3 = []) by (cbn; congruence).
  assert (Hg : exists g, generations (db c3) !! id = Some g /\ objects (db c3) = objects (db c)).
  { cbn [c3 db set_db]. rewrite Hd2, Hd1. unfold sqlEnsureGeneration. destruct (generations (db c) !! id) as [g|] eqn:E; [eauto|].
    cbn. rewrite lookup_insert_eq. eauto. }
  destruct Hg as (g & Hg & Ho). unfold generation. wp_step. wp_step. apply wp_call_calm; [done|]. do 2 wp_step.
  rewrite Hg. cbn [fmap option_fmap option_map of_option]. do 2 wp_step. apply wp_call_calm; [done|]. do 3 wp_step.
  unfold sqlUpsertObject. rewrite bool_decide_false; cbn [of_option o_bucket o_key].
  2:{ intros (i & o & Hi & Hne & Hbo & Hko). rewrite Ho in Hi.
      destruct (ok_objects _ (so_db _ _ _ (proj1 Hok)) _ _ Hi) as [Hkey _]. apply Hne. rewrite Hkey, Hbo, Hko. done. }
  wp_step. wp_step. wp_step. wp_step. set (c4 := set_db _ c3).
  assert (Hh : holds_object c4 meta (g_epoch g)) by (eexists; cbn [c4 db set_db objects]; apply lookup_insert_eq).
  pose proof (GetObject_calm (om_Bucket meta) (om_Key meta) c4 Hf3) as Hsame.
  destruct (GetObject_holds meta (g_epoch g) c4 He Hh) as (_ & Hr & _). specialize (Hr Hf3).
  unfold wp at 1. destruct (GetObject _ _ c4) as [r c'] eqn:E. cbn in Hsame, Hr. subst r c'. cbn [of_option]. wp_step.
  exists (g_epoch g). split_and!; [done|done|cbn; congruence|].
  eexists _, g. split; [apply lookup_insert_eq|]. by split_and!.
Qed.
End Metadata.
