(* ===== verification/CacheRows.v ===== *)
(** * Object rows ([internal/cache/cache.go])

    Only [PutObject] makes an object row: a property of the rows it stores (here
    [Row]) holds of every row, and of every object [GetObject] returns, whatever
    the operations that read, write and invalidate pages do and whatever fails. *)

From S2P Require Import Prelude GoStrings GoNet Sha256 PageFrame CachePath CacheDB CacheStore CacheLogic.

Section Rows.
Context (Row : ObjectRow -> Prop).

Definition rows_ok (d : DB) : Prop := map_Forall (fun _ o => Row o) (objects d).

(** An operation that keeps the property, whatever fails. *)
Definition preserves {A} (m : M A) : Prop :=
  forall c, rows_ok (db c) -> wp m (fun _ c' => rows_ok (db c')) c.

Lemma preserves_ret {A} (a : A) : preserves (mret a).
Proof. by intros c H. Qed.

Lemma preserves_fail {A} e : preserves (fail (A := A) e).
Proof. by intros c H. Qed.

Lemma preserves_bind {A B} (m : M A) (f : A -> M B) :
  preserves m -> (forall a, preserves (f a)) -> preserves (m ≫= f).
Proof.
  intros Hm Hf c H. apply wp_bind. eapply wp_mono; [by apply Hm|]. intros [a|e] c' Hc'; [by apply Hf|done].
Qed.

(** As [preserves_bind], with the state that was read. *)
Lemma preserves_get {B} (f : Cache -> M B) :
  (forall c, rows_ok (db c) -> preserves (f c)) -> preserves (get ≫= f).
Proof. intros Hf c H. apply wp_bind, wp_get. by apply Hf. Qed.

Lemma preserves_when b m : preserves m -> preserves (when b m).
Proof. destruct b; [done|]. intros _. apply preserves_ret. Qed.

Lemma preserves_try {A} (m : M A) : preserves m -> preserves (try m).
Proof. intros Hm c H. by apply wp_try, Hm. Qed.

Lemma preserves_of_option {A} e (o : option A) : preserves (of_option e o).
Proof. destruct o; [apply preserves_ret|apply preserves_fail]. Qed.

Lemma preserves_call what : preserves (call what).
Proof. intros c H. by wp_go. Qed.

Lemma preserves_call_ : preserves call_.
Proof. intros c H. by wp_go. Qed.

Lemma preserves_outcome : preserves outcome.
Proof. intros c H. by wp_go. Qed.

Lemma preserves_timestamp : preserves timestamp.
Proof. intros c H. by wp_go. Qed.

(** A change of files, counters or channels. *)
Lemma preserves_modify f : (forall c, db (f c) = db c) -> preserves (modify f).
Proof. intros Hf c H. apply wp_modify. by rewrite Hf. Qed.

Lemma preserves_set d : rows_ok d -> preserves (modify (set_db d)).
Proof. intros Hd c _. by apply wp_modify. Qed.

Lemma preserves_liftCommit {A} (r : result CommitError A) : preserves (liftCommit r).
Proof. destruct r; [apply preserves_ret|apply preserves_fail]. Qed.

(** A result that is inspected. *)
Lemma preserves_commit {A B} (r : result CommitError A) (f : A -> M B) :
  (forall a, r = Ok a -> preserves (f a)) -> preserves (liftCommit r ≫= f).
Proof. intros Hf c H. apply wp_bind. destruct r; [by apply Hf|done]. Qed.

Lemma preserves_option {A B} e (o : option A) (f : A -> M B) :
  (forall a, o = Some a -> preserves (f a)) -> preserves (of_option e o ≫= f).
Proof. intros Hf c H. apply wp_bind. destruct o; [by apply Hf|done]. Qed.

Lemma preserves_orElse {A B} (m : M A) (k : M B) : preserves m -> preserves k -> preserves (orElse m k).
Proof.
  intros Hm Hk. apply preserves_bind; [by apply preserves_try|]. intros [a|e]; [apply preserves_ret|].
  apply preserves_bind; [by apply preserves_try|]. intros _. apply preserves_fail.
Qed.

Create HintDb rows discriminated.
#[local] Hint Resolve preserves_call preserves_call_ preserves_outcome preserves_timestamp
  preserves_of_option preserves_liftCommit : rows.

(** ** What the statements do to the rows *)

Lemma rows_delete id d : rows_ok d -> rows_ok (sqlDeleteObject id d).
Proof. intros H. by apply map_Forall_delete. Qed.

Lemma rows_ensure id now d : rows_ok d -> rows_ok (sqlEnsureGeneration id now d).
Proof. unfold sqlEnsureGeneration. by case_match. Qed.

Lemma rows_advance id e now d : rows_ok d -> rows_ok (sqlAdvanceGeneration id e now d).
Proof. unfold sqlAdvanceGeneration. by repeat case_match. Qed.

Lemma rows_invalidate id m now d : rows_ok d -> rows_ok (invalidateTx id m now d).2.
Proof.
  intros H. unfold invalidateTx. cbv zeta. cbn [snd].
  destruct (nextEpochOf _ _ >? _), (shouldDeleteObject _ _); auto using rows_advance, rows_delete, rows_ensure.
Qed.

Lemma rows_invalidate_at id m now d e b ps d' :
  invalidateTx id m now d = (e, b, ps, d') -> rows_ok d -> rows_ok d'.
Proof. intros E H. pose proof (rows_invalidate id m now d H) as H'. by rewrite E in H'. Qed.

Lemma rows_put_page p e now d b n d' : putPageTx p e now d = Ok (b, n, d') -> rows_ok d -> rows_ok d'.
Proof.
  unfold putPageTx, sqlUpsertPage. destruct (checkCurrent _ _ _ _); [|done].
  destruct (objects d !! ObjectID p); [|done]. by intros [= <- <- <-].
Qed.

Lemma rows_delete_page id i d b d' : sqlDeletePage id i d = (b, d') -> rows_ok d -> rows_ok d'.
Proof. unfold sqlDeletePage. by intros [= <- <-]. Qed.

Lemma rows_delete_current p d b d' : sqlDeletePageIfCurrent p d = (b, d') -> rows_ok d -> rows_ok d'.
Proof. unfold sqlDeletePageIfCurrent. repeat case_match; by intros [= <- <-]. Qed.

Lemma rows_upsert id o d d' : sqlUpsertObject id o d = Some d' -> Row o -> rows_ok d -> rows_ok d'.
Proof.
  unfold sqlUpsertObject. case_bool_decide; [done|]. intros [= <-] Ho Hd. by apply map_Forall_insert_2.
Qed.


(** The rows after a statement. *)
Ltac rows_after H :=
  first [ apply (rows_invalidate_at _ _ _ _ _ _ _ _ H) | apply (rows_put_page _ _ _ _ _ _ _ H)
        | apply (rows_delete_page _ _ _ _ _ H) | apply (rows_delete_current _ _ _ _ H)
        | apply (rows_upsert _ _ _ _ H); [solve [auto]|] ]; assumption.

Ltac rows_step :=
  lazymatch goal with
  | |- forall _, _ => intros ?
  | |- preserves (get ≫= _) => apply preserves_get; intros ? ?
  | |- preserves (liftCommit _ ≫= _) => apply preserves_commit; intros ? ?
  | |- preserves (of_option _ _ ≫= _) => apply preserves_option; intros ? ?
  | |- preserves (_ ≫= _) => apply preserves_bind
  | |- preserves (mret _) => apply preserves_ret
  | |- preserves (fail _) => apply preserves_fail
  | |- preserves (when _ _) => apply preserves_when
  | |- preserves (try _) => apply preserves_try
  | |- preserves (orElse _ _) => apply preserves_orElse
  | |- preserves (if ?b then _ else _) => destruct b eqn:?
  | |- preserves (match ?o with _ => _ end) => first [is_var o; destruct o | destruct o eqn:?]
  | |- preserves (let _ := _ in _) => cbv zeta
  | |- preserves (modify (set_db _)) => apply preserves_set
  | |- preserves (modify _) => apply preserves_modify
  | |- preserves _ => solve [auto with rows]
  | |- db _ = db _ => first [reflexivity | by case_match]
  | H : _ = (_, ?d) |- rows_ok ?d => solve [rows_after H]
  | H : _ = Ok (_, ?d) |- rows_ok ?d => solve [rows_after H]
  | H : _ = Some ?d |- rows_ok ?d => solve [rows_after H]
  end.
Ltac rows_go := repeat (rows_step; cbv beta iota).

(** ** Operations *)

Lemma preserves_adjustCacheSize b n : preserves (adjustCacheSize b n).
Proof. unfold adjustCacheSize. rows_go. Qed.

Lemma preserves_requestMetricsRefresh : preserves requestMetricsRefresh.
Proof. unfold requestMetricsRefresh. rows_go. Qed.

Lemma preserves_removeFile w p : preserves (removeFile w p).
Proof. unfold removeFile. rows_go. Qed.

Lemma preserves_removeFiles w ps : preserves (removeFiles w ps).
Proof.
  induction ps; cbn [removeFiles]; [apply preserves_ret|].
  apply preserves_bind; [apply preserves_removeFile|done].
Qed.

#[local] Hint Resolve preserves_adjustCacheSize preserves_requestMetricsRefresh preserves_removeFile
  preserves_removeFiles : rows.

Lemma preserves_InvalidateObject b k m : preserves (InvalidateObject b k m).
Proof. unfold InvalidateObject. rows_go. Qed.

Lemma preserves_pageBucket_ id : preserves (pageBucket_ id).
Proof. unfold pageBucket_, pageBucket. rows_go. Qed.

Lemma preserves_deletePage id i : preserves (deletePage id i).
Proof. unfold deletePage. rows_go. Qed.

Lemma preserves_deletePageIfCurrent p : preserves (deletePageIfCurrent p).
Proof. unfold deletePageIfCurrent. rows_go. Qed.

#[local] Hint Resolve preserves_pageBucket_ preserves_deletePage preserves_deletePageIfCurrent : rows.

Lemma preserves_OpenPage id i etag e : preserves (OpenPage id i etag e).
Proof. unfold OpenPage, getPage, requestTouch. rows_go. Qed.

Lemma preserves_BeginPageWrite o : preserves (BeginPageWrite o).
Proof. unfold BeginPageWrite, validatePageCommit, pageBucket. rows_go. Qed.

Lemma preserves_Write h data : preserves (Write h data).
Proof. unfold Write, writer, appendTemp, set_writerM. rows_go. Qed.

Lemma preserves_Abort h : preserves (Abort h).
Proof.
  unfold Abort, writer, set_writerM, removeTemp. rows_go.
  repeat case_match; [apply preserves_ret|apply preserves_fail..].
Qed.

#[local] Hint Resolve preserves_Abort : rows.

Lemma preserves_Commit h : preserves (Commit h).
Proof.
  unfold Commit, writer, set_writerM, removeTemp, renameTemp, putPageIfCurrent, validatePage, removeFile_,
    requestEviction. rows_go.
Qed.

(** What [GetObject] returns describes a row. *)
Definition describes (obj : Object) (o : ObjectRow) : Prop :=
  ob_ETag obj = o_etag o /\ ob_Size obj = o_size o /\ ob_PageSize obj = o_page_size o /\ ob_Epoch obj = o_epoch o.

Lemma GetObject_row `{HeaderCodec} b k c :
  rows_ok (db c) ->
  wp (GetObject b k) (fun r c' => db c' = db c /\ forall obj, r = Ok (Some obj) ->
    ob_ID obj = ObjectKey b k /\ exists o, objects (db c) !! ObjectKey b k = Some o /\ Row o /\ describes obj o) c.
Proof.
  intros Hc. unfold GetObject, unmarshalHeaders. wp_go; try (split; [done|]; intros ? [=]).
  all: cbn in *; subst; cbn; split; [done|]; eexists; split_and!; [done|by eapply Hc|done..].
Qed.

Lemma preserves_GetObject `{HeaderCodec} b k : preserves (GetObject b k).
Proof. unfold GetObject, unmarshalHeaders. rows_go. Qed.

#[local] Hint Resolve preserves_GetObject : rows.

Lemma preserves_ensureGeneration id : preserves (ensureGeneration id).
Proof.
  unfold ensureGeneration. rows_step; [rows_go|]. intros now. rows_step; [rows_go|]. intros _ c H.
  apply wp_modify. by apply rows_ensure.
Qed.

#[local] Hint Resolve preserves_ensureGeneration : rows.

Lemma PutObject_row `{HeaderCodec} meta :
  (forall epoch now, Row (mkObjectRow (om_Bucket meta) (om_Key meta) (om_ETag meta) (om_Size meta)
     (om_PageSize meta) (marshalHeaders (om_Headers meta)) epoch now)) ->
  preserves (PutObject meta).
Proof.
  intros Hrow. unfold PutObject, generation. rows_go.
Qed.

End Rows.

(** ** The transaction of an invalidation *)

Lemma removeFiles_db w ps c (Q : result CacheError () -> Cache -> Prop) :
  (forall r c', db c' = db c -> Q r c') -> wp (removeFiles w ps) Q c.
Proof.
  revert c. induction ps as [|p ps IH]; intros c HQ; cbn [removeFiles]; [by apply wp_ret, HQ|].
  unfold removeFile. wp_go; [|by apply HQ]. apply IH. intros r c' Hc'. by apply HQ.
Qed.

(** An invalidation that reports an epoch committed its transaction. *)
Lemma InvalidateObject_tx b k m c :
  wp (InvalidateObject b k m) (fun r c' => forall e, r = Ok e -> b <> "" /\ k <> "" /\
    exists now, e = (invalidateTx (ObjectKey b k) m now (db c)).1.1.1 /\
      db c' = (invalidateTx (ObjectKey b k) m now (db c)).2) c.
Proof.
  unfold InvalidateObject. case_bool_decide; [by wp_go|]. case_bool_decide; [by wp_go|].
  destruct (m <? 0); [by wp_go|]. cbv zeta. do 11 (wp_step; cbv beta iota; try done).
  set (id := ObjectKey b k). set (c1 := set_faults _ (set_faults _ _)).
  change (db c) with (db c1). clearbody c1. wp_step. cbv beta iota zeta.
  destruct (invalidateTx id m t (db c1)) as [[[e bkt] ps] d] eqn:E.
  assert (Hend : forall c2 e', db c2 = d -> e' = e ->
    b <> "" /\ k <> "" /\ exists now, e' = (invalidateTx id m now (db c1)).1.1.1 /\
      db c2 = (invalidateTx id m now (db c1)).2).
  { intros c2 e' Hd ->. split_and!; [done..|]. exists t. rewrite E. done. }
  wp_go; try done; apply removeFiles_db; (intros [[]|] c2 Hc2; [|done]); cbn in Hc2;
    unfold adjustCacheSize, requestMetricsRefresh; wp_go; intros e' [= <-]; (apply Hend; [|done]);
    try done; cbv beta; do 2 case_match; done.
Qed.

(** An invalidation leaves the rows of other objects as they were. *)
Definition untouched (id : string) (d d' : DB) : Prop :=
  forall id', id' <> id -> objects d' !! id' = objects d !! id' /\ forall i, pages d' !! (id', i) = pages d !! (id', i).

Lemma invalidateTx_untouched id m now d : untouched id d (invalidateTx id m now d).2.
Proof.
  intros id' Hne. unfold invalidateTx. cbv zeta. cbn [snd].
  assert (Ho : forall e d1, objects (sqlAdvanceGeneration id e now d1) = objects d1 /\ pages (sqlAdvanceGeneration id e now d1) = pages d1)
    by (intros e d1; unfold sqlAdvanceGeneration; by case_match).
  assert (He : objects (sqlEnsureGeneration id now d) = objects d /\ pages (sqlEnsureGeneration id now d) = pages d)
    by (unfold sqlEnsureGeneration; by case_match). destruct He as [He1 He2].
  assert (Hd : forall d1, objects (sqlDeleteObject id d1) !! id' = objects d1 !! id' /\
    forall i, pages (sqlDeleteObject id d1) !! (id', i) = pages d1 !! (id', i)).
  { intros d1. unfold sqlDeleteObject. cbn. split; [by rewrite lookup_delete_ne|]. intros i.
    destruct (pages d1 !! (id', i)) as [r|] eqn:E.
    - by apply map_lookup_filter_Some_2.
    - by apply map_lookup_filter_None_2; left. }
  destruct (_ >? _); [rewrite (proj1 (Ho _ _)), (proj2 (Ho _ _))|]; (destruct (shouldDeleteObject _ _);
    [rewrite (proj1 (Hd _)); split; [by rewrite He1|intros i; rewrite (proj2 (Hd _)); by rewrite He2]|by rewrite He1, He2]).
Qed.

Lemma InvalidateObject_untouched b k m c :
  wp (InvalidateObject b k m) (fun _ c' => untouched (ObjectKey b k) (db c) (db c')) c.
Proof.
  assert (Hrefl : forall d, untouched (ObjectKey b k) d d) by (by intros d id' _).
  unfold InvalidateObject. case_bool_decide; [by wp_go|]. case_bool_decide; [by wp_go|].
  destruct (m <? 0); [by wp_go|]. cbv zeta. do 11 (wp_step; cbv beta iota; try done).
  set (id := ObjectKey b k). set (c1 := set_faults _ (set_faults _ _)).
  change (db c) with (db c1). clearbody c1. wp_step. cbv beta iota zeta.
  pose proof (invalidateTx_untouched id m t (db c1)) as Htx.
  destruct (invalidateTx id m t (db c1)) as [[[e bkt] ps] d] eqn:E. cbn [snd] in Htx.
  wp_go; try done; apply removeFiles_db; (intros [[]|] c2 Hc2; cbn in Hc2; [|by rewrite Hc2]);
    unfold adjustCacheSize, requestMetricsRefresh; wp_go; cbv beta; repeat case_match; cbn; by rewrite ?Hc2.
Qed.

(** The object is gone and its epoch is past the one before. *)
Lemma invalidateTx_forgets id now d :
  db_ok d ->
  let d' := (invalidateTx id 0 now d).2 in
  objects d' !! id = None /\ (forall i, pages d' !! (id, i) = None) /\
  let cur := from_option g_epoch 0 (generations d !! id) in
  (0 <= cur < int64_max -> (invalidateTx id 0 now d).1.1.1 = cur + 1 /\
     exists g, generations d' !! id = Some g /\ g_epoch g = cur + 1).
Proof.
  intros Hd. unfold invalidateTx. cbv zeta. cbn [snd].
  set (d1 := sqlEnsureGeneration id now d).
  assert (Ho : objects d1 = objects d /\ pages d1 = pages d) by (unfold d1, sqlEnsureGeneration; by case_match).
  set (cur := from_option g_epoch 0 (generations d1 !! id)). destruct Ho as [Ho Hp].
  set (d2 := if shouldDeleteObject (objects d1 !! id) 0 then sqlDeleteObject id d1 else d1).
  assert (Hd2 : objects d2 !! id = None /\ (forall i, pages d2 !! (id, i) = None) /\ generations d2 = generations d1).
  { unfold d2, shouldDeleteObject. cbn [Z.gtb Z.compare]. destruct (objects d1 !! id) as [o|] eqn:Eo; cbn.
    - rewrite lookup_delete_eq. split_and!; [done| |done]. intros i. apply map_lookup_filter_None_2. right.
      intros x _ Hx. by cbn in Hx.
    - split_and!; [done| |done]. intros i. destruct (pages d1 !! (id, i)) as [r|] eqn:Er; [|done].
      rewrite Hp in Er. destruct (ok_pages _ Hd _ _ Er) as ((o & Hobj) & _). cbn in Hobj. congruence. }
  destruct Hd2 as (H1 & H2 & H3).
  assert (Hadv : forall e, objects (sqlAdvanceGeneration id e now d2) = objects d2 /\
    pages (sqlAdvanceGeneration id e now d2) = pages d2)
    by (intros e; unfold sqlAdvanceGeneration; by repeat case_match).
  split_and!.
  - case_match; [rewrite (proj1 (Hadv _))|]; done.
  - intros i. case_match; [rewrite (proj2 (Hadv _))|]; done.
  - intros Hcur. assert (exists g, generations d1 !! id = Some g /\
      g_epoch g = from_option g_epoch 0 (generations d !! id)) as (g & Hg1 & Hge).
    { unfold d1, sqlEnsureGeneration. destruct (generations d !! id) as [g|] eqn:Eg; cbn; [eauto|].
      eexists. by rewrite lookup_insert_eq. }
    unfold cur. rewrite Hg1. cbn [from_option fst]. unfold nextEpochOf. cbn [Z.gtb Z.compare].
    rewrite Hge, add64_id by (int64_unfold; lia). rewrite gtb_true by lia. split; [done|].
    unfold sqlAdvanceGeneration. rewrite H3, Hg1. eexists. cbn. by rewrite lookup_insert_eq.
Qed.

(** After a peer's invalidation the epoch is at least the announced one, and an
    object that is left is newer. *)
Lemma invalidateTx_told id e now d :
  0 < e ->
  let d' := (invalidateTx id e now d).2 in
  (exists g, generations d' !! id = Some g /\ e <= g_epoch g) /\ forall o, objects d' !! id = Some o -> e < o_epoch o.
Proof.
  intros He. unfold invalidateTx. cbv zeta. cbn [snd]. set (d1 := sqlEnsureGeneration id now d).
  assert (exists g, generations d1 !! id = Some g) as [g Hg].
  { unfold d1, sqlEnsureGeneration. destruct (generations d !! id) as [g|] eqn:Eg; [by exists g|].
    eexists. cbn. by rewrite lookup_insert_eq. }
  rewrite Hg. cbn [from_option].
  set (d2 := if shouldDeleteObject (objects d1 !! id) e then sqlDeleteObject id d1 else d1).
  assert (Hd2 : generations d2 = generations d1 /\ forall o, objects d2 !! id = Some o -> e < o_epoch o).
  { unfold d2, shouldDeleteObject. rewrite gtb_true by lia. destruct (objects d1 !! id) as [o|] eqn:Eo.
    - destruct (Z.leb_spec (o_epoch o) e); (split; [done|]); intros o'; [cbn; by rewrite lookup_delete_eq|rewrite Eo; by intros [= <-]].
    - split; [done|]. by rewrite Eo. }
  destruct Hd2 as [Hg2 Ho2]. unfold nextEpochOf. rewrite (gtb_true e) by lia.
  assert (Hadv : forall n, objects (sqlAdvanceGeneration id n now d2) = objects d2 /\
    exists g', generations (sqlAdvanceGeneration id n now d2) !! id = Some g' /\ g_epoch g' = n).
  { intros n. unfold sqlAdvanceGeneration. rewrite Hg2, Hg. split; [done|]. eexists. cbn. by rewrite lookup_insert_eq. }
  destruct (Z.ltb_spec (g_epoch g) e).
  - rewrite gtb_true by lia. destruct (Hadv e) as [-> (g' & Hg' & Hge)]. split; [|done]. exists g'. split; [done|lia].
  - assert (g_epoch g >? g_epoch g = false) as -> by (rewrite Z.gtb_ltb; apply Z.ltb_irrefl).
    split; [|done]. exists g. by rewrite Hg2.
Qed.

(** ** The object a [PutObject] returns *)

Lemma wp_any {A} (m : M A) c : wp m (fun _ _ => True) c.
Proof. done. Qed.

Lemma PutObject_returns `{HeaderCodec} meta c :
  wp (PutObject meta) (fun r _ => forall obj, r = Ok obj ->
    ob_ID obj = ObjectKey (om_Bucket meta) (om_Key meta) /\ ob_ETag obj = om_ETag meta /\
    ob_Size obj = om_Size meta /\ ob_PageSize obj = om_PageSize meta) c.
Proof.
  unfold PutObject. do 5 (destruct (_ : bool); [by wp_step|]). cbv zeta.
  wp_step. wp_step. wp_step. eapply wp_mono; [apply wp_any|]. intros [[]|e] c1 _; [|done].
  wp_step. eapply wp_mono; [apply wp_any|]. intros [epoch|e] c2 _; [|done].
  wp_step. wp_step; [|done]. do 3 wp_step. wp_step; [|done].
  unfold sqlUpsertObject in *. case_bool_decide; [done|]. simplify_eq.
  wp_step. wp_step. wp_step. eapply wp_mono; [apply (GetObject_row (fun _ => True)); by intros ???|].
  intros [o|e] c3 [_ Ho]; [|done]. destruct o as [o|]; [|by cbn; wp_step]. cbn [of_option]. wp_step.
  intros obj [= <-]. destruct (Ho o eq_refl) as (Hid & row & Hrow & _ & He & Hs & Hp & _).
  cbn [db set_db objects] in Hrow. rewrite lookup_insert_eq in Hrow. injection Hrow as <-. done.
Qed.
