(* ===== verification/CacheSchema.v ===== *)
(** * The schema of the database ([internal/cache/cache.go])

    A database file may be new, current, or left by an earlier version of the program:
    then [object_generations] lacks [updated_at] or [pages] lacks [epoch], and the
    table of generations may be missing. [init] creates and alters what is
    missing, statement by statement and without a transaction. Here the tables are as
    the file stores them; [stored] is the database they stand for, the one
    [CacheStore] works on. *)

From stdpp Require Import relations.
From S2P Require Import Prelude GoStrings GoNet PageFrame CachePath CacheDB CacheStore.

(** ** Tables as they are stored *)

(** The columns of [pages] before it had an epoch. *)
Record OldPageRow := mkOldPageRow {
  op_etag : string; op_size : Z; op_path : string; op_created_at : Z; op_last_accessed_at : Z }.

Inductive Table (Old New : Type) := Missing | Outdated (rows : Old) | Current (rows : New).
Arguments Missing {Old New}.
Arguments Outdated {Old New} rows.
Arguments Current {Old New} rows.

Definition GenTable : Type := Table (gmap string Z) (gmap string GenRow).
Definition PageTable : Type := Table (gmap (string * Z) OldPageRow) (gmap (string * Z) PageRow).

Record Disk := mkDisk { d_generations : GenTable; d_objects : option (gmap string ObjectRow); d_pages : PageTable }.

(** [PRAGMA table_info]: the names of the columns. *)
Definition generationColumns (t : GenTable) : list string :=
  match t with
  | Missing => []
  | Outdated _ => ["id"; "epoch"]
  | Current _ => ["id"; "epoch"; "updated_at"]
  end.

Definition pageColumns (t : PageTable) : list string :=
  match t with
  | Missing => []
  | Outdated _ => ["object_id"; "page_index"; "etag"; "size"; "path"; "created_at"; "last_accessed_at"]
  | Current _ => ["object_id"; "page_index"; "etag"; "epoch"; "size"; "path"; "created_at"; "last_accessed_at"]
  end.

(** [CREATE TABLE IF NOT EXISTS] *)
Definition create {Old K V} `{Countable K} (t : Table Old (gmap K V)) : Table Old (gmap K V) :=
  match t with Missing => Current ∅ | _ => t end.

Definition createGenerations (d : Disk) : Disk := mkDisk (create (d_generations d)) (d_objects d) (d_pages d).
Definition createObjects (d : Disk) : Disk := mkDisk (d_generations d) (Some (default ∅ (d_objects d))) (d_pages d).
Definition createPages (d : Disk) : Disk := mkDisk (d_generations d) (d_objects d) (create (d_pages d)).

(** [ADD COLUMN ... NOT NULL DEFAULT 0]: every row gets 0. *)
Definition withUpdatedAt (epoch : Z) : GenRow := mkGenRow epoch 0.
Definition withEpoch (r : OldPageRow) : PageRow :=
  mkPageRow (op_etag r) 0 (op_size r) (op_path r) (op_created_at r) (op_last_accessed_at r).

Definition addUpdatedAt (d : Disk) : Disk :=
  mkDisk match d_generations d with Outdated g => Current (withUpdatedAt <$> g) | t => t end (d_objects d) (d_pages d).
Definition addEpoch (d : Disk) : Disk :=
  mkDisk (d_generations d) (d_objects d) match d_pages d with Outdated p => Current (withEpoch <$> p) | t => t end.

(** [INSERT OR IGNORE INTO object_generations SELECT ... FROM objects] *)
Definition insertGenerations (d : Disk) : Disk :=
  mkDisk match d_generations d with
         | Current g => Current (g ∪ ((fun o => mkGenRow (o_epoch o) (o_updated_at o)) <$> default ∅ (d_objects d)))
         | t => t
         end (d_objects d) (d_pages d).

(** ** Initialisation *)

(** Statements on the file, each with its outcome from the list. *)
Definition Store : Type := Disk * list (option fault).
Definition D (A : Type) : Type := Store -> result CacheError A * Store.

#[export] Instance D_ret : MRet D := fun A a s => (Ok a, s).
#[export] Instance D_bind : MBind D := fun A B f m s =>
  match m s with (Ok a, s') => f a s' | (Err e, s') => (Err e, s') end.

(** A statement that fails changes nothing. *)
Definition exec (what : string) (f : Disk -> Disk) : D () := fun s =>
  match s.2 with
  | [] => (Ok (), (f s.1, []))
  | None :: rest => (Ok (), (f s.1, rest))
  | Some e :: rest => (Err (Failure (what +:+ text e)), (s.1, rest))
  end.

Definition query {A} (f : Disk -> A) : D A := fun s => (Ok (f s.1), s).

(** The statements of [init] in their order: three pragmas, the tables, four indexes. *)
Definition statements : list (Disk -> Disk) :=
  [id; id; id; createGenerations; createObjects; createPages; id; id; id; id].

Fixpoint runStatements (l : list (Disk -> Disk)) : D () :=
  match l with [] => mret () | f :: l => exec "init cache db: " f;; runStatements l end.

(** [table_info] with its two calls (the query and the iteration), and the loop over the
    columns. *)
Definition hasColumn (what : string) (columns : Disk -> list string) (name : string) : D bool :=
  exec what id;; names ← query columns; exec what id;; mret (existsb (String.eqb name) names).

Definition ensureObjectGenerationUpdatedAtColumn : D () :=
  hasUpdatedAt ← hasColumn "inspect object generations schema: " (fun d => generationColumns (d_generations d)) "updated_at";
  if (hasUpdatedAt : bool) then mret () else exec "migrate object generations schema: " addUpdatedAt.

Definition ensurePageEpochColumn : D () :=
  hasEpoch ← hasColumn "inspect pages schema: " (fun d => pageColumns (d_pages d)) "epoch";
  if (hasEpoch : bool) then mret () else exec "migrate pages schema: " addEpoch.

Definition initDisk : D () :=
  runStatements statements;; ensureObjectGenerationUpdatedAtColumn;; ensurePageEpochColumn;;
  exec "init object generations: " insertGenerations.

(** ** What the file stands for *)

Definition rowsOf {Old K V} `{Countable K} (upgrade : Old -> gmap K V) (t : Table Old (gmap K V)) : gmap K V :=
  match t with Missing => ∅ | Outdated rows => upgrade rows | Current rows => rows end.

Definition stored (d : Disk) : DB :=
  mkDB (rowsOf (fmap withUpdatedAt) (d_generations d)) (default ∅ (d_objects d)) (rowsOf (fmap withEpoch) (d_pages d)).

Definition currentDisk (x : DB) : Disk := mkDisk (Current (generations x)) (Some (objects x)) (Current (pages x)).

Lemma stored_currentDisk x : stored (currentDisk x) = x.
Proof. by destruct x. Qed.

(** A step that does not change what the file stands for. *)
Definition conservative (f : Disk -> Disk) : Prop := forall d, stored (f d) = stored d.

Lemma statements_conservative : Forall conservative statements.
Proof. repeat constructor; intros [[] [] []]; done. Qed.

Lemma addUpdatedAt_conservative : conservative addUpdatedAt.
Proof. by intros [[] o p]. Qed.

Lemma addEpoch_conservative : conservative addEpoch.
Proof. by intros [g o []]. Qed.

(** [conserves m P Q]: whatever fails, [m] keeps what the file stands for, and establishes [Q]
    of the file when it succeeds. *)
Definition conserves {A} (m : D A) (P : Disk -> Prop) (Q : A -> Disk -> Prop) : Prop :=
  forall d fl, P d -> let '(r, (d', _)) := m (d, fl) in
    stored d' = stored d /\ match r with Ok a => Q a d' | Err _ => True end.

Lemma conserves_bind {A B} (m : D A) (f : A -> D B) P Q R :
  conserves m P Q -> (forall a, conserves (f a) (Q a) R) -> conserves (m ≫= f) P R.
Proof.
  intros Hm Hf d fl HP. specialize (Hm d fl HP). unfold mbind, D_bind.
  destruct (m (d, fl)) as [[a|e] [d1 fl1]]; [|done]. destruct Hm as [H1 HQ].
  specialize (Hf a d1 fl1 HQ). destruct (f a (d1, fl1)) as [r [d2 fl2]]. by rewrite <- H1.
Qed.

Lemma conserves_exec what f (P Q : Disk -> Prop) :
  conservative f -> (forall d, P d -> Q (f d)) -> conserves (exec what f) P (fun _ => Q).
Proof. intros Hc Hq d [|[e|] fl] HP; cbn; auto. Qed.

Lemma conserves_ret {A} (a : A) (P : Disk -> Prop) (Q : A -> Disk -> Prop) :
  (forall d, P d -> Q a d) -> conserves (mret a) P Q.
Proof. intros H d fl HP. cbn. auto. Qed.

Lemma conserves_hasColumn what columns name (P : Disk -> Prop) :
  conserves (hasColumn what columns name) P (fun b d => P d /\ b = existsb (String.eqb name) (columns d)).
Proof.
  intros d fl HP. unfold hasColumn, mbind, D_bind, exec, query.
  destruct fl as [|[e|] [|[e'|] fl]]; cbn; auto.
Qed.

(** The tables exist. *)
Definition created (d : Disk) : Prop := d_generations d <> Missing /\ is_Some (d_objects d) /\ d_pages d <> Missing.
Definition hasGenerations (d : Disk) : Prop := created d /\ exists g, d_generations d = Current g.
Definition upToDate (d : Disk) : Prop := exists x, d = currentDisk x.

Lemma conserves_runStatements : conserves (runStatements statements) (fun _ => True) (fun _ => created).
Proof.
  assert (H : forall l (P : Disk -> Prop), Forall conservative l ->
    conserves (runStatements l) P (fun _ d' => exists d, P d /\ d' = foldl (fun d f => f d) d l)).
  { intros l. induction l as [|f l IH]; intros P Hl; cbn [runStatements].
    - apply conserves_ret. intros d HP. by exists d.
    - inversion Hl as [|? ? Hf Hl']. eapply conserves_bind.
      + apply (conserves_exec _ f P (fun d' => exists d, P d /\ d' = f d)); eauto.
      + intros u d fl (d0 & HP & ->). specialize (IH (fun d => d = f d0) Hl' (f d0) fl eq_refl).
        destruct (runStatements l (f d0, fl)) as [[[]|e] [d' fl']]; [|done]. destruct IH as [H1 (d1 & -> & ->)].
        split; [done|]. by exists d0. }
  intros d fl _. specialize (H statements (fun _ => True) statements_conservative d fl I).
  destruct (runStatements statements (d, fl)) as [[u|e] [d' fl']]; [|done]. destruct H as [H1 (d0 & _ & ->)].
  split; [done|]. destruct d0 as [[] [] []]; repeat split; try done; eauto.
Qed.

Lemma conserves_generations : conserves ensureObjectGenerationUpdatedAtColumn created (fun _ => hasGenerations).
Proof.
  eapply conserves_bind; [apply conserves_hasColumn|]. intros [].
  - apply conserves_ret. intros d [Hc E]. split; [done|]. destruct (d_generations d); [done..|eauto].
  - apply conserves_exec; [apply addUpdatedAt_conservative|]. intros [g o p] [(Hg & Ho & Hp) E]. cbn in *.
    destruct g; [done| |done]. repeat split; cbn; eauto.
Qed.

Lemma conserves_pages : conserves ensurePageEpochColumn hasGenerations (fun _ => upToDate).
Proof.
  eapply conserves_bind; [apply conserves_hasColumn|]. intros [].
  - apply conserves_ret. intros [g o p] [[(Hg & [ob Ho] & Hp) [gs E]] Ec]. cbn in *. subst g o.
    destruct p as [| |ps]; [done..|]. by exists (mkDB gs ob ps).
  - apply conserves_exec; [apply addEpoch_conservative|]. intros [g o p] [[(Hg & [ob Ho] & Hp) [gs E]] Ec].
    cbn in *. subst g o. destruct p as [|ps|]; [done| |done]. by exists (mkDB gs ob (withEpoch <$> ps)).
Qed.

(** One attempt to initialise the file: either it fails and the file still stands for the
    same database, or it is current with the generations added. *)
Lemma initDisk_cases d fl :
  let '(r, (d', _)) := initDisk (d, fl) in
  match r with
  | Ok _ => d' = currentDisk (sqlInitGenerations (stored d))
  | Err _ => stored d' = stored d
  end.
Proof.
  unfold initDisk. set (last := exec _ insertGenerations).
  assert (Hk : conserves (runStatements statements;; ensureObjectGenerationUpdatedAtColumn;; ensurePageEpochColumn)
                 (fun _ => True) (fun _ => upToDate)).
  { eapply conserves_bind; [apply conserves_runStatements|intros u]. eapply conserves_bind; [apply conserves_generations|intros v].
    apply conserves_pages. }
  specialize (Hk d fl I). unfold mbind, D_bind in *.
  destruct (runStatements statements (d, fl)) as [[[]|e] s1]; [|by destruct s1; destruct Hk].
  destruct (ensureObjectGenerationUpdatedAtColumn s1) as [[[]|e] s2]; [|by destruct s2; destruct Hk].
  destruct (ensurePageEpochColumn s2) as [[[]|e] [d3 fl3]]; [|by destruct Hk].
  destruct Hk as [Hs [x ->]]. rewrite stored_currentDisk in Hs. subst x.
  unfold last, exec. destruct fl3 as [|[f|] fl3]; cbn; [done|apply stored_currentDisk|done].
Qed.

(** An attempt, with any failures. *)
Definition attempt (d d' : Disk) : Prop := exists fl r fl', initDisk (d, fl) = (r, (d', fl')).

Lemma sqlInitGenerations_idemp x : sqlInitGenerations (sqlInitGenerations x) = sqlInitGenerations x.
Proof.
  destruct x as [g o p]. unfold sqlInitGenerations. cbn. f_equal.
  rewrite <- (assoc_L (∪)). by rewrite (idemp_L (∪)).
Qed.

Lemma attempts_stored d d' : rtc attempt d d' -> sqlInitGenerations (stored d') = sqlInitGenerations (stored d).
Proof.
  induction 1 as [|d d1 d' (fl & r & fl' & E) _ IH]; [done|]. rewrite IH.
  pose proof (initDisk_cases d fl) as Hc. rewrite E in Hc. destruct r.
  - rewrite Hc, stored_currentDisk. apply sqlInitGenerations_idemp.
  - by rewrite Hc.
Qed.

(** No call fails: the attempt ends. *)
Lemma initDisk_total d : exists d', initDisk (d, []) = (Ok (), (d', [])).
Proof. destruct d as [[] [] []]; cbn; eauto. Qed.

(** ** The model on current files *)

(** [m] on the file of a cache does what [n] does on the cache, failures included. *)
Definition agrees {A} (m : D A) (n : M A) : Prop := forall c, exists r c',
  n c = (r, c') /\ m (currentDisk (db c), faults c) = (r, (currentDisk (db c'), faults c')).

Lemma agrees_bind {A B} (m : D A) (n : M A) (f : A -> D B) (g : A -> M B) :
  agrees m n -> (forall a, agrees (f a) (g a)) -> agrees (m ≫= f) (n ≫= g).
Proof.
  intros Hm Hf c. destruct (Hm c) as (r & c1 & E1 & E2). unfold mbind, D_bind, M_bind. rewrite E1, E2.
  destruct r as [a|e]; [apply Hf|eauto].
Qed.

Lemma agrees_exec what f g : (forall x, f (currentDisk x) = currentDisk (g x)) ->
  agrees (exec what f) (call what;; modify (fun c => set_db (g (db c)) c)).
Proof.
  intros Hf c. unfold exec, call, outcome, mbind, M_bind. cbn.
  destruct (faults c) as [|[e|] fl] eqn:E; cbn; rewrite ?Hf; eexists _, _; (split; [done|]); cbn; rewrite ?E; done.
Qed.

Lemma agrees_call what f : (forall x, f (currentDisk x) = currentDisk x) -> agrees (exec what f) (call what).
Proof.
  intros Hf c. unfold exec, call, outcome, mbind, M_bind. cbn.
  destruct (faults c) as [|[e|] fl] eqn:E; cbn; rewrite ?Hf; eexists _, _; (split; [done|]); cbn; rewrite ?E; done.
Qed.

Lemma agrees_ret {A} (a : A) : agrees (mret a) (mret a).
Proof. intros c. by eexists _, _. Qed.

Lemma agrees_ensure what columns name (add : D ()) : (forall x, existsb (String.eqb name) (columns (currentDisk x)) = true) ->
  agrees (b ← hasColumn what columns name; if (b : bool) then mret () else add) (calls 2 what).
Proof.
  intros Hn c. unfold hasColumn, exec, query, calls, call, outcome, mbind, D_bind, M_bind. cbn.
  destruct (faults c) as [|[e|] [|[e'|] fl]] eqn:E; cbn; rewrite ?E, ?Hn; cbn;
    eexists _, _; (split; [done|]); cbn; rewrite ?E; done.
Qed.

(** On a current file [initDisk] is the [init] of [CacheStore]. *)
Lemma init_agrees : agrees initDisk init.
Proof.
  unfold initDisk, init. apply agrees_bind; [|intros []].
  { unfold statements. cbn [runStatements calls].
    do 10 (apply agrees_bind; [by apply agrees_call|intros []]). apply agrees_ret. }
  apply agrees_bind; [by apply agrees_ensure|intros []]. apply agrees_bind; [by apply agrees_ensure|intros []].
  by apply agrees_exec.
Qed.

(** C26: the migration of an old database can be interrupted anywhere and repeated: after
    any number of attempts, each failing at any statement or succeeding, an attempt that
    succeeds leaves the current schema with exactly the rows the file had before the
    first one, the new columns 0 and a generation for every object; an attempt in
    which no call fails succeeds; and on a current file an attempt is the [init]
    that the cache model runs, whatever fails. *)
Theorem migration_restartable d d1 :
  rtc attempt d d1 ->
  (forall fl d2 fl', initDisk (d1, fl) = (Ok (), (d2, fl')) -> d2 = currentDisk (sqlInitGenerations (stored d))) /\
  (exists d2, initDisk (d1, []) = (Ok (), (d2, []))) /\
  forall c, exists r c', init c = (r, c') /\
    initDisk (currentDisk (db c), faults c) = (r, (currentDisk (db c'), faults c')).
Proof.
  intros Hr. split; [|split; [apply initDisk_total|apply init_agrees]].
  intros fl d2 fl' E. pose proof (initDisk_cases d1 fl) as Hc. rewrite E in Hc.
  by rewrite Hc, (attempts_stored _ _ Hr).
Qed.

(** A file of the first version whose migration stops after the first column was added. *)
Definition oldDisk : Disk :=
  mkDisk (Outdated {["id1" := 4]}) (Some {["id1" := mkObjectRow "b" "k" "e1" 3 4 "{}" 4 7]})
    (Outdated {[("id1", 0) := mkOldPageRow "e1" 3 "p" 5 6]}).

Definition stopped : list (option fault) := replicate 15 None ++ [Some (mkFault 0 "disk full")].

Lemma migration_restartable_witness :
  (initDisk (oldDisk, stopped)).1 = Err (Failure "migrate pages schema: disk full") /\
  exists d2, initDisk ((initDisk (oldDisk, stopped)).2.1, []) = (Ok (), (d2, [])) /\
    d2 = currentDisk (mkDB {["id1" := mkGenRow 4 0]} {["id1" := mkObjectRow "b" "k" "e1" 3 4 "{}" 4 7]}
                        {[("id1", 0) := mkPageRow "e1" 0 3 "p" 5 6]}).
Proof.
  split; [reflexivity|].
  destruct (migration_restartable oldDisk (initDisk (oldDisk, stopped)).2.1) as (H1 & (d2 & E) & _).
  - eapply rtc_once. eexists stopped, _, _. vm_compute. reflexivity.
  - exists d2. split; [exact E|]. rewrite (H1 [] d2 [] E). vm_compute. reflexivity.
Defined.
