(* ===== verification/ProxySpan.v ===== *)
(** * Cutting the requested span out of pages ([internal/proxy/proxy.go])

    A page holds more bytes than a range request asks for. [copyPageSpan] cuts the
    requested span out of a page that is read from the cache or from a peer,
    [pageSpanStream] cuts it out of the chunks of a page that is being fetched.
    Both write exactly the bytes of the span, whatever the pieces the page comes
    in, and a prefix of them when something fails on the way. *)

From S2P Require Import Prelude GoStrings Range PageFrame.

#[local] Open Scope go_scope.

(** ** Operations *)

(** The destination of the stream is the response writer, which the operations
    take and return. *)
Record pageSpanStream := mkPageSpanStream {
  pss_start : Z; pss_end : Z; pss_offset : Z; pss_written : Z; pss_pageIndex : Z }.

Definition newPageSpanStream (page : PageSpan) (pageSize : Z) : pageSpanStream :=
  mkPageSpanStream (ps_Start page -! ps_Index page *! pageSize)
    (ps_End page -! ps_Index page *! pageSize +! 1) 0 0 (ps_Index page).

Definition pageSpanStream_Write (s : pageSpanStream) (dst : Io.Writer) (data : bytes)
    : Z * option Io.error * pageSpanStream * Io.Writer :=
  let chunkStart := pss_offset s in
  let chunkEnd := pss_offset s +! zlen data in
  let s' := mkPageSpanStream (pss_start s) (pss_end s) chunkEnd (pss_written s) (pss_pageIndex s) in
  if (chunkEnd <=? pss_start s) || (chunkStart >=? pss_end s) then (zlen data, None, s', dst)
  else
    let overlapStart := maxInt64 chunkStart (pss_start s) in
    let overlapEnd := minInt64 chunkEnd (pss_end s) in
    let from := overlapStart -! chunkStart in
    let to := overlapEnd -! chunkStart in
    let '(n, err, dst') := Io.Write (slice from to data) dst in
    let n := Z.of_nat n in
    let s'' := mkPageSpanStream (pss_start s) (pss_end s) chunkEnd (pss_written s +! n)
                 (pss_pageIndex s) in
    match err with
    | Some e => (n, Some e, s'', dst')
    | None =>
        if negb (n =? to -! from) then (n, Some Io.ShortWrite, s'', dst')
        else (zlen data, None, s'', dst')
    end.

Inductive SpanError := InvalidSpan | PageTooShort (e : Io.error) | SpanIo (e : Io.error).

(** [io.Discard] *)
Definition Discard : Io.Writer := Io.mkWriter [] [].

(** Buffer sizes of the two copies are the [io] package's choice. *)
Definition copyPageSpan `{Io.IoReader R} (buf : nat -> nat) (dst : Io.Writer) (src : R) (page : PageSpan)
    (pageSize : Z) : Z * option SpanError * R * Io.Writer :=
  let start := ps_Start page -! ps_Index page *! pageSize in
  let end_ := ps_End page -! ps_Index page *! pageSize in
  if (start <? 0) || (end_ <? start) then (0, Some InvalidSpan, src, dst)
  else
    let '(err, src1) :=
      if start >? 0 then
        let '(_, err, src1, _) := Io.CopyN buf (Z.to_nat start) src Discard in (err, src1)
      else (None, src) in
    match err with
    | Some e => (0, Some (PageTooShort e), src1, dst)
    | None =>
        let '(n, err, src2, dst') := Io.CopyN buf (Z.to_nat (end_ -! start +! 1)) src1 dst in
        (Z.of_nat n, SpanIo <$> err, src2, dst')
    end.

(** ** Facts *)

(** A span inside the page it is a span of, without overflow. *)
Definition span_ok (page : PageSpan) (pageSize : Z) : Prop :=
  0 < pageSize /\ 0 <= ps_Index page /\ ps_Index page * pageSize <= ps_Start page <= ps_End page /\
  ps_End page < int64_max.

(** The bytes of the span in the content of its page. *)
Definition spanOf (page : PageSpan) (pageSize : Z) (content : bytes) : bytes :=
  slice (ps_Start page - ps_Index page * pageSize) (ps_End page - ps_Index page * pageSize + 1) content.

Lemma span_offsets page pageSize :
  span_ok page pageSize ->
  ps_Start page -! ps_Index page *! pageSize = ps_Start page - ps_Index page * pageSize /\
  ps_End page -! ps_Index page *! pageSize = ps_End page - ps_Index page * pageSize.
Proof.
  intros (? & ? & ? & ?). assert (0 <= ps_Index page * pageSize) by nia. int64_unfold.
  unfold mul64. rewrite (wrap64_id (ps_Index page * pageSize)) by (int64_unfold; lia).
  split; no_wrap; done.
Qed.

(** Feeding a chunk after [fed]: the part of the chunk that belongs to the span. *)
Lemma slice_feed {A} (a b : Z) (fed data : list A) :
  0 <= a <= b ->
  slice a b (fed ++ data) = slice a b fed ++
    (if (zlen fed + zlen data <=? a) || (zlen fed >=? b) then []
     else slice (Z.max (zlen fed) a - zlen fed) (Z.min (zlen fed + zlen data) b - zlen fed) data).
Proof.
  intros Hab. unfold slice, zlen. rewrite drop_app, take_app, length_drop. f_equal.
  destruct (Z.leb_spec (Z.of_nat (length fed) + Z.of_nat (length data)) a); cbn [orb].
  { rewrite (drop_ge data) by lia. by rewrite take_nil. }
  destruct (Z.geb_spec (Z.of_nat (length fed)) b).
  { replace (_ - _)%nat with 0%nat by lia. done. }
  replace (Z.to_nat (Z.max (Z.of_nat (length fed)) a - Z.of_nat (length fed)))
    with (Z.to_nat a - length fed)%nat by lia.
  destruct (Z.le_gt_cases (Z.of_nat (length fed) + Z.of_nat (length data)) b).
  - rewrite !take_ge; [done|rewrite length_drop; lia..].
  - f_equal. lia.
Qed.

(** [s] cuts its span out of the bytes [fed] so far, which are [fed'] after. *)
Definition stream_at (s : pageSpanStream) (page : PageSpan) (pageSize : Z) (fed : bytes) : Prop :=
  pss_start s = ps_Start page - ps_Index page * pageSize /\
  pss_end s = ps_End page - ps_Index page * pageSize + 1 /\
  pss_offset s = zlen fed /\ pss_written s = zlen (spanOf page pageSize fed).

Lemma newPageSpanStream_at page pageSize :
  span_ok page pageSize -> stream_at (newPageSpanStream page pageSize) page pageSize [].
Proof.
  intros Hok. destruct (span_offsets page pageSize Hok) as [Hs He]. destruct Hok as (? & ? & ? & ?).
  unfold stream_at, newPageSpanStream. cbn [pss_start pss_end pss_offset pss_written].
  rewrite Hs, He. split_and!; [done| |done|].
  - assert (0 <= ps_Index page * pageSize) by nia. int64_unfold. no_wrap. lia.
  - unfold spanOf, slice. by rewrite drop_nil, take_nil.
Qed.

(** What was written is a prefix of what was to be written. *)
Lemma prefix_take {A} n (l : list A) : take n l `prefix_of` l.
Proof. exists (drop n l). by rewrite take_drop. Qed.

(** One chunk: on success the stream is at the bytes fed so far and the writer has
    their part of the span; on an error it has a prefix of that part. *)
Lemma pageSpanStream_Write_spec s w page pageSize fed data n err s' w' :
  span_ok page pageSize -> stream_at s page pageSize fed -> zlen (fed ++ data) < int64_max ->
  pageSpanStream_Write s w data = (n, err, s', w') ->
  exists part, Io.out w' = Io.out w ++ part /\
    match err with
    | None => stream_at s' page pageSize (fed ++ data) /\
              spanOf page pageSize (fed ++ data) = spanOf page pageSize fed ++ part
    | Some _ => (spanOf page pageSize fed ++ part) `prefix_of` spanOf page pageSize (fed ++ data) /\
                pss_written s' = zlen (spanOf page pageSize fed ++ part)
    end.
Proof.
  intros (Hp & Hi & Hse & Hmax) (Hs & He & Ho & Hw) Hlen.
  assert (0 <= ps_Index page * pageSize) by nia.
  rewrite zlen_app in Hlen. pose proof (zlen_nonneg fed). pose proof (zlen_nonneg data).
  assert (Hadd : pss_offset s +! zlen data = zlen (fed ++ data)).
  { rewrite Ho, zlen_app. int64_unfold. no_wrap. lia. }
  unfold pageSpanStream_Write. rewrite Hadd, zlen_app, Ho, Hs, He.
  pose proof (slice_feed (ps_Start page - ps_Index page * pageSize)
    (ps_End page - ps_Index page * pageSize + 1) fed data ltac:(lia)) as Hf.
  fold (spanOf page pageSize (fed ++ data)) (spanOf page pageSize fed) in Hf.
  destruct (_ || _) eqn:Hout.
  { intros [= <- <- <- <-]. exists []. rewrite ?app_nil_r in Hf; rewrite !app_nil_r. split; [done|].
    split; [|done]. unfold stream_at. cbn [pss_start pss_end pss_offset pss_written].
    rewrite Hf. by rewrite <- zlen_app. }
  apply orb_false_iff in Hout as [Ho1 Ho2]. rewrite Z.geb_leb in Ho2. zbool.
  autorewrite with go_simpl. set (a := Z.max _ _) in *. set (b := Z.min _ _) in *.
  replace (a -! zlen fed) with (a - zlen fed) by (int64_unfold; no_wrap; lia).
  replace (b -! zlen fed) with (b - zlen fed) by (int64_unfold; no_wrap; lia).
  set (part := slice (a - zlen fed) (b - zlen fed) data) in *.
  assert (Hpl : zlen part = b - a) by (subst part; rewrite zlen_slice by lia; lia).
  destruct (Io.Write part w) as [[k werr] w1] eqn:HW. apply Io.Write_out in HW as [Hout Hk].
  assert (Hwr : pss_written s +! Z.of_nat k = zlen (spanOf page pageSize fed ++ take k part)).
  { assert (zlen (take k part) = Z.of_nat k) as Htk
      by (unfold zlen; rewrite length_take, Nat.min_l by done; done).
    rewrite zlen_app, Hw, Htk.
    assert (zlen (spanOf page pageSize fed) <= zlen fed).
    { unfold spanOf, slice, zlen. rewrite length_take, length_drop. lia. }
    pose proof (zlen_nonneg (spanOf page pageSize fed)). unfold zlen in Hpl at 1. int64_unfold. no_wrap. done. }
  destruct werr as [e|].
  { intros [= <- <- <- <-]. exists (take k part). split; [done|]. split; [|done].
    rewrite Hf. apply prefix_app, prefix_take. }
  replace (b - zlen fed -! (a - zlen fed)) with (zlen part) by (rewrite Hpl; int64_unfold; no_wrap; lia).
  destruct (Z.eqb_spec (Z.of_nat k) (zlen part)) as [Heq|Hne]; cbn [negb]; intros [= <- <- <- <-].
  - assert (take k part = part) as Ht by (apply take_ge; unfold zlen in Heq; lia).
    rewrite Ht in *. exists part. split; [done|]. split; [|done].
    unfold stream_at. cbn [pss_start pss_end pss_offset pss_written]. by rewrite zlen_app, Hf, Hwr.
  - exists (take k part). split; [done|]. split; [|done]. rewrite Hf. apply prefix_app, prefix_take.
Qed.

(** [copyPageSpan] writes the span of the page it reads; on an error it wrote a
    prefix of it. The count is what was written. *)
Lemma copyPageSpan_spec `{Io.LawfulReader R} buf w (src : R) page pageSize n err src' w' :
  span_ok page pageSize ->
  copyPageSpan buf w src page pageSize = (n, err, src', w') ->
  exists part, Io.out w' = Io.out w ++ part /\ n = zlen part /\
    part `prefix_of` spanOf page pageSize (Io.stream src) /\
    (err = None -> part = spanOf page pageSize (Io.stream src) /\
       zlen part = ps_End page - ps_Start page + 1).
Proof.
  intros Hok. destruct (span_offsets page pageSize Hok) as [Hs He]. destruct Hok as (Hp & Hi & Hse & Hmax).
  assert (0 <= ps_Index page * pageSize) by nia. unfold copyPageSpan. rewrite Hs, He.
  rewrite !(proj2 (Z.ltb_ge _ _)) by lia. cbn [orb].
  set (a := ps_Start page - ps_Index page * pageSize) in *.
  set (b := ps_End page - ps_Index page * pageSize) in *.
  replace (b -! a +! 1) with (b - a + 1) by (int64_unfold; no_wrap; lia).
  destruct (if a >? 0 then _ else _) as [err1 src1] eqn:Hskip.
  destruct err1 as [e|].
  { intros [= <- <- <- <-]. exists []. rewrite app_nil_r. split_and!; [done|done|apply prefix_nil|done]. }
  assert (Hc : Io.stream src1 = drop (Z.to_nat a) (Io.stream src) ).
  { destruct (Z.gtb_spec a 0).
    - destruct (Io.CopyN buf (Z.to_nat a) src Discard) as [[[k e1] s1] d1] eqn:HC.
      injection Hskip as -> ->.
      by destruct (Io.CopyN_out _ _ _ _ _ _ _ HC) as (_ & _ & Hd).
    - injection Hskip as ->. replace (Z.to_nat a) with 0%nat by lia. by rewrite drop_0. }
  destruct (Io.CopyN buf (Z.to_nat (b - a + 1)) src1 w) as [[[k e2] s2] w2] eqn:HC.
  intros [= <- <- <- <-].
  destruct (Io.CopyN_any _ _ _ _ _ _ _ _ HC) as (Hk & Hkl & Hout).
  assert (Hspan : spanOf page pageSize (Io.stream src) = take (Z.to_nat (b - a + 1)) (Io.stream src1)).
  { unfold spanOf, slice. fold a b. rewrite Hc. f_equal. lia. }
  exists (take k (Io.stream src1)). rewrite Hspan.
  assert (Hz : zlen (take k (Io.stream src1)) = Z.of_nat k)
    by (unfold zlen; rewrite length_take, Nat.min_l by done; done).
  split_and!; [done|done| |].
  - rewrite <- (Nat.min_l k (Z.to_nat (b - a + 1))), <- take_take by done. apply prefix_take.
  - intros He2. destruct e2 as [e|]; [done|]. apply Io.CopyN_count in HC as ->. split; [done|].
    rewrite Hz. lia.
Qed.
