(* ===== verification/ProxyPeers.v ===== *)
(** * Invalidating peers ([internal/proxy/proxy.go])

    After a write the proxy tells every peer to invalidate the object. A peer that
    cannot be told makes the proxy degraded and is remembered, with the epoch it
    must reach, in a bounded table that a worker retries until it is empty. The
    operations are the code's critical sections; [tstep] and [system] run the
    goroutines that execute them in any interleaving. *)

From stdpp Require Import relations.
From Stdlib Require Import Ascii.
From S2P Require Import Prelude GoStrings S3Request Router.
Import Strings.

(** ** The degraded state *)

(** [Since], [PeerID] and [RingID] say when and where; they are not kept. *)
Record DegradedState := mkDegradedState {
  Code : string; Reason : string; Context_ : gmap string string }.

(** [strings.NewReplacer(" ", "_", "-", "_").Replace] *)
Definition underscores : string -> string :=
  smap (fun c => if bool_decide (c = " "%char) || bool_decide (c = "-"%char) then "_"%char else c).

Definition degradedReasonCode (reason : string) : string :=
  let r := ToLower (TrimSpace reason) in
  if bool_decide (r = "local invalidation failed") then "local_invalidation_failed"
  else if bool_decide (r = "write invalidation failed") then "write_invalidation_failed"
  else if bool_decide (r = "peer invalidation failed") then "peer_invalidation_failed"
  else if bool_decide (r = "peer ring mismatch") then "peer_ring_mismatch"
  else if bool_decide (r = "local cache corruption") then "local_cache_corruption"
  else if bool_decide (r = "") then "degraded"
  else underscores r.

(** The loop over the context, in the order the map is iterated. *)
Definition copyContext (context : list (string * string)) : gmap string string :=
  fold_left (fun m '(k, v) =>
    let k := TrimSpace k in
    let v := TrimSpace v in
    if negb (bool_decide (k = "")) && negb (bool_decide (v = "")) then <[k := v]> m else m)
    context ∅.

Definition newDegradedState (reason : string) (context : list (string * string)) : DegradedState :=
  let reason := TrimSpace reason in
  let reason := if bool_decide (reason = "") then "degraded" else reason in
  mkDegradedState (degradedReasonCode reason) reason (copyContext context).

(** The state after the call, and whether it changed. *)
Definition markDegradedWithContext (reason : string) (context : list (string * string))
    (degraded : option DegradedState) : option DegradedState * bool :=
  let state := newDegradedState reason context in
  match degraded with
  | None => (Some state, true)
  | Some d =>
      if bool_decide (Code d = "peer_invalidation_failed") &&
         negb (bool_decide (Code state = "peer_invalidation_failed"))
      then (Some state, true) else (Some d, false)
  end.

Definition clearDegradedIfCode (code : string) (degraded : option DegradedState)
    : option DegradedState * bool :=
  match degraded with
  | None => (None, false)
  | Some d => if negb (bool_decide (Code d = code)) then (Some d, false) else (None, true)
  end.

(** ** The table of pending invalidations *)

Record peerInvalidationRetryKey := mkRetryKey { rk_peerID : string; rk_bucket : string; rk_key : string }.

#[export] Instance peerInvalidationRetryKey_eq_dec : EqDecision peerInvalidationRetryKey.
Proof. solve_decision. Defined.
#[export] Instance peerInvalidationRetryKey_countable : Countable peerInvalidationRetryKey.
Proof.
  apply (inj_countable' (fun k => (rk_peerID k, rk_bucket k, rk_key k))
           (fun p => mkRetryKey p.1.1 p.1.2 p.2)). by intros [].
Defined.

Record pendingPeerInvalidation := mkPending { pi_peer : Peer; pi_target : Target; pi_epoch : Z }.

(** A channel is a number; [closed] are the channels that were closed. *)
Record peerInvalidationRetryState := mkRetryState {
  pending : gmap peerInvalidationRetryKey pendingPeerInvalidation;
  untracked : bool;
  stop : option nat;
  started : bool;
  closed : list nat;
  nextChan : nat }.

Definition peerInvalidationRetryLimit : Z := 4096.

Definition retryKey (peer : Peer) (target : Target) : peerInvalidationRetryKey :=
  mkRetryKey (ID peer) (Bucket target) (Key target).

Definition set_pending m (r : peerInvalidationRetryState) : peerInvalidationRetryState :=
  mkRetryState m (untracked r) (stop r) (started r) (closed r) (nextChan r).

(** The state after the call, and whether it starts the worker. *)
Definition enqueuePeerInvalidationRetry (peer : Peer) (target : Target) (epoch : Z)
    (r : peerInvalidationRetryState) : peerInvalidationRetryState * bool :=
  let key := retryKey peer target in
  if (match pending r !! key with Some p => pi_epoch p >=? epoch | None => false end) then (r, false)
  else if bool_decide (pending r !! key = None) &&
          (Z.of_nat (size (pending r)) >=? peerInvalidationRetryLimit)
  then (mkRetryState (pending r) true (stop r) (started r) (closed r) (nextChan r), false)
  else
    let m := <[key := mkPending peer target epoch]> (pending r) in
    let '(ch, next) := match stop r with
                       | Some ch => (ch, nextChan r)
                       | None => (nextChan r, S (nextChan r))
                       end in
    (mkRetryState m (untracked r) (Some ch) true (closed r) next, negb (started r)).

Definition stopPeerInvalidationRetryWorker (r : peerInvalidationRetryState)
    : peerInvalidationRetryState :=
  match stop r with
  | None => r
  | Some ch => mkRetryState (pending r) (untracked r) None (started r) (ch :: closed r) (nextChan r)
  end.

(** The map is iterated in any order: a snapshot is any list of these items. *)
Definition snapshotPendingPeerInvalidations (r : peerInvalidationRetryState)
    : list pendingPeerInvalidation := (map_to_list (pending r)).*2.

Definition removePendingPeerInvalidation (done : pendingPeerInvalidation)
    (r : peerInvalidationRetryState) : peerInvalidationRetryState :=
  let key := retryKey (pi_peer done) (pi_target done) in
  match pending r !! key with
  | None => r
  | Some current => if pi_epoch current >? pi_epoch done then r
                    else set_pending (delete key (pending r)) r
  end.

(** The first critical section of [clearPeerInvalidationDegradedIfRecovered]. *)
Definition recovered (r : peerInvalidationRetryState) : bool :=
  bool_decide (pending r = ∅) && negb (untracked r).

Definition finishPeerInvalidationRetryWorkerIfIdle (r : peerInvalidationRetryState)
    : peerInvalidationRetryState * bool :=
  if negb (bool_decide (pending r = ∅)) then (r, false)
  else (mkRetryState (pending r) (untracked r) None false (closed r) (nextChan r), true).

(** ** Whole operations

    The state the operations share, and the operations run without interleaving;
    [send] is whether [sendPeerInvalidation] succeeds. *)

Record Peering := mkPeering { degraded : option DegradedState; retry : peerInvalidationRetryState }.

Definition markPeering (reason : string) (context : list (string * string)) (g : Peering) : Peering :=
  mkPeering (markDegradedWithContext reason context (degraded g)).1 (retry g).

Definition clearPeerInvalidationDegradedIfRecovered (g : Peering) : Peering :=
  if recovered (retry g)
  then mkPeering (clearDegradedIfCode "peer_invalidation_failed" (degraded g)).1 (retry g) else g.

Definition peerFailed (peer : Peer) (target : Target) (epoch : Z) (g : Peering) : Peering :=
  let g := markPeering "peer invalidation failed" [("bucket", Bucket target)] g in
  mkPeering (degraded g) (enqueuePeerInvalidationRetry peer target epoch (retry g)).1.

(** The loop over [p.peerRouter.Peers()]; the result says whether all were told. *)
Fixpoint broadcastInvalidation (localID : string) (ps : list Peer) (send : Peer -> bool)
    (target : Target) (epoch : Z) (g : Peering) : bool * Peering :=
  match ps with
  | [] => (true, g)
  | peer :: ps =>
      if bool_decide (ID peer = localID) then broadcastInvalidation localID ps send target epoch g
      else if send peer then broadcastInvalidation localID ps send target epoch g
      else (false, (broadcastInvalidation localID ps send target epoch (peerFailed peer target epoch g)).2)
  end.

Fixpoint retryItems (send : pendingPeerInvalidation -> bool) (items : list pendingPeerInvalidation)
    (g : Peering) : bool * Peering :=
  match items with
  | [] => (true, g)
  | item :: items =>
      if send item
      then retryItems send items (mkPeering (degraded g) (removePendingPeerInvalidation item (retry g)))
      else (false, (retryItems send items g).2)
  end.

Definition retryPendingPeerInvalidations (send : pendingPeerInvalidation -> bool) (g : Peering)
    : bool * Peering :=
  let items := snapshotPendingPeerInvalidations (retry g) in
  if bool_decide (items = []) then (true, clearPeerInvalidationDegradedIfRecovered g)
  else
    let '(ok, g) := retryItems send items g in
    (ok, clearPeerInvalidationDegradedIfRecovered g).

(** ** Goroutines

    A goroutine is at one of these points; one step executes one critical section
    or one message to a peer. [owed] are the invalidations that failed and were
    handed to the table, [told] the ones a peer accepted: they are history. *)

Inductive thread :=
| BSend (ps : list Peer) (target : Target) (epoch : Z)
| BMark (peer : Peer) (ps : list Peer) (target : Target) (epoch : Z)
| BEnqueue (peer : Peer) (ps : list Peer) (target : Target) (epoch : Z)
| WTop
| WSelect (ch : nat)
| WSnapshot
| WSend (items : list pendingPeerInvalidation)
| WRemove (item : pendingPeerInvalidation) (items : list pendingPeerInvalidation)
| WCheck
| WClear
| WFinish.

Definition is_worker (t : thread) : bool :=
  match t with BSend _ _ _ | BMark _ _ _ _ | BEnqueue _ _ _ _ => false | _ => true end.

Record System := mkSystem {
  shared : Peering;
  threads : list thread;
  owed : list (peerInvalidationRetryKey * Z);
  told : list (peerInvalidationRetryKey * Z);
  stopped : bool }.

Definition dest (item : pendingPeerInvalidation) : peerInvalidationRetryKey * Z :=
  (retryKey (pi_peer item) (pi_target item), pi_epoch item).

Definition set_retry (r : peerInvalidationRetryState) (g : Peering) : Peering :=
  mkPeering (degraded g) r.

(** [tstep g t g' ts o d]: goroutine [t] becomes the goroutines [ts] (none when it
    ends, two when it starts another); [o] is added to [owed], [d] to [told]. *)
Inductive tstep (g : Peering) : thread -> Peering -> list thread ->
    list (peerInvalidationRetryKey * Z) -> list (peerInvalidationRetryKey * Z) -> Prop :=
| T_sent peer ps target epoch :
    tstep g (BSend (peer :: ps) target epoch) g [BSend ps target epoch] []
      [(retryKey peer target, epoch)]
| T_unsent peer ps target epoch :
    tstep g (BSend (peer :: ps) target epoch) g [BMark peer ps target epoch] [] []
| T_broadcasted target epoch :
    tstep g (BSend [] target epoch) g [] [] []
| T_mark peer ps target epoch :
    tstep g (BMark peer ps target epoch)
      (markPeering "peer invalidation failed" [("bucket", Bucket target)] g)
      [BEnqueue peer ps target epoch] [] []
| T_enqueue peer ps target epoch r start :
    enqueuePeerInvalidationRetry peer target epoch (retry g) = (r, start) ->
    tstep g (BEnqueue peer ps target epoch) (set_retry r g)
      (BSend ps target epoch :: if start then [WTop] else []) [(retryKey peer target, epoch)] []
| T_top ch : stop (retry g) = Some ch -> tstep g WTop g [WSelect ch] [] []
| T_top_stopped : stop (retry g) = None -> tstep g WTop g [] [] []
| T_timer ch : tstep g (WSelect ch) g [WSnapshot] [] []
| T_stop ch : ch ∈ closed (retry g) -> tstep g (WSelect ch) g [] [] []
| T_snapshot items :
    items ≡ₚ snapshotPendingPeerInvalidations (retry g) ->
    tstep g WSnapshot g [WSend items] [] []
| T_resent item items :
    tstep g (WSend (item :: items)) g [WRemove item items] [] [dest item]
| T_unresent item items : tstep g (WSend (item :: items)) g [WSend items] [] []
| T_remove item items :
    tstep g (WRemove item items) (set_retry (removePendingPeerInvalidation item (retry g)) g)
      [WSend items] [] []
| T_retried : tstep g (WSend []) g [WCheck] [] []
| T_check :
    tstep g WCheck g [if recovered (retry g) then WClear else WFinish] [] []
| T_clear :
    tstep g WClear
      (mkPeering (clearDegradedIfCode "peer_invalidation_failed" (degraded g)).1 (retry g))
      [WFinish] [] []
| T_finish r idle :
    finishPeerInvalidationRetryWorkerIfIdle (retry g) = (r, idle) ->
    tstep g WFinish (set_retry r g) (if idle then [] else [WTop]) [] [].

Inductive system : System -> System -> Prop :=
| S_thread g g' l t k ts o d ow tl st :
    tstep g t g' ts o d ->
    system (mkSystem g (l ++ t :: k) ow tl st) (mkSystem g' (l ++ ts ++ k) (o ++ ow) (d ++ tl) st)
| S_broadcast g ts ow tl st ps target epoch :
    system (mkSystem g ts ow tl st) (mkSystem g (BSend ps target epoch :: ts) ow tl st)
| S_mark g ts ow tl st reason context :
    system (mkSystem g ts ow tl st) (mkSystem (markPeering reason context g) ts ow tl st)
| S_stop g ts ow tl st :
    system (mkSystem g ts ow tl st)
      (mkSystem (set_retry (stopPeerInvalidationRetryWorker (retry g)) g) ts ow tl true).

Definition idlePeering : Peering := mkPeering None (mkRetryState ∅ false None false [] 0).

Definition initial : System := mkSystem idlePeering [] [] [] false.

(** ** Facts about the critical sections *)

Definition keyed (r : peerInvalidationRetryState) : Prop :=
  map_Forall (fun k p => k = retryKey (pi_peer p) (pi_target p)) (pending r).

(** What the table owes: an entry of at least that epoch, or a full table. *)
Definition tracked (r : peerInvalidationRetryState) (k : peerInvalidationRetryKey) (e : Z) : Prop :=
  (exists p, pending r !! k = Some p /\ e <= pi_epoch p) \/ untracked r = true.

Lemma enqueue_spec peer target epoch r r' start :
  enqueuePeerInvalidationRetry peer target epoch r = (r', start) -> keyed r ->
  keyed r' /\ tracked r' (retryKey peer target) epoch /\
  (forall k e, tracked r k e -> tracked r' k e) /\
  closed r' = closed r /\ (start = true -> started r = false /\ started r' = true) /\
  (start = false -> started r' = started r) /\
  (started r' = true -> (started r = true -> is_Some (stop r)) -> is_Some (stop r')) /\
  (pending r' <> ∅ -> (pending r <> ∅ -> started r = true) -> started r' = true).
Proof.
  unfold enqueuePeerInvalidationRetry. intros H Hk.
  destruct (match pending r !! _ with Some _ => _ | None => _ end) eqn:Hold.
  { injection H as <- <-. destruct (pending r !! retryKey peer target) as [p|] eqn:Hp; [|done].
    rewrite Z.geb_leb in Hold. zbool. split_and!; auto; [|done].
    left. by exists p. }
  destruct (_ && _) eqn:Hfull.
  { injection H as <- <-. split_and!; cbn; auto; try done; by right. }
  assert (Hm : forall k e, tracked r k e -> tracked (set_pending
    (<[retryKey peer target := mkPending peer target epoch]> (pending r)) r) k e).
  { intros k e [(p & Hp & He)|Hu]; [|by right]. left. cbn.
    destruct (decide (k = retryKey peer target)) as [->|Hne].
    - rewrite Hp in Hold. rewrite Z.geb_leb in Hold. zbool.
      rewrite lookup_insert_eq. eexists. split; [done|]. cbn. lia.
    - rewrite lookup_insert_ne by done. eauto. }
  assert (Hkeyed : map_Forall (fun k p => k = retryKey (pi_peer p) (pi_target p))
    (<[retryKey peer target := mkPending peer target epoch]> (pending r))).
  { by apply map_Forall_insert_2. }
  destruct (stop r) as [ch|] eqn:Hstop; injection H as <- <-; cbn; split_and!; auto.
  all: try (left; cbn; rewrite lookup_insert_eq; eexists; split; [done|cbn; lia]).
  all: destruct (started r) eqn:Hst; done || eauto.
Qed.

Lemma remove_spec item r :
  keyed r -> keyed (removePendingPeerInvalidation item r) /\
  (forall k e, tracked r k e -> tracked (removePendingPeerInvalidation item r) k e \/
     (k = (dest item).1 /\ e <= (dest item).2)) /\
  closed (removePendingPeerInvalidation item r) = closed r /\
  started (removePendingPeerInvalidation item r) = started r /\
  stop (removePendingPeerInvalidation item r) = stop r /\
  (pending (removePendingPeerInvalidation item r) <> ∅ -> pending r <> ∅).
Proof.
  intros Hk. unfold removePendingPeerInvalidation.
  destruct (pending r !! _) as [cur|] eqn:Hp; [|split_and!; auto].
  rewrite Z.gtb_ltb. destruct (Z.ltb_spec (pi_epoch item) (pi_epoch cur)); [split_and!; auto|].
  split_and!; cbn; auto.
  - by apply map_Forall_delete.
  - intros k e [(p & Hkp & He)|Hu]; [|left; by right].
    destruct (decide (k = retryKey (pi_peer item) (pi_target item))) as [->|Hne].
    + right. cbn. simplify_eq. split; [done|lia].
    + left. left. exists p. cbn. by rewrite lookup_delete_ne.
  - intros Hne Hr. apply Hne. rewrite Hr. apply delete_empty.
Qed.

(** ** The invariant of the running system *)

Definition thread_ok (tl : list (peerInvalidationRetryKey * Z)) (t : thread) : Prop :=
  match t with WRemove item _ => dest item ∈ tl | _ => True end.

Definition worker_count (ts : list thread) : nat := length (filter (fun t => is_worker t = true) ts).

(** While it was not stopped, there is one worker exactly when [started] says so,
    and it is started whenever something is pending. *)
Definition staffed (r : peerInvalidationRetryState) (ts : list thread) : Prop :=
  closed r = [] /\ worker_count ts = (if started r then 1 else 0)%nat /\
  (started r = true -> is_Some (stop r)) /\ (pending r <> ∅ -> started r = true).

Record system_ok (s : System) : Prop := {
  so_keyed : keyed (retry (shared s));
  so_owed : forall k e, (k, e) ∈ owed s ->
    (exists e', (k, e') ∈ told s /\ e <= e') \/ tracked (retry (shared s)) k e;
  so_threads : Forall (thread_ok (told s)) (threads s);
  so_staffed : stopped s = false -> staffed (retry (shared s)) (threads s) }.

Lemma worker_count_app l k : worker_count (l ++ k) = (worker_count l + worker_count k)%nat.
Proof. unfold worker_count. by rewrite filter_app, length_app. Qed.

Lemma worker_count_cons t k :
  worker_count (t :: k) = ((if is_worker t then 1 else 0) + worker_count k)%nat.
Proof. unfold worker_count. rewrite filter_cons. destruct (is_worker t); case_decide; done. Qed.

Lemma thread_ok_mono d tl t : thread_ok tl t -> thread_ok (d ++ tl) t.
Proof. destruct t; cbn; set_solver. Qed.

(** One step of a goroutine, on the parts of the invariant it touches. *)
Lemma tstep_ok g t g' ts o d tl :
  tstep g t g' ts o d -> keyed (retry g) -> thread_ok tl t ->
  keyed (retry g') /\ Forall (thread_ok (d ++ tl)) ts /\
  (forall k e, (k, e) ∈ o -> tracked (retry g') k e) /\
  (forall k e, tracked (retry g) k e -> (exists e', (k, e') ∈ d ++ tl /\ e <= e') \/ tracked (retry g') k e).
Proof.
  intros Hs Hk Ht. assert (Hsame : forall k e, tracked (retry g) k e ->
    (exists e', (k, e') ∈ d ++ tl /\ e <= e') \/ tracked (retry g) k e) by (intros; by right).
  destruct Hs as [| | | |? ? ? ? r start He| | | | |items Hi| | |item items| | | |r idle Hf];
    cbn [retry set_retry markPeering]; try (split_and!; [done|repeat constructor|set_solver|done]).
  - destruct (enqueue_spec _ _ _ _ _ _ He Hk) as (? & ? & Hm & _). split_and!; [done| |set_solver|].
    + destruct start; repeat constructor.
    + intros k e Hke. right. by apply Hm.
  - destruct (remove_spec item (retry g) Hk) as (? & Hm & _). split_and!; [done|repeat constructor|set_solver|].
    intros k e Hke. destruct (Hm k e Hke) as [?|[-> ?]]; [by right|]. left. exists (dest item).2.
    split; [exact Ht|done].
  - destruct (recovered (retry g)); repeat constructor.
  - unfold finishPeerInvalidationRetryWorkerIfIdle in Hf.
    destruct (negb _); injection Hf as <- <-; cbn; (split_and!; [done|repeat constructor|set_solver|]);
      intros; by right.
Qed.

Lemma tstep_staffed g t g' ts o d l k :
  tstep g t g' ts o d -> keyed (retry g) ->
  staffed (retry g) (l ++ t :: k) -> staffed (retry g') (l ++ ts ++ k).
Proof.
  intros Hs Hk (Hc & Hw & Hst & Hp). unfold staffed.
  rewrite !worker_count_app, worker_count_cons in *.
  destruct Hs as [| | | |? ? ? ? r start He|ch Hch|Hn| |ch Hin|items Hi| | |item items| | | |r idle Hf];
    cbn [retry set_retry markPeering is_worker] in *;
    rewrite ?worker_count_cons; cbn [is_worker];
    try (split_and!; [done|unfold worker_count in *; cbn in *; lia|done|done]).
  - destruct (enqueue_spec _ _ _ _ _ _ He Hk) as (_ & _ & _ & Hc' & Hs1 & Hs2 & Hs3 & Hs4).
    split_and!; [congruence| |auto|auto]. destruct start.
    + destruct (Hs1 eq_refl) as [E1 E2]. rewrite E1 in Hw. rewrite E2, worker_count_cons. cbn. unfold worker_count in *. cbn. lia.
    + rewrite (Hs2 eq_refl), <- Hw. unfold worker_count. cbn. lia.
  - (* a worker at the top of its loop finds no stop channel *)
    destruct (started (retry g)); [|lia]. destruct (Hst eq_refl) as [ch Hch]. congruence.
  - rewrite Hc in Hin. by apply not_elem_of_nil in Hin.
  - destruct (remove_spec item (retry g) Hk) as (_ & _ & Hc' & Hs' & Hst' & Hp').
    split_and!; [congruence|rewrite Hs', <- Hw; unfold worker_count; cbn; lia|by rewrite Hs', Hst'|].
    intros Hne. rewrite Hs'. by apply Hp, Hp'.
  - split_and!; [done| |done|done]. destruct (recovered (retry g)); unfold worker_count in *; cbn; lia.
  - unfold finishPeerInvalidationRetryWorkerIfIdle in Hf.
    destruct (started (retry g)) eqn:Hs; [|lia].
    destruct (negb _) eqn:Hne; injection Hf as <- <-.
    + split_and!; [done| |rewrite Hs; auto|by rewrite Hs].
      rewrite Hs, worker_count_cons. cbn [is_worker]. change (worker_count []) with 0%nat. lia.
    + cbn. zbool. apply bool_decide_eq_true in Hne. split_and!; [done|unfold worker_count in *; cbn in *; lia|done|done].
Qed.

Lemma system_ok_step s s' : system s s' -> system_ok s -> system_ok s'.
Proof.
  intros Hs [Hk Ho Ht Hf]. destruct Hs as [g g' l t k ts o d ow tl st Hs| | |]; cbn in *.
  - apply Forall_app in Ht as [Hl Ht]. apply Forall_cons in Ht as [Ht Hk'].
    destruct (tstep_ok _ _ _ _ _ _ tl Hs Hk Ht) as (H1 & H2 & H3 & H4).
    assert (Hmono : forall x, Forall (thread_ok tl) x -> Forall (thread_ok (d ++ tl)) x).
    { intros x Hx. eapply Forall_impl; [exact Hx|]. intros. by apply thread_ok_mono. }
    constructor; cbn.
    + done.
    + intros k0 e [Hin|Hin]%elem_of_app; [right; auto|].
      destruct (Ho k0 e Hin) as [(e' & He' & Hle)|Htr]; [|auto].
      left. exists e'. split; [set_solver|done].
    + rewrite !Forall_app. auto.
    + intros Hst. eapply tstep_staffed; eauto.
  - constructor; cbn; auto. by constructor.
  - constructor; cbn; auto.
  - constructor; cbn; auto; try done; unfold stopPeerInvalidationRetryWorker; destruct (stop _); auto.
Qed.

Lemma reachable_ok s : rtc system initial s -> system_ok s.
Proof.
  intros H. assert (Hi : system_ok initial).
  { constructor; cbn; [apply map_Forall_empty|set_solver|constructor|]. intros _. split_and!; done. }
  induction H as [|s1 s2 s3 Hstep _ IH]; [done|]. apply IH. eauto using system_ok_step.
Qed.

(** ** Whole operations *)

Inductive peering_step (g : Peering) : Peering -> Prop :=
| P_broadcast localID ps send target epoch :
    peering_step g (broadcastInvalidation localID ps send target epoch g).2
| P_retry send : peering_step g (retryPendingPeerInvalidations send g).2
| P_mark reason context : peering_step g (markPeering reason context g).

(** Not ready while a peer may hold a stale object. *)
Definition guarded (g : Peering) : Prop :=
  keyed (retry g) /\ (recovered (retry g) = false -> is_Some (degraded g)).

Lemma mark_degraded reason context d : is_Some (markDegradedWithContext reason context d).1.
Proof. unfold markDegradedWithContext. destruct d; [destruct (_ && _)|]; done. Qed.

Lemma broadcast_guarded localID ps send target epoch g :
  guarded g -> guarded (broadcastInvalidation localID ps send target epoch g).2.
Proof.
  revert g. induction ps as [|peer ps IH]; intros g Hg; [done|]. cbn [broadcastInvalidation].
  case_bool_decide; [auto|]. destruct (send peer); [auto|]. cbn [snd]. apply IH.
  unfold peerFailed. destruct (enqueuePeerInvalidationRetry _ _ _ _) as [r start] eqn:He.
  cbn [retry markPeering] in He. destruct Hg as [Hk _].
  destruct (enqueue_spec _ _ _ _ _ _ He Hk) as [Hk' _].
  split; [done|]. intros _. apply mark_degraded.
Qed.

Lemma clear_guarded g : keyed (retry g) ->
  (recovered (retry g) = false -> is_Some (degraded g)) ->
  guarded (clearPeerInvalidationDegradedIfRecovered g).
Proof.
  intros Hk Hd. unfold clearPeerInvalidationDegradedIfRecovered.
  destruct (recovered (retry g)) eqn:Hr; [|split; auto]. split; [done|]. cbn. by rewrite Hr.
Qed.

(** Removing entries only moves the table towards recovery. *)
Lemma remove_recovered item r :
  recovered (removePendingPeerInvalidation item r) = false -> recovered r = false.
Proof.
  unfold removePendingPeerInvalidation, recovered. destruct (pending r !! _) eqn:Hp; [|done].
  destruct (_ >? _); [done|]. cbn. rewrite !andb_false_iff. intros [H|H]; [left|by right].
  apply bool_decide_eq_false in H. apply bool_decide_eq_false. intros Hr. apply H.
  rewrite Hr. apply delete_empty.
Qed.

Lemma retryItems_guarded send items g : guarded g -> guarded (retryItems send items g).2.
Proof.
  revert g. induction items as [|item items IH]; intros g Hg; [done|]. cbn [retryItems].
  destruct (send item); [|by apply IH]. apply IH. destruct Hg as [Hk Hd].
  split; [by apply remove_spec|]. intros Hr%remove_recovered. by apply Hd.
Qed.

Lemma retry_guarded send g : guarded g -> guarded (retryPendingPeerInvalidations send g).2.
Proof.
  intros Hg. unfold retryPendingPeerInvalidations. case_bool_decide.
  - destruct Hg. by apply clear_guarded.
  - pose proof (retryItems_guarded send (snapshotPendingPeerInvalidations (retry g)) g Hg) as H1.
    destruct (retryItems _ _ _) as [ok g']. destruct H1. by apply clear_guarded.
Qed.

Lemma peering_guarded g g' : rtc peering_step g g' -> guarded g -> guarded g'.
Proof.
  induction 1 as [|g1 g2 g3 Hs _ IH]; [done|]. intros Hg. apply IH. destruct Hs.
  - by apply broadcast_guarded.
  - by apply retry_guarded.
  - destruct Hg. split; [done|]. intros _. apply mark_degraded.
Qed.

(** When every peer is told, the table is emptied. *)
Lemma retryItems_all items g :
  (forall k p, pending (retry g) !! k = Some p -> p ∈ items /\ k = retryKey (pi_peer p) (pi_target p)) ->
  exists r, retryItems (fun _ => true) items g = (true, mkPeering (degraded g) r) /\
    pending r = ∅ /\ untracked r = untracked (retry g).
Proof.
  revert g. induction items as [|item items IH]; intros g Hin; cbn [retryItems].
  { exists (retry g). split_and!; [by destruct g| |done].
    apply map_eq. intros k. rewrite lookup_empty. destruct (pending (retry g) !! k) as [p|] eqn:Hp; [|done].
    destruct (Hin k p Hp) as [He _]. by apply not_elem_of_nil in He. }
  destruct (IH (mkPeering (degraded g) (removePendingPeerInvalidation item (retry g)))) as (r & -> & Hr & Hu).
  - cbn. intros k p. unfold removePendingPeerInvalidation.
    destruct (pending (retry g) !! _) as [cur|] eqn:Hcur.
    + rewrite Z.gtb_ltb. destruct (Z.ltb_spec (pi_epoch item) (pi_epoch cur)); cbn.
      * intros Hp. destruct (Hin k p Hp) as [He ->]. split; [|done].
        apply elem_of_cons in He as [->|?]; [|done]. rewrite Hp in Hcur. simplify_eq. lia.
      * rewrite lookup_delete_Some. intros [Hne Hp]. destruct (Hin k p Hp) as [He ->]. split; [|done].
        apply elem_of_cons in He as [->|?]; [done|done].
    + intros Hp. destruct (Hin k p Hp) as [He ->]. split; [|done].
      apply elem_of_cons in He as [->|?]; [congruence|done].
  - exists r. split_and!; [done..|]. rewrite Hu. cbn. unfold removePendingPeerInvalidation.
    destruct (pending _ !! _); [destruct (_ >? _)|]; done.
Qed.

Lemma retry_all g :
  keyed (retry g) ->
  exists r, retryPendingPeerInvalidations (fun _ => true) g
    = (true, clearPeerInvalidationDegradedIfRecovered (mkPeering (degraded g) r)) /\
    pending r = ∅ /\ untracked r = untracked (retry g).
Proof.
  intros Hk. unfold retryPendingPeerInvalidations. case_bool_decide as Hnil.
  - exists (retry g). destruct g as [d r]. cbn in *. split_and!; [done| |done].
    unfold snapshotPendingPeerInvalidations in Hnil. apply fmap_nil_inv in Hnil.
    by apply map_to_list_empty_iff in Hnil.
  - destruct (retryItems_all (snapshotPendingPeerInvalidations (retry g)) g) as (r & -> & Hr & Hu).
    + intros k p Hp. split; [|by apply Hk]. unfold snapshotPendingPeerInvalidations.
      apply list_elem_of_fmap. exists (k, p). split; [done|]. by apply elem_of_map_to_list.
    + by exists r.
Qed.

(** * Properties *)

(** C8: no invalidation is lost. However the broadcasts of several writes, the
    retry worker and a shutdown interleave, an invalidation that failed for a peer
    and was handed to the retry table is, in every later state, either accepted by
    that peer for that object at an epoch at least as large, or still in the table
    at such an epoch, or the table is marked as having overflowed, after which it
    never counts as recovered. *)
Theorem no_lost_invalidation (s : System) (k : peerInvalidationRetryKey) (e : Z)
    (Hreach : rtc system initial s) (Howed : (k, e) ∈ owed s) :
  (exists e', (k, e') ∈ told s /\ e <= e') \/
  (exists p, pending (retry (shared s)) !! k = Some p /\ e <= pi_epoch p) \/
  (untracked (retry (shared s)) = true /\ recovered (retry (shared s)) = false).
Proof.
  destruct (so_owed _ (reachable_ok s Hreach) k e Howed) as [?|[?|Hu]]; [by left|right; by left|].
  right; right. split; [done|]. unfold recovered. rewrite Hu. apply andb_false_r.
Qed.

(** C36: as long as the worker was not stopped, there is exactly one retry worker
    while something is pending, in every interleaving. *)
Theorem retry_worker_alive (s : System) (Hreach : rtc system initial s)
    (Hrun : stopped s = false) (Hpending : pending (retry (shared s)) <> ∅) :
  exists l t k, threads s = l ++ t :: k /\ is_worker t = true /\
    Forall (fun t => is_worker t = false) (l ++ k).
Proof.
  destruct (so_staffed _ (reachable_ok s Hreach) Hrun) as (_ & Hw & _ & Hp).
  rewrite (Hp Hpending) in Hw. clear -Hw. induction (threads s) as [|t ts IH]; [done|].
  rewrite worker_count_cons in Hw. destruct (is_worker t) eqn:Ht.
  - exists [], t, ts. split_and!; [done|done|]. cbn [app]. apply Forall_forall. intros t' Hin.
    destruct (is_worker t') eqn:Ht'; [|done]. injection Hw as Hw.
    apply length_zero_iff_nil in Hw.
    assert (t' ∈ filter (fun t => is_worker t = true) ts) as Hf by (by apply list_elem_of_filter).
    rewrite Hw in Hf. by apply not_elem_of_nil in Hf.
  - destruct (IH Hw) as (l & t' & k & -> & ? & ?). exists (t :: l), t', k.
    split_and!; [done|done|by constructor].
Qed.

(** C37: when broadcasts, retries and other failures follow one another without
    interleaving, the proxy is degraded as long as a peer may hold a stale object
    (an invalidation is pending or was dropped by a full table). A retry that reaches every
    peer empties the table. It makes the proxy ready again exactly when nothing was
    dropped and it was degraded, if at all, by failed peer invalidations; otherwise the
    degradation stays as it was, after a dropped invalidation for good. *)
Theorem degraded_while_pending (g : Peering) (Hreach : rtc peering_step idlePeering g) :
  (pending (retry g) <> ∅ \/ untracked (retry g) = true -> is_Some (degraded g)) /\
  exists g', retryPendingPeerInvalidations (fun _ => true) g = (true, g') /\
    pending (retry g') = ∅ /\ untracked (retry g') = untracked (retry g) /\
    degraded g' = if negb (untracked (retry g)) &&
                     bool_decide (from_option Code "peer_invalidation_failed" (degraded g) = "peer_invalidation_failed")
                  then None else degraded g.
Proof.
  assert (Hi : guarded idlePeering) by (split; [apply map_Forall_empty|done]).
  destruct (peering_guarded _ _ Hreach Hi) as [Hk Hd]. split.
  - intros Hp. apply Hd. unfold recovered. apply andb_false_iff. destruct Hp as [Hp| ->]; [left|by right].
    by apply bool_decide_eq_false.
  - destruct (retry_all g Hk) as (r & -> & Hr & Hu). eexists. split; [done|].
    unfold clearPeerInvalidationDegradedIfRecovered, recovered. cbn. rewrite Hr, Hu.
    rewrite bool_decide_true by done. cbn [andb]. destruct (untracked (retry g)) eqn:Hun; cbn [negb andb]; cbn; [done|].
    split_and!; [done..|]. destruct (degraded g) as [d|]; [|done]. cbn.
    by destruct (bool_decide (Code d = _)).
Qed.

(** A degradation that is not a failed peer invalidation stays: no later
    failure replaces it and no recovery of peers clears it, in any interleaving. *)
Theorem severe_degradation_sticky (s s' : System) (d : DegradedState)
    (Hsteps : rtc system s s') (Hd : degraded (shared s) = Some d)
    (Hsevere : Code d <> "peer_invalidation_failed") :
  degraded (shared s') = Some d.
Proof.
  assert (Hmark : forall reason context,
    (markDegradedWithContext reason context (Some d)).1 = Some d).
  { intros. unfold markDegradedWithContext. by rewrite bool_decide_false. }
  induction Hsteps as [|s1 s2 s3 Hs _ IH]; [done|]. apply IH.
  destruct Hs as [g g' l t k ts o dl ow tl st Ht| | |]; cbn in Hd |- *; [|done| |done].
  - destruct Ht; cbn [shared degraded markPeering set_retry]; rewrite ?Hd, ?Hmark; try done.
    unfold clearDegradedIfCode. by rewrite bool_decide_false.
  - by rewrite Hd.
Qed.

(** ** Witnesses *)

Definition demoPeer : Peer := mkPeer "p2" "http://p2".
Definition demoTarget : Target := mkTarget "b" "k".

Ltac thread_step l t k := eapply rtc_l; [eapply (S_thread _ _ l t k); constructor; reflexivity|cbn].

(** A broadcast that fails, up to the point where its failure is in the table. *)
Lemma demo_failed : exists s, rtc system initial s /\ stopped s = false /\
  (retryKey demoPeer demoTarget, 3) ∈ owed s /\ pending (retry (shared s)) <> ∅.
Proof.
  eexists. split.
  - eapply rtc_l; [apply (S_broadcast _ _ _ _ _ [demoPeer] demoTarget 3)|].
    eapply rtc_l; [eapply (S_thread _ _ [] (BSend [demoPeer] demoTarget 3) []); apply T_unsent|]. cbn [app].
    thread_step (@nil thread) (BMark demoPeer [] demoTarget 3) (@nil thread).
    thread_step (@nil thread) (BEnqueue demoPeer [] demoTarget 3) (@nil thread). apply rtc_refl.
  - cbn. split_and!; [done|set_solver|]. apply insert_non_empty.
Defined.

Lemma no_lost_invalidation_witness : exists s, rtc system initial s /\
  ((exists e', (retryKey demoPeer demoTarget, e') ∈ told s /\ 3 <= e') \/
   (exists p, pending (retry (shared s)) !! retryKey demoPeer demoTarget = Some p /\ 3 <= pi_epoch p) \/
   (untracked (retry (shared s)) = true /\ recovered (retry (shared s)) = false)).
Proof.
  destruct demo_failed as (s & Hs & _ & Ho & _). exists s. split; [exact Hs|].
  exact (no_lost_invalidation s (retryKey demoPeer demoTarget) 3 Hs Ho).
Defined.

Lemma retry_worker_alive_witness : exists s, rtc system initial s /\
  exists l t k, threads s = l ++ t :: k /\ is_worker t = true /\
    Forall (fun t => is_worker t = false) (l ++ k).
Proof.
  destruct demo_failed as (s & Hs & Hr & _ & Hp). exists s. split; [exact Hs|].
  exact (retry_worker_alive s Hs Hr Hp).
Defined.

Lemma degraded_while_pending_witness :
  let g := (broadcastInvalidation "p1" [mkPeer "p1" "http://p1"; demoPeer] (fun _ => false)
              demoTarget 3 idlePeering).2 in
  is_Some (degraded g) /\ (retryPendingPeerInvalidations (fun _ => true) g).1 = true.
Proof.
  cbv zeta. set (g := (broadcastInvalidation _ _ _ _ _ _).2).
  assert (Hg : rtc peering_step idlePeering g) by (apply rtc_once, P_broadcast).
  destruct (degraded_while_pending g Hg) as [H1 (g' & H2 & _)]. split.
  - apply H1. left. apply (insert_non_empty (∅ : gmap _ _) _ (mkPending demoPeer demoTarget 3)).
  - rewrite H2. reflexivity.
Defined.

Definition severe : DegradedState := newDegradedState "peer ring mismatch" [].

Lemma severe_degradation_sticky_witness : exists s',
  rtc system (mkSystem (mkPeering (Some severe) (retry idlePeering)) [WClear] [] [] false) s' /\
  threads s' = [WFinish] /\ degraded (shared s') = Some severe.
Proof.
  eexists. split; [|split].
  - thread_step (@nil thread) WClear (@nil thread). apply rtc_refl.
  - reflexivity.
  - apply (severe_degradation_sticky
      (mkSystem (mkPeering (Some severe) (retry idlePeering)) [WClear] [] [] false)).
    + thread_step (@nil thread) WClear (@nil thread). apply rtc_refl.
    + reflexivity.
    + vm_compute. discriminate.
Defined.

(** C38: the recovery of peers and a new failure can race. The worker reads that
    the table is empty and clears the degraded state in two separate critical
    sections; a broadcast that fails in between marks the proxy degraded (it
    already is) and enters the table, and the worker then clears the mark: the
    proxy reports itself ready while a peer may hold a stale object. *)
Theorem recovery_race : exists s, rtc system initial s /\ stopped s = false /\
  degraded (shared s) = None /\
  (retryKey demoPeer demoTarget, 4) ∈ owed s /\ told s = [(retryKey demoPeer demoTarget, 3)] /\
  pending (retry (shared s)) !! retryKey demoPeer demoTarget = Some (mkPending demoPeer demoTarget 4).
Proof.
  eexists. split.
  - eapply rtc_l; [apply (S_broadcast _ _ _ _ _ [demoPeer] demoTarget 3)|].
    eapply rtc_l; [eapply (S_thread _ _ [] (BSend [demoPeer] demoTarget 3) []); apply T_unsent|]. cbn [app].
    thread_step (@nil thread) (BMark demoPeer [] demoTarget 3) (@nil thread).
    thread_step (@nil thread) (BEnqueue demoPeer [] demoTarget 3) (@nil thread).
    thread_step (@nil thread) (BSend [] demoTarget 3) [WTop].
    thread_step (@nil thread) WTop (@nil thread).
    eapply rtc_l; [eapply (S_thread _ _ [] (WSelect 0) []); apply T_timer|]. cbn [app].
    eapply rtc_l; [eapply (S_thread _ _ [] WSnapshot []); apply (T_snapshot _ [mkPending demoPeer demoTarget 3]);
      vm_compute; reflexivity|]. cbn [app].
    eapply rtc_l; [eapply (S_thread _ _ [] (WSend [mkPending demoPeer demoTarget 3]) []); apply T_resent|]. cbn [app].
    thread_step (@nil thread) (WRemove (mkPending demoPeer demoTarget 3) []) (@nil thread).
    thread_step (@nil thread) (WSend []) (@nil thread).
    eapply rtc_l; [eapply (S_thread _ _ [] WCheck []); apply T_check|].
    lazymatch goal with |- context [recovered ?r] =>
      replace (recovered r) with true by (vm_compute; reflexivity) end. cbn [app].
    eapply rtc_l; [apply (S_broadcast _ _ _ _ _ [demoPeer] demoTarget 4)|].
    eapply rtc_l; [eapply (S_thread _ _ [] (BSend [demoPeer] demoTarget 4)); apply T_unsent|]. cbn [app].
    eapply rtc_l; [eapply (S_thread _ _ [] (BMark demoPeer [] demoTarget 4)); constructor|]. cbn [app].
    eapply rtc_l; [eapply (S_thread _ _ [] (BEnqueue demoPeer [] demoTarget 4)); constructor; reflexivity|]. cbn [app].
    eapply rtc_l; [eapply (S_thread _ _ [BSend [] demoTarget 4] WClear []); constructor|]. cbn [app].
    apply rtc_refl.
  - vm_compute. split_and!; try reflexivity. left.
Qed.
