(* ===== verification/ProxyContext.v ===== *)
(** * Deadlines of peer invalidations ([internal/proxy/proxy.go])

    The invalidation after a write outlives its request: [detachedInvalidationContext]
    drops the cancellation of the client and sets a deadline for the whole broadcast, and
    [sendPeerInvalidation] sets one for each peer. [ProxyPeers] and [ProxyWrite]
    treat the answer of a peer as a given; here the broadcast runs against the
    clock, and the theorem says when the answer of one peer does not depend on how slow
    the others are. A context of package [context] is what ends it: its deadline and the
    moment it is cancelled, both in nanoseconds. *)

From Stdlib Require Import Ascii.
From S2P Require Import Prelude GoStrings GoNet Sha256 Range S3Request Router PageFrame CachePath CacheDB CacheStore.
From S2P Require Import ProxyPeers.
Import Strings.

#[local] Open Scope go_scope.

(** ** Contexts *)

Inductive CtxError := Canceled | DeadlineExceeded.

#[export] Instance CtxError_eq_dec : EqDecision CtxError.
Proof. solve_decision. Defined.

(** [invalidationID] is the value under [invalidationRequestIDContextKey]. *)
Record Context_ := mkContext { deadline : option Z; canceledAt : option Z; invalidationID : option string }.

Definition Background : Context_ := mkContext None None None.
Definition WithoutCancel (ctx : Context_) : Context_ := mkContext None None (invalidationID ctx).
Definition WithRequestID (id : string) (ctx : Context_) : Context_ := mkContext (deadline ctx) (canceledAt ctx) (Some id).

(** A deadline after the one of the parent changes nothing. *)
Definition WithTimeout (now timeout : Z) (ctx : Context_) : Context_ :=
  let at_ := now + timeout in
  mkContext (Some (match deadline ctx with Some d => Z.min d at_ | None => at_ end)) (canceledAt ctx) (invalidationID ctx).

(** When and why a context ends, if it does. *)
Definition ends (ctx : Context_) : option (Z * CtxError) :=
  match canceledAt ctx, deadline ctx with
  | Some c, Some d => if c <? d then Some (c, Canceled) else Some (d, DeadlineExceeded)
  | Some c, None => Some (c, Canceled)
  | None, Some d => Some (d, DeadlineExceeded)
  | None, None => None
  end.

(** [ctx.Err()] *)
Definition ctxErr (ctx : Context_) (now : Z) : option CtxError :=
  match ends ctx with Some (t, e) => if t <=? now then Some e else None | None => None end.

(** ** The context of an invalidation *)

Definition requestIDHeaders : list string :=
  ["X-Request-Id"; "X-Request-ID"; "X-Correlation-ID"; "X-Amz-Request-Id"; "X-Amz-Id-2"].

Fixpoint firstHeader (names : list string) (h : Http.Header) : string :=
  match names with
  | [] => ""
  | name :: names =>
      let value := TrimSpace (Http.Get h name) in
      if bool_decide (value = "") then firstHeader names h else value
  end.

Definition requestIDFromRequest (h : Http.Header) : string := firstHeader requestIDHeaders h.

Definition contextWithInvalidationRequestID (id : string) (ctx : Context_) : Context_ :=
  let id := TrimSpace id in if bool_decide (id = "") then ctx else WithRequestID id ctx.

Definition peerCount (r : Router) : Z := zlen (filter (fun p => ID p <> localID r) (peers r)).

(** [peerTimeout] is an [int64] number of nanoseconds, and so is its product. *)
Definition detachedInvalidationContext (peerTimeout : Z) (router : option Router) (now : Z) (parent : Context_) : Context_ :=
  let ctx := WithoutCancel parent in
  if peerTimeout <=? 0 then ctx else
  WithTimeout now
    match router with
    | None => peerTimeout
    | Some r => if peerCount r >? 0 then peerTimeout *! (peerCount r +! 1) else peerTimeout
    end ctx.

(** ** Sending *)

(** What the other end does: it answers after some time, with success or not (a refused
    connection is an answer without success), or never. *)
Inductive Reply := Answers (delay : Z) (ok : bool) | Silent.

(** How a send ends: with an answer, or with the error of the context. *)
Inductive Sent := Answered (ok : bool) | Stopped (e : CtxError).

Definition requestContext (peerTimeout now : Z) (ctx : Context_) : Context_ :=
  if peerTimeout >? 0 then WithTimeout now peerTimeout ctx else ctx.

(** [sendPeerInvalidation] started at [now]: how it ends and when; [None] when nothing ends
    it. A context that has ended stops the request at once. *)
Definition timedSend (peerTimeout : Z) (ctx : Context_) (now : Z) (reply : Reply) : option (Sent * Z) :=
  match reply, ends (requestContext peerTimeout now ctx) with
  | Answers d ok, None => Some (Answered ok, now + d)
  | Answers d ok, Some (t, e) => if now + d <? t then Some (Answered ok, now + d) else Some (Stopped e, Z.max now t)
  | Silent, Some (t, e) => Some (Stopped e, Z.max now t)
  | Silent, None => None
  end.

Definition succeeded (s : Sent) : bool := match s with Answered ok => ok | Stopped _ => false end.

(** [classifyPeerInvalidationCancellation], on what [errors.Is] finds in its arguments. *)
Definition classifyPeerInvalidationCancellation (parentErr requestErr err : option CtxError) : string :=
  match err with
  | Some Canceled =>
      if bool_decide (parentErr = Some Canceled) then "parent_context_canceled"
      else if bool_decide (requestErr = Some Canceled) then "peer_request_canceled"
      else "context_canceled"
  | Some DeadlineExceeded =>
      if bool_decide (parentErr = Some DeadlineExceeded) then "parent_context_deadline_exceeded"
      else if bool_decide (requestErr = Some DeadlineExceeded) then "peer_timeout"
      else "deadline_exceeded"
  | None => "none"
  end.

(** ** Broadcast and retry against the clock *)

Section Clock.
Context (peerTimeout : Z).

(** The loop of [broadcastInvalidation]: whether all were told, the state and the time.
    [work] is the time that passes before a peer is sent to, for bookkeeping. *)
Fixpoint timedBroadcast (ctx : Context_) (localID : string) (ps : list Peer) (reply : Peer -> Reply) (work : Peer -> Z)
    (target : Target) (epoch : Z) (now : Z) (g : Peering) : option (bool * Peering * Z) :=
  match ps with
  | [] => Some (true, g, now)
  | peer :: ps =>
      let now := now + work peer in
      if bool_decide (ID peer = localID) then timedBroadcast ctx localID ps reply work target epoch now g
      else
        '(sent, now) ← timedSend peerTimeout ctx now (reply peer);
        if succeeded sent then timedBroadcast ctx localID ps reply work target epoch now g
        else '(_, g, now) ← timedBroadcast ctx localID ps reply work target epoch now (peerFailed peer target epoch g);
             Some (false, g, now)
  end.

(** The loop of [retryPendingPeerInvalidations]. *)
Fixpoint timedRetry (ctx : Context_) (items : list pendingPeerInvalidation) (reply : pendingPeerInvalidation -> Reply)
    (now : Z) (g : Peering) : option (bool * Peering * Z) :=
  match items with
  | [] => Some (true, g, now)
  | item :: items =>
      '(sent, now) ← timedSend peerTimeout ctx now (reply item);
      if succeeded sent
      then timedRetry ctx items reply now (mkPeering (degraded g) (removePendingPeerInvalidation item (retry g)))
      else '(_, g, now) ← timedRetry ctx items reply now g; Some (false, g, now)
  end.

(** ** When the answers are independent *)

(** The peer accepts within its own timeout. *)
Definition within (reply : Reply) : bool :=
  match reply with Answers d ok => (d <? peerTimeout) && ok | Silent => false end.

Definition reply_ok (reply : Reply) : Prop := match reply with Answers d _ => 0 <= d | Silent => True end.

Context (Hpos : 0 < peerTimeout).

(** A send that starts a timeout before the deadline of its context ends by itself within
    that timeout, and succeeds exactly when the peer accepts in time. *)
Lemma timedSend_within ctx limit now reply :
  canceledAt ctx = None -> deadline ctx = Some limit -> now + peerTimeout <= limit -> reply_ok reply ->
  exists sent t, timedSend peerTimeout ctx now reply = Some (sent, t) /\ succeeded sent = within reply /\
    now <= t <= now + peerTimeout.
Proof.
  intros Hc Hd Hl Hr. unfold timedSend, requestContext. rewrite gtb_true by done.
  unfold ends, WithTimeout. cbn. rewrite Hc, Hd, Z.min_r by lia.
  destruct reply as [d ok|]; cbn.
  - destruct (now + d <? now + peerTimeout) eqn:E; zbool; eexists _, _; (split; [done|]); cbn in *.
    + rewrite (proj2 (Z.ltb_lt _ _)) by lia. split; [done|lia].
    + rewrite (proj2 (Z.ltb_ge _ _)) by lia. split; [done|lia].
  - eexists _, _. split; [done|]. split; [done|lia].
Qed.

Definition others (localID : string) (ps : list Peer) : Z := zlen (filter (fun p => ID p <> localID) ps).

Lemma others_cons lid p ps :
  others lid (p :: ps) = (if bool_decide (ID p = lid) then 0 else 1) + others lid ps.
Proof. unfold others, zlen. rewrite filter_cons. case_bool_decide; case_decide; try done; cbn [length]; lia. Qed.

Lemma others_nonneg lid ps : 0 <= others lid ps.
Proof. apply zlen_nonneg. Qed.

Lemma timedBroadcast_within ctx limit lid ps reply work target epoch : forall now g,
  canceledAt ctx = None -> deadline ctx = Some limit ->
  (forall p, 0 <= work p) -> (forall p, reply_ok (reply p)) ->
  now + sum_by work ps + others lid ps * peerTimeout <= limit ->
  exists b g' t, timedBroadcast ctx lid ps reply work target epoch now g = Some (b, g', t) /\
    broadcastInvalidation lid ps (fun p => within (reply p)) target epoch g = (b, g') /\ t <= limit.
Proof.
  induction ps as [|p ps IH]; intros now g Hc Hd Hw Hr Hl; cbn [timedBroadcast broadcastInvalidation].
  - eexists _, _, _. split; [done|]. split; [done|].
    change (sum_by work []) with 0 in Hl. change (others lid []) with 0 in Hl. lia.
  - rewrite others_cons, sum_by_cons in Hl. pose proof (others_nonneg lid ps). pose proof (Hw p).
    case_bool_decide; [apply IH; try done; lia|].
    assert (0 <= sum_by work ps) by (apply sum_by_nonneg; auto).
    destruct (timedSend_within ctx limit (now + work p) (reply p) Hc Hd) as (sent & t & -> & Es & Ht); [nia|done|].
    cbn. rewrite Es. destruct (within (reply p)).
    + apply IH; try done. nia.
    + destruct (IH t (peerFailed p target epoch g) Hc Hd Hw Hr ltac:(nia)) as (b & g' & t' & -> & -> & Ht').
      cbn. eauto 10.
Qed.

Lemma timedRetry_within ctx limit items reply : forall now g,
  canceledAt ctx = None -> deadline ctx = Some limit -> (forall i, reply_ok (reply i)) ->
  now + zlen items * peerTimeout <= limit ->
  exists b g' t, timedRetry ctx items reply now g = Some (b, g', t) /\
    retryItems (fun i => within (reply i)) items g = (b, g') /\ t <= limit.
Proof.
  induction items as [|i items IH]; intros now g Hc Hd Hr Hl; cbn [timedRetry retryItems].
  - eexists _, _, _. split; [done|]. split; [done|].
    change (zlen (@nil pendingPeerInvalidation)) with 0 in Hl. lia.
  - rewrite (zlen_app [i] items : zlen (i :: items) = _) in Hl. change (zlen [i]) with 1 in Hl.
    pose proof (zlen_nonneg items).
    destruct (timedSend_within ctx limit now (reply i) Hc Hd) as (sent & t & -> & Es & Ht); [nia|done|].
    cbn. rewrite Es. destruct (within (reply i)).
    + apply IH; try done. nia.
    + destruct (IH t g Hc Hd Hr ltac:(nia)) as (b & g' & t' & -> & -> & Ht'). cbn. eauto 10.
Qed.

(** The deadline of a detached context does not depend on the parent. *)
Lemma detached_deadline r start parent :
  peerTimeout * (peerCount r + 1) <= int64_max ->
  canceledAt (detachedInvalidationContext peerTimeout (Some r) start parent) = None /\
  deadline (detachedInvalidationContext peerTimeout (Some r) start parent)
    = Some (start + peerTimeout * (peerCount r + 1)).
Proof.
  intros Hfit. unfold detachedInvalidationContext. rewrite (proj2 (Z.leb_gt _ _)) by done. split; [done|].
  cbn. f_equal. assert (0 <= peerCount r) by apply zlen_nonneg.
  destruct (peerCount r >? 0) eqn:E; [|rewrite Z.gtb_ltb in E; zbool; nia].
  assert (peerCount r + 1 <= int64_max) by nia.
  rewrite add64_id by (int64_unfold; lia). unfold mul64. rewrite wrap64_id; [done|]. int64_unfold. nia.
Qed.

(** C24: one slow peer takes nothing from the others: when the local invalidation and
    the bookkeeping take no longer than one peer timeout, the broadcast after a write
    ends before its deadline, every peer has its whole timeout to answer, and the
    result is the one where each peer was told exactly if it accepts within that timeout,
    however many of the others hang, and whether or not the client has gone away. *)
Theorem slow_peers_take_no_time r start parent reply work target epoch now g :
  peerTimeout * (peerCount r + 1) <= int64_max ->
  (forall p, 0 <= work p) -> (forall p, reply_ok (reply p)) ->
  now - start + sum_by work (peers r) <= peerTimeout ->
  exists b g' t,
    timedBroadcast (detachedInvalidationContext peerTimeout (Some r) start parent) (localID r) (peers r) reply work
      target epoch now g = Some (b, g', t) /\
    (b, g') = broadcastInvalidation (localID r) (peers r) (fun p => within (reply p)) target epoch g /\
    t <= start + peerTimeout * (peerCount r + 1).
Proof.
  intros Hfit Hw Hr Hb. destruct (detached_deadline r start parent Hfit) as [Hc Hd].
  destruct (timedBroadcast_within _ _ (localID r) (peers r) reply work target epoch now g Hc Hd Hw Hr)
    as (b & g' & t & H1 & H2 & H3); [unfold others, peerCount in *; lia|]. eauto 10.
Qed.

(** A retry has the deadline of a broadcast, for as many sends as there are pending
    items: the same holds while they are at most one more than the other peers. *)
Lemma retry_within_budget r start reply items g :
  peerTimeout * (peerCount r + 1) <= int64_max -> (forall i, reply_ok (reply i)) -> zlen items <= peerCount r + 1 ->
  exists b g' t,
    timedRetry (detachedInvalidationContext peerTimeout (Some r) start Background) items reply start g = Some (b, g', t) /\
    (b, g') = retryItems (fun i => within (reply i)) items g.
Proof.
  intros Hfit Hr Hl. destruct (detached_deadline r start Background Hfit) as [Hc Hd].
  destruct (timedRetry_within _ _ items reply start g Hc Hd Hr) as (b & g' & t & H1 & H2 & H3); [nia|]. eauto 10.
Qed.

(** The source that is logged for a send that was stopped is the deadline that came first:
    the one of the broadcast, or the one of this peer. *)
Lemma cancellation_source ctx limit now reply e t :
  canceledAt ctx = None -> deadline ctx = Some limit -> timedSend peerTimeout ctx now reply = Some (Stopped e, t) ->
  classifyPeerInvalidationCancellation (ctxErr ctx t) (ctxErr (requestContext peerTimeout now ctx) t) (Some e)
    = if limit <=? Z.max now (now + peerTimeout) then "parent_context_deadline_exceeded" else "peer_timeout".
Proof.
  intros Hc Hd. unfold timedSend, requestContext, ctxErr. rewrite gtb_true by done.
  unfold ends, WithTimeout. cbn [canceledAt deadline]. rewrite Hc, Hd.
  assert (Hstop : forall T, T = Z.max now (Z.min limit (now + peerTimeout)) ->
    classifyPeerInvalidationCancellation (if limit <=? T then Some DeadlineExceeded else None)
      (if Z.min limit (now + peerTimeout) <=? T then Some DeadlineExceeded else None) (Some DeadlineExceeded)
    = if limit <=? Z.max now (now + peerTimeout) then "parent_context_deadline_exceeded" else "peer_timeout").
  { intros T ->. rewrite (proj2 (Z.leb_le (Z.min _ _) _)) by lia.
    destruct (limit <=? Z.max now (now + peerTimeout)) eqn:E; zbool.
    - by rewrite (proj2 (Z.leb_le _ _)) by lia.
    - by rewrite (proj2 (Z.leb_gt _ _)) by lia. }
  destruct reply; [destruct (_ <? _); [done|]|]; intros [= <- <-]; by apply Hstop.
Qed.

End Clock.

(** The identifier of the client's request stays with the detached context, and its
    cancellation does not. *)
Lemma detached_context peerTimeout router now h ctx :
  let ctx' := detachedInvalidationContext peerTimeout router now
                (contextWithInvalidationRequestID (requestIDFromRequest h) ctx) in
  canceledAt ctx' = None /\
  (TrimSpace (requestIDFromRequest h) <> "" -> invalidationID ctx' = Some (TrimSpace (requestIDFromRequest h))).
Proof.
  cbv zeta. unfold detachedInvalidationContext, contextWithInvalidationRequestID.
  split; [by destruct (_ <=? _)|]. intros Hne. rewrite bool_decide_false by done. by destruct (_ <=? _).
Qed.

(** ** Examples *)

Definition ring3 : list Peer := [mkPeer "p1" "http://p1"; mkPeer "p2" "http://p2"; mkPeer "p3" "http://p3"].
Definition ring3Router : Router :=
  mkRouter "p1" ring3 (list_to_map ((fun p => (ID p, p)) <$> ring3)) (ringFingerprint ring3).

(** [p2] hangs, [p3] answers after nine of ten seconds; the client is already gone. *)
Definition hangingReply (p : Peer) : Reply := if bool_decide (ID p = "p2") then Silent else Answers 9 true.

Lemma slow_peers_take_no_time_witness :
  let g := idlePeering in
  exists g' t, timedBroadcast 10 (detachedInvalidationContext 10 (Some ring3Router) 100 (mkContext None (Some 50) None))
    "p1" ring3 hangingReply (fun _ => 1) (mkTarget "b" "k") 5 101 g = Some (false, g', t) /\
    t <= 130 /\ (pi_peer <$> snapshotPendingPeerInvalidations (retry g')) = [mkPeer "p2" "http://p2"].
Proof.
  cbv zeta.
  destruct (slow_peers_take_no_time 10 ltac:(lia) ring3Router 100 (mkContext None (Some 50) None) hangingReply (fun _ => 1)
    (mkTarget "b" "k") 5 101 idlePeering) as (b & g' & t & H1 & H2 & H3).
  - vm_compute. discriminate.
  - intros p. lia.
  - intros p. unfold hangingReply. destruct (bool_decide _); cbn; lia.
  - vm_compute. discriminate.
  - exists g', t. injection H2 as -> ->. split; [exact H1|]. split; [exact H3|]. vm_compute. reflexivity.
Defined.

(** Three objects pending for the peer that hangs use up the deadline of a retry: the
    item of the peer that would answer at once is not delivered. *)
Example retry_starved :
  let item id key := mkPending (mkPeer id ("http://" +:+ id)) (mkTarget "b" key) 1 in
  let items := [item "p2" "k1"; item "p2" "k2"; item "p2" "k3"; item "p3" "k1"] in
  let reply i := if bool_decide (ID (pi_peer i) = "p2") then Silent else Answers 1 true in
  let g := mkPeering None (set_pending (list_to_map ((fun i => (retryKey (pi_peer i) (pi_target i), i)) <$> items)) (retry idlePeering)) in
  match timedRetry 10 (detachedInvalidationContext 10 (Some ring3Router) 100 Background) items reply 100 g with
  | Some (ok, g', t) => ok = false /\ t = 130 /\ size (pending (retry g')) = 4%nat
  | None => False
  end.
Proof. vm_compute. done. Qed.
