(* ===== verification/Metrics.v ===== *)
(** * Metrics ([internal/metrics/metrics.go])

    The recorder of counters, gauges and histograms and the text it renders. Every
    method of [Recorder] runs under its mutex, so each one is a function on the
    state. Values are [float64] and the counts of a histogram wrap at [2^64];
    [isPrint] is Unicode's table of printable code points. The end of the file has
    the statistics of a request that the proxy records, and the degraded state of
    the proxy next to its gauge. *)

From Stdlib Require Import Ascii SpecFloat.
From stdpp Require Import relations.
From S2P Require Import Prelude GoStrings GoNet GoParse GoFormat ProxyPeers.
Import Strings Quoting FloatText.

Module Metrics.

(** ** State *)

Record histogramSeries := mkSeries { counts : list Z; sum : spec_float; count : Z }.
Record histogram := mkHistogram { buckets : list spec_float; series : gmap string histogramSeries }.

Record Recorder := mkRecorder {
  cacheMaxBytes : Z; cachedBytes : Z; cachedByBucket : gmap string Z;
  peerRingInfo : string; degradedReason : string;
  counters : gmap string (gmap string spec_float);
  histograms : gmap string histogram }.

Definition set_counters c (r : Recorder) : Recorder :=
  mkRecorder (cacheMaxBytes r) (cachedBytes r) (cachedByBucket r) (peerRingInfo r) (degradedReason r) c (histograms r).
Definition set_histograms h (r : Recorder) : Recorder :=
  mkRecorder (cacheMaxBytes r) (cachedBytes r) (cachedByBucket r) (peerRingInfo r) (degradedReason r) (counters r) h.

(** ** Recording *)

Definition fadd : spec_float -> spec_float -> spec_float := SFadd Float.prec Float.emax.
Definition bump (n : Z) : Z := (n + 1) mod 2 ^ 64.

Definition registerHistogram (name : string) (bounds : list spec_float) (r : Recorder) : Recorder :=
  set_histograms (<[name := mkHistogram bounds ∅]> (histograms r)) r.

Definition inc (name labelKey : string) (value : spec_float) (r : Recorder) : Recorder :=
  let m := default ∅ (counters r !! name) in
  set_counters (<[name := <[labelKey := fadd (default (S754_zero false) (m !! labelKey)) value]> m]> (counters r)) r.

(** The counts of the bounds that the value does not exceed, and the last one. *)
Fixpoint bumpCounts (bounds : list spec_float) (value : spec_float) (counts : list Z) : list Z :=
  match bounds, counts with
  | [], n :: counts => bump n :: counts
  | b :: bounds, n :: counts => (if SFleb value b then bump n else n) :: bumpCounts bounds value counts
  | _, [] => []
  end.

Definition histogramObserve (labelKey : string) (value : spec_float) (h : histogram) : histogram :=
  let s := default (mkSeries (replicate (S (length (buckets h))) 0) (S754_zero false) 0) (series h !! labelKey) in
  mkHistogram (buckets h)
    (<[labelKey := mkSeries (bumpCounts (buckets h) value (counts s)) (fadd (sum s) value) (bump (count s))]> (series h)).

Definition observe (name labelKey : string) (value : spec_float) (r : Recorder) : Recorder :=
  match histograms r !! name with
  | None => r
  | Some h => set_histograms (<[name := histogramObserve labelKey value h]> (histograms r)) r
  end.

(** Decimal constants. *)
Definition ints (l : list Z) : list spec_float := Float.of_Z <$> l.
Definition decimals (k : Z) (l : list Z) : list spec_float := (fun n => Float.of_ratio n (10 ^ k)) <$> l.

Definition durationBounds : list spec_float :=
  decimals 3 [1; 5; 10; 25; 50; 100; 250; 500; 1000; 2500; 5000; 10000].

Definition NewRecorder (cacheMaxBytes : Z) : Recorder :=
  let r := mkRecorder cacheMaxBytes 0 ∅ "" "" ∅ ∅ in
  let r := registerHistogram "simple_s3_cache_requested_bytes"
             (ints [0; 1024; 4096; 16384; 65536; 262144; 1048576; 4194304; 16777216; 67108864]) r in
  let r := registerHistogram "simple_s3_cache_pages_touched" (ints [0; 1; 2; 4; 8; 16; 32; 64; 128]) r in
  let r := registerHistogram "simple_s3_cache_read_amplification"
             (Float.of_Z 0 :: decimals 2 [100; 125; 150; 200; 400; 800; 1600; 3200]) r in
  let r := registerHistogram "simple_s3_cache_upstream_duration_seconds" durationBounds r in
  let r := registerHistogram "simple_s3_cache_hit_duration_seconds"
             (decimals 4 [1; 5; 10; 50; 100; 250; 500; 1000; 2500; 5000; 10000]) r in
  let r := registerHistogram "simple_s3_cache_internal_peer_requests_per_client_request"
             (ints [0; 1; 2; 4; 8; 16; 32; 64]) r in
  let r := registerHistogram "simple_s3_cache_page_batch_size" (ints [0; 1; 2; 4; 8; 16; 32; 64; 128]) r in
  let r := registerHistogram "simple_s3_cache_internal_peer_request_duration_seconds" durationBounds r in
  registerHistogram "simple_s3_cache_invalidation_broadcast_duration_seconds" durationBounds r.

(** [d.Seconds()] *)
Definition Seconds (d : Z) : spec_float :=
  fadd (Float.of_Z (Z.quot d Time.Second)) (Float.div (Float.of_Z (Z.rem d Time.Second)) (Float.of_Z Time.Second)).

Section Labels.
Context (isPrint : N -> bool).

(** ** Labels *)

Abbreviation label := (string * string)%type.

Definition labelText (l : label) : string := l.1 +:+ "=" +:+ Quote isPrint l.2.

Definition labels (values : list label) : string :=
  Join (labelText <$> filter (fun l => l.2 <> "") values) ",".

Definition addLabel (labelKey name value : string) : string :=
  let extra := name +:+ "=" +:+ Quote isPrint value in
  if bool_decide (labelKey = "") then extra else labelKey +:+ "," +:+ extra.

Definition bucketLabels (bucket : string) : string := labels [("bucket", bucket)].
Definition pageOwnerLabels (bucket ownerID : string) : string := labels [("bucket", bucket); ("owner_id", ownerID)].
Definition pageOwnerStatusLabels (bucket ownerID statusClass : string) : string :=
  labels [("bucket", bucket); ("owner_id", ownerID); ("status_class", statusClass)].

(** ** The events *)

Definition one : spec_float := Float.of_Z 1.

Definition RecordPageHit (bucket : string) := inc "simple_s3_cache_page_hits_total" (bucketLabels bucket) one.
Definition RecordPageMiss (bucket : string) := inc "simple_s3_cache_page_misses_total" (bucketLabels bucket) one.
Definition RecordPassThrough (bucket method : string) :=
  inc "simple_s3_cache_pass_through_requests_total" (labels [("bucket", bucket); ("method", method)]) one.
Definition RecordInvalidation (bucket : string) := inc "simple_s3_cache_invalidations_total" (bucketLabels bucket) one.
Definition RecordCacheWriteFailure (bucket : string) :=
  inc "simple_s3_cache_cache_write_failures_total" (bucketLabels bucket) one.
Definition RecordEviction (bucket : string) := inc "simple_s3_cache_evictions_total" (bucketLabels bucket) one.
Definition RecordUpstreamFailure (bucket operation : string) :=
  inc "simple_s3_cache_upstream_request_failures_total" (labels [("bucket", bucket); ("operation", operation)]) one.
Definition RecordReadStrategy (bucket strategy : string) :=
  inc "simple_s3_cache_read_strategy_selected_total" (labels [("bucket", bucket); ("strategy", strategy)]) one.
Definition RecordCacheResult (bucket cacheStatus statusClass : string) (bytes : Z) (r : Recorder) : Recorder :=
  let labelKey := labels [("bucket", bucket); ("cache_status", cacheStatus); ("status_class", statusClass)] in
  let r := inc "simple_s3_cache_cache_requests_total" labelKey one r in
  if 0 <? bytes then inc "simple_s3_cache_cache_bytes_total" labelKey (Float.of_Z bytes) r else r.
Definition RecordPeerReadFallback (bucket peerID reason : string) :=
  inc "simple_s3_cache_peer_read_fallbacks_total"
    (labels [("bucket", bucket); ("peer_id", peerID); ("reason", reason)]) one.
Definition RecordCoordinatorRequest (bucket method strategy statusClass : string) :=
  inc "simple_s3_cache_coordinator_requests_total"
    (labels [("bucket", bucket); ("method", method); ("strategy", strategy); ("status_class", statusClass)]) one.
Definition RecordPageOwnerRequest (bucket ownerID statusClass : string) :=
  inc "simple_s3_cache_page_owner_requests_total" (pageOwnerStatusLabels bucket ownerID statusClass) one.
Definition RecordPageOwnerBytesServed (bucket ownerID : string) (bytes : Z) :=
  inc "simple_s3_cache_page_owner_bytes_served_total" (pageOwnerLabels bucket ownerID) (Float.of_Z bytes).
Definition RecordPageOwnerUpstreamFillBytes (bucket ownerID : string) (bytes : Z) :=
  inc "simple_s3_cache_page_owner_upstream_fill_bytes_total" (pageOwnerLabels bucket ownerID) (Float.of_Z bytes).
Definition RecordInvalidationBroadcast (bucket peerID status : string) :=
  inc "simple_s3_cache_invalidation_broadcasts_total"
    (labels [("bucket", bucket); ("peer_id", peerID); ("status", status)]) one.
Definition RecordInternalPeerRequestFailure (bucket peerID reason : string) :=
  inc "simple_s3_cache_internal_peer_request_failures_total"
    (labels [("bucket", bucket); ("peer_id", peerID); ("reason", reason)]) one.
Definition RecordFillCoalesced (bucket result : string) :=
  inc "simple_s3_cache_fill_coalesced_total" (labels [("bucket", bucket); ("result", result)]) one.
Definition RecordBytesServedFromCache (bucket : string) (bytes : Z) :=
  inc "simple_s3_cache_bytes_served_from_cache_total" (bucketLabels bucket) (Float.of_Z bytes).
Definition RecordBytesServedFromUpstream (bucket : string) (bytes : Z) :=
  inc "simple_s3_cache_bytes_served_from_upstream_total" (bucketLabels bucket) (Float.of_Z bytes).
Definition RecordUpstreamFillBytes (bucket : string) (bytes : Z) :=
  inc "simple_s3_cache_upstream_fill_bytes_total" (bucketLabels bucket) (Float.of_Z bytes).

Definition ObserveRequestedBytes (bucket : string) (bytes : Z) :=
  observe "simple_s3_cache_requested_bytes" (bucketLabels bucket) (Float.of_Z bytes).
Definition ObservePagesTouched (bucket : string) (pages : Z) :=
  observe "simple_s3_cache_pages_touched" (bucketLabels bucket) (Float.of_Z pages).
Definition ObserveReadAmplification (bucket : string) (value : spec_float) :=
  observe "simple_s3_cache_read_amplification" (bucketLabels bucket) value.
Definition ObserveUpstreamDuration (bucket operation : string) (d : Z) :=
  observe "simple_s3_cache_upstream_duration_seconds" (labels [("bucket", bucket); ("operation", operation)]) (Seconds d).
Definition ObserveCacheServeDuration (bucket : string) (d : Z) :=
  observe "simple_s3_cache_hit_duration_seconds" (bucketLabels bucket) (Seconds d).
Definition ObserveInternalPeerRequestsPerClientRequest (bucket strategy : string) (count : Z) :=
  observe "simple_s3_cache_internal_peer_requests_per_client_request"
    (labels [("bucket", bucket); ("strategy", strategy)]) (Float.of_Z count).
Definition ObservePageBatchSize (bucket ownerID : string) (pages : Z) :=
  observe "simple_s3_cache_page_batch_size" (pageOwnerLabels bucket ownerID) (Float.of_Z pages).
Definition ObserveInternalPeerRequestDuration (bucket ownerID statusClass : string) (d : Z) :=
  observe "simple_s3_cache_internal_peer_request_duration_seconds" (pageOwnerStatusLabels bucket ownerID statusClass) (Seconds d).
Definition ObserveInvalidationBroadcastDuration (bucket peerID status : string) (d : Z) :=
  observe "simple_s3_cache_invalidation_broadcast_duration_seconds"
    (labels [("bucket", bucket); ("peer_id", peerID); ("status", status)]) (Seconds d).

Definition SetPeerRingInfo (mode localID ringID : string) (peerCount : option Z) (r : Recorder) : Recorder :=
  let values := [("mode", mode); ("local_id", localID); ("ring_id", ringID)]
                ++ match peerCount with Some n => [("peer_count", FormatInt n)] | None => [] end in
  mkRecorder (cacheMaxBytes r) (cachedBytes r) (cachedByBucket r) (labels values) (degradedReason r) (counters r)
    (histograms r).

Definition SetDegraded (reason : string) (r : Recorder) : Recorder :=
  mkRecorder (cacheMaxBytes r) (cachedBytes r) (cachedByBucket r) (peerRingInfo r) (TrimSpace reason) (counters r)
    (histograms r).

Definition SetCachedBytes (total : Z) (byBucket : gmap string Z) (r : Recorder) : Recorder :=
  mkRecorder (cacheMaxBytes r) total byBucket (peerRingInfo r) (degradedReason r) (counters r) (histograms r).

(** ** Rendering *)

Definition nl : string := String newline "".

Definition writeMetricLine (name labelKey : string) (value : spec_float) : string :=
  name +:+ (if bool_decide (labelKey = "") then "" else "{" +:+ labelKey +:+ "}") +:+ " " +:+ FormatFloat value +:+ nl.

Definition typeLine (name kind : string) : string := "# TYPE " +:+ name +:+ " " +:+ kind +:+ nl.

(** [sort.Strings] on the keys. *)
Definition sortedKeys {A} (m : gmap string A) : list string := merge_sort String.le (map_to_list m).*1.

Definition concatMap {A} (f : A -> string) (l : list A) : string := foldr (fun x s => f x +:+ s) "" l.

Definition renderCounters (r : Recorder) : string :=
  concatMap (fun name =>
    typeLine name "counter" +:+
    let m := default ∅ (counters r !! name) in
    concatMap (fun labelKey => writeMetricLine name labelKey (default (S754_zero false) (m !! labelKey))) (sortedKeys m))
  (sortedKeys (counters r)).

Definition renderGauges (r : Recorder) : string :=
  typeLine "simple_s3_cache_cached_bytes" "gauge" +:+
  writeMetricLine "simple_s3_cache_cached_bytes" "" (Float.of_Z (cachedBytes r)) +:+
  concatMap (fun bucket => writeMetricLine "simple_s3_cache_cached_bytes" (bucketLabels bucket)
                             (Float.of_Z (default 0 (cachedByBucket r !! bucket)))) (sortedKeys (cachedByBucket r)) +:+
  typeLine "simple_s3_cache_cache_max_bytes" "gauge" +:+
  writeMetricLine "simple_s3_cache_cache_max_bytes" "" (Float.of_Z (cacheMaxBytes r)) +:+
  (if bool_decide (peerRingInfo r = "") then "" else
     typeLine "simple_s3_cache_peer_ring_info" "gauge" +:+
     writeMetricLine "simple_s3_cache_peer_ring_info" (peerRingInfo r) one) +:+
  typeLine "simple_s3_cache_degraded" "gauge" +:+
  (if bool_decide (degradedReason r = "") then writeMetricLine "simple_s3_cache_degraded" "" (Float.of_Z 0)
   else writeMetricLine "simple_s3_cache_degraded" (labels [("reason_code", degradedReason r)]) one).

Definition renderSeries (name : string) (bounds : list spec_float) (labelKey : string) (s : histogramSeries) : string :=
  concatMap (fun bn => writeMetricLine (name +:+ "_bucket") (addLabel labelKey "le" (FormatFloat bn.1)) (Float.of_Z bn.2))
    (zip bounds (counts s)) +:+
  writeMetricLine (name +:+ "_bucket") (addLabel labelKey "le" "+Inf") (Float.of_Z (default 0 (last (counts s)))) +:+
  writeMetricLine (name +:+ "_sum") labelKey (sum s) +:+
  writeMetricLine (name +:+ "_count") labelKey (Float.of_Z (count s)).

Definition renderHistograms (r : Recorder) : string :=
  concatMap (fun name =>
    typeLine name "histogram" +:+
    match histograms r !! name with
    | None => ""
    | Some h => concatMap (fun labelKey =>
        match series h !! labelKey with None => "" | Some s => renderSeries name (buckets h) labelKey s end)
        (sortedKeys (series h))
    end) (sortedKeys (histograms r)).

Definition Render (r : Recorder) : string := renderCounters r +:+ renderGauges r +:+ renderHistograms r.

Definition contentType : string := "text/plain; version=0.0.4; charset=utf-8".

(** The answer of [Handler]: its content type and body. *)
Definition Handler (r : Recorder) : string * string := (contentType, Render r).

End Labels.

End Metrics.

Import Metrics.

(** ** What is recorded *)

(** The two ways a metric changes; every [Record] and [Observe] method is one or two of
    them. *)
Inductive event :=
| Inc (name labelKey : string) (value : spec_float)
| Observed (name labelKey : string) (value : spec_float).

Definition record (r : Recorder) (e : event) : Recorder :=
  match e with Inc n k v => inc n k v r | Observed n k v => observe n k v r end.

(** The values recorded for a series, in order. *)
Definition incsOf (name key : string) (es : list event) : list spec_float :=
  omap (fun e => match e with
                 | Inc n k v => if bool_decide (n = name /\ k = key) then Some v else None
                 | Observed _ _ _ => None
                 end) es.
Definition observedOf (name key : string) (es : list event) : list spec_float :=
  omap (fun e => match e with
                 | Observed n k v => if bool_decide (n = name /\ k = key) then Some v else None
                 | Inc _ _ _ => None
                 end) es.

(** The reference: how many values do not exceed each bound, how many there are, and
    their sum. *)
Definition tally (vs : list spec_float) (b : spec_float) : Z := zlen (filter (fun v => SFleb v b = true) vs) mod 2 ^ 64.
Definition referenceCounts (bounds : list spec_float) (vs : list spec_float) : list Z :=
  (tally vs <$> bounds) ++ [zlen vs mod 2 ^ 64].
Definition total (vs : list spec_float) : spec_float := foldl fadd (S754_zero false) vs.
Definition referenceSeries (bounds : list spec_float) (vs : list spec_float) : option histogramSeries :=
  if bool_decide (vs = []) then None
  else Some (mkSeries (referenceCounts bounds vs) (total vs) (zlen vs mod 2 ^ 64)).

Lemma bump_mod n : bump (n mod 2 ^ 64) = (n + 1) mod 2 ^ 64.
Proof. unfold bump. by rewrite Zplus_mod_idemp_l. Qed.

Lemma bumpCounts_reference bounds v vs :
  bumpCounts bounds v (referenceCounts bounds vs) = referenceCounts bounds (vs ++ [v]).
Proof.
  unfold referenceCounts, zlen. rewrite length_app, Nat2Z.inj_add. cbn [length].
  induction bounds as [|b bounds IH]; cbn; [by rewrite bump_mod|]. rewrite IH. f_equal.
  unfold tally, zlen. rewrite filter_app, length_app, Nat2Z.inj_add. cbn [filter list_filter].
  case_decide as Hd; cbn [length].
  - rewrite Hd. by rewrite bump_mod.
  - destruct (SFleb v b); [done|]. by rewrite Z.add_0_r.
Qed.

Lemma referenceCounts_nil bounds : referenceCounts bounds [] = replicate (S (length bounds)) 0.
Proof.
  unfold referenceCounts. induction bounds as [|b bounds IH]; [done|]. cbn in *. by rewrite IH.
Qed.

Lemma total_snoc vs v : total (vs ++ [v]) = fadd (total vs) v.
Proof. unfold total. by rewrite foldl_app. Qed.

Lemma histogramObserve_reference h key v vs :
  series h !! key = referenceSeries (buckets h) vs ->
  series (histogramObserve key v h) !! key = referenceSeries (buckets h) (vs ++ [v]).
Proof.
  intros H. assert (Hne : bool_decide (vs ++ [v] = []) = false) by (apply bool_decide_eq_false; by destruct vs).
  unfold histogramObserve. cbn [series]. rewrite lookup_insert_eq, H. unfold referenceSeries. rewrite Hne, total_snoc. clear Hne H. f_equal.
  unfold zlen. rewrite length_app, Nat2Z.inj_add.
  case_bool_decide as Hv; subst; cbn [from_option]; unfold id; cbn [counts sum count].
  - by rewrite <- referenceCounts_nil, bumpCounts_reference.
  - by rewrite bumpCounts_reference, bump_mod.
Qed.

Lemma fresh_histograms max : map_Forall (fun _ h => series h = ∅) (histograms (NewRecorder max)).
Proof. unfold NewRecorder, registerHistogram. cbn. repeat (apply map_Forall_insert_2; [done|]). apply map_Forall_empty. Qed.

Lemma omap_snoc {A B} (f : A -> option B) l x :
  omap f (l ++ [x]) = omap f l ++ match f x with Some y => [y] | None => [] end.
Proof. rewrite omap_app. cbn. by destruct (f x). Qed.

Lemma guard_list {A} (b : bool) (v : A) :
  match (if b then Some v else None) with Some y => [y] | None => [] end = if b then [v] else [].
Proof. by destruct b. Qed.

Definition counter (r : Recorder) (name key : string) : option spec_float := counters r !! name ≫= (.!! key).

Definition series_is (r : Recorder) (name key : string) (h0 : histogram) (vs : list spec_float) : Prop :=
  exists h, histograms r !! name = Some h /\ buckets h = buckets h0 /\
    series h !! key = referenceSeries (buckets h0) vs.

Lemma inc_counter n k v r name key vs :
  counter r name key = (if bool_decide (vs = []) then None else Some (total vs)) ->
  counter (inc n k v r) name key =
    let vs := vs ++ (if bool_decide (n = name /\ k = key) then [v] else []) in
    if bool_decide (vs = []) then None else Some (total vs).
Proof.
  intros H. unfold counter in *. unfold inc. cbn. destruct (decide (n = name)) as [->|Hn].
  - rewrite lookup_insert_eq. cbn. destruct (decide (k = key)) as [->|Hk].
    + rewrite lookup_insert_eq, (bool_decide_true (name = name /\ key = key)) by done.
      rewrite bool_decide_false by (by destruct vs). rewrite total_snoc. f_equal. f_equal.
      destruct (counters r !! name) as [m|]; cbn in *; rewrite ?H, ?lookup_empty; case_bool_decide; subst; done.
    + rewrite lookup_insert_ne by done. rewrite (bool_decide_false (name = name /\ k = key)) by tauto.
      rewrite app_nil_r, <- H. by destruct (counters r !! name).
  - rewrite lookup_insert_ne by done. rewrite (bool_decide_false (n = name /\ k = key)) by tauto.
    by rewrite app_nil_r.
Qed.

Lemma observe_series n k v r name key h0 vs :
  series_is r name key h0 vs ->
  series_is (observe n k v r) name key h0 (vs ++ (if bool_decide (n = name /\ k = key) then [v] else [])).
Proof.
  intros (h & Hh & Hb & Hs). unfold observe. destruct (decide (n = name)) as [->|Hn].
  - rewrite Hh. exists (histogramObserve k v h). cbn. rewrite lookup_insert_eq. split; [done|]. split; [done|].
    destruct (decide (k = key)) as [->|Hk].
    + rewrite bool_decide_true by done. rewrite <- Hb in *. by apply histogramObserve_reference.
    + rewrite bool_decide_false by tauto. rewrite app_nil_r. cbn. by rewrite lookup_insert_ne.
  - rewrite bool_decide_false by tauto. rewrite app_nil_r. exists h. split; [|done].
    destruct (histograms r !! n); [|done]. cbn. by rewrite lookup_insert_ne.
Qed.

(** C29: the recorder is its history: after any sequence of increments and observations, a
    counter is the sum of what was added under its name and labels and nothing else,
    and a series of a histogram counts, for each bound, the observed values that do
    not exceed it, with their number and their sum; a series that was never
    written does not exist. *)
Theorem recorder_reference max es name key :
  let r := foldl record (NewRecorder max) es in
  counter r name key =
    (let vs := incsOf name key es in if bool_decide (vs = []) then None else Some (total vs)) /\
  (forall h0, histograms (NewRecorder max) !! name = Some h0 -> series_is r name key h0 (observedOf name key es)).
Proof.
  cbv zeta. induction es as [|e es IH] using rev_ind.
  - split; [done|]. intros h0 Hh. exists h0. split_and!; [done..|]. cbn.
    pose proof (fresh_histograms max name h0 Hh) as ->. by rewrite lookup_empty.
  - destruct IH as [IHc IHh]. rewrite foldl_app. cbn [foldl]. unfold incsOf, observedOf.
    rewrite !omap_snoc. fold (incsOf name key es) (observedOf name key es).
    destruct e as [n k v|n k v]; cbn [record]; (split; [|intros h0 Hh0; specialize (IHh h0 Hh0)]).
    + rewrite (inc_counter _ _ _ _ _ _ (incsOf name key es)) by exact IHc. by rewrite guard_list.
    + rewrite app_nil_r. exact IHh.
    + rewrite app_nil_r. rewrite <- IHc. unfold counter, observe. by destruct (histograms _ !! n).
    + rewrite guard_list. by apply observe_series.
Qed.

Definition demoEvents : list event :=
  [Inc "simple_s3_cache_page_hits_total" "" one; Observed "simple_s3_cache_pages_touched" "" (Float.of_Z 3);
   Inc "simple_s3_cache_page_hits_total" "" one; Observed "simple_s3_cache_pages_touched" "" (Float.of_Z 1)].

Lemma recorder_reference_witness :
  counter (foldl record (NewRecorder 1024) demoEvents) "simple_s3_cache_page_hits_total" "" = Some (Float.of_Z 2) /\
  series_is (foldl record (NewRecorder 1024) demoEvents) "simple_s3_cache_pages_touched" ""
    (mkHistogram (ints [0; 1; 2; 4; 8; 16; 32; 64; 128]) ∅) [Float.of_Z 3; Float.of_Z 1].
Proof.
  split.
  - exact (proj1 (recorder_reference 1024 demoEvents "simple_s3_cache_page_hits_total" "")).
  - refine (proj2 (recorder_reference 1024 demoEvents "simple_s3_cache_pages_touched" "") _ _).
    vm_compute. reflexivity.
Defined.

(** ** Label keys *)

Section Keys.
Context (isPrint : N -> bool).

(** A name as the sources write them. *)
Definition plainName (name : string) : bool :=
  negb (ContainsByte name "=") && negb (ContainsByte name newline) && negb (bool_decide (name = "")).

Lemma Join_first p ps : Join (p :: ps) "," = p +:+ match ps with [] => "" | _ => "," +:+ Join ps "," end.
Proof. destruct ps; cbn; [by rewrite append_nil_r|done]. Qed.

Lemma labels_cons n v l : labels isPrint ((n, v) :: l) =
  if bool_decide (v = "") then labels isPrint l
  else n +:+ "=" +:+ Quote isPrint v +:+
         (if bool_decide (labels isPrint l = "") then "" else "," +:+ labels isPrint l).
Proof.
  unfold labels. cbn [filter list_filter]. case_bool_decide as Hv; case_decide as Hd; cbn in Hd; try done.
  cbn [fmap list_fmap]. rewrite Join_first. unfold labelText at 1. cbn [fst snd].
  rewrite !append_assoc. do 3 f_equal. set (ps := labelText isPrint <$> _).
  assert (Hps : Join ps "," = "" -> ps = []).
  { subst ps. destruct (filter _ l) as [|[n' v'] l'] eqn:E; [done|]. cbn [fmap list_fmap]. rewrite Join_first.
    unfold labelText at 1. cbn [fst snd]. rewrite append_assoc. intros H.
    destruct n'; [|done]. cbn in H. by destruct (Quote isPrint v'). }
  case_bool_decide as Hj; [by rewrite (Hps Hj)|]. by destruct ps.
Qed.

(** A key that is not empty starts with one of its names. *)
Lemma labels_head l : labels isPrint l = "" \/ exists n z, n ∈ l.*1 /\ labels isPrint l = n +:+ "=" +:+ z.
Proof.
  induction l as [|[n v] l IH]; [by left|]. rewrite labels_cons. case_bool_decide.
  - destruct IH as [IH|(n' & z & Hn & IH)]; [by left|]. right. exists n', z. split; [by apply elem_of_cons; right|done].
  - right. eexists n, _. split; [by apply elem_of_cons; left|]. reflexivity.
Qed.

Lemma name_cut n n' x y : plainName n = true -> plainName n' = true ->
  n +:+ "=" +:+ x = n' +:+ "=" +:+ y -> n = n' /\ x = y.
Proof.
  unfold plainName. intros Hn Hn' H.
  apply andb_true_iff in Hn as [[Hn%negb_true_iff _]%andb_true_iff _], Hn' as [[Hn'%negb_true_iff _]%andb_true_iff _].
  apply (Cut_append n "="%char x) in Hn. apply (Cut_append n' "="%char y) in Hn'.
  change (String "=" x) with ("=" +:+ x) in Hn. change (String "=" y) with ("=" +:+ y) in Hn'.
  rewrite H, Hn' in Hn. by injection Hn.
Qed.

Lemma not_head n l v z : Forall (fun n => plainName n = true) (n :: l.*1) -> n ∉ l.*1 -> v <> "" ->
  labels isPrint l <> n +:+ "=" +:+ z.
Proof.
  intros Hp Hn Hv E. apply Forall_cons in Hp as [Hn1 Hp].
  destruct (labels_head l) as [E'|(m & z' & Hm & E')]; rewrite E' in E; [by destruct n|].
  rewrite Forall_forall in Hp. apply name_cut in E as [-> _]; auto.
Qed.

Lemma labels_inj names : Forall (fun n => plainName n = true) names -> NoDup names ->
  forall vs vs', length vs = length names -> length vs' = length names ->
  labels isPrint (zip names vs) = labels isPrint (zip names vs') -> vs = vs'.
Proof.
  induction names as [|n names IH]; intros Hp Hnd [|v vs] [|v' vs'] Hl Hl' H; try done.
  cbn [zip zip_with] in H. rewrite !labels_cons in H. injection Hl as Hl. injection Hl' as Hl'.
  apply NoDup_cons in Hnd as [Hn Hnd].
  assert (Hfst : forall ws : list string, length ws = length names -> (zip names ws).*1 = names)
    by (intros ws Hw; apply fst_zip; lia).
  assert (Hrest : forall w z (ws : list string), length ws = length names -> w <> "" ->
            labels isPrint (zip names ws) <> n +:+ "=" +:+ z).
  { intros w z ws Hw Hne. eapply (not_head n _ w); [|by rewrite Hfst|done]. by rewrite Hfst. }
  apply Forall_cons in Hp as [Hp1 Hp].
  destruct (decide (v = "")) as [->|Hv], (decide (v' = "")) as [->|Hv'];
    rewrite ?(bool_decide_true ("" = "")), ?(bool_decide_false _ Hv), ?(bool_decide_false _ Hv') in H by done.
  - f_equal. by apply IH.
  - exfalso. by apply (Hrest _ _ _ Hl Hv') in H.
  - exfalso. symmetry in H. by apply (Hrest _ _ _ Hl' Hv) in H.
  - apply name_cut in H as [_ H]; [|done..]. apply Quote_cut in H as [-> H]. f_equal. apply IH; try done.
    repeat case_bool_decide; try done; [congruence|]. by injection H.
Qed.

Lemma labels_line names : Forall (fun n => plainName n = true) names -> forall vs,
  ContainsByte (labels isPrint (zip names vs)) newline = false.
Proof.
  induction 1 as [|n names Hp1 Hp IH]; intros [|v vs]; try done.
  cbn [zip zip_with]. rewrite labels_cons. destruct (bool_decide (v = "")); [done|].
  unfold plainName in Hp1. apply andb_true_iff in Hp1 as [[_ Hp1%negb_true_iff]%andb_true_iff _].
  rewrite !ContainsByte_append, Hp1, Quote_line. cbn. case_bool_decide; [done|]. apply IH.
Qed.

(** Label values never mix: two lists of values for the same distinct names that give
    the same key are the same list, whatever bytes they contain, and no key contains a line
    break, so that a client cannot forge a line of the output by the name of its
    bucket. *)
Theorem label_keys_separate names vs vs' :
  Forall (fun n => plainName n = true) names -> NoDup names -> length vs = length names -> length vs' = length names ->
  ContainsByte (labels isPrint (zip names vs)) newline = false /\
  (labels isPrint (zip names vs) = labels isPrint (zip names vs') -> vs = vs').
Proof. intros Hp Hnd Hl Hl'. split; [by apply labels_line|by apply labels_inj]. Qed.

End Keys.

Lemma label_keys_separate_witness :
  ContainsByte (labels (fun _ => false) [("bucket", str_of_bytes [10; 34]%N); ("method", "GET")]) newline = false /\
  labels (fun _ => false) [("bucket", "a"); ("method", "GET")] <> labels (fun _ => false) [("bucket", "a,method"); ("method", "")].
Proof.
  split.
  - apply (label_keys_separate (fun _ => false) ["bucket"; "method"] [str_of_bytes [10; 34]%N; "GET"] ["a"; "b"]);
      [repeat constructor|repeat constructor; set_solver|reflexivity..].
  - intros E. apply (label_keys_separate (fun _ => false) ["bucket"; "method"] ["a"; "GET"] ["a,method"; ""]) in E;
      [discriminate|repeat constructor|repeat constructor; set_solver|reflexivity..].
Defined.

(** ** What a scraper accepts *)

(** A label value of the Prometheus text format: after a backslash only a backslash, a
    quote or an [n]. *)
Fixpoint promValue (s : string) : bool :=
  match s with
  | EmptyString => true
  | String c r =>
      if Ascii.eqb c backslash then
        match r with
        | String d r' => (Ascii.eqb d backslash || Ascii.eqb d quote || Ascii.eqb d "n") && promValue r'
        | EmptyString => false
        end
      else promValue r
  end.

(** [strconv.Quote] writes more escapes than that: the name of a bucket that contains a
    control character, which a client can put in the path of its request, gives a label
    that the format does not allow. *)
Example control_character_breaks_format :
  promValue (labels (fun _ => true) [("bucket", "photos")]) = true /\
  promValue (labels (fun _ => true) [("bucket", str_of_bytes [1]%N)]) = false.
Proof. vm_compute. done. Qed.

(** ** Statistics of a request *)

(** The fields of [requestStats] that are recorded; the others are only logged. *)
Record requestStats := mkStats {
  st_method : string; st_bucket : string; st_cacheResult : string; st_bytesRequested : Z;
  st_pagesRequested : Z; st_pagesHit : Z; st_pagesMissed : Z; st_bytesSent : Z; st_bytesFetchedUpstream : Z;
  st_cacheServeDuration : Z; st_status : Z; st_peerMode : string; st_readStrategy : string;
  st_internalPeerRequests : Z }.

Definition readAmplification (s : requestStats) : spec_float :=
  if st_bytesRequested s <=? 0 then Float.of_Z 0
  else Float.div (Float.of_Z (st_bytesFetchedUpstream s)) (Float.of_Z (st_bytesRequested s)).

(** The result that [finishCachedResult] leaves. *)
Definition finishCachedResult (s : requestStats) : string :=
  if st_pagesRequested s =? 0 then st_cacheResult s
  else if st_pagesMissed s =? 0 then "hit" else if st_pagesHit s =? 0 then "miss" else "mixed".

Definition peerStatusClass (status : Z) : string :=
  if status <? 100 then "error" else FormatInt (Z.quot status 100) +:+ "xx".

Section Recording.
Context (isPrint : N -> bool).

(** [recordMetrics] of a proxy that has a recorder. *)
Definition recordMetrics (s : requestStats) (r : Recorder) : Recorder :=
  let bucket := st_bucket s in
  let r :=
    if bool_decide (st_cacheResult s ∈ ["pass_through"; "fallback"]) then
      let r := RecordPassThrough isPrint bucket (st_method s) r in
      if 0 <? st_bytesSent s then RecordBytesServedFromUpstream isPrint bucket (st_bytesSent s) r else r
    else if bool_decide (st_cacheResult s ∈ ["hit"; "mixed"; "miss"]) then
      if 0 <? st_bytesSent s then RecordBytesServedFromCache isPrint bucket (st_bytesSent s) r else r
    else r in
  let r := if bool_decide (st_cacheResult s = "") then r
           else RecordCacheResult isPrint bucket (st_cacheResult s) (peerStatusClass (st_status s)) (st_bytesSent s) r in
  let r := if 0 <? st_bytesRequested s
           then ObserveReadAmplification isPrint bucket (readAmplification s)
                  (ObserveRequestedBytes isPrint bucket (st_bytesRequested s) r) else r in
  let r := if bool_decide (st_readStrategy s = "") then r else RecordReadStrategy isPrint bucket (st_readStrategy s) r in
  let r := if bool_decide (st_peerMode s = "peer") && negb (bool_decide (st_readStrategy s = ""))
           then RecordCoordinatorRequest isPrint bucket (st_method s) (st_readStrategy s) (peerStatusClass (st_status s)) r
           else r in
  let r := if (0 <? st_internalPeerRequests s) || bool_decide (st_readStrategy s = "page")
           then ObserveInternalPeerRequestsPerClientRequest isPrint bucket (st_readStrategy s) (st_internalPeerRequests s) r
           else r in
  let r := if 0 <? st_pagesRequested s then ObservePagesTouched isPrint bucket (st_pagesRequested s) r else r in
  if 0 <? st_cacheServeDuration s then ObserveCacheServeDuration isPrint bucket (st_cacheServeDuration s) r else r.

End Recording.

(** ** The degraded gauge *)

(** The degraded state of the proxy, the gauge, and the calls of [SetDegraded] that
    [markDegradedWithContext] makes after it has released the lock. *)
Record Gauged := mkGauged { ga_state : option DegradedState; ga_gauge : string; ga_pending : list string }.

Inductive gauge_step : Gauged -> Gauged -> Prop :=
| MarkLocked reason context s g p s' :
    markDegradedWithContext reason context s = (s', true) ->
    gauge_step (mkGauged s g p) (mkGauged s' g (p ++ [default "" (Code <$> s')]))
| MarkKept reason context s g p s' :
    markDegradedWithContext reason context s = (s', false) -> gauge_step (mkGauged s g p) (mkGauged s' g p)
| MarkSet s g p q code : gauge_step (mkGauged s g (p ++ code :: q)) (mkGauged s (TrimSpace code) (p ++ q))
| ClearLocked code s g p s' : clearDegradedIfCode code s = (s', true) -> gauge_step (mkGauged s g p) (mkGauged s' "" p)
| ClearKept code s g p s' : clearDegradedIfCode code s = (s', false) -> gauge_step (mkGauged s g p) (mkGauged s' g p).

(** The gauge can contradict the state for good: [markDegradedWithContext] sets it after the
    lock and [clearDegradedIfCode] under it, so that a recovery between the two leaves a
    proxy that is ready, with nothing left to run, whose metrics say that it is
    degraded. *)
Theorem degraded_gauge_race :
  exists g, rtc gauge_step (mkGauged None "" []) g /\ ga_state g = None /\ ga_pending g = [] /\
    ga_gauge g = "peer_invalidation_failed".
Proof.
  set (code := "peer_invalidation_failed"). set (d := newDegradedState "peer invalidation failed" []).
  assert (Hcode : Code d = code) by (vm_compute; reflexivity).
  exists (mkGauged None (TrimSpace code) []). split; [|split; [done|split; [done|vm_compute; reflexivity]]].
  apply (rtc_l _ _ (mkGauged (Some d) "" ([] ++ [code]))).
  { rewrite <- Hcode. by apply (MarkLocked "peer invalidation failed" [] None "" [] (Some d)). }
  apply (rtc_l _ _ (mkGauged None "" ([] ++ code :: []))).
  { apply (ClearLocked code (Some d)). unfold clearDegradedIfCode. by rewrite Hcode, bool_decide_true. }
  apply rtc_once. apply (MarkSet None "" [] []).
Qed.
