(* ===== verification/CacheGauges.v ===== *)
(** * The gauges of the cache ([internal/cache/cache.go], [internal/metrics/metrics.go])

    The cache publishes its size to the metrics recorder from its maintenance worker, not
    where it changes: an operation that moves the size counters leaves a signal in a
    channel of one element, the worker notes it and publishes at the next tick. This file
    composes the operations, the worker and the recorder, and shows that no change is
    forgotten. *)

From stdpp Require Import relations.
From S2P Require Import Prelude GoStrings GoNet Metrics.
From S2P Require Import Sha256 PageFrame CachePath CacheDB CacheStore CacheLogic CacheInv CacheOps CacheSize.

(** ** Publication *)

Definition currentSizeByBucket (c : Cache) : gmap string Z := cachedByBucket (mem c).

Definition publishCacheSizeMetrics (c : Cache) (r : Metrics.Recorder) : Metrics.Recorder :=
  if metrics (cfg c) then Metrics.SetCachedBytes (currentSize c) (currentSizeByBucket c) r else r.

(** The cache, the state of the maintenance loop and the recorder. *)
Record Gauges := mkGauges {
  ga_cache : Cache; ga_touches : gset pageRef; ga_dirty : bool; ga_recorder : Metrics.Recorder; ga_running : bool }.

(** [Open] publishes before it starts the worker. *)
Definition opened (c : Cache) (max : Z) : Gauges :=
  mkGauges c ∅ false (publishCacheSizeMetrics c (Metrics.NewRecorder max)) true.

(** What an iteration of the loop publishes. *)
Definition publishes (ev : event) (dirty : bool) : bool :=
  match ev with EvDone _ => true | TickMetrics => dirty | _ => false end.

(** One iteration of the loop with these failures and this clock; it does not fail
    ([maintenanceStep_total]). *)
Definition iterate (ev : event) (fl : list (option fault)) (cl : list Z) (g : Gauges) : Gauges :=
  let '(res, c) := maintenanceStep ev (ga_touches g) (ga_dirty g) (set_env fl cl (ga_cache g)) in
  let res := match res with Ok res => res | Err _ => None end in
  mkGauges c (from_option fst (ga_touches g) res) (from_option snd (ga_dirty g) res)
    (if publishes ev (ga_dirty g) then publishCacheSizeMetrics c (ga_recorder g) else ga_recorder g)
    (bool_decide (is_Some res)).

(** An operation, or one iteration of the loop, with any failures and any clock. *)
Inductive gauges_step `{HeaderCodec} : Gauges -> Gauges -> Prop :=
| G_op o fl cl c t d r run :
    (forall ev p b, o <> OpMaintenance ev p b) ->
    gauges_step (mkGauges c t d r run) (mkGauges (CacheOps.run o (set_env fl cl c)).2 t d r run)
| G_worker ev fl cl g : ga_running g = true -> gauges_step g (iterate ev fl cl g).

(** [Close]: the worker sees the cancellation, flushes the touches, publishes and ends;
    then the database is closed. Iterations that the worker still makes before it sees
    the cancellation are steps before this one. *)
Definition Close (order : list pageRef) (fl : list (option fault)) (cl : list Z) (g : Gauges)
    : result CacheError () * Gauges :=
  let '(_, c) := maintenanceStep (EvDone order) (ga_touches g) (ga_dirty g) (set_env fl cl (ga_cache g)) in
  let '(r, c') := call "" c in
  (r, mkGauges c' (ga_touches g) (ga_dirty g) (publishCacheSizeMetrics c (ga_recorder g)) false).

(** ** Operations signal what they change *)

Definition sizes (c : Cache) : Z * gmap string Z := (cachedSize (mem c), cachedByBucket (mem c)).

(** The counters are as they were, or there is a signal. *)
Definition signalled (c c' : Cache) : Prop :=
  cfg c' = cfg c /\ (metrics (cfg c) = true ->
    metricsCh (mem c') = true \/ sizes c' = sizes c /\ metricsCh (mem c') = metricsCh (mem c)).

#[export] Instance signalled_preorder : PreOrder signalled.
Proof.
  split.
  - intros c. split; auto.
  - intros c1 c2 c3 [E1 H1] [E2 H2]. split; [congruence|]. intros Hm. rewrite E1 in H2.
    destruct (H2 Hm) as [?|[-> ->]]; auto.
Qed.

Definition signals {A} (m : M A) : Prop := forall c, wp m (fun _ c' => signalled c c') c.

Lemma signals_ret {A} (a : A) : signals (mret a).
Proof. intros c. apply (reflexivity (R := signalled)). Qed.
Lemma signals_fail {A} e : signals (fail (A := A) e).
Proof. intros c. apply (reflexivity (R := signalled)). Qed.
Lemma signals_get : signals get.
Proof. intros c. apply (reflexivity (R := signalled)). Qed.
Lemma signals_bind {A B} (m : M A) (f : A -> M B) : signals m -> (forall a, signals (f a)) -> signals (m ≫= f).
Proof.
  intros Hm Hf c. wp_step. eapply wp_mono; [apply Hm|]. intros [a|e] c' Hc'; [|done].
  eapply wp_mono; [apply Hf|]. intros r c'' Hc''. by transitivity c'.
Qed.
Lemma signals_try {A} (m : M A) : signals m -> signals (try m).
Proof. intros Hm c. wp_step. apply Hm. Qed.
Lemma signals_when b m : signals m -> signals (when b m).
Proof. destruct b; [done|]. intros _. apply signals_ret. Qed.
Lemma signals_if {A} (b : bool) (m m' : M A) : signals m -> signals m' -> signals (if b then m else m').
Proof. by destruct b. Qed.

(** A change of anything but the counters and the channel. *)
Lemma signals_modify f : (forall c, cfg (f c) = cfg c /\ sizes (f c) = sizes c /\ metricsCh (mem (f c)) = metricsCh (mem c)) ->
  signals (modify f).
Proof. intros Hf c. apply wp_modify. destruct (Hf c) as (? & ? & ?). split; auto. Qed.

Lemma signals_adjust bucket delta : signals (adjustCacheSize bucket delta;; requestMetricsRefresh).
Proof.
  intros c. wp_step. apply wp_modify. apply wp_modify. cbv zeta.
  set (c1 := if delta =? 0 then c else _).
  assert (E : cfg c1 = cfg c) by (unfold c1; by destruct (delta =? 0)). rewrite E.
  destruct (metrics (cfg c)) eqn:Em; (split; [done|]); [by left|]. intros Hm. congruence.
Qed.

Lemma signals_adjust_then {A} bucket delta (k : M A) : signals k ->
  signals (adjustCacheSize bucket delta;; requestMetricsRefresh;; k).
Proof.
  intros Hk c. pose proof (signals_bind _ (fun _ => k) (signals_adjust bucket delta) (fun _ => Hk) c) as H.
  unfold wp, mbind, M_bind in *. by destruct (adjustCacheSize bucket delta c) as [[] ?].
Qed.

Lemma signals_requestMetricsRefresh : signals requestMetricsRefresh.
Proof. intros c. apply wp_modify. destruct (metrics (cfg c)) eqn:E; split; auto. Qed.

Ltac signals_modify := apply signals_modify; intros ?; repeat case_match; done.

Lemma signals_outcome : signals outcome.
Proof. intros c. unfold wp, outcome. destruct (faults c); split; auto. Qed.
Lemma signals_timeNow : signals timeNow.
Proof. intros c. unfold wp, timeNow. destruct (clock c); split; auto. Qed.
Lemma signals_of_option {A} e (o : option A) : signals (of_option e o).
Proof. destruct o; [apply signals_ret|apply signals_fail]. Qed.
Lemma signals_lift {A} (r : result CommitError A) : signals (liftCommit r).
Proof. destruct r; [apply signals_ret|apply signals_fail]. Qed.

Lemma signals_orElse {A B} (m : M A) (cleanup : M B) : signals m -> signals cleanup -> signals (orElse m cleanup).
Proof.
  intros Hm Hc. apply signals_bind; [by apply signals_try|]. intros [a|e]; [apply signals_ret|].
  apply signals_bind; [by apply signals_try|]. intros ?. apply signals_fail.
Qed.

(** One rule per construct; the pair that moves the counters is taken whole. *)
Ltac signals_step :=
  lazymatch goal with
  | |- signals (mbind (fun _ => requestMetricsRefresh) (adjustCacheSize _ _)) => apply signals_adjust
  | |- signals (mbind (fun _ => mbind _ requestMetricsRefresh) (adjustCacheSize _ _)) => apply signals_adjust_then
  | |- signals (orElse _ _) => apply signals_orElse
  | |- signals (mret _) => apply signals_ret
  | |- signals (mbind _ _) => apply signals_bind; [|intros ?]
  | |- signals get => apply signals_get
  | |- signals outcome => apply signals_outcome
  | |- signals timeNow => apply signals_timeNow
  | |- signals (try _) => apply signals_try
  | |- signals (when _ _) => apply signals_when
  | |- signals (fail _) => apply signals_fail
  | |- signals (of_option _ _) => apply signals_of_option
  | |- signals (liftCommit _) => apply signals_lift
  | |- signals (if _ then _ else _) => apply signals_if
  | |- signals (match ?o with _ => _ end) => destruct o
  | |- signals (let _ := _ in _) => cbv zeta
  | |- signals requestMetricsRefresh => apply signals_requestMetricsRefresh
  | |- signals (modify _) => signals_modify
  | |- signals _ => solve [auto with gauges nocore]
  end.
Ltac signals_go := repeat signals_step.

Create HintDb gauges discriminated.

Lemma signals_call what : signals (call what).
Proof. unfold call. signals_go. Qed.
Lemma signals_call_ : signals call_.
Proof. unfold call_. signals_go. Qed.
Lemma signals_timestamp : signals timestamp.
Proof. unfold timestamp. signals_go. Qed.
#[local] Hint Resolve signals_call signals_call_ signals_timestamp : gauges.

Lemma signals_deferring {A B} (m : M A) (cleanup : M B) : signals m -> signals cleanup -> signals (deferring m cleanup).
Proof. intros Hm Hc. unfold deferring. signals_go. Qed.

Lemma signals_removeFile w p : signals (removeFile w p).
Proof. unfold removeFile. signals_go. Qed.
Lemma signals_removeFile_ p : signals (removeFile_ p).
Proof. unfold removeFile_. signals_go. Qed.
Lemma signals_removeTemp h : signals (removeTemp h).
Proof. unfold removeTemp. signals_go. Qed.
Lemma signals_renameTemp h p : signals (renameTemp h p).
Proof. unfold renameTemp. signals_go. Qed.
#[local] Hint Resolve signals_removeFile signals_removeFile_ signals_removeTemp signals_renameTemp : gauges.
Lemma signals_removeFiles w ps : signals (removeFiles w ps).
Proof. induction ps; cbn [removeFiles]; signals_go. Qed.
Lemma signals_getPage id i : signals (getPage id i).
Proof. unfold getPage. signals_go. Qed.
Lemma signals_pageBucket_ id : signals (pageBucket_ id).
Proof. unfold pageBucket_, pageBucket. signals_go. Qed.
Lemma signals_deletePage id i : signals (deletePage id i).
Proof. unfold deletePage. signals_go. Qed.
Lemma signals_deletePageIfCurrent p : signals (deletePageIfCurrent p).
Proof. unfold deletePageIfCurrent. signals_go. Qed.
Lemma signals_validatePage p : signals (validatePage p).
Proof. unfold validatePage. signals_go. Qed.
#[local] Hint Resolve signals_removeFiles signals_getPage signals_pageBucket_ signals_deletePage
  signals_deletePageIfCurrent signals_validatePage : gauges.
Lemma signals_Abort h : signals (Abort h).
Proof. unfold Abort, writer, set_writerM. signals_go. destruct a1, a2; signals_go. Qed.
Lemma signals_Write h d : signals (Write h d).
Proof. unfold Write, writer, set_writerM, appendTemp. signals_go. Qed.
#[local] Hint Resolve signals_Abort signals_Write : gauges.
Lemma signals_putPageIfCurrent p e : signals (putPageIfCurrent p e).
Proof. unfold putPageIfCurrent. signals_go. Qed.
#[local] Hint Resolve signals_deferring signals_putPageIfCurrent : gauges.
Lemma signals_Commit h : signals (Commit h).
Proof.
  unfold Commit, writer, set_writerM, requestEviction. signals_go.
Qed.

Lemma signals_copyToWriter fuel buf h n src : signals (copyToWriter fuel buf h n src).
Proof.
  revert n src. induction fuel as [|fuel IH]; intros n src; cbn [copyToWriter]; [signals_go|].
  destruct (Io.Read _ _) as [[got rerr] src']. signals_go.
Qed.
Lemma signals_BeginPageWrite o : signals (BeginPageWrite o).
Proof. unfold BeginPageWrite, validatePageCommit, pageBucket. signals_go. Qed.
#[local] Hint Resolve signals_Commit signals_copyToWriter signals_BeginPageWrite : gauges.
Lemma signals_StorePage buf w : signals (StorePage buf w).
Proof. unfold StorePage. signals_go. apply signals_deferring; signals_go. Qed.
Lemma signals_OpenPage id i e n : signals (OpenPage id i e n).
Proof. unfold OpenPage, requestTouch. signals_go. Qed.
Lemma signals_InvalidateObject b k n : signals (InvalidateObject b k n).
Proof. unfold InvalidateObject. signals_go. Qed.
Lemma signals_PutObject `{HeaderCodec} meta : signals (PutObject meta).
Proof. unfold PutObject, ensureGeneration, generation, GetObject, unmarshalHeaders. signals_go. Qed.
Lemma signals_GetObject `{HeaderCodec} b k : signals (GetObject b k).
Proof. unfold GetObject, unmarshalHeaders. signals_go. Qed.
Lemma signals_removePage p : signals (removePage p).
Proof. unfold removePage, recordEviction. signals_go. Qed.
#[local] Hint Resolve signals_StorePage signals_OpenPage signals_InvalidateObject signals_PutObject signals_GetObject
  signals_removePage : gauges.
Lemma signals_removeUntil t n ps : signals (removeUntil t n ps).
Proof. revert n. induction ps; intros n; cbn [removeUntil]; signals_go. Qed.
#[local] Hint Resolve signals_removeUntil : gauges.
Lemma signals_evictLoop fuel : signals (evictLoop fuel).
Proof. unfold oldestPages. induction fuel; cbn [evictLoop]; unfold oldestPages; signals_go. Qed.
Lemma signals_evictBucketLoop fuel b max : signals (evictBucketLoop fuel b max).
Proof. induction fuel; cbn [evictBucketLoop]; unfold oldestPagesForBucket; signals_go. Qed.
#[local] Hint Resolve signals_evictLoop signals_evictBucketLoop : gauges.
Lemma signals_evictBuckets order : signals (evictBuckets order).
Proof. induction order; cbn [evictBuckets]; signals_go. Qed.
Lemma signals_touchAll now order pending : signals (touchAll now order pending).
Proof. revert pending. induction order; intros pending; cbn [touchAll]; unfold touchPage; signals_go. Qed.
#[local] Hint Resolve signals_evictBuckets signals_touchAll : gauges.
Lemma signals_flushTouches order pending : signals (flushTouches order pending).
Proof. unfold flushTouches. signals_go. Qed.
#[local] Hint Resolve signals_flushTouches : gauges.

(** Every operation. *)
Lemma signals_run `{HeaderCodec} o : (forall ev p b, o <> OpMaintenance ev p b) -> signals (run o).
Proof.
  intros Hne. destruct o; cbn [run]; try (by destruct (Hne ev pending dirty)); unfold DeleteObject, ListPages; signals_go.
Qed.

(** Every iteration of the worker, except the one that takes the signal. *)
Lemma signals_maintenanceStep ev t d : ev <> EvMetrics -> signals (maintenanceStep ev t d).
Proof.
  intros Hne. destruct ev; [| |done| | | | |]; cbn [maintenanceStep].
  all: unfold drainEviction, Evict, collectMetadata, deleteOldPageLessObjects,
    deleteOldUnreferencedGenerations, checkpointSQLite, calls; signals_go.
  intros c. unfold wp, popTouch. destruct (touchCh (mem c)); split; auto.
Qed.

(** ** No change is forgotten *)

(** The gauges show the counters. *)
Definition shows (r : Metrics.Recorder) (c : Cache) : Prop :=
  Metrics.cachedBytes r = cachedSize (mem c) /\ Metrics.cachedByBucket r = cachedByBucket (mem c).

(** The gauges show the counters, or a signal or the flag of the worker is set. *)
Definition tracked (g : Gauges) : Prop :=
  metrics (cfg (ga_cache g)) = true ->
  shows (ga_recorder g) (ga_cache g) \/ metricsCh (mem (ga_cache g)) = true \/ ga_running g = true /\ ga_dirty g = true.

Lemma shows_published c r : metrics (cfg c) = true -> shows (publishCacheSizeMetrics c r) c.
Proof. intros Hm. unfold publishCacheSizeMetrics. by rewrite Hm. Qed.

Lemma tracked_opened c max : tracked (opened c max).
Proof. intros Hm. left. by apply shows_published. Qed.

(** After a change that signals, what was tracked still is. *)
Lemma tracked_signalled c c' r (d : Prop) : signalled c c' -> metrics (cfg c') = true ->
  (metrics (cfg c) = true -> shows r c \/ metricsCh (mem c) = true \/ d) ->
  shows r c' \/ metricsCh (mem c') = true \/ d.
Proof.
  intros [E Hs] Hm Ht. rewrite E in Hm. destruct (Hs Hm) as [?|[Hz Hc]]; [by right; left|].
  rewrite Hc. destruct (Ht Hm) as [H|?]; [left|by right]. unfold shows, sizes in *. by injection Hz as -> ->.
Qed.

Lemma set_env_signalled fl cl c c' : signalled (set_env fl cl c) c' -> signalled c c'.
Proof. done. Qed.

Section Tracking.
Context `{HeaderCodec}.

(** The flag after an iteration. *)
Lemma maintenanceStep_dirty ev t d c res c' : maintenanceStep ev t d c = (Ok (Some res), c') ->
  res.2 = match ev with EvMetrics => true | TickMetrics => false | _ => d end.
Proof.
  destruct ev; cbn [maintenanceStep]; unfold mbind, M_bind, mret, M_ret, try, flushTouches;
    repeat case_match; intros; simplify_eq; done.
Qed.

(** Only the cancellation ends the loop. *)
Lemma maintenanceStep_ends ev t d c c' : maintenanceStep ev t d c = (Ok None, c') -> exists order, ev = EvDone order.
Proof.
  destruct ev; cbn [maintenanceStep]; unfold mbind, M_bind, mret, M_ret, try, flushTouches;
    repeat case_match; intros; simplify_eq; eauto.
Qed.

(** The loop logs errors and goes on. *)
Lemma touchAll_total now order t c : wp (touchAll now order t) (fun r _ => is_ok r = true) c.
Proof.
  revert t c. induction order as [|ref order IH]; intros t c; cbn [touchAll]; [done|].
  wp_step. wp_step. apply (wp_mono _ (fun _ _ => True)); [done|]. intros [a|e] c' _; [apply IH|by wp_step].
Qed.

Lemma flushTouches_total order t c : wp (flushTouches order t) (fun r _ => is_ok r = true) c.
Proof. unfold flushTouches. case_bool_decide; [done|]. wp_go. apply touchAll_total. Qed.

Lemma maintenanceStep_total ev t d c : exists res c', maintenanceStep ev t d c = (Ok res, c').
Proof.
  assert (Hok : wp (maintenanceStep ev t d) (fun r _ => is_ok r = true) c).
  { assert (Htry : forall {A B} (m : M A) (b : B) c, wp (_ ← try m; mret b) (fun r _ => is_ok r = true) c).
    { intros A B m b c0. wp_step. wp_step. apply (wp_mono _ (fun _ _ => True)); [done|]. intros r c1 _. by wp_step. }
    assert (Hfl : forall {B} order t (f : _ -> B) c, wp (r ← flushTouches order t; mret (f r)) (fun r _ => is_ok r = true) c).
    { intros B order t0 f c0. wp_step. eapply wp_mono; [apply flushTouches_total|]. intros [r|e] c1 Hr; [by wp_step|done]. }
    destruct ev; cbn [maintenanceStep]; unfold drainEviction, drainMetrics.
    - apply (Hfl _ order t (fun _ => None)).
    - wp_step. wp_step. apply Htry.
    - by wp_go.
    - wp_step. unfold wp at 1, popTouch. destruct (touchCh (mem c)) as [|ref rest]; cbn; [done|].
      destruct (_ >=? _); [apply (Hfl _ order _ (fun r => Some (r.1, d)))|done].
    - apply (Hfl _ order t (fun r => Some (r.1, d))).
    - apply Htry.
    - apply Htry.
    - done. }
  unfold wp in Hok. destruct (maintenanceStep ev t d c) as [[res|e] c']; [by eauto|done].
Qed.

Lemma gauges_tracked g g' : gauges_step g g' -> tracked g -> tracked g'.
Proof.
  intros [o fl cl c t d r b Hne|ev fl cl g0 Hrun] Ht Hm.
  { cbn in *. eapply tracked_signalled; [apply (signals_run o Hne (set_env fl cl c))|done|exact Ht]. }
  destruct g0 as [c t d r b]. cbn in Hrun. subst b. unfold iterate in *. cbn [ga_touches ga_dirty ga_cache ga_recorder] in *.
  destruct (maintenanceStep_total ev t d (set_env fl cl c)) as (res & c' & E). rewrite E in *. cbn in *.
  - destruct (publishes ev d) eqn:Ep; [left; by apply shows_published|].
    assert (Hev : ev = EvMetrics \/ ev <> EvMetrics) by (destruct ev; auto). destruct Hev as [->|Hev].
    + injection E as <- _. by right; right.
    + pose proof (signals_maintenanceStep ev t d Hev (set_env fl cl c)) as Hs. unfold wp in Hs. rewrite E in Hs. cbn in Hs.
      destruct res as [res|]; [|destruct (maintenanceStep_ends _ _ _ _ _ E) as [order ->]; done].
      assert (Hd : res.2 = d).
      { rewrite (maintenanceStep_dirty _ _ _ _ _ _ E). by destruct ev. }
      cbn. rewrite Hd. eapply tracked_signalled; [exact Hs|done|]. intros Hm'. destruct (Ht Hm') as [?|[?|[_ ?]]]; auto.
Qed.

(** C25: the size gauges lose no change. From the opening of the cache, through any
    operations with any failures and any iterations of the worker, the gauges show the size
    counters, in total and by bucket, unless a signal waits in the channel or the worker
    has noted one. While the worker runs, the iteration that takes the signal notes it, and
    leaves the counters and the worker as they are; and the iteration of the next tick,
    if a signal was noted, makes the gauges show the counters. In between, no operation and
    no iteration forgets it: it stays noted, or the gauges show the counters. *)
Theorem gauges_lose_nothing c max g :
  metrics (cfg (ga_cache g)) = true -> rtc gauges_step (opened c max) g ->
  (metricsCh (mem (ga_cache g)) = false -> ga_running g = false \/ ga_dirty g = false ->
     shows (ga_recorder g) (ga_cache g)) /\
  (ga_running g = true -> forall fl cl,
     let noted := iterate EvMetrics fl cl g in
     let ticked := iterate TickMetrics fl cl g in
     ga_running noted = true /\ ga_dirty noted = true /\ sizes (ga_cache noted) = sizes (ga_cache g) /\
     ga_running ticked = true /\ sizes (ga_cache ticked) = sizes (ga_cache g) /\
     (ga_dirty g = true -> shows (ga_recorder ticked) (ga_cache ticked))) /\
  (forall g', ga_dirty g = true -> gauges_step g g' -> ga_dirty g' = true \/ shows (ga_recorder g') (ga_cache g')).
Proof.
  intros Hm Hr.
  assert (Ht : tracked g).
  { revert Hm. pattern g. eapply rtc_ind_r; [..|exact Hr]; [intros _; apply tracked_opened|].
    intros g1 g2 _ Hstep IH _. intros Hm2. eapply gauges_tracked; [exact Hstep| |done].
    intros Hm1. by apply IH. }
  split; [|split].
  - intros Hch Hidle. destruct (Ht Hm) as [?|[?|[? ?]]]; [done|congruence|]. destruct Hidle; congruence.
  - intros Hrun fl cl. destruct g as [c0 t d r b]. cbn in *. split_and!; try done.
    intros ->. by apply (shows_published (set_env fl cl c0)).
  - intros g' Hd Hstep. destruct Hstep as [o fl cl c0 t d r b Hne|ev fl cl g0 Hrun]; [by left|].
    destruct g0 as [c0 t d r b]. unfold iterate. cbn in *. subst d.
    destruct (maintenanceStep_total ev t true (set_env fl cl c0)) as (res & c' & E). rewrite E. cbn.
    destruct res as [res|]; [|by left]. cbn. rewrite (maintenanceStep_dirty _ _ _ _ _ _ E).
    destruct ev; try (by left). right. cbn [publishes]. injection E as _ <-. by apply shows_published.
Qed.

(** After [Close] the gauges show the counters, whatever fails. *)
Lemma Close_shows order fl cl g : metrics (cfg (ga_cache g)) = true ->
  let '(_, g') := Close order fl cl g in shows (ga_recorder g') (ga_cache g').
Proof.
  intros Hm. unfold Close.
  pose proof (signals_maintenanceStep (EvDone order) (ga_touches g) (ga_dirty g) ltac:(done) (set_env fl cl (ga_cache g))) as Hs.
  unfold wp in Hs. destruct (maintenanceStep _ _ _ _) as [r c]. cbn in Hs. destruct Hs as [Hcfg _]. cbn in Hcfg.
  unfold call, outcome, mbind, M_bind. destruct (faults c) as [|[f|] rest]; cbn;
    apply (shows_published c); by rewrite Hcfg.
Qed.

End Tracking.

(** ** A cache that stores a page *)

#[local] Existing Instance CacheOps.emptyCodec.

Definition meteredCache : Cache :=
  mkCache (mkConfig 100 ∅ 1 512 true) emptyDB (mkFiles ∅ ∅ ∅ 0) (mkCounters 0 0 ∅ false [] false []) [] [].
Definition meteredPut : Cache := (run (OpPutObject demoMeta) (set_env [] [] meteredCache)).2.
Definition meteredStore : Cache := (run (OpStorePage (fun _ => 7%nat) demoWrite) (set_env [] [] meteredPut)).2.
Definition meteredGauges : Gauges :=
  mkGauges meteredStore ∅ false (publishCacheSizeMetrics meteredCache (Metrics.NewRecorder 100)) true.

Lemma metered_steps : rtc gauges_step (opened meteredCache 100) meteredGauges.
Proof.
  eapply rtc_l; [by apply (G_op (OpPutObject demoMeta) [] [])|].
  apply rtc_once. by apply (G_op (OpStorePage (fun _ => 7%nat) demoWrite) [] [] meteredPut).
Qed.

(** The signal of the stored page is taken, and the tick publishes its size. *)
Definition meteredNoted : Gauges := iterate EvMetrics [] [] meteredGauges.

Lemma gauges_lose_nothing_witness : metricsCh (mem meteredStore) = true /\
  Metrics.cachedBytes (ga_recorder meteredNoted) = 0 /\
  Metrics.cachedBytes (ga_recorder (iterate TickMetrics [] [] meteredNoted)) = 3.
Proof.
  split; [vm_compute; reflexivity|]. split; [vm_compute; reflexivity|].
  destruct (gauges_lose_nothing meteredCache 100 meteredNoted) as (_ & H & _).
  - vm_compute. reflexivity.
  - eapply rtc_r; [apply metered_steps|]. apply (G_worker EvMetrics [] []). reflexivity.
  - destruct (H eq_refl [] []) as (_ & _ & _ & _ & Hz & Hs). destruct (Hs eq_refl) as [Hb _].
    rewrite Hb. apply (f_equal fst) in Hz. cbn [fst sizes] in Hz. rewrite Hz. vm_compute. reflexivity.
Defined.
