(* ===== verification/ProxyRead.v ===== *)
(** * Serving a read from pages ([internal/proxy/proxy.go])

    One read request: [prepareFirstPage] plans the pages and opens the first,
    [streamCachedPages] writes the requested span of each page to the client. A
    page comes from the cache or is fetched from the upstream store, saved in the
    cache and cut to its span on the way.

    A [Session] is what one request sees: the cache, which other requests change
    between any two calls on it ([env]), its client, the outcomes of joining the
    fills of other requests ([flight]) and the requests it sent upstream. The
    upstream store, the building and signing of its requests and the HTTP client
    are the parameter [upstream]. Metrics, statistics and logs are not modelled. *)

From Stdlib Require Import Ascii.
From S2P Require Import Prelude GoStrings GoNet Sha256 Range PageFrame CachePath CacheDB CacheStore.
From S2P Require Import CacheLogic CacheInv CacheOps ProxyPeers ProxySpan.
Import Strings.

#[local] Open Scope go_scope.

(** ** State *)

Inductive ProxyError :=
| ErrCache (e : CacheError)
| ErrRange (e : RangeError)
| ErrSpan (e : SpanError)
| ErrCopy (e : Io.error)
| ErrRequest
| ErrObjectChanged
| ErrStatus (status : Z)
| ErrPageBytes (got want : Z)
| ErrNotReadable
| ErrPeerFillOverloaded
| ErrCanceled.

(** The answer to a request: none when it could not be built, signed or sent. *)
Inductive Reply := NoReply | Response (status : Z) (body : Io.Reader).

(** How a request enters the fill of a page: it becomes the one that fetches it;
    the limit of concurrent fills refuses it; another request is fetching it and
    ends with an error or not; the client goes away while it waits. *)
Inductive Entry := Leading | Overloaded | Joined (err : option ProxyError) | Cancelled.

(** [env] is what other requests do to the cache before each of this request's
    calls on it, given the page writer this request holds. *)
Record Session := mkSession {
  cache : Cache;
  env : list (option Z -> Cache -> Cache);
  client : Io.Writer;
  hijackable : bool;
  aborted : bool;
  degradedState : option DegradedState;
  flight : list Entry;
  sent : list (string * string) }.

Definition R (A : Type) : Type := Session -> A * Session.

#[export] Instance R_ret : MRet R := fun A a s => (a, s).
#[export] Instance R_bind : MBind R := fun A B f m s => let '(a, s') := m s in f a s'.

Definition set_client (w : Io.Writer) : R () := fun s =>
  ((), mkSession (cache s) (env s) w (hijackable s) (aborted s) (degradedState s) (flight s) (sent s)).
Definition getClient : R Io.Writer := fun s => (client s, s).

(** A call on the cache; [own] is the page writer this request holds. *)
Definition onCache {A} (own : option Z) (m : M A) : R (result CacheError A) := fun s =>
  let '(c, rest) := match env s with [] => (cache s, []) | f :: rest => (f own (cache s), rest) end in
  let '(r, c') := m c in
  (r, mkSession c' rest (client s) (hijackable s) (aborted s) (degradedState s) (flight s) (sent s)).

Definition markDegradedSession (reason : string) (context : list (string * string)) : R () := fun s =>
  ((), mkSession (cache s) (env s) (client s) (hijackable s) (aborted s)
         (markDegradedWithContext reason context (degradedState s)).1 (flight s) (sent s)).

Definition set_flight (l : list Entry) : R () := fun s =>
  ((), mkSession (cache s) (env s) (client s) (hijackable s) (aborted s) (degradedState s) l (sent s)).

(** Closing the connection, when the server lets the handler take it over. *)
Definition abortCommittedResponse (bytesWritten : Z) : R () := fun s =>
  if bytesWritten <=? 0 then ((), s)
  else ((), mkSession (cache s) (env s) (client s) (hijackable s) (aborted s || hijackable s)
              (degradedState s) (flight s) (sent s)).

(** [err.Error()] of an error of [OpenPage], which is always a [Failure]. *)
Definition errorText (e : CacheError) : string := match e with Failure msg => msg | _ => "" end.

Section Read.
Context (buf : nat -> nat) (upstream : nat -> string -> string -> Reply).

(** [newUpstreamRequest], [sign] and [client.Do] for a range of an object version. *)
Definition upstreamDo (rangeHeader ifMatch : string) : R Reply := fun s =>
  (upstream (length (sent s)) rangeHeader ifMatch,
   mkSession (cache s) (env s) (client s) (hijackable s) (aborted s) (degradedState s) (flight s)
     ((rangeHeader, ifMatch) :: sent s)).

(** ** Cached pages *)

Definition openCachedPage (bucket : string) (obj : Object) (index : Z)
    : R (result ProxyError (option bytes)) :=
  r ← onCache None (OpenPage (ob_ID obj) index (ob_ETag obj) (ob_Epoch obj));
  match r with
  | Err e =>
      (if Contains (ToLower (errorText e)) "corrupt"
       then markDegradedSession "local cache corruption" [("bucket", bucket)] else mret ());;
      mret (Err (ErrCache e))
  | Ok body => mret (Ok body)
  end.

(** ** Fetching a page *)

Definition copyBufferSize : nat := Z.to_nat (32 * 1024).

(** [stream.Write(chunk)] to the client *)
Definition streamWrite (stream : pageSpanStream) (chunk : bytes)
    : R (option Io.error * pageSpanStream) :=
  w ← getClient;
  let '(_, err, stream', w') := pageSpanStream_Write stream w chunk in
  set_client w';; mret (err, stream').

(** The part of the loop under [n > 0]: the chunk goes to the page writer [h] of the
    cache, then to the stream. *)
Definition writeChunk (h : Z) (chunk : bytes) (stream : option pageSpanStream) (total : Z)
    : R (Z * option ProxyError * option pageSpanStream) :=
  r ← onCache (Some h) (Write h chunk);
  match r with
  | Err e => mret (total, Some (ErrCache e), stream)
  | Ok written =>
      let total := total +! Z.of_nat written in
      if negb (Z.of_nat written =? zlen chunk)
      then mret (total, Some (ErrCopy Io.ShortWrite), stream)
      else match stream with
      | None => mret (total, None, None)
      | Some st =>
          w ← streamWrite st chunk;
          let '(err, st') := w in
          mret (total, ErrCopy <$> err, Some st')
      end
  end.

(** With fuel for every read of the source the loop ends by itself. *)
Fixpoint copyPageResponseToWriter (fuel : nat) (src : Io.Reader) (h : Z)
    (stream : option pageSpanStream) (total : Z)
    : R (Z * option ProxyError * option pageSpanStream) :=
  match fuel with
  | O => mret (total, Some (ErrCache OutOfFuel), stream)
  | S fuel =>
      let '(chunk, readErr, src') := Io.Read copyBufferSize src in
      w ← (if bool_decide (chunk = []) then mret (total, None, stream)
           else writeChunk h chunk stream total);
      let '(total, writeErr, stream) := w in
      match writeErr with
      | Some e => mret (total, Some e, stream)
      | None =>
          match readErr with
          | Some e => if bool_decide (e = Io.EOF) then mret (total, None, stream)
                      else mret (total, Some (ErrCopy e), stream)
          | None => copyPageResponseToWriter fuel src' h stream total
          end
      end
  end.

Definition beginCachePageWriter (obj : Object) (pageIndex : Z) : R (result CacheError Z) :=
  onCache None (BeginPageWrite (mkPageWriteOptions (ob_ID obj) pageIndex (ob_ETag obj) (ob_Epoch obj))).

Definition rangeHeaderOf (bounds : PageSpan) : string :=
  "bytes=" +:+ FormatInt (ps_Start bounds) +:+ "-" +:+ FormatInt (ps_End bounds).

(** The part of [fetchAndStorePage] after the page writer was made. *)
Definition storeResponse (obj : Object) (index : Z) (bounds : PageSpan) (h : Z) (body : Io.Reader)
    (stream : option pageSpanStream)
    : R (result ProxyError (option bytes) * option pageSpanStream) :=
  c ← copyPageResponseToWriter (Io.reads body) body h stream 0;
  let '(size, err, stream) := c in
  match err with
  | Some e => mret (Err e, stream)
  | None =>
      if negb (size =? ps_End bounds -! ps_Start bounds +! 1)
      then mret (Err (ErrPageBytes size (ps_End bounds -! ps_Start bounds +! 1)), stream)
      else
        r ← onCache (Some h) (Commit h);
        match r with
        | Err e => mret (Err (ErrCache e), stream)
        | Ok _ =>
            match stream with
            | Some _ => mret (Ok None, stream)
            | None =>
                r ← onCache None (OpenPage (ob_ID obj) index (ob_ETag obj) (ob_Epoch obj));
                match r with
                | Err e => mret (Err (ErrCache e), stream)
                | Ok None => mret (Err ErrNotReadable, stream)
                | Ok (Some reader) => mret (Ok (Some reader), stream)
                end
            end
        end
  end.

(** The result is the reader, if any; the stream is returned as it was left. *)
Definition fetchAndStorePage (obj : Object) (index : Z) (stream : option pageSpanStream)
    : R (result ProxyError (option bytes) * option pageSpanStream) :=
  match PageBounds index (ob_PageSize obj) (ob_Size obj) with
  | Err e => mret (Err (ErrRange e), stream)
  | Ok bounds =>
      resp ← upstreamDo (rangeHeaderOf bounds) (ob_ETag obj);
      match resp with
      | NoReply => mret (Err ErrRequest, stream)
      | Response status body =>
          if status =? 412 then mret (Err ErrObjectChanged, stream)
          else if negb (status =? 206) then mret (Err (ErrStatus status), stream)
          else
            h ← beginCachePageWriter obj index;
            match h with
            | Err e => mret (Err (ErrCache e), stream)
            | Ok h =>
                r ← storeResponse obj index bounds h body stream;
                _ ← onCache (Some h) (Abort h);
                mret r
            end
      end
  end.

(** ** One fetch per page

    The part that [fillMissingPage] and [fillAndStreamMissingPage] share: look for
    a fill of the same page version. [fails] is the result for an error, [served]
    what is done with a page another request stored, [lead] the fetch. The loop
    over the entries is the code's recursion after a page that was filled is gone
    again. *)
Fixpoint joinFill {A} (fl : list Entry) (obj : Object) (index : Z) (fails : ProxyError -> A)
    (served : bytes -> R A) (lead : R A) : R A :=
  match fl with
  | [] => lead
  | Leading :: fl => set_flight fl;; lead
  | Overloaded :: fl => set_flight fl;; mret (fails ErrPeerFillOverloaded)
  | Cancelled :: fl => set_flight fl;; mret (fails ErrCanceled)
  | Joined (Some e) :: fl => set_flight fl;; mret (fails e)
  | Joined None :: fl =>
      set_flight fl;;
      r ← onCache None (OpenPage (ob_ID obj) index (ob_ETag obj) (ob_Epoch obj));
      match r with
      | Err e => mret (fails (ErrCache e))
      | Ok None => joinFill fl obj index fails served lead
      | Ok (Some body) => served body
      end
  end.

Definition fillMissingPage (obj : Object) (index : Z) : R (result ProxyError (option bytes)) :=
  fun s => joinFill (flight s) obj index Err (fun body => mret (Ok (Some body)))
    (r ← fetchAndStorePage obj index None; mret r.1) s.

Definition pageReader (bucket : string) (obj : Object) (index : Z)
    : R (result ProxyError (option bytes)) :=
  r ← openCachedPage bucket obj index;
  match r with
  | Err e => mret (Err e)
  | Ok (Some body) => mret (Ok (Some body))
  | Ok None => fillMissingPage obj index
  end.

(** ** Streaming *)

(** [copyPageSpan(w, body, page, obj.PageSize)] to the client, from an open file *)
Definition copySpan (obj : Object) (body : bytes) (page : PageSpan) : R (Z * option ProxyError) :=
  w ← getClient;
  let '(n, err, _, w') := copyPageSpan buf w (bytesReader body) page (ob_PageSize obj) in
  set_client w';; mret (n, ErrSpan <$> err).

Definition fillAndStreamMissingPage (obj : Object) (page : PageSpan) : R (Z * option ProxyError) :=
  fun s => joinFill (flight s) obj (ps_Index page) (fun e => (0, Some e))
    (fun body => copySpan obj body page)
    (r ← fetchAndStorePage obj (ps_Index page) (Some (newPageSpanStream page (ob_PageSize obj)));
     let '(res, stream) := r in
     mret (from_option pss_written 0 stream,
           match res with Err e => Some e | Ok _ => None end)) s.

Definition streamPageSpan (bucket : string) (obj : Object) (page : PageSpan)
    : R (Z * option ProxyError) :=
  r ← openCachedPage bucket obj (ps_Index page);
  match r with
  | Err e => mret (0, Some e)
  | Ok (Some body) => copySpan obj body page
  | Ok None => fillAndStreamMissingPage obj page
  end.

(** The loop over the pages; [firstPage] is given to the first iteration. *)
Fixpoint streamCachedPages (bucket : string) (obj : Object) (pages : list PageSpan)
    (firstPage : option bytes) (total : Z) : R (Z * option ProxyError) :=
  match pages with
  | [] => mret (total, None)
  | page :: pages =>
      r ← match firstPage with
          | Some body => copySpan obj body page
          | None => streamPageSpan bucket obj page
          end;
      let '(n, err) := r in
      let total := total +! n in
      match err with
      | Some e => abortCommittedResponse total;; mret (total, Some e)
      | None => streamCachedPages bucket obj pages None total
      end
  end.

Definition prepareFirstPage (bucket : string) (obj : Object) (byteRange : ByteRange)
    : R (result ProxyError (list PageSpan * option bytes)) :=
  match PagesForRange byteRange (ob_PageSize obj) with
  | Err e => mret (Err (ErrRange e))
  | Ok [] => mret (Ok ([], None))
  | Ok ((page :: _) as pages) =>
      r ← pageReader bucket obj (ps_Index page);
      match r with
      | Err e => mret (Err e)
      | Ok firstPage => mret (Ok (pages, firstPage))
      end
  end.

End Read.
