(* ===== verification/ProxyServe.v ===== *)
(** * What a read serves ([internal/proxy/proxy.go])

    The theorem about [ProxyRead]: the bytes a client receives are those of the
    requested range of the object version it was promised, whichever pages were in
    the cache, were fetched by this request or by another one, whatever failed and
    whatever other requests that keep the cache sound ([env_ok]) did to it in between. *)

From stdpp Require Import relations.
From S2P Require Import Prelude GoStrings GoNet Sha256 Range PageFrame CachePath CacheDB CacheStore.
From S2P Require Import CacheLogic CacheInv CacheOps ProxyPeers ProxySpan ProxyRead.

(** ** Specification *)

Section Versions.
(** The content of an object version, by object and digest of its ETag, and the
    page size its pages are cut with. *)
Context (version : string -> bytes -> bytes) (pageSizeOf : string -> Z).

Definition contentOf (id etag : string) : bytes :=
  version id (Sha256.sum256 (bytes_of_string etag)).

Definition pageOf (id etag : string) (index : Z) : bytes :=
  slice (index * pageSizeOf id) ((index + 1) * pageSizeOf id) (contentOf id etag).

(** What the proxy commits to the cache. *)
Definition Good (o : PageWriteOptions) (data : bytes) : Prop :=
  data = pageOf (pwo_ObjectID o) (pwo_ETag o) (pwo_Index o).

(** The metadata describe the version. *)
Record object_ok (obj : Object) : Prop := {
  oo_size : ob_Size obj = zlen (contentOf (ob_ID obj) (ob_ETag obj));
  oo_pageSize : ob_PageSize obj = pageSizeOf (ob_ID obj);
  oo_positive : 0 < ob_PageSize obj;
  oo_bound : ob_Size obj + ob_PageSize obj <= int64_max }.

(** Upstream answers a range request conditional on an ETag with [206] only with
    bytes of that range of that version, possibly cut short. *)
Definition honest (upstream : nat -> string -> string -> Reply) (obj : Object) : Prop :=
  forall n bounds body,
    0 <= ps_Start bounds <= ps_End bounds -> ps_End bounds < ob_Size obj ->
    upstream n (rangeHeaderOf bounds) (ob_ETag obj) = Response 206 body ->
    Io.content body `prefix_of`
      slice (ps_Start bounds) (ps_End bounds + 1) (contentOf (ob_ID obj) (ob_ETag obj)).

(** What other requests do between two calls of this one: they keep the cache's invariant,
    whose pages are all cut with the page size of their object, and leave the writer of
    this request alone. *)
Definition env_ok (f : option Z -> Cache -> Cache) : Prop :=
  forall own c, cache_ok Good c -> cache_ok Good (f own c) /\
    forall h w, own = Some h -> writers (fs c) !! h = Some w ->
      writers (fs (f own c)) !! h = Some w /\ temp (f own c) h = temp c h.

Definition session_ok (s : Session) : Prop := cache_ok Good (cache s) /\ Forall env_ok (env s).

(** ** Calls on the cache *)

(** What a call on the cache leaves alone. *)
Definition framed (s s' : Session) : Prop := client s' = client s /\ flight s' = flight s.

Lemma onCache_spec {A} own (m : M A) s r s' (P : result CacheError A -> Cache -> Prop) :
  session_ok s -> onCache own m s = (r, s') ->
  (forall c, cache_ok Good c ->
     (forall h w, own = Some h -> writers (fs (cache s)) !! h = Some w ->
        writers (fs c) !! h = Some w /\ temp c h = temp (cache s) h) ->
     wp m (fun r c' => cache_ok Good c' /\ P r c') c) ->
  session_ok s' /\ P r (cache s') /\ framed s s'.
Proof.
  intros [Hc He] Hrun Hm. unfold onCache in Hrun.
  destruct (match env s with [] => _ | _ => _ end) as [c rest] eqn:Ec.
  assert (Hcase : cache_ok Good c /\ Forall env_ok rest /\
    forall h w, own = Some h -> writers (fs (cache s)) !! h = Some w ->
      writers (fs c) !! h = Some w /\ temp c h = temp (cache s) h).
  { destruct (env s) as [|f fs']; injection Ec as <- <-; [by split_and!|].
    apply Forall_cons in He as [Hf Hfs]. destruct (Hf own _ Hc). auto. }
  destruct Hcase as (Hc' & Hrest & Hown). specialize (Hm c Hc' Hown).
  destruct (m c) as [r1 c1] eqn:Em. injection Hrun as <- <-.
  pose proof (wp_run _ _ _ _ _ Hm Em) as [Hok HP]. done.
Qed.

(** A page writer of this request with what was written to it. *)
Definition live (c : Cache) (h : Z) (o : PageWriteOptions) (t : bytes) : Prop :=
  exists w, writers (fs c) !! h = Some w /\ options w = o /\ done_ w = false /\ temp c h = t.

Lemma live_kept c c' h o t :
  live c h o t ->
  (forall h' w, Some h = Some h' -> writers (fs c) !! h' = Some w ->
     writers (fs c') !! h' = Some w /\ temp c' h' = temp c h') -> live c' h o t.
Proof.
  intros (w & Hw & Ho & Hd & Ht) H. destruct (H h w eq_refl Hw) as [Hw' Ht'].
  exists w. split_and!; congruence.
Qed.

Lemma Write_live c h o t chunk :
  cache_ok Good c -> live c h o t ->
  wp (Write h chunk) (fun r c' => cache_ok Good c' /\
    forall n, r = Ok n -> n = length chunk /\ live c' h o (t ++ chunk)) c.
Proof.
  intros Hc (w & Hw & Ho & Hd & Ht).
  eapply wp_mono; [apply (Write_evolved Good c); [by apply evolved_refl|by eexists]|].
  intros r c' ([Hok _ _] & _ & w0 & w' & Hw0 & Hw' & Ho' & Hd' & Hn). simplify_eq.
  split; [done|]. intros n Hr. destruct (Hn n Hr) as (-> & _ & Htemp). split; [done|].
  exists w'. split_and!; [done|done|congruence|]. unfold temp. by rewrite Htemp.
Qed.

Lemma Commit_live c h o t :
  cache_ok Good c -> live c h o t -> Good o t ->
  wp (Commit h) (fun r c' => cache_ok Good c' /\ True) c.
Proof.
  intros Hc (w & Hw & Ho & Hd & Ht) HG.
  eapply wp_mono; [apply (Commit_evolved Good c c h w); [by apply evolved_refl|done|]|].
  - intros _. rewrite Ho. fold (temp c h). by rewrite Ht.
  - by intros r c' [[Hok _ _] _].
Qed.

Lemma BeginPageWrite_live c opts :
  cache_ok Good c ->
  wp (BeginPageWrite opts) (fun r c' => cache_ok Good c' /\
    forall h, r = Ok h -> live c' h opts []) c.
Proof.
  intros Hc. eapply wp_mono; [apply wp_and; [apply (keeps_BeginPageWrite Good); by apply evolved_refl
    |apply BeginPageWrite_post]|].
  by intros r c' [[[Hok _ _] _] HP].
Qed.

Lemma Abort_ok c h : cache_ok Good c -> wp (Abort h) (fun r c' => cache_ok Good c' /\ True) c.
Proof.
  intros Hc. eapply wp_mono; [apply (Abort_any Good c); by apply evolved_refl|]. by intros r c' [Hok _ _].
Qed.

(** A page the cache serves is the page of the version asked for. *)
Lemma OpenPage_ok c id index etag epoch :
  cache_ok Good c ->
  wp (OpenPage id index etag epoch) (fun r c' => cache_ok Good c' /\
    forall data, r = Ok (Some data) -> data = pageOf id etag index) c.
Proof.
  intros Hc. unfold wp. split.
  - destruct (keeps_OpenPage Good id index etag epoch c c) as [[Hok _ _] _]; [by apply evolved_refl|done].
  - intros data Hr. destruct (OpenPage id index etag epoch c) as [r c'] eqn:E. cbn in Hr. subst r.
    destruct (OpenPage_good Good c c' id etag index epoch data Hc E)
      as (row & o & _ & _ & _ & _ & Hid & Hi & _ & Hsha & HG).
    unfold Good, pageOf, contentOf in HG. rewrite Hid, Hi, Hsha in HG. exact HG.
Qed.

Lemma openPage_session s id index etag epoch r s' :
  session_ok s -> onCache None (OpenPage id index etag epoch) s = (r, s') ->
  session_ok s' /\ (forall data, r = Ok (Some data) -> data = pageOf id etag index) /\ framed s s'.
Proof.
  intros Hs Hrun. apply (onCache_spec None (OpenPage id index etag epoch) s r s'
    (fun r _ => forall data, r = Ok (Some data) -> data = pageOf id etag index) Hs Hrun).
  intros c Hc _. by apply OpenPage_ok.
Qed.

(** ** Fetching *)

Section Object.
Context (buf : nat -> nat) (upstream : nat -> string -> string -> Reply) (bucket : string) (obj : Object).
Context (Hobj : object_ok obj) (Hup : honest upstream obj).

Abbreviation content := (contentOf (ob_ID obj) (ob_ETag obj)).
Abbreviation page_of := (pageOf (ob_ID obj) (ob_ETag obj)).
Abbreviation span page := (spanOf page (ob_PageSize obj)).

Lemma spanOf_prefix page n a b : a `prefix_of` b -> spanOf page n a `prefix_of` spanOf page n b.
Proof.
  intros [k ->]. unfold spanOf, slice. rewrite drop_app, take_app. by eexists.
Qed.

(** A stream that was fed [fed] of the page, or no stream. *)
Definition fed_to (page : PageSpan) (fed : bytes) (stream : option pageSpanStream) : Prop :=
  match stream with None => True | Some st => stream_at st page (ob_PageSize obj) fed end.

Definition streamed (page : PageSpan) (fed rest : bytes) (ok : Prop) (s s' : Session)
    (stream stream' : option pageSpanStream) : Prop :=
  match stream with
  | None => stream' = None /\ client s' = client s
  | Some _ => exists st' part, stream' = Some st' /\
      Io.out (client s') = Io.out (client s) ++ part /\
      pss_written st' = zlen (span page fed ++ part) /\
      (span page fed ++ part) `prefix_of` span page (fed ++ rest) /\
      (ok -> span page fed ++ part = span page (fed ++ rest))
  end.

(** Nothing was streamed. *)
Lemma streamed_none page fed rest (ok : Prop) s s' stream :
  fed_to page fed stream -> client s' = client s -> (ok -> rest = []) ->
  streamed page fed rest ok s s' stream stream.
Proof.
  intros Hf Hc Hok. destruct stream as [st|]; [|done]. exists st, [].
  rewrite Hc, !app_nil_r. split_and!; [done|done|by apply Hf|apply spanOf_prefix; by eexists|].
  intros H. by rewrite (Hok H), app_nil_r.
Qed.

(** Streaming [a], then [b]. *)
Lemma streamed_trans page fed a b (ok : Prop) s1 s2 s3 x y z :
  streamed page fed a True s1 s2 x y -> streamed page (fed ++ a) b ok s2 s3 y z ->
  streamed page fed (a ++ b) ok s1 s3 x z.
Proof.
  unfold streamed. destruct x as [st|].
  - intros (st1 & p1 & -> & Ho1 & Hw1 & _ & He1) (st2 & p2 & -> & Ho2 & Hw2 & Hp2 & He2).
    specialize (He1 I). exists st2, (p1 ++ p2).
    rewrite Ho2, Ho1, Hw2, (app_assoc (span page fed)), He1, <- (app_assoc (Io.out _)), (app_assoc fed).
    done.
  - intros [-> H1] [-> H2]. split; congruence.
Qed.

Lemma streamWrite_spec page st fed chunk s err st' s' :
  span_ok page (ob_PageSize obj) -> stream_at st page (ob_PageSize obj) fed ->
  zlen (fed ++ chunk) < int64_max -> session_ok s ->
  streamWrite st chunk s = ((err, st'), s') ->
  session_ok s' /\ flight s' = flight s /\ cache s' = cache s /\
  streamed page fed chunk (err = None) s s' (Some st) (Some st') /\
  (err = None -> fed_to page (fed ++ chunk) (Some st')).
Proof.
  intros Hsp Hst Hlen Hs. unfold streamWrite, mbind, R_bind, getClient.
  destruct (pageSpanStream_Write st (client s) chunk) as [[[n e] st1] w] eqn:Hw. cbn.
  intros [= <- <- <-]. cbn. split_and!; [done|done|done| |].
  - destruct (pageSpanStream_Write_spec _ _ _ _ _ _ _ _ _ _ Hsp Hst Hlen Hw) as (part & Ho & Hcase).
    exists st1, part. destruct e as [e|]; destruct Hcase as [H1 H2].
    + split_and!; done.
    + destruct H1 as (_ & _ & _ & Hwr). rewrite <- H2. done.
  - intros ->. destruct (pageSpanStream_Write_spec _ _ _ _ _ _ _ _ _ _ Hsp Hst Hlen Hw) as (part & Ho & Hcase).
    by destruct Hcase.
Qed.
(** Less than everything was streamed. *)
Lemma streamed_short page fed a b (ok ok' : Prop) s s' x y :
  streamed page fed a ok s s' x y -> (ok' -> False) -> streamed page fed (a ++ b) ok' s s' x y.
Proof.
  unfold streamed. destruct x as [st|]; [|done]. intros (st' & part & -> & Ho & Hw & Hp & _) Hno.
  exists st', part. split_and!; [done..| |intros H; by destruct (Hno H)].
  etrans; [exact Hp|]. rewrite app_assoc. apply spanOf_prefix. by eexists.
Qed.

(** Streaming is unchanged by what happens to the rest of the session. *)
Lemma streamed_client page fed rest (ok : Prop) s1 s2 s1' s2' x y :
  client s1 = client s1' -> client s2 = client s2' ->
  streamed page fed rest ok s1 s2 x y -> streamed page fed rest ok s1' s2' x y.
Proof. unfold streamed. by intros -> ->. Qed.

Lemma streamed_ok page fed rest (ok ok' : Prop) s s' x y :
  (ok' -> ok) -> streamed page fed rest ok s s' x y -> streamed page fed rest ok' s s' x y.
Proof.
  unfold streamed. destruct x; [|done]. intros Hok (st' & part & ? & ? & ? & ? & ?).
  exists st', part. split_and!; auto.
Qed.

(** What one chunk does, and what the loop does with the rest of the source. *)
Definition copied (page : PageSpan) (h : Z) (o : PageWriteOptions) (fed data : bytes) (s s' : Session)
    (stream : option pageSpanStream) (r : Z * option ProxyError * option pageSpanStream) : Prop :=
  session_ok s' /\ flight s' = flight s /\
  streamed page fed data (r.1.2 = None) s s' stream r.2 /\
  (r.1.2 = None -> r.1.1 = zlen (fed ++ data) /\ live (cache s') h o (fed ++ data) /\
     fed_to page (fed ++ data) r.2).

Lemma copied_nothing page h o fed s stream err :
  session_ok s -> live (cache s) h o fed -> fed_to page fed stream ->
  copied page h o fed [] s s stream (zlen fed, err, stream).
Proof.
  intros Hs Hl Hf. split_and!; [done|done|by apply streamed_none|]. cbn. by rewrite app_nil_r.
Qed.

Lemma copied_trans page h o fed a b s1 s2 s3 x y total r :
  copied page h o fed a s1 s2 x (total, None, y) -> copied page h o (fed ++ a) b s2 s3 y r ->
  copied page h o fed (a ++ b) s1 s3 x r.
Proof.
  intros (Hs2 & Hf2 & Hst2 & _) (Hs3 & Hf3 & Hst3 & Hok). cbn in *. split_and!; [done|congruence| |].
  - eapply streamed_trans; [eapply streamed_ok; [|exact Hst2]; done|exact Hst3].
  - by rewrite app_assoc.
Qed.

Lemma copied_short page h o fed a b s s' x r :
  copied page h o fed a s s' x r -> r.1.2 <> None -> copied page h o fed (a ++ b) s s' x r.
Proof.
  intros (Hs & Hf & Hst & _) Hne. split_and!; [done|done|by eapply streamed_short|done].
Qed.

Lemma writeChunk_spec page h o chunk stream s r s' fed :
  session_ok s -> live (cache s) h o fed -> fed_to page fed stream ->
  (is_Some stream -> span_ok page (ob_PageSize obj)) -> zlen (fed ++ chunk) < int64_max ->
  writeChunk h chunk stream (zlen fed) s = (r, s') -> copied page h o fed chunk s s' stream r.
Proof.
  intros Hs Hl Hf Hsp Hlen. unfold writeChunk, mbind at 1, R_bind at 1.
  destruct (onCache (Some h) (Write h chunk) s) as [rw s1] eqn:Hw.
  destruct (onCache_spec (Some h) (Write h chunk) s rw s1
    (fun r c' => forall n, r = Ok n -> n = length chunk /\ live c' h o (fed ++ chunk)) Hs Hw)
    as (Hs1 & Hn & Hc1 & Hfl1).
  { intros c Hok Hkeep. apply Write_live; [done|]. by eapply live_kept. }
  destruct rw as [written|e].
  2:{ intros [= <- <-]. split_and!; [done|done|by apply streamed_none|done]. }
  destruct (Hn written eq_refl) as [-> Hl1]. fold (zlen chunk). rewrite Z.eqb_refl. cbn [negb].
  replace (add64 (zlen fed) (zlen chunk)) with (zlen (fed ++ chunk)).
  2:{ rewrite zlen_app in *. pose proof (zlen_nonneg fed). pose proof (zlen_nonneg chunk).
      unfold add64. rewrite wrap64_id; [done|]. int64_unfold. lia. }
  destruct stream as [st|]; [|intros [= <- <-]; by split_and!].
  unfold mbind, R_bind. destruct (streamWrite st chunk s1) as [[werr st'] s2] eqn:Hsw.
  destruct (streamWrite_spec page st fed chunk s1 werr st' s2 (Hsp ltac:(by eexists)) Hf Hlen Hs1 Hsw)
    as (Hs2 & Hfl2 & Hc2 & Hstr & Hf2).
  intros [= <- <-]. cbn in Hf2. split_and!; [done|congruence| |].
  - eapply streamed_client; [exact Hc1|reflexivity|]. eapply streamed_ok; [|exact Hstr]. by destruct werr.
  - cbn. intros He. rewrite Hc2. destruct werr; [done|]. auto.
Qed.

Lemma copyPageResponse_spec page h o fuel src stream s r s' fed :
  session_ok s -> live (cache s) h o fed -> fed_to page fed stream ->
  (is_Some stream -> span_ok page (ob_PageSize obj)) ->
  zlen (fed ++ Io.content src) < int64_max -> (Io.reads src <= fuel)%nat ->
  copyPageResponseToWriter fuel src h stream (zlen fed) s = (r, s') ->
  copied page h o fed (Io.content src) s s' stream r.
Proof.
  revert src stream s fed. induction fuel as [|fuel IH];
    intros src stream s fed Hs Hl Hf Hsp Hlen Hfuel; [unfold Io.reads in Hfuel; lia|].
  cbn [copyPageResponseToWriter]. destruct (Io.Read copyBufferSize src) as [[chunk rerr] src'] eqn:HR.
  pose proof (Io.Read_spec _ _ _ _ _ HR) as (Hc & _ & _ & Herr & _).
  assert (Hreads : rerr = None -> (Io.reads src' < Io.reads src)%nat).
  { intros Hn. refine (Io.Read_reads copyBufferSize src chunk rerr src' _ HR Hn). unfold copyBufferSize. lia. }
  rewrite Hc in *. rewrite app_assoc, zlen_app in Hlen. pose proof (zlen_nonneg (Io.content src')).
  unfold mbind at 1, R_bind at 1.
  set (m := if bool_decide (chunk = []) then mret (zlen fed, None, stream)
            else writeChunk h chunk stream (zlen fed)).
  destruct (m s) as [[[total werr] st1] s1] eqn:Hw. subst m.
  assert (H1 : copied page h o fed chunk s s1 stream (total, werr, st1)).
  { case_bool_decide; [|eapply writeChunk_spec; eauto; lia].
    subst chunk. injection Hw as <- <- <- <-. by apply copied_nothing. }
  destruct werr as [e|]; [intros [= <- <-]; by apply copied_short|].
  pose proof H1 as (Hs1 & _ & Hst1 & Hok1). destruct (Hok1 eq_refl) as (Ht & Hl1 & Hf1). cbn in Ht, Hl1, Hf1.
  subst total. destruct rerr as [e|].
  - destruct (Herr e eq_refl) as [Hnil _]. rewrite Hnil.
    destruct (bool_decide (e = Io.EOF)); intros Hrun; injection Hrun as <- <-;
      (eapply copied_trans; [exact H1|]); by apply copied_nothing.
  - intros Hrun. eapply copied_trans; [exact H1|]. eapply IH; [..|exact Hrun]; auto.
    + intros Hst. apply Hsp. destruct stream; [done|]. destruct Hst1 as [Heq _]. cbn in Heq. subst st1. by destruct Hst.
    + rewrite zlen_app. lia.
    + specialize (Hreads eq_refl). lia.
Qed.

(** The bounds of a page of the object select its bytes. *)
Lemma bounds_page index :
  0 <= index -> index * ob_PageSize obj < ob_Size obj ->
  exists bounds, PageBounds index (ob_PageSize obj) (ob_Size obj) = Ok bounds /\
    (0 <= ps_Start bounds <= ps_End bounds /\ ps_End bounds < ob_Size obj) /\
    slice (ps_Start bounds) (ps_End bounds + 1) content = page_of index /\
    sub64 (ps_End bounds) (ps_Start bounds) = ps_End bounds - ps_Start bounds /\
    add64 (ps_End bounds - ps_Start bounds) 1 = zlen (page_of index) /\
    zlen (page_of index) < int64_max.
Proof.
  intros Hi Hn. destruct Hobj as [Hsz Hps Hpos Hbd].
  assert (0 <= index * ob_PageSize obj) by nia.
  rewrite PageBounds_eq by (int64_unfold; lia). rewrite (proj2 (Z.ltb_lt _ _)) by lia.
  eexists. split; [reflexivity|]. cbn [ps_Start ps_End].
  set (e := Z.min ((index + 1) * ob_PageSize obj) (ob_Size obj)).
  assert (He : slice (index * ob_PageSize obj) (e - 1 + 1) content = page_of index).
  { unfold pageOf. rewrite <- Hps. unfold slice. subst e. rewrite Hsz in *. unfold zlen in *.
    destruct (Z.min_spec ((index + 1) * ob_PageSize obj) (Z.of_nat (length content))) as [[_ ->]|[Hle ->]].
    - f_equal. lia.
    - rewrite !take_ge; [done|rewrite length_drop; lia..]. }
  assert (Hz : zlen (page_of index) = e - index * ob_PageSize obj).
  { rewrite <- He. rewrite zlen_slice; lia. }
  split_and!; [lia..|exact He| | |rewrite Hz; subst e; int64_unfold; lia].
  - unfold sub64. apply wrap64_id. int64_unfold. lia.
  - rewrite Hz. unfold add64. rewrite wrap64_id; [lia|]. int64_unfold. lia.
Qed.

Definition wopts (index : Z) : PageWriteOptions :=
  mkPageWriteOptions (ob_ID obj) index (ob_ETag obj) (ob_Epoch obj).

Lemma storeResponse_spec page index bounds h body stream s res stream' s' :
  session_ok s -> live (cache s) h (wopts index) [] -> fed_to page [] stream ->
  (is_Some stream -> span_ok page (ob_PageSize obj)) ->
  Io.content body `prefix_of` page_of index ->
  sub64 (ps_End bounds) (ps_Start bounds) = ps_End bounds - ps_Start bounds ->
  add64 (ps_End bounds - ps_Start bounds) 1 = zlen (page_of index) ->
  zlen (page_of index) < int64_max ->
  storeResponse obj index bounds h body stream s = ((res, stream'), s') ->
  session_ok s' /\ flight s' = flight s /\
  streamed page [] (page_of index) (is_ok res = true) s s' stream stream' /\
  (stream = None -> forall data, res = Ok (Some data) -> data = page_of index).
Proof.
  intros Hs Hl Hf Hsp [rest Hpre] Hsub Hadd Hmax. unfold storeResponse.
  unfold mbind at 1, R_bind at 1.
  destruct (copyPageResponseToWriter (Io.reads body) body h stream 0 s) as [[[size err] st1] s1] eqn:Hcp.
  assert (Hlen : zlen (Io.content body) < int64_max).
  { rewrite Hpre, zlen_app in Hmax. pose proof (zlen_nonneg rest). lia. }
  destruct (copyPageResponse_spec page h (wopts index) (Io.reads body) body stream s _ s1 [] Hs Hl Hf Hsp
    Hlen ltac:(lia) Hcp) as (Hs1 & Hfl1 & Hstr & Hok). cbn in Hstr, Hok.
  assert (Hshort : forall e : ProxyError,
    streamed page [] (page_of index) (is_ok (Err (A := option bytes) e) = true) s s1 stream st1).
  { intros e. rewrite Hpre. by eapply streamed_short. }
  destruct err as [e|]; [intros [= <- <- <-]; split_and!; done|].
  destruct (Hok eq_refl) as (-> & Hl1 & _). rewrite Hsub, Hadd.
  destruct (Z.eqb_spec (zlen (Io.content body)) (zlen (page_of index))) as [Hz|Hz]; cbn [negb].
  2:{ intros [= <- <- <-]. split_and!; done. }
  assert (Hfull : Io.content body = page_of index).
  { rewrite Hpre, zlen_app in Hz. destruct rest as [|x rest]; [by rewrite Hpre, app_nil_r|].
    unfold zlen in Hz. cbn in Hz. lia. }
  rewrite Hfull in Hstr, Hl1. clear Hpre Hz Hshort.
  assert (Hall : forall (res : result ProxyError (option bytes)) s2, client s2 = client s1 ->
    streamed page [] (page_of index) (is_ok res = true) s s2 stream st1).
  { intros r s2 Hc2. unfold streamed in *. destruct stream; [|destruct Hstr; split; congruence].
    destruct Hstr as (st' & part & ? & Ho & ? & ? & He). exists st', part.
    rewrite Hc2. split_and!; auto. }
  unfold mbind at 1, R_bind at 1. destruct (onCache (Some h) (Commit h) s1) as [r s2] eqn:Hcm.
  destruct (onCache_spec (Some h) (Commit h) s1 r s2 (fun _ _ => True) Hs1 Hcm) as (Hs2 & _ & Hc2 & Hfl2).
  { intros c Hc Hkeep. apply (Commit_live c h (wopts index) (page_of index)); [done| |done].
    by eapply live_kept. }
  destruct r as [pg|e].
  2:{ intros [= <- <- <-]. split_and!; [done|congruence|by apply Hall|done]. }
  destruct st1 as [st|] eqn:Est.
  { intros [= <- <- <-]. split_and!; [done|congruence|by apply Hall|by intros _ ? [=]]. }
  unfold mbind, R_bind.
  destruct (onCache None (OpenPage (ob_ID obj) index (ob_ETag obj) (ob_Epoch obj)) s2) as [r s3] eqn:Hop.
  destruct (openPage_session _ _ _ _ _ _ _ Hs2 Hop) as (Hs3 & Hd & Hc3 & Hfl3).
  destruct r as [[data|]|e]; intros [= <- <- <-];
    (split_and!; [done|congruence|apply Hall; congruence|]); intros _ x [= <-]. by apply Hd.
Qed.

Lemma fetchAndStorePage_spec page index stream s res stream' s' :
  session_ok s -> 0 <= index -> index * ob_PageSize obj < ob_Size obj -> fed_to page [] stream ->
  (is_Some stream -> span_ok page (ob_PageSize obj)) ->
  fetchAndStorePage upstream obj index stream s = ((res, stream'), s') ->
  session_ok s' /\ flight s' = flight s /\
  streamed page [] (page_of index) (is_ok res = true) s s' stream stream' /\
  (stream = None -> forall data, res = Ok (Some data) -> data = page_of index).
Proof.
  intros Hs Hi Hn Hf Hsp. unfold fetchAndStorePage.
  destruct (bounds_page index Hi Hn) as (bounds & -> & [Hb1 Hb2] & Hsl & Hsub & Hadd & Hmax).
  unfold mbind at 1, R_bind at 1, upstreamDo.
  set (s0 := mkSession _ _ _ _ _ _ _ _).
  assert (Hs0 : session_ok s0) by done.
  assert (Hnone : forall (e : ProxyError) s1, session_ok s1 -> client s1 = client s -> flight s1 = flight s ->
    session_ok s1 /\ flight s1 = flight s /\
    streamed page [] (page_of index) (is_ok (Err (A := option bytes) e) = true) s s1 stream stream /\
    (stream = None -> forall data, Err (E := ProxyError) e = Ok (Some data) -> data = page_of index)).
  { intros e s1 ? ? ?. split_and!; [done|done|by apply streamed_none|done]. }
  destruct (upstream _ _ _) as [|status body] eqn:Hrep; [intros [= <- <- <-]; by apply Hnone|].
  destruct (status =? 412); [intros [= <- <- <-]; by apply Hnone|].
  destruct (Z.eqb_spec status 206) as [->|]; cbn [negb]; [|intros [= <- <- <-]; by apply Hnone].
  apply Hup in Hrep; [|done..]. rewrite Hsl in Hrep.
  unfold mbind at 1, R_bind at 1. destruct (beginCachePageWriter obj index s0) as [r s1] eqn:Hb.
  destruct (onCache_spec None _ s0 r s1 (fun r c' => forall h, r = Ok h -> live c' h (wopts index) []) Hs0 Hb)
    as (Hs1 & Hl & Hc1 & Hfl1).
  { intros c Hc _. by apply BeginPageWrite_live. }
  destruct r as [h|e]; [|intros [= <- <- <-]; by apply Hnone].
  unfold mbind at 1, R_bind at 1. destruct (storeResponse obj index bounds h body stream s1) as [[r st2] s2] eqn:Hst.
  destruct (storeResponse_spec page index bounds h body stream s1 r st2 s2 Hs1 (Hl h eq_refl) Hf Hsp Hrep
    Hsub Hadd Hmax Hst) as (Hs2 & Hfl2 & Hstr & Hd).
  unfold mbind, R_bind. destruct (onCache (Some h) (Abort h) s2) as [r3 s3] eqn:Hab.
  destruct (onCache_spec (Some h) (Abort h) s2 r3 s3 (fun _ _ => True) Hs2 Hab) as (Hs3 & _ & Hc3 & Hfl3).
  { intros c Hc _. by apply Abort_ok. }
  intros [= <- <- <-]. split_and!; [done|cbn in *; congruence| |done].
  unfold streamed in *. destruct stream; [|destruct Hstr; split; cbn in *; congruence].
  destruct Hstr as (st' & part & ? & Ho & ? & ? & He). exists st', part.
  rewrite Hc3. rewrite Hc1 in Ho. split_and!; auto.
Qed.

(** ** Streaming *)

(** A span of a page of the object. *)
Definition in_object (page : PageSpan) : Prop :=
  span_ok page (ob_PageSize obj) /\ ps_End page < ob_Size obj /\
  ps_End page < (ps_Index page + 1) * ob_PageSize obj.

Definition bytesOf (page : PageSpan) : bytes := slice (ps_Start page) (ps_End page + 1) content.

Lemma span_page_of page : in_object page -> span page (page_of (ps_Index page)) = bytesOf page.
Proof.
  intros ((Hp & Hi & Hs & _) & He & Hl). destruct Hobj as [_ Hps _ _]. unfold spanOf, pageOf, bytesOf.
  rewrite <- Hps. rewrite slice_slice by nia. f_equal; lia.
Qed.

(** [n] bytes of [whole] were written to [w], all of them if there was no error. *)
Definition wrote {E} (w : Io.Writer) (whole : bytes) (r : Z * option E) (s' : Session) : Prop :=
  session_ok s' /\ exists part, Io.out (client s') = Io.out w ++ part /\ r.1 = zlen part /\
    part `prefix_of` whole /\ (r.2 = None -> part = whole).

Lemma wrote_nothing {E} whole (e : E) s : session_ok s -> wrote (client s) whole (0, Some e) s.
Proof. intros Hs. split; [done|]. exists []. rewrite app_nil_r. split_and!; [done..|apply prefix_nil|done]. Qed.

Lemma bytesReader_content data : Io.content (bytesReader data) = data.
Proof. destruct data; [done|]. unfold Io.content. cbn. by rewrite app_nil_r. Qed.

Lemma copySpan_spec page s r s' :
  session_ok s -> in_object page ->
  copySpan buf obj (page_of (ps_Index page)) page s = (r, s') -> wrote (client s) (bytesOf page) r s'.
Proof.
  intros Hs Hin. unfold copySpan, mbind, R_bind, getClient.
  destruct (copyPageSpan buf (client s) _ page _) as [[[n err] src] w] eqn:Hcp. cbn.
  intros [= <- <-]. split; [done|]. cbn [client].
  destruct (copyPageSpan_spec _ _ _ _ _ _ _ _ _ (proj1 Hin) Hcp) as (part & Ho & Hn & Hpre & Hok).
  rewrite bytesReader_content, (span_page_of page Hin) in *. exists part. split_and!; [done..|].
  cbn. intros He. destruct err as [e|]; [done|]. by apply Hok.
Qed.

(** Whichever way the fill of a page is entered. *)
Lemma joinFill_spec {A} (Post : A -> Io.Writer -> Session -> Prop) fl index fails
    (served : bytes -> R A) (lead : R A) w s a s' :
  (forall e s1, session_ok s1 -> client s1 = w -> Post (fails e) w s1) ->
  (forall s1 a1 s2, session_ok s1 -> client s1 = w -> served (page_of index) s1 = (a1, s2) -> Post a1 w s2) ->
  (forall s1 a1 s2, session_ok s1 -> client s1 = w -> lead s1 = (a1, s2) -> Post a1 w s2) ->
  session_ok s -> client s = w -> joinFill fl obj index fails served lead s = (a, s') -> Post a w s'.
Proof.
  intros Hfails Hserved Hlead. revert s. induction fl as [|e fl IH]; intros s Hs Hw; cbn [joinFill].
  { by apply Hlead. }
  destruct e as [| |[e|]|]; unfold mbind at 1, R_bind at 1, set_flight;
    try (intros [= <- <-]; by apply Hfails); [by apply Hlead|].
  set (s0 := mkSession _ _ _ _ _ _ _ _). unfold mbind, R_bind.
  destruct (onCache None (OpenPage (ob_ID obj) index (ob_ETag obj) (ob_Epoch obj)) s0) as [r s1] eqn:Hop.
  destruct (openPage_session s0 _ _ _ _ _ _ Hs Hop) as (Hs1 & Hd & Hc1 & _).
  assert (client s1 = w) by (rewrite Hc1; exact Hw).
  destruct r as [[data|]|e]; [|by apply IH|intros [= <- <-]; by apply Hfails].
  rewrite (Hd data eq_refl). by apply Hserved.
Qed.

Lemma fillMissingPage_spec index s r s' :
  session_ok s -> 0 <= index -> index * ob_PageSize obj < ob_Size obj ->
  fillMissingPage upstream obj index s = (r, s') ->
  session_ok s' /\ client s' = client s /\ forall data, r = Ok (Some data) -> data = page_of index.
Proof.
  intros Hs Hi Hn. unfold fillMissingPage. set (P := fun (r : result ProxyError (option bytes)) w s' =>
    session_ok s' /\ client s' = w /\ forall data, r = Ok (Some data) -> data = page_of index).
  apply (joinFill_spec P); [..|done|done].
  - intros e s1 ? ?. by split_and!.
  - intros s1 a1 s2 ? ? [= <- <-]. split_and!; [done..|]. by intros data [= <-].
  - intros s1 a1 s2 Hs1 Hw. unfold mbind, R_bind.
    destruct (fetchAndStorePage upstream obj index None s1) as [[res st] s3] eqn:Hf.
    destruct (fetchAndStorePage_spec (mkPageSpan 0 0 0) index None s1 res st s3 Hs1 Hi Hn I
      ltac:(by intros []) Hf) as (Hs3 & _ & [_ Hc3] & Hd).
    intros [= <- <-]. split_and!; [done|congruence|by apply Hd].
Qed.

Lemma openCachedPage_spec index s r s' :
  session_ok s -> openCachedPage bucket obj index s = (r, s') ->
  session_ok s' /\ client s' = client s /\ forall data, r = Ok (Some data) -> data = page_of index.
Proof.
  intros Hs. unfold openCachedPage, mbind, R_bind.
  destruct (onCache None _ s) as [r1 s1] eqn:Hop.
  destruct (openPage_session s _ _ _ _ _ _ Hs Hop) as (Hs1 & Hd & Hc1 & _).
  destruct r1 as [body|e]; [intros [= <- <-]; split_and!; [done..|]; intros data [= ->]; by apply Hd|].
  destruct (Strings.Contains _ _); intros [= <- <-]; by split_and!.
Qed.

Lemma pageReader_spec index s r s' :
  session_ok s -> 0 <= index -> index * ob_PageSize obj < ob_Size obj ->
  pageReader upstream bucket obj index s = (r, s') ->
  session_ok s' /\ client s' = client s /\ forall data, r = Ok (Some data) -> data = page_of index.
Proof.
  intros Hs Hi Hn. unfold pageReader, mbind, R_bind.
  destruct (openCachedPage bucket obj index s) as [r1 s1] eqn:Hop.
  destruct (openCachedPage_spec _ _ _ _ Hs Hop) as (Hs1 & Hc1 & Hd).
  destruct r1 as [[data|]|e]; [intros [= <- <-]; by split_and!| |intros [= <- <-]; by split_and!].
  intros Hf. destruct (fillMissingPage_spec _ _ _ _ Hs1 Hi Hn Hf) as (? & ? & ?).
  split_and!; [done|congruence|done].
Qed.

Lemma fillAndStream_spec page s r s' :
  session_ok s -> in_object page ->
  fillAndStreamMissingPage buf upstream obj page s = (r, s') -> wrote (client s) (bytesOf page) r s'.
Proof.
  intros Hs Hin. unfold fillAndStreamMissingPage.
  apply (joinFill_spec (fun r w s' => wrote w (bytesOf page) r s')); [..|done|done].
  - intros e s1 ? <-. by apply wrote_nothing.
  - intros s1 a1 s2 Hs1 <-. by apply copySpan_spec.
  - intros s1 a1 s2 Hs1 <-. unfold mbind, R_bind.
    destruct Hin as (Hsp & He & Hl). pose proof Hsp as (Hp & Hi & Hse & _).
    destruct (fetchAndStorePage upstream obj _ _ s1) as [[res st] s3] eqn:Hf.
    destruct (fetchAndStorePage_spec page (ps_Index page)
      (Some (newPageSpanStream page (ob_PageSize obj))) s1 res st s3 Hs1 Hi ltac:(lia)
      (newPageSpanStream_at page _ Hsp) (fun _ => Hsp) Hf) as (Hs3 & _ & Hstr & _).
    destruct Hstr as (st' & part & -> & Ho & Hw & Hpre & Hok).
    assert (Hnil : span page [] = []) by (unfold spanOf, slice; by rewrite drop_nil, take_nil).
    rewrite Hnil in *. cbn [app] in *. rewrite span_page_of in * by done.
    intros [= <- <-]. split; [done|]. exists part. split_and!; [done..|].
    cbn. destruct res; [auto|done].
Qed.

Lemma streamPageSpan_spec page s r s' :
  session_ok s -> in_object page ->
  streamPageSpan buf upstream bucket obj page s = (r, s') -> wrote (client s) (bytesOf page) r s'.
Proof.
  intros Hs Hin. unfold streamPageSpan, mbind, R_bind.
  destruct (openCachedPage bucket obj (ps_Index page) s) as [r1 s1] eqn:Hop.
  destruct (openCachedPage_spec _ _ _ _ Hs Hop) as (Hs1 & Hc1 & Hd). rewrite <- Hc1.
  destruct r1 as [[data|]|e].
  - rewrite (Hd data eq_refl). by apply copySpan_spec.
  - by apply fillAndStream_spec.
  - intros [= <- <-]. by apply wrote_nothing.
Qed.

Lemma streamCachedPages_spec pages first total s r s' :
  session_ok s -> Forall in_object pages ->
  (forall body, first = Some body -> exists page rest, pages = page :: rest /\ body = page_of (ps_Index page)) ->
  0 <= total -> total + zlen (concat (bytesOf <$> pages)) <= int64_max ->
  streamCachedPages buf upstream bucket obj pages first total s = (r, s') ->
  session_ok s' /\ exists part, Io.out (client s') = Io.out (client s) ++ part /\
    r.1 = total + zlen part /\ part `prefix_of` concat (bytesOf <$> pages) /\
    (r.2 = None -> part = concat (bytesOf <$> pages)) /\
    (is_Some r.2 -> 0 < r.1 -> hijackable s' = true -> aborted s' = true).
Proof.
  revert first total s. induction pages as [|page pages IH]; intros first total s Hs Hin Hfirst Ht Hmax;
    cbn [streamCachedPages].
  { intros [= <- <-]. split; [done|]. exists []. rewrite app_nil_r. cbn.
    split_and!; [done|unfold zlen; cbn; lia|done|done|by intros []]. }
  apply Forall_cons in Hin as [Hp Hin]. unfold mbind at 1, R_bind at 1.
  set (m := match first with Some body => copySpan buf obj body page
            | None => streamPageSpan buf upstream bucket obj page end).
  destruct (m s) as [[n err] s1] eqn:Hone. subst m.
  assert (Hw : wrote (client s) (bytesOf page) (n, err) s1).
  { destruct first as [body|]; [|by apply streamPageSpan_spec].
    destruct (Hfirst body eq_refl) as (p0 & rest & Heq & ->). injection Heq as <- <-.
    by apply copySpan_spec. }
  destruct Hw as [Hs1 (part & Ho & Hn & Hpre & Hok)]. cbn in Hn, Hok. subst n.
  cbn [fmap list_fmap concat] in *. rewrite zlen_app in Hmax.
  assert (Hlen : zlen part <= zlen (bytesOf page)).
  { destruct Hpre as [k Hk]. rewrite Hk, zlen_app. pose proof (zlen_nonneg k). lia. }
  pose proof (zlen_nonneg part). pose proof (zlen_nonneg (concat (bytesOf <$> pages))).
  replace (add64 total (zlen part)) with (total + zlen part)
    by (unfold add64; rewrite wrap64_id; [done|int64_unfold; lia]).
  destruct err as [e|].
  - unfold mbind, R_bind, abortCommittedResponse.
    destruct (Z.leb_spec (total + zlen part) 0); intros [= <- <-];
      (split; [done|]); exists part; cbn; (split_and!; [done|done| |done|]);
      try (by apply prefix_app_r). { intros; lia. }
    intros _ _ ->. by rewrite orb_true_r.
  - specialize (Hok eq_refl). subst part. intros Hrun.
    destruct (IH None (total + zlen (bytesOf page)) s1 Hs1 Hin ltac:(done) ltac:(lia) ltac:(lia) Hrun)
      as [Hs2 (part2 & Ho2 & Hn2 & Hpre2 & Hok2 & Hab)].
    split; [done|]. exists (bytesOf page ++ part2). rewrite Ho2, Ho, app_assoc, zlen_app.
    split_and!; [done|lia|by apply prefix_app| |done]. intros He. by rewrite (Hok2 He).
Qed.

Lemma range_pages r pages :
  0 <= Start r <= End r -> End r < ob_Size obj -> PagesForRange r (ob_PageSize obj) = Ok pages ->
  Forall in_object pages /\ concat (bytesOf <$> pages) = slice (Start r) (End r + 1) content.
Proof.
  intros Hr Hn Hpages. destruct Hobj as [Hsz Hps Hpos Hbd].
  assert (Hb : End r + ob_PageSize obj <= int64_max) by lia.
  destruct (PagesForRange_spans _ _ _ Hb Hpages) as (Htile & Hspan & Hidx).
  pose proof (PagesForRange_inside _ _ _ Hb Hpages) as Hins. split; [|apply Htile].
  assert (Hpos' : Forall (fun p => 0 <= ps_Index p) pages).
  { apply Forall_forall. intros p Hp. assert (ps_Index p ∈ (ps_Index <$> pages)) as Hi
      by (apply list_elem_of_fmap; eauto).
    rewrite Hidx in Hi. apply elem_of_seqZ in Hi.
    pose proof (Z.div_pos (Start r) (ob_PageSize obj) ltac:(lia) ltac:(lia)). lia. }
  rewrite Forall_forall in *. intros p Hp.
  specialize (Hspan p Hp). specialize (Hins p Hp). specialize (Hpos' p Hp). cbn in *.
  unfold in_object, span_ok. int64_unfold. split_and!; lia.
Qed.

End Object.

End Versions.

(** * Properties *)

(** C1: a read serves the bytes of the range. Take any version of an object (its
    content given by object and ETag), an upstream store that answers conditional
    range requests with bytes of that version, and a cache whose pages so far are
    pages of their versions. Whichever pages are cached, however the fetches of
    pages are shared with other requests, whatever fails in the cache, upstream or at
    the client, and whatever other requests do to the cache between any two calls, as
    long as they too leave only pages of their versions in it, cut with the one page size
    of their object, and leave this request's open page writers alone ([env_ok]): after
    the first page was prepared, streaming writes to the client a prefix of the requested
    bytes, reports as many bytes as it wrote, and writes all of them when it reports no
    error. When it fails after the first byte and the connection can be hijacked, the
    connection is closed, so that the client does not take the prefix for the whole. The
    cache again holds only pages of their versions. The one page size is a condition on
    the cluster's configuration: a peer that asks with another page size breaks it
    ([page_size_change_keeps_pages]). *)
Theorem read_serves_range
    (version : string -> bytes -> bytes) (pageSizeOf : string -> Z) (buf : nat -> nat)
    (upstream : nat -> string -> string -> Reply) (bucket : string) (obj : Object) (r : ByteRange)
    (s s1 s2 : Session) (pages : list PageSpan) (first : bytes) (n : Z) (err : option ProxyError)
    (Hobj : object_ok version pageSizeOf obj) (Hup : honest version upstream obj)
    (Hs : session_ok version pageSizeOf s)
    (Hrange : 0 <= Start r <= End r) (Hend : End r < ob_Size obj)
    (Hprepare : prepareFirstPage upstream bucket obj r s = (Ok (pages, Some first), s1))
    (Hstream : streamCachedPages buf upstream bucket obj pages (Some first) 0 s1 = ((n, err), s2)) :
  let requested := slice (Start r) (End r + 1) (contentOf version (ob_ID obj) (ob_ETag obj)) in
  session_ok version pageSizeOf s2 /\
  exists part, Io.out (client s2) = Io.out (client s) ++ part /\ n = zlen part /\
    part `prefix_of` requested /\
    (err = None -> part = requested /\ n = End r - Start r + 1) /\
    (is_Some err -> 0 < n -> hijackable s2 = true -> aborted s2 = true).
Proof.
  cbv zeta. pose proof (oo_bound _ _ _ Hobj). pose proof (oo_positive _ _ _ Hobj).
  unfold prepareFirstPage in Hprepare.
  destruct (PagesForRange r (ob_PageSize obj)) as [[|page rest]|e] eqn:Hpages; [done| |done].
  destruct (range_pages version pageSizeOf obj Hobj r _ Hrange Hend Hpages) as [Hin Hcat].
  unfold mbind, R_bind in Hprepare.
  destruct (pageReader upstream bucket obj (ps_Index page) s) as [[fp|e] s0] eqn:Hread; [|done].
  injection Hprepare as <- -> <-.
  pose proof (proj1 (proj1 (Forall_cons _ _ _) Hin)) as ((Hp & Hi & Hse & _) & He & _).
  destruct (pageReader_spec version pageSizeOf upstream bucket obj Hobj Hup (ps_Index page) s _ s0 Hs Hi
    ltac:(lia) Hread) as (Hs0 & Hc0 & Hfirst).
  destruct (streamCachedPages_spec version pageSizeOf buf upstream bucket obj Hobj Hup (page :: rest)
    (Some first) 0 s0 (n, err) s2) as [Hs2 (part & Ho & Hn & Hpre & Hok & Hab)]; auto.
  - intros body [= <-]. exists page, rest. split; [done|]. by apply Hfirst.
  - lia.
  - rewrite Hcat, zlen_slice by (rewrite <- ?(oo_size _ _ _ Hobj); lia). int64_unfold. lia.
  - split; [done|]. exists part. rewrite Hcat in *. cbn in Hn, Hok, Hab. rewrite <- Hc0.
    split_and!; [done|lia|done| |done]. intros He0. specialize (Hok He0). split; [done|].
    rewrite Hn, Hok, zlen_slice by (rewrite <- ?(oo_size _ _ _ Hobj); lia). lia.
Qed.

(** ** Witness

    An object of 20 bytes in pages of 8, page 0 in the cache, a store that answers
    ranges, and another request that evicts page 0 while the others are fetched. *)

#[local] Existing Instance emptyCodec.

Definition alphabet : bytes := Eval vm_compute in byte_of_Z <$> seqZ 97 20.

Definition store (n : nat) (rangeHeader ifMatch : string) : Reply :=
  match ParseRange rangeHeader 20 with
  | Ok r => Response 206 (bytesReader (slice (Start r) (End r + 1) alphabet))
  | Err _ => Response 416 (bytesReader [])
  end.

Definition demoObj : Object := mkObject (ObjectKey "b" "k") "b" "k" "e1" 20 8 ∅ 0.

Definition alphaMeta : ObjectMetadata := mkObjectMetadata "b" "k" "e1" 20 8 ∅.
Definition alphaWrite : PageWrite :=
  mkPageWrite (mkPageWriteOptions (ObjectKey "b" "k") 0 "e1" 0) 8 (Some (bytesReader (slice 0 8 alphabet))).
Definition alphaPut : Cache := (run (OpPutObject alphaMeta) (set_env [] [] (emptyCache 100))).2.
Definition alphaCache : Cache := (run (OpStorePage (fun _ => 2%nat) alphaWrite) (set_env [] [] alphaPut)).2.

Definition evictor (own : option Z) (c : Cache) : Cache := (deletePage (ObjectKey "b" "k") 0 c).2.

Definition demoSession : Session :=
  mkSession alphaCache [fun _ c => c; evictor; evictor] (Io.mkWriter [] []) true false None [Leading] [].

Abbreviation ver := (fun (_ : string) (_ : bytes) => alphabet).
Abbreviation pagesBy8 := (fun _ : string => 8).

Lemma alpha_steps : rtc (cache_step (Good ver pagesBy8)) (emptyCache 100) alphaCache.
Proof.
  apply (rtc_l _ _ alphaPut); [|apply rtc_once].
  - exists (OpPutObject alphaMeta), [], []. split; [exact I|reflexivity].
  - exists (OpStorePage (fun _ => 2%nat) alphaWrite), [], []. split; [|reflexivity].
    intros src [= <-]. reflexivity.
Qed.

Lemma evictor_ok : env_ok ver pagesBy8 evictor.
Proof.
  intros own c Hc. unfold evictor. split.
  - destruct (keeps_deletePage (Good ver pagesBy8) (ObjectKey "b" "k") 0 c c) as [[Hok _ _] _];
      [by apply evolved_refl|done].
  - intros h w _ Hw. assert (Hfs : wp (deletePage (ObjectKey "b" "k") 0)
      (fun _ c' => fs c' = fs c) c).
    { unfold deletePage. wp_go; try done. destruct (sqlDeletePage _ _ _). wp_go; done. }
    unfold wp in Hfs. unfold temp. by rewrite Hfs.
Qed.

Lemma demoSession_ok : session_ok ver pagesBy8 demoSession.
Proof.
  split.
  - refine (rtc_cache_step_ok _ _ _ alpha_steps _). apply emptyCache_ok. int64_unfold; lia.
  - cbn [demoSession env]. rewrite !Forall_cons. split_and!; [by intros own c Hc|exact evictor_ok|exact evictor_ok|by apply Forall_nil].
Qed.

Lemma store_honest : honest ver store demoObj.
Proof.
  intros n b body Hb He. unfold store, rangeHeaderOf. cbn in He.
  rewrite ParseRange_formatted by (int64_unfold; lia). intros [= <-]. cbn [Start End].
  rewrite bytesReader_content. rewrite Z.min_l by lia. exists []. by rewrite app_nil_r.
Qed.

Lemma read_serves_range_witness :
  exists s1 s2 first,
    prepareFirstPage store "b" demoObj (mkByteRange 3 17) demoSession
      = (Ok ([mkPageSpan 0 3 7; mkPageSpan 1 8 15; mkPageSpan 2 16 17], Some first), s1) /\
    streamCachedPages (fun _ => 2%nat) store "b" demoObj
      [mkPageSpan 0 3 7; mkPageSpan 1 8 15; mkPageSpan 2 16 17] (Some first) 0 s1 = ((15, None), s2) /\
    Io.out (client s2) = slice 3 18 alphabet.
Proof.
  set (r := mkByteRange 3 17). set (ps := [mkPageSpan 0 3 7; mkPageSpan 1 8 15; mkPageSpan 2 16 17]).
  destruct (prepareFirstPage store "b" demoObj r demoSession) as [res s1] eqn:Hp.
  assert (Hres : res = Ok (ps, Some (slice 0 8 alphabet))).
  { change res with (res, s1).1. rewrite <- Hp. vm_compute. reflexivity. }
  subst res. destruct (streamCachedPages (fun _ => 2%nat) store "b" demoObj ps
    (Some (slice 0 8 alphabet)) 0 s1) as [[n err] s2] eqn:Hst.
  assert (Hne : (n, err) = (15, None)).
  { change (n, err) with ((n, err), s2).1. rewrite <- Hst.
    replace s1 with (prepareFirstPage store "b" demoObj r demoSession).2 by (rewrite Hp; reflexivity).
    vm_compute. reflexivity. }
  injection Hne as -> ->.
  exists s1, s2, (slice 0 8 alphabet). split; [reflexivity|]. split; [exact Hst|].
  destruct (read_serves_range ver pagesBy8 (fun _ => 2%nat) store "b" demoObj r demoSession s1 s2 ps
    (slice 0 8 alphabet) 15 None) as [_ (part & Ho & _ & _ & Hok & _)].
  - constructor; [reflexivity|reflexivity|reflexivity|]. vm_compute. discriminate.
  - exact store_honest.
  - exact demoSession_ok.
  - cbn. lia.
  - cbn. lia.
  - exact Hp.
  - exact Hst.
  - destruct (Hok eq_refl) as [-> _]. rewrite Ho. reflexivity.
Defined.
