(* ===== verification/ProxyStats.v ===== *)
(** * The statistics of a read ([internal/proxy/proxy.go])

    The same read of pages as in [ProxyRead], with what it counts on the way: the pages that
    were found in the cache and those that were not ([pagesHit], [pagesMissed]), the bytes it
    fetched, and the counters of the recorder it increments. The state of [ProxyRead] gets a
    layer, the [Tally]; taking it away gives back the read ([erases]). A [NoReply] of the
    upstream is counted as a failure of [client.Do]: that the request cannot be made or
    signed, which is not counted, is not told apart. Durations are not modelled. *)

From S2P Require Import Prelude GoStrings GoNet GoFormat Sha256 Range PageFrame CachePath CacheDB CacheStore.
From S2P Require Import CacheLogic CacheInv CacheOps ProxyPeers Metrics ProxySpan ProxyRead ProxyServe.

#[local] Open Scope go_scope.

(** ** State *)

(** What is recorded in the metrics on the way. *)
Inductive Event :=
| PageHit | PageMiss | FillCoalesced (result : string) | UpstreamFill (bytes : Z)
| UpstreamFailure (operation : string) | CacheWriteFailure.

Record Tally := mkTally { tl_hit : Z; tl_missed : Z; tl_fetched : Z; tl_events : list Event }.

Definition noTally : Tally := mkTally 0 0 0 [].

(** The recorder after the events, the latest of which comes first. *)
Definition recordEvent (isPrint : N -> bool) (bucket : string) (e : Event) : Metrics.Recorder -> Metrics.Recorder :=
  match e with
  | PageHit => Metrics.RecordPageHit isPrint bucket
  | PageMiss => Metrics.RecordPageMiss isPrint bucket
  | FillCoalesced result => Metrics.RecordFillCoalesced isPrint bucket result
  | UpstreamFill n => Metrics.RecordUpstreamFillBytes isPrint bucket n
  | UpstreamFailure operation => Metrics.RecordUpstreamFailure isPrint bucket operation
  | CacheWriteFailure => Metrics.RecordCacheWriteFailure isPrint bucket
  end.

Definition recordTally (isPrint : N -> bool) (bucket : string) (t : Tally) (r : Metrics.Recorder) : Metrics.Recorder :=
  foldr (recordEvent isPrint bucket) r (tl_events t).

(** The layer over [R]. *)
Definition L (A : Type) : Type := Tally -> R (A * Tally).

#[export] Instance L_ret : MRet L := fun A a t => mret (a, t).
#[export] Instance L_bind : MBind L := fun A B f m t => '(a, t') ← m t; f a t'.

Definition lift {A} (m : R A) : L A := fun t => a ← m; mret (a, t).

Definition tick (f : Tally -> Tally) : L () := fun t => mret ((), f t).

Definition countHit : L () := tick (fun t => mkTally (tl_hit t +! 1) (tl_missed t) (tl_fetched t) (PageHit :: tl_events t)).
Definition countMiss : L () := tick (fun t => mkTally (tl_hit t) (tl_missed t +! 1) (tl_fetched t) (PageMiss :: tl_events t)).
Definition note (e : Event) : L () := tick (fun t => mkTally (tl_hit t) (tl_missed t) (tl_fetched t) (e :: tl_events t)).
Definition countCoalesced (result : string) : L () := note (FillCoalesced result).
Definition countUpstreamFailure (operation : string) : L () := note (UpstreamFailure operation).
Definition countCacheWriteFailure : L () := note CacheWriteFailure.
Definition countFetched (size : Z) : L () :=
  tick (fun t => mkTally (tl_hit t) (tl_missed t) (tl_fetched t +! size) (UpstreamFill size :: tl_events t)).

(** ** The read *)

Section Read.
Context (buf : nat -> nat) (upstream : nat -> string -> string -> Reply).

Definition openCountedPage (bucket : string) (obj : Object) (index : Z) (recordMiss : bool)
    : L (result ProxyError (option bytes)) :=
  r ← lift (openCachedPage bucket obj index);
  match r with
  | Err e => mret (Err e)
  | Ok (Some body) => countHit;; mret (Ok (Some body))
  | Ok None => (if recordMiss then countMiss else mret ());; mret (Ok None)
  end.

Definition storeCounted (obj : Object) (index : Z) (bounds : PageSpan) (h : Z) (body : Io.Reader)
    (stream : option pageSpanStream) : L (result ProxyError (option bytes) * option pageSpanStream) :=
  c ← lift (copyPageResponseToWriter (Io.reads body) body h stream 0);
  let '(size, err, stream) := c in
  match err with
  | Some e => mret (Err e, stream)
  | None =>
      if negb (size =? ps_End bounds -! ps_Start bounds +! 1)
      then mret (Err (ErrPageBytes size (ps_End bounds -! ps_Start bounds +! 1)), stream)
      else
        countFetched size;;
        r ← lift (onCache (Some h) (Commit h));
        match r with
        | Err e => countCacheWriteFailure;; mret (Err (ErrCache e), stream)
        | Ok _ =>
            match stream with
            | Some _ => mret (Ok None, stream)
            | None =>
                r ← lift (onCache None (OpenPage (ob_ID obj) index (ob_ETag obj) (ob_Epoch obj)));
                match r with
                | Err e => mret (Err (ErrCache e), stream)
                | Ok None => mret (Err ErrNotReadable, stream)
                | Ok (Some reader) => mret (Ok (Some reader), stream)
                end
            end
        end
  end.

Definition fetchCounted (obj : Object) (index : Z) (stream : option pageSpanStream)
    : L (result ProxyError (option bytes) * option pageSpanStream) :=
  match PageBounds index (ob_PageSize obj) (ob_Size obj) with
  | Err e => mret (Err (ErrRange e), stream)
  | Ok bounds =>
      resp ← lift (upstreamDo upstream (rangeHeaderOf bounds) (ob_ETag obj));
      match resp with
      | NoReply => countUpstreamFailure "fill";; mret (Err ErrRequest, stream)
      | Response status body =>
          if status =? 412 then mret (Err ErrObjectChanged, stream)
          else if negb (status =? 206) then countUpstreamFailure "fill";; mret (Err (ErrStatus status), stream)
          else
            h ← lift (beginCachePageWriter obj index);
            match h with
            | Err e => countCacheWriteFailure;; mret (Err (ErrCache e), stream)
            | Ok h =>
                r ← storeCounted obj index bounds h body stream;
                _ ← lift (onCache (Some h) (Abort h));
                mret r
            end
      end
  end.

Fixpoint joinCounted {A} (fl : list Entry) (obj : Object) (index : Z) (fails : ProxyError -> A)
    (served : bytes -> R A) (lead : L A) : L A :=
  match fl with
  | [] => lead
  | Leading :: fl => lift (set_flight fl);; lead
  | Overloaded :: fl => lift (set_flight fl);; mret (fails ErrPeerFillOverloaded)
  | Cancelled :: fl => lift (set_flight fl);; mret (fails ErrCanceled)
  | Joined (Some e) :: fl => lift (set_flight fl);; countCoalesced "error";; mret (fails e)
  | Joined None :: fl =>
      lift (set_flight fl);;
      r ← lift (onCache None (OpenPage (ob_ID obj) index (ob_ETag obj) (ob_Epoch obj)));
      match r with
      | Err e => countCoalesced "error";; mret (fails (ErrCache e))
      | Ok None => countCoalesced "miss";; joinCounted fl obj index fails served lead
      | Ok (Some body) => countCoalesced "hit";; lift (served body)
      end
  end.

Definition fillCounted (obj : Object) (index : Z) : L (result ProxyError (option bytes)) := fun t s =>
  joinCounted (flight s) obj index Err (fun body => mret (Ok (Some body)))
    (r ← fetchCounted obj index None; mret r.1) t s.

Definition readCounted (bucket : string) (obj : Object) (index : Z) : L (result ProxyError (option bytes)) :=
  r ← openCountedPage bucket obj index true;
  match r with
  | Err e => mret (Err e)
  | Ok (Some body) => mret (Ok (Some body))
  | Ok None => fillCounted obj index
  end.

Definition fillAndStreamCounted (obj : Object) (page : PageSpan) : L (Z * option ProxyError) := fun t s =>
  joinCounted (flight s) obj (ps_Index page) (fun e => (0, Some e))
    (fun body => copySpan buf obj body page)
    (r ← fetchCounted obj (ps_Index page) (Some (newPageSpanStream page (ob_PageSize obj)));
     let '(res, stream) := r in
     mret (from_option pss_written 0 stream, match res with Err e => Some e | Ok _ => None end)) t s.

Definition streamCounted (bucket : string) (obj : Object) (page : PageSpan) : L (Z * option ProxyError) :=
  r ← openCountedPage bucket obj (ps_Index page) true;
  match r with
  | Err e => mret (0, Some e)
  | Ok (Some body) => lift (copySpan buf obj body page)
  | Ok None => fillAndStreamCounted obj page
  end.

Fixpoint streamPagesCounted (bucket : string) (obj : Object) (pages : list PageSpan)
    (firstPage : option bytes) (total : Z) : L (Z * option ProxyError) :=
  match pages with
  | [] => mret (total, None)
  | page :: pages =>
      r ← match firstPage with
          | Some body => lift (copySpan buf obj body page)
          | None => streamCounted bucket obj page
          end;
      let '(n, err) := r in
      let total := total +! n in
      match err with
      | Some e => lift (abortCommittedResponse total);; mret (total, Some e)
      | None => streamPagesCounted bucket obj pages None total
      end
  end.

Definition prepareCounted (bucket : string) (obj : Object) (byteRange : ByteRange)
    : L (result ProxyError (list PageSpan * option bytes)) :=
  match PagesForRange byteRange (ob_PageSize obj) with
  | Err e => mret (Err (ErrRange e))
  | Ok [] => mret (Ok ([], None))
  | Ok ((page :: _) as pages) =>
      r ← readCounted bucket obj (ps_Index page);
      match r with
      | Err e => mret (Err e)
      | Ok firstPage => mret (Ok (pages, firstPage))
      end
  end.

End Read.

(** ** Counting changes nothing *)

(** [m] does what [m0] does, whatever was counted. *)
Definition erases {A} (m : L A) (m0 : R A) : Prop := forall t s, exists t', m t s = (((m0 s).1, t'), (m0 s).2).

Lemma erases_ret {A} (a : A) : erases (mret a) (mret a).
Proof. intros t s. by exists t. Qed.

Lemma erases_lift {A} (m : R A) : erases (lift m) m.
Proof. intros t s. exists t. unfold lift, mbind, R_bind. by destruct (m s). Qed.

Lemma erases_bind {A B} (m : L A) (m0 : R A) (f : A -> L B) (f0 : A -> R B) :
  erases m m0 -> (forall a, erases (f a) (f0 a)) -> erases (m ≫= f) (m0 ≫= f0).
Proof.
  intros Hm Hf t s. destruct (Hm t s) as [t1 E]. unfold mbind, L_bind, R_bind. unfold mbind, R_bind. rewrite E.
  destruct (m0 s) as [a s1]. cbn. apply Hf.
Qed.

Lemma erases_tick {A} f (m : L A) (m0 : R A) : erases m m0 -> erases (tick f;; m) m0.
Proof. intros Hm t s. apply (Hm (f t) s). Qed.

Lemma erases_run {A} (m : L A) (m0 : R A) t s a t' s' : erases m m0 -> m t s = ((a, t'), s') -> m0 s = (a, s').
Proof. intros He E. destruct (He t s) as [t1 E1]. rewrite E in E1. destruct (m0 s). by injection E1 as -> _ ->. Qed.

Create HintDb counted discriminated.
#[export] Hint Resolve erases_ret erases_lift : counted.

Ltac erase_step :=
  lazymatch goal with
  | |- erases (mret _) _ => apply erases_ret
  | |- erases (lift _) _ => apply erases_lift
  | |- erases (mbind _ (countFetched _)) _ => apply erases_tick
  | |- erases (mbind _ (countCoalesced _)) _ => apply erases_tick
  | |- erases (mbind _ (countUpstreamFailure _)) _ => apply erases_tick
  | |- erases (mbind _ countCacheWriteFailure) _ => apply erases_tick
  | |- erases (mbind _ _) _ => apply erases_bind; [|intros ?]
  | |- erases (match ?x with _ => _ end) _ => destruct x
  | |- erases _ _ => solve [eauto with counted]
  end.
Ltac erase := repeat erase_step.

Section Erasure.
Context (buf : nat -> nat) (upstream : nat -> string -> string -> Reply) (bucket : string) (obj : Object).

Lemma erases_open index miss : erases (openCountedPage bucket obj index miss) (openCachedPage bucket obj index).
Proof.
  intros t s. unfold openCountedPage. destruct (erases_lift (openCachedPage bucket obj index) t s) as [t1 E].
  unfold mbind at 1, L_bind at 1. unfold mbind at 1, R_bind at 1. rewrite E.
  destruct (openCachedPage bucket obj index s) as [[[body|]|e] s1]; [eexists; reflexivity| |eexists; reflexivity].
  destruct miss; eexists; reflexivity.
Qed.

Lemma erases_store index bounds h body stream :
  erases (storeCounted obj index bounds h body stream) (storeResponse obj index bounds h body stream).
Proof. unfold storeCounted, storeResponse. erase. Qed.

Lemma erases_fetch index stream : erases (fetchCounted upstream obj index stream) (fetchAndStorePage upstream obj index stream).
Proof. unfold fetchCounted, fetchAndStorePage. pose proof erases_store. erase. Qed.

Lemma erases_join {A} fl index (fails : ProxyError -> A) served lead lead0 : erases lead lead0 ->
  erases (joinCounted fl obj index fails served lead) (joinFill fl obj index fails served lead0).
Proof.
  intros Hl. induction fl as [|e fl IH]; cbn [joinCounted joinFill]; [done|].
  destruct e as [| |[e|]|]; erase; done.
Qed.

Lemma erases_fill index : erases (fillCounted upstream obj index) (fillMissingPage upstream obj index).
Proof.
  intros t s. unfold fillCounted, fillMissingPage. apply erases_join. pose proof erases_fetch. erase.
Qed.

Lemma erases_read index : erases (readCounted upstream bucket obj index) (pageReader upstream bucket obj index).
Proof. unfold readCounted, pageReader. pose proof erases_open. pose proof erases_fill. erase. Qed.

Lemma erases_stream page : erases (streamCounted buf upstream bucket obj page) (streamPageSpan buf upstream bucket obj page).
Proof.
  unfold streamCounted, streamPageSpan. pose proof erases_open.
  assert (erases (fillAndStreamCounted buf upstream obj page) (fillAndStreamMissingPage buf upstream obj page)).
  { intros t s. unfold fillAndStreamCounted, fillAndStreamMissingPage. apply erases_join. pose proof erases_fetch. erase. }
  erase.
Qed.

Lemma erases_pages pages first total :
  erases (streamPagesCounted buf upstream bucket obj pages first total) (streamCachedPages buf upstream bucket obj pages first total).
Proof.
  revert first total. induction pages as [|page pages IH]; intros first total; cbn [streamPagesCounted streamCachedPages]; [erase|].
  pose proof erases_stream. erase; done.
Qed.

Lemma erases_prepare range : erases (prepareCounted upstream bucket obj range) (prepareFirstPage upstream bucket obj range).
Proof. unfold prepareCounted, prepareFirstPage. pose proof erases_read. erase. Qed.

End Erasure.

(** ** What is counted *)

(** A predicate on tallies that [m] keeps. *)
Definition tallies {A} (P : Tally -> Tally -> Prop) (m : L A) : Prop := forall t s a t' s', m t s = ((a, t'), s') -> P t t'.

Lemma tallies_lift {A} (P : Tally -> Tally -> Prop) (m : R A) : (forall t, P t t) -> tallies P (lift m).
Proof. intros Hr t s a t' s'. unfold lift, mbind, R_bind. destruct (m s). by intros [= <- <- <-]. Qed.

Lemma tallies_ret {A} (P : Tally -> Tally -> Prop) (a : A) : (forall t, P t t) -> tallies P (mret a).
Proof. intros Hr t s b t' s' [= <- <- <-]. apply Hr. Qed.

Lemma tallies_tick (P : Tally -> Tally -> Prop) f : (forall t, P t (f t)) -> tallies P (tick f).
Proof. intros Hf t s b t' s' [= <- <- <-]. apply Hf. Qed.

Lemma bind_inv {A B} (m : L A) (f : A -> L B) t s b t' s' : (m ≫= f) t s = ((b, t'), s') ->
  exists a t1 s1, m t s = ((a, t1), s1) /\ f a t1 s1 = ((b, t'), s').
Proof.
  unfold mbind at 1, L_bind at 1. unfold mbind at 1, R_bind at 1.
  destruct (m t s) as [[a t1] s1]. intros E. eauto.
Qed.

Lemma tallies_bind {A B} (P Q T : Tally -> Tally -> Prop) (m : L A) (f : A -> L B) :
  (forall t1 t2 t3, P t1 t2 -> Q t2 t3 -> T t1 t3) -> tallies P m -> (forall a, tallies Q (f a)) -> tallies T (m ≫= f).
Proof. intros Htr Hm Hf t s b t' s' (a & t1 & s1 & E1 & E2)%bind_inv.
  apply (Htr t t1 t'); [by eapply Hm|by eapply Hf]. Qed.

(** The tally and the counters of the recorder agree: as many events as were counted. *)
Definition events_of (t : Tally) : Z * Z * Z :=
  (sum_by (fun e => match e with PageHit => 1 | _ => 0 end) (tl_events t),
   sum_by (fun e => match e with PageMiss => 1 | _ => 0 end) (tl_events t),
   sum_by (fun e => match e with UpstreamFill n => n | _ => 0 end) (tl_events t)).

Definition agrees (t : Tally) : Prop :=
  tl_hit t = wrap64 (events_of t).1.1 /\ tl_missed t = wrap64 (events_of t).1.2 /\ tl_fetched t = wrap64 (events_of t).2.

Definition keeping {A} : L A -> Prop := tallies (fun t t' => agrees t -> agrees t').

Lemma wrap64_add a b : wrap64 (wrap64 a + b) = wrap64 (b + a).
Proof. unfold wrap64. replace ((a + 2 ^ 63) mod 2 ^ 64 - 2 ^ 63 + b + 2 ^ 63) with ((a + 2 ^ 63) mod 2 ^ 64 + b) by lia.
  rewrite Z.add_mod_idemp_l by lia. do 2 f_equal. lia. Qed.

Lemma keeping_ret {A} (a : A) : keeping (mret a).
Proof. apply tallies_ret. auto. Qed.
Lemma keeping_lift {A} (m : R A) : keeping (lift m).
Proof. apply tallies_lift. auto. Qed.
Lemma keeping_bind {A B} (m : L A) (f : A -> L B) : keeping m -> (forall a, keeping (f a)) -> keeping (m ≫= f).
Proof. apply tallies_bind. auto. Qed.
Lemma keeping_hit : keeping countHit.
Proof. apply tallies_tick. intros t (Hh & Hm & Hf). unfold agrees, events_of in *. cbn. split_and!; [|done|done]. unfold add64. rewrite Hh. apply wrap64_add. Qed.
Lemma keeping_miss : keeping countMiss.
Proof. apply tallies_tick. intros t (Hh & Hm & Hf). unfold agrees, events_of in *. cbn. split_and!; [done| |done]. unfold add64. rewrite Hm. apply wrap64_add. Qed.
Lemma keeping_fetched n : keeping (countFetched n).
Proof. apply tallies_tick. intros t (Hh & Hm & Hf). unfold agrees, events_of in *. cbn. split_and!; [done|done|]. unfold add64. rewrite Hf. apply wrap64_add. Qed.
Lemma keeping_coalesced r : keeping (countCoalesced r).
Proof. apply tallies_tick. intros t Ht. exact Ht. Qed.
Lemma keeping_upstream_failure op : keeping (countUpstreamFailure op).
Proof. apply tallies_tick. intros t Ht. exact Ht. Qed.
Lemma keeping_write_failure : keeping countCacheWriteFailure.
Proof. apply tallies_tick. intros t Ht. exact Ht. Qed.
#[export] Hint Resolve keeping_hit keeping_miss keeping_fetched keeping_coalesced keeping_upstream_failure keeping_write_failure : counted.

Ltac keep_step :=
  lazymatch goal with
  | |- keeping (mret _) => apply keeping_ret
  | |- keeping (lift _) => apply keeping_lift
  | |- keeping (mbind _ _) => apply keeping_bind; [|intros ?]
  | |- keeping (match ?x with _ => _ end) => destruct x
  | |- keeping _ => solve [eauto with counted]
  end.

Section Agreement.
Context (buf : nat -> nat) (upstream : nat -> string -> string -> Reply) (bucket : string) (obj : Object).

Lemma keeping_open index miss : keeping (openCountedPage bucket obj index miss).
Proof. unfold openCountedPage. repeat keep_step. Qed.

Lemma keeping_fetch index stream : keeping (fetchCounted upstream obj index stream).
Proof. unfold fetchCounted, storeCounted. repeat keep_step. Qed.

Lemma keeping_join {A} fl index (fails : ProxyError -> A) served lead :
  keeping lead -> keeping (joinCounted fl obj index fails served lead).
Proof.
  intros Hl. induction fl as [|e fl IH]; cbn [joinCounted]; [done|]. destruct e as [| |[e|]|]; repeat keep_step.
Qed.

Lemma keeping_prepare range : keeping (prepareCounted upstream bucket obj range).
Proof.
  assert (forall index, keeping (fillCounted upstream obj index)).
  { intros index t s. apply keeping_join. pose proof keeping_fetch. repeat keep_step. }
  pose proof keeping_open. unfold prepareCounted, readCounted. repeat keep_step.
Qed.

Lemma keeping_pages pages first total : keeping (streamPagesCounted buf upstream bucket obj pages first total).
Proof.
  assert (forall page, keeping (fillAndStreamCounted buf upstream obj page)).
  { intros page t s. apply keeping_join. pose proof keeping_fetch. repeat keep_step. }
  pose proof keeping_open. revert first total. induction pages as [|page pages IH]; intros first total; cbn [streamPagesCounted];
    unfold streamCounted; repeat keep_step.
Qed.

End Agreement.

Section Accounting.
Context (version : string -> bytes -> bytes) (pageSizeOf : string -> Z).
Context (buf : nat -> nat) (upstream : nat -> string -> string -> Reply) (bucket : string) (obj : Object).
Context (Hobj : object_ok version pageSizeOf obj).
Abbreviation PS := (ob_PageSize obj).

(** Nothing was counted. *)
Definition same (t t' : Tally) : Prop := tl_hit t' = tl_hit t /\ tl_missed t' = tl_missed t /\ tl_fetched t' = tl_fetched t.

(** At most a page was fetched. *)
Definition fills (t t' : Tally) : Prop :=
  tl_hit t' = tl_hit t /\ tl_missed t' = tl_missed t /\
  (0 <= tl_fetched t -> tl_fetched t + PS <= int64_max -> tl_fetched t <= tl_fetched t' <= tl_fetched t + PS).

Lemma same_refl t : same t t.
Proof. done. Qed.
Lemma same_fills t t' : same t t' -> fills t t'.
Proof. intros (? & ? & E). pose proof (oo_positive _ _ _ Hobj). split_and!; [done|done|]. rewrite E. lia. Qed.
Lemma same_then_fills t1 t2 t3 : same t1 t2 -> fills t2 t3 -> fills t1 t3.
Proof. intros (E1 & E2 & E3) (F1 & F2 & F3). rewrite E3 in F3. split_and!; [congruence..|done]. Qed.
Lemma fills_then_same t1 t2 t3 : fills t1 t2 -> same t2 t3 -> fills t1 t3.
Proof. intros (F1 & F2 & F3) (E1 & E2 & E3). split_and!; [congruence..|]. by rewrite E3. Qed.
Lemma same_trans t1 t2 t3 : same t1 t2 -> same t2 t3 -> same t1 t3.
Proof. intros (? & ? & ?) (? & ? & ?). split_and!; congruence. Qed.

Lemma fills_of_same {A} (m : L A) : tallies same m -> tallies fills m.
Proof. intros Hm t s a t' s' E. by eapply same_fills, Hm. Qed.

Ltac same_step :=
  lazymatch goal with
  | |- tallies same (mret _) => apply tallies_ret, same_refl
  | |- tallies same (lift _) => apply tallies_lift, same_refl
  | |- tallies same (countCoalesced _) => by apply tallies_tick
  | |- tallies same (countUpstreamFailure _) => by apply tallies_tick
  | |- tallies same countCacheWriteFailure => by apply tallies_tick
  | |- tallies same (mbind _ _) => apply (tallies_bind same same same _ _ same_trans); [|intros ?]
  | |- tallies same (match ?x with _ => _ end) => destruct x
  end.

Lemma fetch_fills index stream : 0 <= index -> index * PS < ob_Size obj -> tallies fills (fetchCounted upstream obj index stream).
Proof.
  intros Hi Hn. unfold fetchCounted.
  destruct (bounds_page version pageSizeOf obj Hobj index Hi Hn) as (bounds & -> & _ & _ & Hsub & Hadd & _).
  apply (tallies_bind same fills fills _ _ same_then_fills); [same_step|]. intros [|status body]; [by apply fills_of_same; repeat same_step|].
  destruct (status =? 412); [by apply fills_of_same; repeat same_step|]. destruct (negb _); [by apply fills_of_same; repeat same_step|].
  apply (tallies_bind same fills fills _ _ same_then_fills); [same_step|]. intros [h|e]; [|by apply fills_of_same; repeat same_step].
  apply (tallies_bind fills same fills _ _ fills_then_same); [|intros r; repeat same_step]. unfold storeCounted.
  apply (tallies_bind same fills fills _ _ same_then_fills); [same_step|]. intros [[size err] st].
  destruct err as [e|]; [by apply fills_of_same; repeat same_step|]. rewrite Hsub, Hadd.
  destruct (Z.eqb_spec size (zlen (pageOf version pageSizeOf (ob_ID obj) (ob_ETag obj) index))) as [->|]; cbn [negb];
    [|by apply fills_of_same; repeat same_step].
  apply (tallies_bind fills same fills _ _ fills_then_same); [|intros ?; repeat same_step].
  apply tallies_tick. intros t. split_and!; [done|done|]. cbn [tl_fetched].
  set (pg := pageOf _ _ _ _ _). assert (zlen pg <= PS).
  { subst pg. pose proof (oo_positive _ _ _ Hobj). unfold pageOf, slice, zlen. rewrite length_take, <- (oo_pageSize _ _ _ Hobj). lia. }
  pose proof (zlen_nonneg pg). intros. unfold add64. rewrite wrap64_id by (int64_unfold; lia). lia.
Qed.

Lemma join_fills {A} fl index (fails : ProxyError -> A) served lead :
  tallies fills lead -> tallies fills (joinCounted fl obj index fails served lead).
Proof.
  intros Hl. induction fl as [|e fl IH]; cbn [joinCounted]; [done|].
  destruct e as [| |[e|]|]; (apply (tallies_bind same fills fills _ _ same_then_fills); [same_step|intros _]);
    [done|by apply fills_of_same; repeat same_step|by apply fills_of_same; repeat same_step| |by apply fills_of_same; repeat same_step].
  apply (tallies_bind same fills fills _ _ same_then_fills); [same_step|]. intros [[body|]|e];
    [by apply fills_of_same; repeat same_step| |by apply fills_of_same; repeat same_step].
  by apply (tallies_bind same fills fills _ _ same_then_fills); [same_step|].
Qed.

(** ** Pages one by one *)

(** There is room for the statistics of [n] pages. *)
Definition room (n : Z) (t : Tally) : Prop :=
  0 <= tl_hit t /\ 0 <= tl_missed t /\ 0 <= tl_fetched t /\
  tl_hit t + n <= int64_max /\ tl_missed t + n <= int64_max /\ tl_fetched t + n * PS <= int64_max.

(** What was counted of [n] pages, all of them if [done]: each is a hit or a miss, at most a
    page is fetched for a miss, and without a miss nothing is asked of the store. *)
Definition accounted (n : Z) (finished : Prop) (t t' : Tally) (s s' : Session) : Prop := exists h m f,
  0 <= h /\ 0 <= m /\ h + m <= n /\ (finished -> h + m = n) /\ 0 <= f <= m * PS /\
  tl_hit t' = tl_hit t + h /\ tl_missed t' = tl_missed t + m /\ tl_fetched t' = tl_fetched t + f /\
  (m = 0 -> sent s' = sent s).

Lemma accounted_none (finished : Prop) t s s' : sent s' = sent s -> accounted 0 finished t t s s'.
Proof. intros Hs. exists 0, 0, 0. split_and!; lia || done. Qed.

Lemma accounted_trans n1 n2 (f1 f2 f3 : Prop) t1 t2 t3 s1 s2 s3 :
  accounted n1 f1 t1 t2 s1 s2 -> accounted n2 f2 t2 t3 s2 s3 -> (f3 -> f1 /\ f2) ->
  accounted (n1 + n2) f3 t1 t3 s1 s3.
Proof.
  intros (h1 & m1 & b1 & ? & ? & ? & D1 & ? & ? & ? & ? & S1) (h2 & m2 & b2 & ? & ? & ? & D2 & ? & ? & ? & ? & S2) Hf.
  exists (h1 + h2), (m1 + m2), (b1 + b2). split_and!; try lia.
  - intros [F1 F2]%Hf. specialize (D1 F1). specialize (D2 F2). lia.
  - intros Hm. rewrite S2, S1 by lia. done.
Qed.

Lemma accounted_more n n' (f f' : Prop) t t' s s' : accounted n f t t' s s' -> n <= n' -> (f' -> f /\ n = n') -> accounted n' f' t t' s s'.
Proof.
  intros (h & m & b & ? & ? & ? & D & ? & ? & ? & ? & S) Hn Hf. exists h, m, b. split_and!; try lia; try done.
  intros [F ->]%Hf. by apply D.
Qed.

Lemma room_after n1 n2 f t t' s s' : 0 <= n2 -> room (n1 + n2) t -> accounted n1 f t t' s s' -> room n2 t'.
Proof.
  intros Hn (? & ? & ? & ? & ? & ?) (h & m & b & ? & ? & ? & _ & ? & E1 & E2 & E3 & _). pose proof (oo_positive _ _ _ Hobj).
  assert (b <= n1 * PS) by nia. unfold room. rewrite E1, E2, E3. split_and!; nia.
Qed.

Lemma openCachedPage_sent index s : sent (openCachedPage bucket obj index s).2 = sent s.
Proof.
  unfold openCachedPage, mbind, R_bind, onCache.
  destruct (match env s with [] => _ | _ => _ end) as [c rest]. destruct (OpenPage _ _ _ _ c) as [[body|e] c']; [done|].
  by destruct (Strings.Contains _ _).
Qed.

Lemma copySpan_sent body page s : sent (copySpan buf obj body page s).2 = sent s.
Proof. unfold copySpan, mbind, R_bind, getClient, set_client. by destruct (copyPageSpan _ _ _ _ _) as [[[n err] src] w]. Qed.

(** Opening a page and what is done with it: [found] asks nothing of the store, [lacking]
    fetches at most the page. *)
Lemma page_accounted {A} index (found : bytes -> L A) (lacking : L A) (fails : ProxyError -> A) (finished : A -> Prop) t s a t' s' :
  (forall body, tallies same (found body)) -> (forall body t s, sent (found body t s).2 = sent s) -> tallies fills lacking ->
  (forall e, ~ finished (fails e)) -> room 1 t ->
  (r ← openCountedPage bucket obj index true;
   match r with Err e => mret (fails e) | Ok (Some body) => found body | Ok None => lacking end) t s = ((a, t'), s') ->
  accounted 1 (finished a) t t' s s'.
Proof.
  intros Hfound Hsent Hlack Hfails (? & ? & ? & ? & ? & ?) Hrun. pose proof (oo_positive _ _ _ Hobj).
  pose proof (openCachedPage_sent index s) as Hs1. unfold openCountedPage, lift in Hrun.
  unfold mbind, L_bind in Hrun. unfold mbind, R_bind in Hrun.
  destruct (openCachedPage bucket obj index s) as [[[body|]|e] s1]; cbn in Hs1.
  - set (t1 := mkTally (tl_hit t +! 1) (tl_missed t) (tl_fetched t) (PageHit :: tl_events t)).
    change (found body t1 s1 = ((a, t'), s')) in Hrun. pose proof (Hfound body t1 s1 a t' s' Hrun) as (E1 & E2 & E3).
    pose proof (Hsent body t1 s1) as Hs2. rewrite Hrun in Hs2. cbn in Hs2, E1, E2, E3.
    exists 1, 0, 0. unfold add64 in E1. rewrite wrap64_id in E1 by (int64_unfold; lia). split_and!; try lia; congruence.
  - set (t1 := mkTally (tl_hit t) (tl_missed t +! 1) (tl_fetched t) (PageMiss :: tl_events t)).
    change (lacking t1 s1 = ((a, t'), s')) in Hrun. destruct (Hlack t1 s1 a t' s' Hrun) as (E1 & E2 & E3). cbn in E1, E2, E3.
    unfold add64 in E2. rewrite wrap64_id in E2 by (int64_unfold; lia).
    exists 0, 1, (tl_fetched t' - tl_fetched t). split_and!; lia.
  - injection Hrun as <- <- <-. exists 0, 0, 0. split_and!; try lia; [|done]. intros Hf. by apply Hfails in Hf.
Qed.

Lemma stream_accounted page t s r t' s' :
  in_object obj page -> room 1 t -> streamCounted buf upstream bucket obj page t s = ((r, t'), s') ->
  accounted 1 (r.2 = None) t t' s s'.
Proof.
  intros (Hsp & He & _) Hroom. pose proof Hsp as (_ & Hi & Hse & _).
  apply (page_accounted (ps_Index page) (fun body => lift (copySpan buf obj body page)) _ (fun e => (0, Some e)) (fun r => r.2 = None)); [| | |done|done].
  - intros body. same_step.
  - intros body t0 s0. unfold lift, mbind, R_bind. rewrite <- (copySpan_sent body page s0). by destruct (copySpan buf obj body page s0).
  - intros t0 s0. apply join_fills. apply (tallies_bind fills same fills _ _ fills_then_same); [apply fetch_fills; lia|].
    intros [res st]. same_step.
Qed.

Lemma read_accounted index t s r t' s' :
  0 <= index -> index * PS < ob_Size obj -> room 1 t -> readCounted upstream bucket obj index t s = ((r, t'), s') ->
  accounted 1 (is_ok r = true) t t' s s'.
Proof.
  intros Hi Hn Hroom.
  apply (page_accounted index (fun body => mret (Ok (Some body))) _ Err (fun r => is_ok r = true)); [| | |done|done].
  - intros body. same_step.
  - done.
  - intros t0 s0. apply join_fills. apply (tallies_bind fills same fills _ _ fills_then_same); [by apply fetch_fills|].
    intros [res st]. same_step.
Qed.

Lemma pages_accounted pages total t s r t' s' :
  Forall (in_object obj) pages -> room (zlen pages) t ->
  streamPagesCounted buf upstream bucket obj pages None total t s = ((r, t'), s') ->
  accounted (zlen pages) (r.2 = None) t t' s s'.
Proof.
  revert total t s. induction pages as [|page pages IH]; intros total t s Hin Hroom; cbn [streamPagesCounted].
  { intros [= <- <- <-]. by apply accounted_none. }
  apply Forall_cons in Hin as [Hp Hin]. replace (zlen (page :: pages)) with (1 + zlen pages) in * by (unfold zlen; cbn; lia).
  pose proof (zlen_nonneg pages). intros ([n err] & t1 & s1 & E1 & E2)%bind_inv.
  assert (Hroom1 : room 1 t) by (destruct Hroom as (? & ? & ? & ? & ? & ?); pose proof (oo_positive _ _ _ Hobj); split_and!; nia).
  pose proof (stream_accounted page t s _ t1 s1 Hp Hroom1 E1) as Ha. destruct err as [e|].
  - apply bind_inv in E2 as (u & t2 & s2 & E2 & [= <- <- <-]). unfold lift, mbind, R_bind, abortCommittedResponse in E2.
    assert (t2 = t1 /\ sent s2 = sent s1) as [-> Hs2] by (destruct (_ <=? 0); injection E2; intros; subst; done).
    apply (accounted_trans 1 (zlen pages) ((n, Some e).2 = None) False (( total +! n, Some e).2 = None) t t1 t1 s s1 s2); [done| |done].
    by apply (accounted_more 0 _ False); [apply accounted_none|lia|].
  - apply (accounted_trans 1 (zlen pages) True (r.2 = None) (r.2 = None) t t1 t' s s1 s'); [|eapply IH; [done| |exact E2]|done].
    + by apply (accounted_more 1 1 ((n, None : option ProxyError).2 = None)); [..|done].
    + by eapply room_after; [lia|exact Hroom|exact Ha].
Qed.

Lemma prepare_pages r s pages first s1 :
  prepareFirstPage upstream bucket obj r s = (Ok (pages, Some first), s1) ->
  exists page rest, PagesForRange r PS = Ok (page :: rest) /\ pages = page :: rest.
Proof.
  unfold prepareFirstPage. destruct (PagesForRange r PS) as [[|page rest]|e]; [done| |done].
  unfold mbind, R_bind. destruct (pageReader _ _ _ _ _) as [[fp|e] s0]; [|done]. intros [= <- _ _]. by exists page, rest.
Qed.

(** The first page is counted when it is prepared, the others when they are streamed. *)
Lemma read_range_accounted r page rest first s s1 s2 t1 t2 n err :
  0 <= Start r <= End r -> End r < ob_Size obj -> PagesForRange r PS = Ok (page :: rest) -> room (zlen (page :: rest)) noTally ->
  prepareCounted upstream bucket obj r noTally s = ((Ok (page :: rest, Some first), t1), s1) ->
  streamPagesCounted buf upstream bucket obj (page :: rest) (Some first) 0 t1 s1 = (((n, err), t2), s2) ->
  accounted (zlen (page :: rest)) (err = None) noTally t2 s s2.
Proof.
  intros Hrange Hend Hpages Hroom Hprep. destruct (range_pages version pageSizeOf obj Hobj r _ Hrange Hend Hpages) as [Hin _].
  apply Forall_cons in Hin as [Hp Hin]. pose proof Hp as ((_ & Hi & Hse & _) & He & _).
  replace (zlen (page :: rest)) with (1 + zlen rest) in * by (unfold zlen; cbn; lia). pose proof (zlen_nonneg rest).
  pose proof (oo_positive _ _ _ Hobj).
  unfold prepareCounted in Hprep. rewrite Hpages in Hprep. apply bind_inv in Hprep as (res & t1' & s1' & Hread & Hprep).
  apply read_accounted in Hread; [|lia|lia|destruct Hroom as (? & ? & ? & ? & ? & ?); split_and!; cbn in *; nia].
  destruct res as [fp|e]; [|done]. injection Hprep as _ -> ->.
  pose proof (room_after 1 (zlen rest) _ _ _ _ _ ltac:(lia) Hroom Hread) as Hroom1.
  cbn [streamPagesCounted]. intros ([k e] & t & s' & E1 & E2)%bind_inv.
  assert (t = t1 /\ sent s' = sent s1) as [-> Hs'].
  { rewrite <- (copySpan_sent first page s1). unfold lift, mbind, R_bind in E1. destruct (copySpan buf obj first page s1). by injection E1 as _ <- <-. }
  eapply (accounted_trans 1 (zlen rest) _ (err = None)); [exact Hread| |done].
  destruct e as [e|].
  - apply bind_inv in E2 as (u & t & s3 & E2 & [= _ <- <- <-]). unfold lift, mbind, R_bind, abortCommittedResponse in E2.
    assert (t = t1 /\ sent s3 = sent s') as [-> Hs2] by (destruct (_ <=? 0); injection E2; intros; subst; done).
    by apply (accounted_more 0 _ False); [apply accounted_none; congruence|lia|].
  - destruct (pages_accounted rest _ t1 s' (n, err) t2 s2 Hin Hroom1 E2) as (h & m & f & Ha). exists h, m, f. rewrite <- Hs'. exact Ha.
Qed.

End Accounting.

Section Range.
Context (version : string -> bytes -> bytes) (pageSizeOf : string -> Z) (obj : Object) (r : ByteRange) (pages : list PageSpan).
Context (Hobj : object_ok version pageSizeOf obj) (Hrange : 0 <= Start r <= End r) (Hend : End r < ob_Size obj).
Context (Hpages : PagesForRange r (ob_PageSize obj) = Ok pages).

(** The statistics of the pages of a range of an object do not overflow. *)
Lemma range_room : room obj (zlen pages) noTally.
Proof.
  pose proof (oo_bound _ _ _ Hobj). pose proof (oo_positive _ _ _ Hobj).
  destruct (PagesForRange_spans r (ob_PageSize obj) pages ltac:(lia) Hpages) as (_ & _ & Hidx).
  apply (f_equal length) in Hidx. rewrite length_fmap, length_seqZ in Hidx.
  pose proof (Z.div_pos (Start r) (ob_PageSize obj) ltac:(lia) ltac:(lia)).
  pose proof (Z.mul_div_le (End r) (ob_PageSize obj) ltac:(lia)).
  pose proof (Z.div_le_mono (Start r) (End r) (ob_PageSize obj) ltac:(lia) ltac:(lia)).
  assert (zlen pages <= End r / ob_PageSize obj + 1) by (unfold zlen; lia).
  assert (zlen pages * ob_PageSize obj <= int64_max) by nia.
  pose proof (zlen_nonneg pages). unfold room. cbn. split_and!; nia.
Qed.

End Range.

(** * Properties *)

(** C31: the statistics of a read are true. Take a read of a range of an object, as in
    [read_serves_range], in which anything may fail and other requests may interfere. Counting
    does not change the read: its result and the state it leaves are those of the read without
    counting. Every page that was looked for is counted once, as a hit or as a miss, so that
    there are at most as many as the range has, and exactly as many when the read succeeds;
    no page is counted as fetched that was not missed, and the bytes fetched are at most the
    pages missed. The result that is recorded is true: a read is a hit only if nothing was
    asked of the upstream store, and a successful one is a miss only if no page was
    cached. The counters of the recorder increase by just what was counted. *)
Theorem statistics_are_true
    (version : string -> bytes -> bytes) (pageSizeOf : string -> Z) (buf : nat -> nat)
    (upstream : nat -> string -> string -> Reply) (bucket : string) (obj : Object) (r : ByteRange)
    (s s1 s2 : Session) (t1 t2 : Tally) (pages : list PageSpan) (first : bytes) (n : Z) (err : option ProxyError)
    (st : Metrics.requestStats)
    (Hobj : object_ok version pageSizeOf obj)
    (Hrange : 0 <= Start r <= End r) (Hend : End r < ob_Size obj)
    (Hprepare : prepareCounted upstream bucket obj r noTally s = ((Ok (pages, Some first), t1), s1))
    (Hstream : streamPagesCounted buf upstream bucket obj pages (Some first) 0 t1 s1 = (((n, err), t2), s2))
    (Hrequested : Metrics.st_pagesRequested st = zlen pages)
    (Hhit : Metrics.st_pagesHit st = tl_hit t2) (Hmissed : Metrics.st_pagesMissed st = tl_missed t2) :
  prepareFirstPage upstream bucket obj r s = (Ok (pages, Some first), s1) /\
  streamCachedPages buf upstream bucket obj pages (Some first) 0 s1 = ((n, err), s2) /\
  0 <= tl_hit t2 /\ 0 <= tl_missed t2 /\ tl_hit t2 + tl_missed t2 <= zlen pages /\
  (err = None -> tl_hit t2 + tl_missed t2 = zlen pages) /\
  0 <= tl_fetched t2 <= tl_missed t2 * ob_PageSize obj /\
  (Metrics.finishCachedResult st = "hit" -> sent s2 = sent s) /\
  (err = None -> Metrics.finishCachedResult st = "miss" -> tl_hit t2 = 0 /\ tl_missed t2 = zlen pages) /\
  agrees t2.
Proof.
  pose proof (erases_run _ _ _ _ _ _ _ (erases_prepare upstream bucket obj r) Hprepare) as Hp.
  pose proof (erases_run _ _ _ _ _ _ _ (erases_pages buf upstream bucket obj pages (Some first) 0) Hstream) as Hst.
  assert (Hag : agrees t2).
  { eapply keeping_pages; [exact Hstream|]. by eapply keeping_prepare; [exact Hprepare|]. }
  destruct (prepare_pages _ _ _ _ _ _ _ _ Hp) as [page [rest [Hpages ->]]].
  pose proof (range_room version pageSizeOf obj r _ Hobj Hrange Hend Hpages) as Hroom.
  destruct (read_range_accounted version pageSizeOf buf upstream bucket obj Hobj r page rest first s s1 s2 t1 t2 n err
    Hrange Hend Hpages Hroom Hprepare Hstream) as (h & m & f & ? & ? & ? & Hdone & ? & E1 & E2 & E3 & Hsent).
  cbn in E1, E2, E3. rewrite Z.add_0_l in E1, E2, E3. rewrite E1, E2, E3 in *. split_and!; try done; try lia.
  - unfold Metrics.finishCachedResult. rewrite Hrequested, Hmissed, Hhit. intros Hr. apply Hsent.
    destruct (Z.eqb_spec (zlen (page :: rest)) 0) as [E|_]; [unfold zlen in E; cbn in E; lia|].
    destruct (Z.eqb_spec m 0); [done|]. by destruct (h =? 0).
  - unfold Metrics.finishCachedResult. rewrite Hrequested, Hmissed, Hhit. intros He Hr. specialize (Hdone He).
    destruct (Z.eqb_spec (zlen (page :: rest)) 0) as [E|_]; [unfold zlen in E; cbn in E; lia|].
    destruct (Z.eqb_spec m 0); [done|]. destruct (Z.eqb_spec h 0); [lia|done].
Qed.

(** A read of three pages of which one is cached. *)
Lemma statistics_are_true_witness :
  exists t1 t2 s1 s2,
    prepareCounted store "b" demoObj (mkByteRange 3 17) noTally demoSession
      = ((Ok ([mkPageSpan 0 3 7; mkPageSpan 1 8 15; mkPageSpan 2 16 17], Some (slice 0 8 alphabet)), t1), s1) /\
    streamPagesCounted (fun _ => 2%nat) store "b" demoObj [mkPageSpan 0 3 7; mkPageSpan 1 8 15; mkPageSpan 2 16 17]
      (Some (slice 0 8 alphabet)) 0 t1 s1 = (((15, None), t2), s2) /\
    tl_missed t2 = 2 /\ tl_hit t2 + tl_missed t2 = 3 /\ tl_fetched t2 <= tl_missed t2 * 8.
Proof.
  set (r := mkByteRange 3 17). set (ps := [mkPageSpan 0 3 7; mkPageSpan 1 8 15; mkPageSpan 2 16 17]).
  destruct (prepareCounted store "b" demoObj r noTally demoSession) as [[res t1] s1] eqn:Hp.
  assert (Hres : res = Ok (ps, Some (slice 0 8 alphabet))).
  { change res with (res, t1, s1).1.1. rewrite <- Hp. vm_compute. reflexivity. }
  subst res. destruct (streamPagesCounted (fun _ => 2%nat) store "b" demoObj ps (Some (slice 0 8 alphabet)) 0 t1 s1)
    as [[[n err] t2] s2] eqn:Hst.
  assert (Hne : (n, err) = (15, None) /\ tl_missed t2 = 2).
  { change (n, err) with (n, err, t2, s2).1.1. change t2 with (n, err, t2, s2).1.2 at 2. rewrite <- Hst.
    replace t1 with (prepareCounted store "b" demoObj r noTally demoSession).1.2 by (rewrite Hp; reflexivity).
    replace s1 with (prepareCounted store "b" demoObj r noTally demoSession).2 by (rewrite Hp; reflexivity).
    vm_compute. split; reflexivity. }
  destruct Hne as [[= -> ->] Hm].
  exists t1, t2, s1, s2. split; [reflexivity|]. split; [exact Hst|].
  destruct (statistics_are_true ver pagesBy8 (fun _ => 2%nat) store "b" demoObj r demoSession s1 s2 t1 t2 ps
    (slice 0 8 alphabet) 15 None
    (Metrics.mkStats "GET" "b" "" 15 3 (tl_hit t2) (tl_missed t2) 15 (tl_fetched t2) 0 206 "" "" 0))
    as (_ & _ & _ & _ & _ & Hall & [_ Hf] & _).
  - constructor; [reflexivity|reflexivity|reflexivity|]. vm_compute. discriminate.
  - cbn. lia.
  - cbn. lia.
  - exact Hp.
  - exact Hst.
  - reflexivity.
  - reflexivity.
  - reflexivity.
  - split; [exact Hm|]. split; [exact (Hall eq_refl)|exact Hf].
Defined.
