(* ===== verification/ProxyLive.v ===== *)
(** * A read succeeds ([internal/proxy/proxy.go])

    [ProxyServe] says what a read serves whatever fails. Here nothing fails: the store
    answers every range request in full, no call on the cache fails, the metadata are
    current, a page fits the limits of the cache, no other request interferes and the client takes what
    it is sent. Then the read ends without an error, whichever pages are cached, and so
    the client has all the bytes it asked for. *)

From S2P Require Import Prelude GoStrings GoNet Sha256 Range PageFrame CachePath CacheDB CacheStore.
From S2P Require Import CacheLogic CacheInv CacheOps CacheTrips CacheLive ProxyPeers ProxySpan ProxyRead ProxyServe.

#[local] Open Scope go_scope.

(** ** Cutting pages for a client that takes everything *)

Lemma pageSpanStream_Write_good s w page pageSize fed data :
  span_ok page pageSize -> stream_at s page pageSize fed -> zlen (fed ++ data) < int64_max -> Io.plan w = [] ->
  exists n s' w', pageSpanStream_Write s w data = (n, None, s', w') /\ Io.plan w' = [].
Proof.
  intros (Hp & Hi & Hse & Hmax) (Hs & He & Ho & Hw) Hlen Hplan.
  assert (0 <= ps_Index page * pageSize) by nia.
  rewrite zlen_app in Hlen. pose proof (zlen_nonneg fed). pose proof (zlen_nonneg data).
  unfold pageSpanStream_Write. rewrite Ho, Hs, He.
  replace (zlen fed +! zlen data) with (zlen fed + zlen data) by (int64_unfold; no_wrap; lia).
  destruct (_ || _) eqn:Hout; [eauto|].
  apply orb_false_iff in Hout as [Ho1 Ho2]. rewrite Z.geb_leb in Ho2. zbool.
  autorewrite with go_simpl. set (a := Z.max _ _) in *. set (b := Z.min _ _) in *.
  replace (a -! zlen fed) with (a - zlen fed) by (int64_unfold; no_wrap; lia).
  replace (b -! zlen fed) with (b - zlen fed) by (int64_unfold; no_wrap; lia).
  rewrite Io.Write_good by done. fold (zlen (slice (a - zlen fed) (b - zlen fed) data)).
  rewrite zlen_slice by lia.
  replace (b - zlen fed -! (a - zlen fed)) with (b - a) by (int64_unfold; no_wrap; lia).
  replace (b - zlen fed - (a - zlen fed)) with (b - a) by lia. rewrite Z.eqb_refl. cbn. eauto.
Qed.

Lemma copyPageSpan_good buf w data page pageSize :
  span_ok page pageSize -> Io.plan w = [] -> ps_End page - ps_Index page * pageSize < zlen data ->
  exists n src w', copyPageSpan buf w (bytesReader data) page pageSize = (n, None, src, w') /\ Io.plan w' = [].
Proof.
  intros Hok Hplan Hlen. destruct (span_offsets page pageSize Hok) as [Hs He]. destruct Hok as (Hp & Hi & Hse & Hmax).
  assert (0 <= ps_Index page * pageSize) by nia. unfold copyPageSpan. rewrite Hs, He.
  rewrite !(proj2 (Z.ltb_ge _ _)) by lia. cbn [orb].
  set (a := ps_Start page - ps_Index page * pageSize) in *.
  set (b := ps_End page - ps_Index page * pageSize) in *.
  replace (b -! a +! 1) with (b - a + 1) by (int64_unfold; no_wrap; lia).
  assert (Hskip : exists src1, (if a >? 0 then
      let '(_, err, src1, _) := Io.CopyN buf (Z.to_nat a) (bytesReader data) Discard in (err, src1)
    else (None, bytesReader data)) = (None, src1) /\ Io.stream src1 = drop (Z.to_nat a) data).
  { destruct (Z.gtb_spec a 0).
    - destruct (Io.CopyN_good buf (Z.to_nat a) (bytesReader data) Discard) as (src1 & -> & Hd); [done| |].
      + rewrite Io.stream_content, bytesReader_content. unfold zlen in Hlen. lia.
      + rewrite Io.stream_content, bytesReader_content in Hd. eauto.
    - exists (bytesReader data). split; [done|]. rewrite Io.stream_content, bytesReader_content.
      replace (Z.to_nat a) with 0%nat by lia. by rewrite drop_0. }
  destruct Hskip as (src1 & -> & Hd).
  destruct (Io.CopyN_good buf (Z.to_nat (b - a + 1)) src1 w) as (src2 & -> & _); [done| |eauto].
  rewrite Hd, length_drop. unfold zlen in Hlen. lia.
Qed.

(** ** A read in which nothing fails *)

Section Serene.
Context (version : string -> bytes -> bytes) (pageSizeOf : string -> Z).
Context (buf : nat -> nat) (upstream : nat -> string -> string -> Reply) (bucket : string) (obj : Object).
Context (Hobj : object_ok version pageSizeOf obj) (Hid : identified obj).

Abbreviation content := (contentOf version (ob_ID obj) (ob_ETag obj)).
Abbreviation page_of := (pageOf version pageSizeOf (ob_ID obj) (ob_ETag obj)).
Abbreviation session_ok := (session_ok version pageSizeOf).

(** The store answers a request for a range of the version with all of its bytes. *)
Definition responsive : Prop := forall n bounds,
  0 <= ps_Start bounds <= ps_End bounds -> ps_End bounds < ob_Size obj ->
  exists body, upstream n (rangeHeaderOf bounds) (ob_ETag obj) = Response 206 body /\
    Io.content body = slice (ps_Start bounds) (ps_End bounds + 1) content /\ Io.fin body = Io.EOF.

Lemma responsive_honest : responsive -> honest version upstream obj.
Proof.
  intros Hr n bounds body Hb He E. destruct (Hr n bounds Hb He) as (body' & E' & Hc & _).
  rewrite E in E'. injection E' as ->. by rewrite Hc.
Qed.

(** Nothing fails in the session, nothing interferes and the pages [K] are in the cache. *)
Record serene (K : gset Z) (s : Session) : Prop := {
  se_calm : calm obj page_of K (cache s);
  se_env : env s = [];
  se_flight : flight s = [];
  se_client : Io.plan (client s) = [] }.

Lemma onCache_serene {A} own (m : M A) K K' s (Q : result CacheError A -> Cache -> Prop) :
  serene K s -> wp m (fun r c' => Q r c' /\ calm obj page_of K' c') (cache s) ->
  exists r s', onCache own m s = (r, s') /\ Q r (cache s') /\ serene K' s' /\ client s' = client s /\ sent s' = sent s.
Proof.
  intros [Hc He Hf Hp] Hm. unfold onCache. rewrite He. unfold wp in Hm.
  destruct (m (cache s)) as [r c'] eqn:E. destruct Hm as [HQ Hc'].
  eexists _, _. split; [reflexivity|]. cbn. split_and!; [done| |done..]. by constructor.
Qed.

(** Opening a page: what is found is in stock, and what is in stock is found. *)
Lemma openCachedPage_serene index K s : session_ok s -> serene K s -> 0 <= index ->
  exists body s', openCachedPage bucket obj index s = (Ok body, s') /\ serene K s' /\ sent s' = sent s /\
    (index ∈ K -> body = Some (page_of index)) /\ (body <> None -> serene ({[index]} ∪ K) s').
Proof.
  intros Hok Hs Hi. unfold openCachedPage, mbind, R_bind.
  destruct (onCache None _ s) as [r s1] eqn:E.
  pose proof (OpenPage_calm (Good version pageSizeOf) obj page_of K _ index Hid (proj1 Hok) (se_calm _ _ Hs) Hi) as Hcalm.
  pose proof (OpenPage_finds (Good version pageSizeOf) obj page_of K _ index Hid (proj1 Hok) (se_calm _ _ Hs) Hi) as Hfinds.
  destruct (openPage_session version pageSizeOf s _ _ _ _ _ _ Hok E) as (_ & Hd & _).
  unfold onCache in E. rewrite (se_env _ _ Hs) in E. unfold wp in Hcalm, Hfinds.
  destruct (OpenPage _ _ _ _ (cache s)) as [r0 c'] eqn:Eo. injection E as -> <-. destruct Hcalm as (Hr & Hc & Hin).
  destruct r as [body|e]; [|done].
  assert (Hse : forall K', calm obj page_of K' c' -> serene K' (mkSession c' [] (client s) (hijackable s) (aborted s)
    (degradedState s) (flight s) (sent s))) by (intros K' HK; constructor; [done|done|apply Hs|apply Hs]).
  eexists body, _. split; [reflexivity|]. split; [by apply Hse|]. split; [done|]. split.
  - intros HK. by injection (Hin HK).
  - intros Hb. apply Hse, Hfinds. destruct body as [data|]; [|done]. by rewrite (Hd data eq_refl).
Qed.

Lemma copySpan_serene page K s : serene K s -> in_object obj page ->
  exists n s', copySpan buf obj (page_of (ps_Index page)) page s = ((n, None), s') /\ serene K s' /\ sent s' = sent s.
Proof.
  intros Hs (Hsp & He & Hl). unfold copySpan, mbind, R_bind, getClient, set_client.
  pose proof Hsp as (Hp & Hi & Hse & _).
  destruct (copyPageSpan_good buf (client s) (page_of (ps_Index page)) page (ob_PageSize obj) Hsp (se_client _ _ Hs))
    as (n & src & w' & -> & Hw).
  { unfold pageOf, slice, zlen. rewrite length_take, length_drop, <- (oo_pageSize _ _ _ Hobj).
    pose proof (oo_size _ _ _ Hobj) as Hz. unfold zlen in Hz. nia. }
  eexists _, _. split; [reflexivity|]. destruct Hs. by split; [constructor|].
Qed.

(** The indexes of pages. *)
Definition indexes (pages : list PageSpan) : gset Z := list_to_set (ps_Index <$> pages).

Lemma serene_mono K K' s : K' ⊆ K -> serene K s -> serene K' s.
Proof.
  intros Hsub [[? ? ? ? ? Hst] ? ? ?]. constructor; [|done..]. constructor; [done..|]. intros i Hi. by apply Hst, Hsub.
Qed.

(** ** A read of pages that are in stock

    The store is not asked, so nothing is assumed of it. *)

Lemma pageReader_stocked u index K s : session_ok s -> serene K s -> 0 <= index -> index ∈ K ->
  exists s', pageReader u bucket obj index s = (Ok (Some (page_of index)), s') /\ serene K s' /\ session_ok s' /\
    client s' = client s /\ sent s' = sent s.
Proof.
  intros Hok Hs Hi HK. unfold pageReader, mbind, R_bind.
  destruct (openCachedPage_serene index K s Hok Hs Hi) as (body & s1 & E & Hs1 & Hsent & Hin & _).
  destruct (openCachedPage_spec version pageSizeOf bucket obj index s _ s1 Hok E) as (Hok1 & Hc & _).
  rewrite E, (Hin HK). eauto 10.
Qed.

(** One page, given open or to be opened. *)
Lemma streamStocked u page first K s : session_ok s -> serene K s -> in_object obj page -> ps_Index page ∈ K ->
  (forall body, first = Some body -> body = page_of (ps_Index page)) ->
  exists s', match first with Some body => copySpan buf obj body page | None => streamPageSpan buf u bucket obj page end s
      = ((zlen (bytesOf version obj page), None), s') /\
    serene K s' /\ session_ok s' /\ Io.out (client s') = Io.out (client s) ++ bytesOf version obj page /\ sent s' = sent s.
Proof.
  intros Hok Hs Hin HK Hfirst.
  assert (Hcopy : forall s1, session_ok s1 -> serene K s1 -> client s1 = client s -> sent s1 = sent s ->
    exists s', copySpan buf obj (page_of (ps_Index page)) page s1 = ((zlen (bytesOf version obj page), None), s') /\
      serene K s' /\ session_ok s' /\ Io.out (client s') = Io.out (client s) ++ bytesOf version obj page /\ sent s' = sent s).
  { intros s1 Hok1 Hs1 Hc Hsent. destruct (copySpan_serene page K s1 Hs1 Hin) as (n & s2 & E & Hs2 & Hsent2).
    destruct (copySpan_spec version pageSizeOf buf obj Hobj page s1 _ s2 Hok1 Hin E) as [Hok2 (part & Ho & Hn & _ & Hall)].
    cbn in Hn, Hall. rewrite (Hall eq_refl) in *. subst n. exists s2. rewrite <- Hc. split_and!; [done..|congruence]. }
  destruct first as [body|]; [rewrite (Hfirst body eq_refl); by apply Hcopy|].
  unfold streamPageSpan, mbind, R_bind. pose proof Hin as ((_ & Hi & _) & _).
  destruct (openCachedPage_serene (ps_Index page) K s Hok Hs Hi) as (body & s1 & E & Hs1 & Hsent & HinK & _).
  destruct (openCachedPage_spec version pageSizeOf bucket obj (ps_Index page) s _ s1 Hok E) as (Hok1 & Hc & _).
  rewrite E, (HinK HK). by apply Hcopy.
Qed.

Lemma streamCachedPages_stocked u pages first total K s : session_ok s -> serene K s -> Forall (in_object obj) pages ->
  indexes pages ⊆ K -> 0 <= total -> total + zlen (concat (bytesOf version obj <$> pages)) <= int64_max ->
  (forall body, first = Some body -> forall page, head pages = Some page -> body = page_of (ps_Index page)) ->
  exists s', streamCachedPages buf u bucket obj pages first total s =
      ((total + zlen (concat (bytesOf version obj <$> pages)), None), s') /\
    Io.out (client s') = Io.out (client s) ++ concat (bytesOf version obj <$> pages) /\ sent s' = sent s.
Proof.
  revert first total s. induction pages as [|page pages IH]; intros first total s Hok Hs Hin HK Ht Hmax Hfirst;
    cbn [streamCachedPages fmap list_fmap concat] in *.
  { eexists. rewrite app_nil_r, Z.add_0_r. by split_and!. }
  apply Forall_cons in Hin as [Hp Hin]. rewrite zlen_app in Hmax. unfold indexes in HK. cbn [fmap list_fmap list_to_set] in HK.
  pose proof (zlen_nonneg (bytesOf version obj page)). pose proof (zlen_nonneg (concat (bytesOf version obj <$> pages))).
  destruct (streamStocked u page first K s Hok Hs Hp ltac:(set_solver)) as (s1 & E & Hs1 & Hok1 & Ho1 & Hsent1);
    [intros body Hb; by apply (Hfirst body Hb)|].
  unfold mbind, R_bind. rewrite E.
  replace (total +! zlen (bytesOf version obj page)) with (total + zlen (bytesOf version obj page)) by (int64_unfold; no_wrap; lia).
  destruct (IH None (total + zlen (bytesOf version obj page)) s1 Hok1 Hs1 Hin ltac:(unfold indexes; set_solver) ltac:(lia) ltac:(lia) ltac:(done))
    as (s2 & -> & Ho2 & Hsent2).
  exists s2. rewrite Ho2, Ho1, zlen_app, Z.add_assoc, app_assoc. split_and!; [done..|congruence].
Qed.

(** ** A read that fetches what is missing *)

Context (Hsize : 0 < ob_Size obj) (Hup : responsive).

(** The page streams that a copy feeds. *)
Definition fed_ok (page : PageSpan) (fed : bytes) (stream : option pageSpanStream) : Prop :=
  match stream with
  | None => True
  | Some st => span_ok page (ob_PageSize obj) /\ stream_at st page (ob_PageSize obj) fed
  end.

Lemma writeChunk_serene page h index chunk stream K s fed :
  serene K s -> mine obj (cache s) h index fed -> fed_ok page fed stream ->
  zlen (fed ++ chunk) <= ob_PageSize obj ->
  exists st' s', writeChunk h chunk stream (zlen fed) s = ((zlen (fed ++ chunk), None, st'), s') /\
    serene K s' /\ mine obj (cache s') h index (fed ++ chunk) /\ fed_ok page (fed ++ chunk) st' /\
    (is_Some st' <-> is_Some stream).
Proof.
  intros Hs Hm Hf Hlen. unfold writeChunk, mbind at 1, R_bind at 1.
  destruct (onCache_serene (Some h) (Write h chunk) K K s
    (fun r c' => r = Ok (length chunk) /\ mine obj c' h index (fed ++ chunk)) Hs) as (r & s1 & -> & [-> Hm1] & Hs1 & Hc1 & _).
  { eapply wp_mono; [by apply (Write_calm obj page_of K _ h index fed chunk (se_calm _ _ Hs))|]. by intros r c' (-> & ? & ?). }
  fold (zlen chunk). rewrite Z.eqb_refl. cbn [negb].
  pose proof (oo_bound _ _ _ Hobj). pose proof (zlen_nonneg fed). pose proof (zlen_nonneg chunk).
  assert (Hadd : zlen fed +! zlen chunk = zlen (fed ++ chunk)).
  { rewrite zlen_app in *. int64_unfold. no_wrap. done. }
  rewrite Hadd. destruct stream as [st|]; [|eexists _, _; split; [reflexivity|]; by split_and!].
  destruct Hf as [Hsp Hst]. unfold mbind, R_bind, streamWrite, getClient. cbn.
  assert (Hmax : zlen (fed ++ chunk) < int64_max) by lia.
  destruct (pageSpanStream_Write_good st (client s1) page (ob_PageSize obj) fed chunk Hsp Hst Hmax (se_client _ _ Hs1))
    as (n & st' & w' & E & Hp). unfold mbind, R_bind. cbn. rewrite E. cbn.
  destruct (pageSpanStream_Write_spec _ _ _ _ _ _ _ _ _ _ Hsp Hst Hmax E) as (part & _ & Hst' & _).
  eexists _, _. split; [reflexivity|]. split_and!; [by destruct Hs1; constructor|done|by split|]. split; eauto.
Qed.

Lemma copyPageResponse_serene page h index fuel src stream K s fed :
  serene K s -> mine obj (cache s) h index fed -> fed_ok page fed stream ->
  zlen (fed ++ Io.content src) <= ob_PageSize obj -> (Io.reads src <= fuel)%nat -> Io.fin src = Io.EOF ->
  exists st' s', copyPageResponseToWriter fuel src h stream (zlen fed) s = ((zlen (fed ++ Io.content src), None, st'), s') /\
    serene K s' /\ mine obj (cache s') h index (fed ++ Io.content src) /\ (is_Some st' <-> is_Some stream).
Proof.
  revert src stream s fed. induction fuel as [|fuel IH]; intros src stream s fed Hs Hm Hf Hlen Hfuel Hfin;
    [unfold Io.reads in Hfuel; lia|].
  cbn [copyPageResponseToWriter]. destruct (Io.Read copyBufferSize src) as [[chunk rerr] src'] eqn:HR.
  pose proof (Io.Read_spec _ _ _ _ _ HR) as (Hc & _ & _ & Herr & Hfin' & _).
  rewrite Hc in *. rewrite app_assoc, zlen_app in Hlen. pose proof (zlen_nonneg (Io.content src')).
  assert (Hw : exists st1 s1, (if bool_decide (chunk = []) then mret (zlen fed, None, stream)
      else writeChunk h chunk stream (zlen fed)) s = ((zlen (fed ++ chunk), None, st1), s1) /\
    serene K s1 /\ mine obj (cache s1) h index (fed ++ chunk) /\ fed_ok page (fed ++ chunk) st1 /\
    (is_Some st1 <-> is_Some stream)).
  { case_bool_decide as Hn; [|apply writeChunk_serene; [done..|lia]].
    subst chunk. rewrite app_nil_r. eexists _, _. split; [reflexivity|]. by split_and!. }
  destruct Hw as (st1 & s1 & Hw & Hs1 & Hm1 & Hf1 & Hst1). unfold mbind at 1, R_bind at 1. rewrite Hw.
  destruct rerr as [e|].
  - destruct (Herr e eq_refl) as [Hnil ->]. rewrite Hfin, Hnil, bool_decide_true, app_nil_r by done.
    eexists _, _. split; [reflexivity|]. by split_and!.
  - assert (Hreads : (Io.reads src' < Io.reads src)%nat)
      by (refine (Io.Read_reads copyBufferSize src chunk None src' _ HR eq_refl); unfold copyBufferSize; lia).
    destruct (IH src' st1 s1 (fed ++ chunk) Hs1 Hm1 Hf1) as (st2 & s2 & E & Hs2 & Hm2 & Hst2);
      [rewrite zlen_app; lia|lia|congruence|].
    rewrite <- app_assoc in *. eexists _, _. split; [exact E|]. split_and!; [done..|]. tauto.
Qed.

(** The page was fetched: it is streamed, or it is there to be read. *)
Definition fetched (index : Z) (stream : option pageSpanStream) (r : result ProxyError (option bytes)) : Prop :=
  match stream with Some _ => r = Ok None | None => r = Ok (Some (page_of index)) end.

Lemma storeResponse_serene page index bounds h body stream K s :
  serene K s -> mine obj (cache s) h index [] ->
  fed_ok page [] stream -> 0 <= index -> Io.content body = page_of index -> Io.fin body = Io.EOF ->
  sub64 (ps_End bounds) (ps_Start bounds) = ps_End bounds - ps_Start bounds ->
  add64 (ps_End bounds - ps_Start bounds) 1 = zlen (page_of index) -> zlen (page_of index) <= ob_PageSize obj ->
  exists r st' s', storeResponse obj index bounds h body stream s = ((r, st'), s') /\
    serene ({[index]} ∪ K) s' /\ fetched index stream r.
Proof.
  intros Hs Hm Hf Hi Hb Hfin Hsub Hadd Hlen. unfold storeResponse, mbind at 1, R_bind at 1.
  destruct (copyPageResponse_serene page h index (Io.reads body) body stream K s [] Hs Hm Hf)
    as (st1 & s1 & E & Hs1 & Hm1 & Hst); [by rewrite Hb|lia|done|].
  cbn [app] in *. change (zlen (@nil byte)) with 0 in E. rewrite E, Hb in *. rewrite Hsub, Hadd, Z.eqb_refl. cbn [negb].
  unfold mbind at 1, R_bind at 1.
  destruct (onCache_serene (Some h) (Commit h) K ({[index]} ∪ K) s1 (fun r c' => is_ok r = true) Hs1)
    as (r & s2 & Ec & Hr & Hs2 & _).
  { by apply (Commit_calm obj page_of K _ h index Hid (se_calm _ _ Hs1)). }
  rewrite Ec. destruct r as [pg|e]; [|done]. destruct st1 as [st|].
  { eexists _, _, _. split; [reflexivity|]. split; [done|]. destruct stream; [done|].
    destruct (proj1 Hst ltac:(eauto)) as [? [=]]. }
  unfold mbind, R_bind.
  destruct (onCache_serene None (OpenPage (ob_ID obj) index (ob_ETag obj) (ob_Epoch obj)) _ ({[index]} ∪ K) s2
    (fun r _ => r = Ok (Some (page_of index))) Hs2) as (r & s3 & -> & -> & Hs3 & _).
  { by apply (OpenPage_stocked obj page_of _ _ index (se_calm _ _ Hs2)); set_solver. }
  eexists _, _, _. split; [reflexivity|]. split; [done|]. destruct stream; [|done].
  destruct (proj2 Hst ltac:(eauto)) as [? [=]].
Qed.

Lemma fetchAndStorePage_serene page index stream K s :
  serene K s -> fed_ok page [] stream -> 0 <= index -> index * ob_PageSize obj < ob_Size obj ->
  exists r st' s', fetchAndStorePage upstream obj index stream s = ((r, st'), s') /\
    serene ({[index]} ∪ K) s' /\ fetched index stream r.
Proof.
  intros Hs Hf Hi Hn. unfold fetchAndStorePage.
  destruct (bounds_page version pageSizeOf obj Hobj index Hi Hn) as (bounds & -> & [Hb1 Hb2] & Hsl & Hsub & Hadd & _).
  unfold mbind at 1, R_bind at 1, upstreamDo.
  destruct (Hup (length (sent s)) bounds Hb1 Hb2) as (body & -> & Hbody & Hfin). cbn [Z.eqb Pos.eqb negb].
  set (s0 := mkSession _ _ _ _ _ _ _ _). assert (Hs0 : serene K s0) by (constructor; apply Hs).
  unfold mbind at 1, R_bind at 1, beginCachePageWriter.
  destruct (onCache_serene None (BeginPageWrite (wopts obj index)) K K s0 (fun r c' => exists h, r = Ok h /\ mine obj c' h index []) Hs0)
    as (r & s1 & E & (h & -> & Hm) & Hs1 & _).
  { eapply wp_mono; [by apply (BeginPageWrite_calm obj page_of K _ index Hid (se_calm _ _ Hs0))|]. intros r c' (h & ? & ? & ?). eauto. }
  unfold wopts in E. rewrite E. rewrite Hsl in Hbody.
  assert (Hlen : zlen (page_of index) <= ob_PageSize obj).
  { unfold pageOf, slice, zlen. rewrite length_take, <- (oo_pageSize _ _ _ Hobj). pose proof (oo_positive _ _ _ Hobj). nia. }
  destruct (storeResponse_serene page index bounds h body stream K s1 Hs1 Hm Hf Hi Hbody Hfin Hsub Hadd Hlen)
    as (r & st & s2 & E2 & Hs2 & Hr).
  unfold mbind at 1, R_bind at 1. rewrite E2. unfold mbind, R_bind.
  destruct (onCache_serene (Some h) (Abort h) _ ({[index]} ∪ K) s2 (fun _ _ => True) Hs2) as (r3 & s3 & -> & _ & Hs3 & _).
  { eapply wp_mono; [by apply (Abort_calm obj page_of _ _ h (se_calm _ _ Hs2))|]. done. }
  eauto 10.
Qed.

(** ** The whole read *)

(** The page is open: from the cache, or fetched. *)
Lemma pageReader_serene index K s : session_ok s -> serene K s -> 0 <= index -> index * ob_PageSize obj < ob_Size obj ->
  exists s', pageReader upstream bucket obj index s = (Ok (Some (page_of index)), s') /\ serene ({[index]} ∪ K) s'.
Proof.
  intros Hok Hs Hi Hn. unfold pageReader, mbind at 1, R_bind at 1.
  destruct (openCachedPage_serene index K s Hok Hs Hi) as (body & s1 & E & Hs1 & Hsent & Hin & Hfound). rewrite E.
  destruct body as [data|].
  - destruct (openCachedPage_spec version pageSizeOf bucket obj index s _ s1 Hok E) as (_ & _ & Hd).
    rewrite (Hd data eq_refl). eauto.
  - unfold fillMissingPage. rewrite (se_flight _ _ Hs1). cbn [joinFill]. unfold mbind, R_bind.
    destruct (fetchAndStorePage_serene (mkPageSpan 0 0 0) index None K s1 Hs1 I Hi Hn) as (r & st & s2 & -> & Hs2 & Hr).
    cbn in Hr. subst r. eauto.
Qed.

Lemma streamPageSpan_serene page K s : session_ok s -> serene K s -> in_object obj page ->
  exists n s', streamPageSpan buf upstream bucket obj page s = ((n, None), s') /\ serene ({[ps_Index page]} ∪ K) s'.
Proof.
  intros Hok Hs Hin. unfold streamPageSpan, mbind at 1, R_bind at 1. pose proof Hin as (Hsp & He & Hl).
  pose proof Hsp as (Hp & Hi & Hse & _).
  destruct (openCachedPage_serene (ps_Index page) K s Hok Hs Hi) as (body & s1 & E & Hs1 & Hsent & HinK & Hfound). rewrite E.
  destruct body as [data|].
  - destruct (openCachedPage_spec version pageSizeOf bucket obj (ps_Index page) s _ s1 Hok E) as (_ & _ & Hd).
    rewrite (Hd data eq_refl). destruct (copySpan_serene page _ s1 (Hfound ltac:(done)) Hin) as (n & s2 & -> & Hs2 & _). eauto.
  - unfold fillAndStreamMissingPage. rewrite (se_flight _ _ Hs1). cbn [joinFill]. unfold mbind, R_bind.
    destruct (fetchAndStorePage_serene page (ps_Index page) (Some (newPageSpanStream page (ob_PageSize obj))) K s1 Hs1)
      as (r & st & s2 & -> & Hs2 & Hr); [split; [done|by apply newPageSpanStream_at]|done|lia|].
    cbn in Hr. subst r. eauto.
Qed.

Lemma streamCachedPages_serene pages first total K s : session_ok s -> serene K s -> Forall (in_object obj) pages ->
  (forall body, first = Some body -> exists page rest, pages = page :: rest /\ body = page_of (ps_Index page)) ->
  (first <> None -> forall page, head pages = Some page -> ps_Index page ∈ K) ->
  exists n s', streamCachedPages buf upstream bucket obj pages first total s = ((n, None), s') /\
    serene (indexes pages ∪ K) s'.
Proof.
  revert first total K s. induction pages as [|page pages IH]; intros first total K s Hok Hs Hin Hfirst HK;
    cbn [streamCachedPages]; [eexists _, _; split; [reflexivity|]; by eapply serene_mono; [|exact Hs]; set_solver|].
  apply Forall_cons in Hin as [Hp Hin]. unfold mbind at 1, R_bind at 1.
  assert (Hone : exists n s1, match first with Some body => copySpan buf obj body page
      | None => streamPageSpan buf upstream bucket obj page end s = ((n, None), s1) /\
      serene ({[ps_Index page]} ∪ K) s1 /\ session_ok s1).
  { destruct first as [body|].
    - destruct (Hfirst body eq_refl) as (p0 & rest & [= <- <-] & ->). specialize (HK ltac:(done) page eq_refl).
      destruct (copySpan_serene page K s Hs Hp) as (n & s1 & E & Hs1 & _). exists n, s1.
      split_and!; [done|by eapply serene_mono; [|exact Hs1]; set_solver|].
      by apply (copySpan_spec version pageSizeOf buf obj Hobj page s _ s1 Hok Hp E).
    - destruct (streamPageSpan_serene page K s Hok Hs Hp) as (n & s1 & E & Hs1). exists n, s1. split_and!; [done..|].
      by apply (streamPageSpan_spec version pageSizeOf buf upstream bucket obj Hobj (responsive_honest Hup) page s _ s1 Hok Hp E). }
  destruct Hone as (n & s1 & -> & Hs1 & Hok1).
  destruct (IH None (total +! n) _ s1 Hok1 Hs1 Hin ltac:(done) ltac:(done)) as (n2 & s2 & -> & Hs2).
  eexists _, _. split; [reflexivity|]. unfold indexes in *. cbn [fmap list_fmap list_to_set].
  eapply serene_mono; [|exact Hs2]. set_solver.
Qed.

End Serene.

(** The pages of a range. *)
Definition pagesOf (obj : Object) (r : ByteRange) : gset Z :=
  match PagesForRange r (ob_PageSize obj) with Ok pages => indexes pages | Err _ => ∅ end.

(** Streaming the pages of a range inside the object, the first of them open, from a
    state in which the pages [K] are cached. *)
Lemma stream_serene
    (version : string -> bytes -> bytes) (pageSizeOf : string -> Z) (buf : nat -> nat)
    (upstream : nat -> string -> string -> Reply) (bucket : string) (obj : Object) (r : ByteRange) page rest K (s : Session) :
  object_ok version pageSizeOf obj -> responsive version upstream obj ->
  session_ok version pageSizeOf s -> serene version pageSizeOf obj K s ->
  0 <= Start r <= End r -> End r < ob_Size obj -> PagesForRange r (ob_PageSize obj) = Ok (page :: rest) -> ps_Index page ∈ K ->
  exists s', streamCachedPages buf upstream bucket obj (page :: rest)
      (Some (pageOf version pageSizeOf (ob_ID obj) (ob_ETag obj) (ps_Index page))) 0 s = ((End r - Start r + 1, None), s') /\
    Io.out (client s') = Io.out (client s) ++ slice (Start r) (End r + 1) (contentOf version (ob_ID obj) (ob_ETag obj)) /\
    session_ok version pageSizeOf s' /\ serene version pageSizeOf obj (pagesOf obj r ∪ K) s'.
Proof.
  intros Hobj Hup Hok Hs Hrange Hend Hpages HK. assert (Hsize : 0 < ob_Size obj) by lia.
  pose proof (current_ok _ obj _ (proj1 Hok) (ca_current _ _ _ _ (se_calm _ _ _ _ _ Hs))) as Hid.
  pose proof (oo_bound _ _ _ Hobj) as Hbd. pose proof (oo_positive _ _ _ Hobj) as Hpos.
  pose proof (responsive_honest version upstream obj Hup) as Hh.
  destruct (range_pages version pageSizeOf obj Hobj r _ Hrange Hend Hpages) as [Hin Hcat].
  set (first := pageOf version pageSizeOf (ob_ID obj) (ob_ETag obj) (ps_Index page)).
  assert (Hfirst : forall body, Some first = Some body ->
    exists p l, page :: rest = p :: l /\ body = pageOf version pageSizeOf (ob_ID obj) (ob_ETag obj) (ps_Index p))
    by (intros body [= <-]; eauto).
  destruct (streamCachedPages_serene version pageSizeOf buf upstream bucket obj Hobj Hid Hsize Hup (page :: rest) _ 0 _ s
    Hok Hs Hin Hfirst) as (n & s' & Hstream & Hs'); [by intros _ p [= <-]|].
  destruct (streamCachedPages_spec version pageSizeOf buf upstream bucket obj Hobj Hh (page :: rest) _ 0 s (n, None) s'
    Hok Hin Hfirst) as [Hok' (part & Ho & Hn & _ & Hall & _)]; [lia| |done|].
  { rewrite Hcat, zlen_slice by (rewrite <- ?(oo_size _ _ _ Hobj); lia). int64_unfold. lia. }
  cbn [fst snd] in Hn, Hall. specialize (Hall eq_refl). rewrite Hcat in Hall. subst part.
  rewrite zlen_slice in Hn by (rewrite <- ?(oo_size _ _ _ Hobj); lia). assert (n = End r - Start r + 1) as -> by lia.
  exists s'. unfold pagesOf. rewrite Hpages. by split_and!.
Qed.

(** The whole read. *)
Lemma read_serene
    (version : string -> bytes -> bytes) (pageSizeOf : string -> Z) (buf : nat -> nat)
    (upstream : nat -> string -> string -> Reply) (bucket : string) (obj : Object) (r : ByteRange) K (s : Session) :
  object_ok version pageSizeOf obj -> responsive version upstream obj ->
  session_ok version pageSizeOf s -> serene version pageSizeOf obj K s ->
  0 <= Start r <= End r -> End r < ob_Size obj ->
  exists pages first s1 s2,
    prepareFirstPage upstream bucket obj r s = (Ok (pages, Some first), s1) /\ client s1 = client s /\
    streamCachedPages buf upstream bucket obj pages (Some first) 0 s1 = ((End r - Start r + 1, None), s2) /\
    Io.out (client s2) = Io.out (client s) ++ slice (Start r) (End r + 1) (contentOf version (ob_ID obj) (ob_ETag obj)) /\
    session_ok version pageSizeOf s2 /\ serene version pageSizeOf obj (pagesOf obj r ∪ K) s2.
Proof.
  intros Hobj Hup Hok Hs Hrange Hend. assert (Hsize : 0 < ob_Size obj) by lia.
  pose proof (current_ok _ obj _ (proj1 Hok) (ca_current _ _ _ _ (se_calm _ _ _ _ _ Hs))) as Hid.
  pose proof (oo_bound _ _ _ Hobj) as Hbd. pose proof (oo_positive _ _ _ Hobj) as Hpos.
  destruct (PagesForRange_total r (ob_PageSize obj)) as (page & rest & Hpages); [lia..|].
  destruct (range_pages version pageSizeOf obj Hobj r _ Hrange Hend Hpages) as [Hin _].
  pose proof (proj1 (proj1 (Forall_cons _ _ _) Hin)) as ((Hp & Hi & Hse & _) & He & _).
  destruct (pageReader_serene version pageSizeOf buf upstream bucket obj Hobj Hid Hsize Hup (ps_Index page) K s Hok Hs Hi ltac:(lia))
    as (s1 & Hread & Hs1).
  destruct (pageReader_spec version pageSizeOf upstream bucket obj Hobj (responsive_honest version upstream obj Hup)
    (ps_Index page) s _ s1 Hok Hi ltac:(lia) Hread) as (Hok1 & Hc1 & _).
  destruct (stream_serene version pageSizeOf buf upstream bucket obj r page rest _ s1 Hobj Hup Hok1 Hs1 Hrange Hend Hpages)
    as (s2 & Hstream & Ho & Hok2 & Hs2); [set_solver|].
  eexists (page :: rest), _, s1, s2. split_and!; [|done|exact Hstream|by rewrite Ho, Hc1|done|].
  - unfold prepareFirstPage. rewrite Hpages. unfold mbind, R_bind. by rewrite Hread.
  - eapply serene_mono; [|exact Hs2]. set_solver.
Qed.

Lemma read_stocked
    (version : string -> bytes -> bytes) (pageSizeOf : string -> Z) (buf : nat -> nat)
    (upstream : nat -> string -> string -> Reply) (bucket : string) (obj : Object) (r : ByteRange) K (s : Session) :
  object_ok version pageSizeOf obj -> session_ok version pageSizeOf s -> serene version pageSizeOf obj K s ->
  0 <= Start r <= End r -> End r < ob_Size obj -> pagesOf obj r ⊆ K ->
  exists pages first s1 s2,
    prepareFirstPage upstream bucket obj r s = (Ok (pages, Some first), s1) /\
    streamCachedPages buf upstream bucket obj pages (Some first) 0 s1 = ((End r - Start r + 1, None), s2) /\
    Io.out (client s2) = Io.out (client s) ++ slice (Start r) (End r + 1) (contentOf version (ob_ID obj) (ob_ETag obj)) /\
    sent s2 = sent s.
Proof.
  intros Hobj Hok Hs Hrange Hend HK.
  pose proof (current_ok _ obj _ (proj1 Hok) (ca_current _ _ _ _ (se_calm _ _ _ _ _ Hs))) as Hid.
  pose proof (oo_bound _ _ _ Hobj) as Hbd. pose proof (oo_positive _ _ _ Hobj) as Hpos.
  destruct (PagesForRange_total r (ob_PageSize obj)) as (page & rest & Hpages); [lia..|].
  destruct (range_pages version pageSizeOf obj Hobj r _ Hrange Hend Hpages) as [Hin Hcat].
  pose proof (proj1 (proj1 (Forall_cons _ _ _) Hin)) as ((_ & Hi & _) & _).
  unfold pagesOf in HK. rewrite Hpages in HK.
  destruct (pageReader_stocked version pageSizeOf bucket obj Hid upstream (ps_Index page) K s Hok Hs Hi)
    as (s1 & Hread & Hs1 & Hok1 & Hc1 & Hsent1); [unfold indexes in HK; set_solver|].
  assert (Hz : zlen (concat (bytesOf version obj <$> page :: rest)) = End r - Start r + 1).
  { rewrite Hcat, zlen_slice by (rewrite <- ?(oo_size _ _ _ Hobj); lia). lia. }
  destruct (streamCachedPages_stocked version pageSizeOf buf bucket obj Hobj Hid upstream (page :: rest)
    (Some (pageOf version pageSizeOf (ob_ID obj) (ob_ETag obj) (ps_Index page))) 0 K s1 Hok1 Hs1 Hin HK ltac:(lia))
    as (s2 & Hstream & Ho & Hsent2); [rewrite Hz; int64_unfold; lia|by intros body [= <-] p [= <-]|].
  rewrite Hz in Hstream. rewrite Hcat, Hc1 in Ho.
  eexists (page :: rest), _, s1, s2. split_and!; [|exact Hstream|done|congruence].
  unfold prepareFirstPage. rewrite Hpages. unfold mbind, R_bind. by rewrite Hread.
Qed.

(** A range inside another has no other pages. *)
Lemma pagesOf_mono obj r r' :
  0 < ob_PageSize obj -> 0 <= Start r -> End r + ob_PageSize obj <= int64_max ->
  Start r <= Start r' <= End r' -> End r' <= End r -> pagesOf obj r' ⊆ pagesOf obj r.
Proof.
  intros Hp Hs Hb Hs' He'. unfold pagesOf, indexes. rewrite !PagesForRange_eq by lia.
  intros i. rewrite !elem_of_list_to_set, !list_elem_of_fmap. setoid_rewrite list_elem_of_fmap.
  intros (pg & -> & j & -> & Hj%elem_of_seqZ). exists (pageSpanOf r (ob_PageSize obj) j). split; [done|].
  exists j. split; [done|]. apply elem_of_seqZ.
  pose proof (Z.div_le_mono (Start r) (Start r') (ob_PageSize obj)).
  pose proof (Z.div_le_mono (End r') (End r) (ob_PageSize obj)). lia.
Qed.

(** C4: what was read is cached. After a read of a range in which nothing failed, another
    request for a range inside it, whoever sends it, is answered in full from the cache while
    nothing fails or interferes: its client has exactly its bytes and no request is sent to
    the store, which may have become unreachable. *)
Theorem repeated_read_is_cached
    (version : string -> bytes -> bytes) (pageSizeOf : string -> Z) (buf : nat -> nat)
    (upstream upstream' : nat -> string -> string -> Reply) (bucket : string) (obj : Object) (r r' : ByteRange)
    (s s1 s2 s3 : Session) (pages : list PageSpan) (first : option bytes) (n : Z) (err : option ProxyError)
    (Hobj : object_ok version pageSizeOf obj) (Hup : responsive version upstream obj)
    (Hok : session_ok version pageSizeOf s) (Hs : serene version pageSizeOf obj ∅ s)
    (Hrange : 0 <= Start r <= End r) (Hend : End r < ob_Size obj)
    (Hprep : prepareFirstPage upstream bucket obj r s = (Ok (pages, first), s1))
    (Hstream : streamCachedPages buf upstream bucket obj pages first 0 s1 = ((n, err), s2))
    (Hcache : cache s3 = cache s2) (Henv : env s3 = []) (Hflight : flight s3 = []) (Hclient : Io.plan (client s3) = [])
    (Hrange' : Start r <= Start r' <= End r') (Hend' : End r' <= End r) :
  exists pages' first' s4 s5,
    prepareFirstPage upstream' bucket obj r' s3 = (Ok (pages', Some first'), s4) /\
    streamCachedPages buf upstream' bucket obj pages' (Some first') 0 s4 = ((End r' - Start r' + 1, None), s5) /\
    Io.out (client s5) = Io.out (client s3) ++ slice (Start r') (End r' + 1) (contentOf version (ob_ID obj) (ob_ETag obj)) /\
    sent s5 = sent s3.
Proof.
  destruct (read_serene version pageSizeOf buf upstream bucket obj r ∅ s Hobj Hup Hok Hs Hrange Hend)
    as (pages0 & first0 & s10 & s20 & H1 & _ & H2 & _ & H5 & H6).
  rewrite Hprep in H1. injection H1 as -> -> <-. rewrite Hstream in H2. injection H2 as -> -> <-.
  apply (read_stocked version pageSizeOf buf upstream' bucket obj r' (pagesOf obj r ∪ ∅)); [done| | |lia|lia|].
  - split; [rewrite Hcache; apply H5|rewrite Henv; by apply Forall_nil].
  - constructor; [rewrite Hcache; apply H6|done..].
  - rewrite union_empty_r_L. pose proof (oo_bound _ _ _ Hobj). pose proof (oo_positive _ _ _ Hobj).
    apply pagesOf_mono; lia.
Qed.

(** ** A read of three pages, the first of them cached *)

Definition quietSession : Session := mkSession alphaCache [] (Io.mkWriter [] []) true false None [] [].

Lemma store_responsive : responsive ver store demoObj.
Proof.
  intros n b Hb He. cbn [demoObj ob_Size] in He. unfold store, rangeHeaderOf.
  rewrite ParseRange_formatted by (int64_unfold; lia). eexists. split; [reflexivity|]. cbn [Start End].
  rewrite bytesReader_content, Z.min_l by lia. split; [done|]. by destruct (slice _ _ _).
Qed.

Lemma quietSession_serene : serene ver pagesBy8 demoObj ∅ quietSession.
Proof.
  constructor; [|reflexivity..]. constructor.
  - vm_compute. reflexivity.
  - eexists _, _. split_and!; vm_compute; reflexivity.
  - vm_compute. split; discriminate.
  - assert (E : maxSizeForBucket (cache quietSession) (ob_Bucket demoObj) = 0) by (vm_compute; reflexivity).
    rewrite E. lia.
  - vm_compute. discriminate.
  - set_solver.
Qed.

Lemma quietSession_ok : session_ok ver pagesBy8 quietSession.
Proof. split; [exact (proj1 demoSession_ok)|by apply Forall_nil]. Qed.

Lemma demoObj_ok : object_ok ver pagesBy8 demoObj.
Proof. constructor; [reflexivity|reflexivity|reflexivity|]. vm_compute. discriminate. Qed.

(** A read of the bytes 3 to 17, and then the bytes 5 to 10 for another client while the store is gone. *)
Definition demoRead (u : nat -> string -> string -> Reply) (r : ByteRange) (s : Session) :=
  let '(plan, s1) := prepareFirstPage u "b" demoObj r s in
  match plan with
  | Err _ => (None, s1)
  | Ok (pages, first) =>
      let '(res, s2) := streamCachedPages (fun _ => 2%nat) u "b" demoObj pages first 0 s1 in (Some res, s2)
  end.

Lemma repeated_read_is_cached_witness : exists pages' first' s4 s5,
  let s3 := mkSession (cache (demoRead store (mkByteRange 3 17) quietSession).2) [] (Io.mkWriter [] []) false false None [] [] in
  prepareFirstPage (fun _ _ _ => NoReply) "b" demoObj (mkByteRange 5 10) s3 = (Ok (pages', Some first'), s4) /\
  streamCachedPages (fun _ => 2%nat) (fun _ _ _ => NoReply) "b" demoObj pages' (Some first') 0 s4 = ((6, None), s5) /\
  Io.out (client s5) = slice 5 11 alphabet /\ sent s5 = [].
Proof.
  unfold demoRead.
  destruct (prepareFirstPage store "b" demoObj (mkByteRange 3 17) quietSession) as [plan s1] eqn:E1.
  assert (Hplan : is_ok plan = true).
  { replace plan with (prepareFirstPage store "b" demoObj (mkByteRange 3 17) quietSession).1 by (by rewrite E1).
    vm_compute. reflexivity. }
  destruct plan as [[pages first]|e]; [|discriminate].
  destruct (streamCachedPages (fun _ => 2%nat) store "b" demoObj pages first 0 s1) as [[n err] s2] eqn:E2.
  cbn [snd]. set (s3 := mkSession _ _ _ _ _ _ _ _).
  refine (repeated_read_is_cached ver pagesBy8 (fun _ => 2%nat) store (fun _ _ _ => NoReply) "b" demoObj (mkByteRange 3 17)
    (mkByteRange 5 10) quietSession s1 s2 s3 pages first n err
    demoObj_ok store_responsive quietSession_ok quietSession_serene _ _ E1 E2 eq_refl eq_refl eq_refl eq_refl _ _);
    cbn; lia.
Defined.
