(* ===== verification/ProxyBytes.v ===== *)
(** * Whole pages in memory ([internal/proxy/proxy.go])

    [fillMissingPageBytes] and its helpers return a page as bytes and save it in the cache
    only if they can: unlike [fetchAndStorePage] a fetch does not depend on the cache. The
    rest of the program does not call them. The session, the store upstream and the entry
    of a fill are those of [ProxyRead]; metrics, statistics and logs are not modelled. *)

From S2P Require Import Prelude GoStrings GoNet Sha256 Range PageFrame CachePath CacheDB CacheStore.
From S2P Require Import CacheLogic CacheInv CacheOps ProxyPeers ProxySpan ProxyRead ProxyServe ProxyLive.

#[local] Open Scope go_scope.

(** ** Reading everything up to a limit *)

(** [io.ReadAll(io.LimitReader(src, limit))]: the limited reader hands on the errors of its
    source and reports the end at the limit without reading. The sizes [S (buf i)] of the
    buffers are the library's choice; with a step for every read of the source the
    loop ends by itself. *)
Fixpoint readAllLimited (fuel : nat) (buf : nat -> nat) (limit : Z) (acc : bytes) (src : Io.Reader)
    : bytes * option Io.error :=
  match fuel with
  | O => (acc, Some Io.UnexpectedEOF)
  | S fuel =>
      if limit <=? 0 then (acc, None)
      else
        let '(got, err, src') := Io.Read (Nat.min (S (buf fuel)) (Z.to_nat limit)) src in
        match err with
        | Some e => (acc ++ got, if bool_decide (e = Io.EOF) then None else Some e)
        | None => readAllLimited fuel buf (limit - zlen got) (acc ++ got) src'
        end
  end.

Definition ReadAllLimit (buf : nat -> nat) (limit : Z) (src : Io.Reader) : bytes * option Io.error :=
  readAllLimited (Io.reads src) buf limit [] src.

Lemma readAllLimited_spec fuel buf limit acc src :
  (Io.reads src <= fuel)%nat ->
  exists err, readAllLimited fuel buf limit acc src = (acc ++ take (Z.to_nat limit) (Io.content src), err) /\
    (Io.fin src = Io.EOF -> err = None).
Proof.
  revert limit acc src. induction fuel as [|fuel IH]; intros limit acc src Hf; [unfold Io.reads in Hf; lia|].
  cbn [readAllLimited]. destruct (Z.leb_spec limit 0) as [Hl|Hl].
  { replace (Z.to_nat limit) with 0%nat by lia. rewrite take_0, app_nil_r. eauto. }
  destruct (Io.Read _ src) as [[got err] src'] eqn:HR.
  destruct (Io.Read_spec _ _ _ _ _ HR) as (Hc & Hlen & _ & He & Hfin & _). rewrite Hc.
  destruct err as [e|].
  - destruct (He e eq_refl) as [-> ->]. rewrite app_nil_r, take_ge by lia. eexists. split; [reflexivity|].
    intros ->. by rewrite bool_decide_true.
  - assert (Hr : (Io.reads src' < Io.reads src)%nat) by (refine (Io.Read_reads _ _ _ _ _ _ HR eq_refl); lia).
    destruct (IH (limit - zlen got) (acc ++ got) src') as (err & -> & Hok); [lia|].
    rewrite take_app_ge by lia. rewrite <- app_assoc. unfold zlen. eexists. split; [|by rewrite <- Hfin].
    repeat f_equal. lia.
Qed.

Lemma ReadAllLimit_spec buf limit src :
  exists err, ReadAllLimit buf limit src = (take (Z.to_nat limit) (Io.content src), err) /\
    (Io.fin src = Io.EOF -> err = None).
Proof. apply (readAllLimited_spec _ buf limit [] src). lia. Qed.

(** ** The functions *)

Section Bytes.
Context (buf : nat -> nat) (upstream : nat -> string -> string -> Reply).

Definition readAndClosePage (body : Io.Reader) (maxBytes : Z) : result ProxyError bytes :=
  let '(data, err) := ReadAllLimit buf (maxBytes +! 1) body in
  match err with
  | Some e => Err (ErrCopy e)
  | None => if zlen data >? maxBytes then Err (ErrPageBytes (zlen data) maxBytes) else Ok data
  end.

(** The part of [fetchPageBytesAndStoreBestEffort] after the bytes were read. *)
Definition storeBytesBestEffort (obj : Object) (index : Z) (data : bytes) : R () :=
  r ← beginCachePageWriter obj index;
  match r with
  | Err _ => mret ()
  | Ok h =>
      r ← onCache (Some h) (Write h data);
      (match r with
       | Err _ => mret ()
       | Ok _ => _ ← onCache (Some h) (Commit h); mret ()
       end);;
      _ ← onCache (Some h) (Abort h);
      mret ()
  end.

Definition fetchPageBytesAndStoreBestEffort (obj : Object) (index : Z) : R (result ProxyError bytes) :=
  match PageBounds index (ob_PageSize obj) (ob_Size obj) with
  | Err e => mret (Err (ErrRange e))
  | Ok bounds =>
      resp ← upstreamDo upstream (rangeHeaderOf bounds) (ob_ETag obj);
      match resp with
      | NoReply => mret (Err ErrRequest)
      | Response status body =>
          if status =? 412 then mret (Err ErrObjectChanged)
          else if negb (status =? 206) then mret (Err (ErrStatus status))
          else
            let expectedSize := ps_End bounds -! ps_Start bounds +! 1 in
            let '(data, err) := ReadAllLimit buf (expectedSize +! 1) body in
            match err with
            | Some e => mret (Err (ErrCopy e))
            | None =>
                if negb (zlen data =? expectedSize) then mret (Err (ErrPageBytes (zlen data) expectedSize))
                else storeBytesBestEffort obj index data;; mret (Ok data)
            end
      end
  end.

Definition fillMissingPageBytes (obj : Object) (index : Z) : R (result ProxyError bytes) := fun s =>
  joinFill (flight s) obj index Err
    (fun body => mret (readAndClosePage (bytesReader body) (ob_PageSize obj)))
    (fetchPageBytesAndStoreBestEffort obj index) s.

End Bytes.

(** ** What they return *)

Lemma readAndClosePage_short buf data maxBytes :
  0 <= maxBytes < int64_max -> zlen data <= maxBytes ->
  readAndClosePage buf (bytesReader data) maxBytes = Ok data.
Proof.
  intros Hm Hd. unfold readAndClosePage.
  destruct (ReadAllLimit_spec buf (maxBytes +! 1) (bytesReader data)) as (err & -> & Hok).
  replace (maxBytes +! 1) with (maxBytes + 1) by (int64_unfold; no_wrap; lia).
  rewrite bytesReader_content, take_ge by (unfold zlen in Hd; lia).
  rewrite Hok by (by destruct data). by rewrite gtb_false.
Qed.

(** A page that is too long is refused, not cut. *)
Lemma readAndClosePage_long buf data maxBytes :
  0 <= maxBytes < int64_max -> maxBytes < zlen data ->
  readAndClosePage buf (bytesReader data) maxBytes = Err (ErrPageBytes (maxBytes + 1) maxBytes).
Proof.
  intros Hm Hd. unfold readAndClosePage.
  destruct (ReadAllLimit_spec buf (maxBytes +! 1) (bytesReader data)) as (err & -> & Hok).
  replace (maxBytes +! 1) with (maxBytes + 1) by (int64_unfold; no_wrap; lia).
  rewrite bytesReader_content, Hok by (by destruct data).
  unfold zlen in *. rewrite length_take, gtb_true by lia. do 2 f_equal. lia.
Qed.

Section Object.
Context (version : string -> bytes -> bytes) (pageSizeOf : string -> Z).
Context (buf : nat -> nat) (upstream : nat -> string -> string -> Reply) (obj : Object).
Context (Hobj : object_ok version pageSizeOf obj) (Hup : honest version upstream obj).

Abbreviation page_of := (pageOf version pageSizeOf (ob_ID obj) (ob_ETag obj)).
Abbreviation session_ok := (session_ok version pageSizeOf).

(** Saving a page keeps the session sound, whatever fails. *)
Lemma storeBytesBestEffort_spec index s s' :
  session_ok s -> storeBytesBestEffort obj index (page_of index) s = ((), s') ->
  session_ok s' /\ framed s s'.
Proof.
  intros Hs. unfold storeBytesBestEffort. unfold mbind at 1, R_bind at 1.
  destruct (beginCachePageWriter obj index s) as [r s1] eqn:Hb.
  destruct (onCache_spec version pageSizeOf None _ s r s1
    (fun r c' => forall h, r = Ok h -> live c' h (wopts obj index) []) Hs Hb) as (Hs1 & Hl & Hf1).
  { intros c Hc _. by apply BeginPageWrite_live. }
  destruct r as [h|e]; [|by intros [= <-]]. specialize (Hl h eq_refl).
  unfold mbind at 1, R_bind at 1. destruct (onCache (Some h) (Write h _) s1) as [r s2] eqn:Hw.
  destruct (onCache_spec version pageSizeOf (Some h) _ s1 r s2
    (fun r c' => forall n, r = Ok n -> n = length (page_of index) /\ live c' h (wopts obj index) (page_of index)) Hs1 Hw)
    as (Hs2 & Hl2 & Hf2).
  { intros c Hc Hkeep. apply (Write_live version pageSizeOf c h _ []); [done|]. by eapply live_kept. }
  set (m := match r with Ok _ => _ | Err _ => _ end). unfold mbind at 1, R_bind at 1.
  destruct (m s2) as [u s3] eqn:Hm. subst m.
  assert (Hs3 : session_ok s3 /\ framed s2 s3).
  { destruct r as [n|e]; [|injection Hm as _ <-; done]. destruct (Hl2 n eq_refl) as [_ Hlive].
    unfold mbind, R_bind in Hm. destruct (onCache (Some h) (Commit h) s2) as [rc sc] eqn:Hc.
    injection Hm as _ <-.
    destruct (onCache_spec version pageSizeOf (Some h) _ s2 rc sc (fun _ _ => True) Hs2 Hc) as (? & _ & ?); [|done].
    intros c Hc' Hkeep. apply (Commit_live version pageSizeOf c h (wopts obj index) (page_of index)); [done| |done].
    by eapply live_kept. }
  destruct Hs3 as [Hs3 Hf3]. unfold mbind, R_bind.
  destruct (onCache (Some h) (Abort h) s3) as [ra s4] eqn:Ha. intros [= <-].
  destruct (onCache_spec version pageSizeOf (Some h) _ s3 ra s4 (fun _ _ => True) Hs3 Ha) as (Hs4 & _ & Hf4).
  { intros c Hc _. by apply Abort_ok. }
  split; [done|]. unfold framed in *. intuition congruence.
Qed.

(** A fetch gives the page or an error; when the response is complete it gives the page,
    whatever the cache does. *)
Lemma fetchPageBytes_spec index s r s' :
  session_ok s -> 0 <= index -> index * ob_PageSize obj < ob_Size obj ->
  fetchPageBytesAndStoreBestEffort buf upstream obj index s = (r, s') ->
  session_ok s' /\ client s' = client s /\ (forall data, r = Ok data -> data = page_of index) /\
  (responsive version upstream obj -> r = Ok (page_of index)).
Proof.
  intros Hs Hi Hn. unfold fetchPageBytesAndStoreBestEffort.
  destruct (bounds_page version pageSizeOf obj Hobj index Hi Hn)
    as (bounds & -> & [Hb1 Hb2] & Hsl & Hsub & Hadd & Hmax).
  unfold mbind at 1, R_bind at 1, upstreamDo. set (s0 := mkSession _ _ _ _ _ _ _ _).
  destruct (upstream _ _ _) as [|status body] eqn:Hrep.
  { intros [= <- <-]. split_and!; [done..|]. intros Hr. destruct (Hr (length (sent s)) bounds Hb1 Hb2) as (? & E & _).
    by rewrite Hrep in E. }
  assert (Hlive : responsive version upstream obj ->
    status = 206 /\ Io.content body = page_of index /\ Io.fin body = Io.EOF).
  { intros Hr. destruct (Hr (length (sent s)) bounds Hb1 Hb2) as (? & E & Hc & Hf).
    rewrite Hrep in E. injection E as -> ->. by rewrite Hc, Hsl. }
  destruct (Z.eqb_spec status 412) as [H412|_].
  { intros [= <- <-]. split_and!; [done..|]. intros Hr. destruct (Hlive Hr) as [? _]. lia. }
  destruct (Z.eqb_spec status 206) as [->|H206]; cbn [negb].
  2:{ intros [= <- <-]. split_and!; [done..|]. intros Hr. by destruct (Hlive Hr). }
  apply Hup in Hrep; [|done..]. rewrite Hsl in Hrep. rewrite Hsub, Hadd.
  pose proof (zlen_nonneg (page_of index)).
  replace (zlen (page_of index) +! 1) with (zlen (page_of index) + 1) by (int64_unfold; no_wrap; lia).
  destruct (ReadAllLimit_spec buf (zlen (page_of index) + 1) body) as (err & -> & Hok).
  pose proof (prefix_length _ _ Hrep) as Hle. rewrite take_ge by (unfold zlen; lia).
  destruct err as [e|].
  { intros [= <- <-]. split_and!; [done..|]. intros Hr. destruct (Hlive Hr) as (_ & _ & Hf). by specialize (Hok Hf). }
  destruct (Z.eqb_spec (zlen (Io.content body)) (zlen (page_of index))) as [Hz|Hz]; cbn [negb].
  2:{ intros [= <- <-]. split_and!; [done..|]. intros Hr. destruct (Hlive Hr) as (_ & Hc & _). by rewrite Hc in Hz. }
  apply prefix_length_eq in Hrep; [|unfold zlen in Hz; lia]. rewrite Hrep.
  unfold mbind, R_bind. destruct (storeBytesBestEffort obj index (page_of index) s0) as [[] s1] eqn:Hst.
  destruct (storeBytesBestEffort_spec index s0 s1 Hs Hst) as [Hs1 [Hc1 _]].
  intros [= <- <-]. split_and!; [done|done|by intros data [= <-]|done].
Qed.

Lemma page_fits index : 0 <= index -> zlen (page_of index) <= ob_PageSize obj.
Proof.
  intros Hi. pose proof (oo_positive _ _ _ Hobj). unfold pageOf. rewrite <- (oo_pageSize _ _ _ Hobj).
  unfold zlen, slice. rewrite length_take. lia.
Qed.

End Object.

(** Whichever way the fill of a page is entered, whatever fails and whatever other requests
    do: the bytes returned are those of the page, the cache stays sound and nothing reaches
    the client; and the request that fetches the page has it when the store answers, even if
    no call on the cache succeeds. *)
Theorem page_bytes_best_effort
    (version : string -> bytes -> bytes) (pageSizeOf : string -> Z) (buf : nat -> nat)
    (upstream : nat -> string -> string -> Reply) (obj : Object) (index : Z) (s : Session)
    (Hobj : object_ok version pageSizeOf obj) (Hup : honest version upstream obj)
    (Hs : session_ok version pageSizeOf s) (Hi : 0 <= index) (Hn : index * ob_PageSize obj < ob_Size obj) :
  let '(r, s') := fillMissingPageBytes buf upstream obj index s in
  session_ok version pageSizeOf s' /\ client s' = client s /\
  (forall data, r = Ok data -> data = pageOf version pageSizeOf (ob_ID obj) (ob_ETag obj) index) /\
  (responsive version upstream obj -> flight s = [] ->
   r = Ok (pageOf version pageSizeOf (ob_ID obj) (ob_ETag obj) index)).
Proof.
  destruct (fillMissingPageBytes buf upstream obj index s) as [r s'] eqn:Hrun. unfold fillMissingPageBytes in Hrun.
  set (P := fun (r : result ProxyError bytes) w s' => session_ok version pageSizeOf s' /\ client s' = w /\
    forall data, r = Ok data -> data = pageOf version pageSizeOf (ob_ID obj) (ob_ETag obj) index).
  assert (HP : P r (client s) s').
  { refine (joinFill_spec version pageSizeOf obj P (flight s) index _ _ _ (client s) s r s' _ _ _ Hs eq_refl Hrun).
    - intros e s1 ? ?. by split_and!.
    - intros s1 a s2 ? ? [= <- <-]. split_and!; [done..|].
      pose proof (oo_bound _ _ _ Hobj). pose proof (oo_positive _ _ _ Hobj).
      rewrite readAndClosePage_short; [by intros data [= <-]|lia|by apply page_fits].
    - intros s1 a s2 Hs1 Hc Hf.
      destruct (fetchPageBytes_spec version pageSizeOf buf upstream obj Hobj Hup index s1 a s2 Hs1 Hi Hn Hf)
        as (? & ? & ? & _). split_and!; [done|congruence|done]. }
  destruct HP as (? & ? & ?). split_and!; [done..|]. intros Hr Hfl. rewrite Hfl in Hrun. cbn [joinFill] in Hrun.
  by apply (fetchPageBytes_spec version pageSizeOf buf upstream obj Hobj Hup index s r s' Hs Hi Hn Hrun).
Qed.

(** ** The same page with a disk that fails

    No call on the cache succeeds: the page is not streamed, but it is returned as bytes. *)

Definition brokenSession : Session :=
  mkSession (set_faults (replicate 40 (Some (mkFault 0 "input/output error"))) alphaCache) []
    (Io.mkWriter [] []) true false None [] [].

Example broken_cache_still_answers :
  is_ok (fillMissingPage store demoObj 1 brokenSession).1 = false /\
  (fillMissingPageBytes (fun _ => 2%nat) store demoObj 1 brokenSession).1 = Ok (slice 8 16 alphabet).
Proof. split; vm_compute; reflexivity. Qed.

Lemma page_bytes_best_effort_witness :
  (fillMissingPageBytes (fun _ => 2%nat) store demoObj 1 brokenSession).1 = Ok (pageOf ver pagesBy8 (ob_ID demoObj) (ob_ETag demoObj) 1).
Proof.
  pose proof (page_bytes_best_effort ver pagesBy8 (fun _ => 2%nat) store demoObj 1 brokenSession) as H.
  destruct (fillMissingPageBytes _ _ _ _ _) as [r s']. cbn [fst]. apply H.
  - constructor; [reflexivity|reflexivity|reflexivity|]. vm_compute. discriminate.
  - apply responsive_honest, store_responsive.
  - split; [|by apply Forall_nil]. unfold brokenSession. cbn [cache].
    refine (ev_ok _ _ _ (evolved_faults _ alphaCache alphaCache _ (evolved_refl _ _ _))).
    exact (proj1 demoSession_ok).
  - lia.
  - vm_compute. reflexivity.
  - exact store_responsive.
  - reflexivity.
Defined.
