(* ===== verification/ProxyFlight.v ===== *)
(** * One fetch per page ([internal/proxy/proxy.go])

    Concurrent requests for a page that is not cached share one fetch: the first
    enters it in [pageFills] and fetches, the others wait for its call to be closed.
    Semaphores bound the fetches of a peer, in all and per object. Here the requests
    are goroutines interleaved at every critical section, channel operation and
    assignment of the functions [fillMissingPage], [fillMissingPageBytes],
    [fillAndWriteMissingPageFrame] and [fillAndStreamMissingPage], which follow the
    same protocol. [ProxyRead] uses its outcomes. *)

From S2P Require Import Prelude GoStrings GoNet Sha256 Range PageFrame CachePath CacheDB CacheStore.
From S2P Require Import ProxyPeers ProxySpan ProxyRead.

(** ** State *)

Record pageFillKey := mkFillKey { fk_objectID : string; fk_index : Z; fk_etag : string; fk_epoch : Z }.

#[export] Instance pageFillKey_eq_dec : EqDecision pageFillKey.
Proof. solve_decision. Defined.

#[export] Instance pageFillKey_countable : Countable pageFillKey.
Proof.
  refine (inj_countable' (fun k => (fk_objectID k, fk_index k, fk_etag k, fk_epoch k))
    (fun '(a, b, c, d) => mkFillKey a b c d) _). by intros [].
Defined.

(** [fills] is [p.pageFills] with calls numbered in the order they were made;
    [closed] the calls whose channel is closed, with [call.err]; [global] and [sems]
    the number of tokens in [peerFillSem] and the channels of [objectFillSems]. *)
Record Flight := mkFlight {
  fills : gmap pageFillKey nat; closed : gmap nat (option ProxyError); nextCall : nat;
  global : nat; sems : gmap string nat }.

(** The configuration: whether there is a peer router, the capacity of
    [peerFillSem] (none when it is [nil]) and [p.objectFillLimit]. *)
Record FillConfig := mkFillConfig { peered : bool; fillCap : option nat; objectFillLimit : Z }.

(** ** Semaphores *)

(** Without the token, or with whether there is one to release. *)
Definition tryAcquireSemaphore (cap : option nat) (n : nat) : option (nat * bool) :=
  match cap with
  | None => Some (n, false)
  | Some cap => if (n <? cap)%nat then Some (S n, true) else None
  end.

(** The channel is made on first use. *)
Definition tryAcquireObjectFill (cfg : FillConfig) (objectID : string) (f : Flight) : option bool * Flight :=
  if objectFillLimit cfg <=? 0 then (Some false, f)
  else
    let n := default 0%nat (sems f !! objectID) in
    let '(r, n') := match tryAcquireSemaphore (Some (Z.to_nat (objectFillLimit cfg))) n with
                    | None => (None, n)
                    | Some (n', held) => (Some held, n')
                    end in
    (r, mkFlight (fills f) (closed f) (nextCall f) (global f) (<[objectID := n']> (sems f))).

Definition setGlobal (n : nat) (f : Flight) : Flight :=
  mkFlight (fills f) (closed f) (nextCall f) n (sems f).

(** [<-sem] *)
Definition releaseGlobal (held : bool) (f : Flight) : Flight :=
  if held then setGlobal (pred (global f)) f else f.

Definition releaseObject (held : bool) (objectID : string) (f : Flight) : Flight :=
  if held then mkFlight (fills f) (closed f) (nextCall f) (global f) (alter pred objectID (sems f)) else f.

(** ** Goroutines *)

(** Where a request that fetches is: before [tryAcquirePeerFill]; between its two
    semaphores; giving the first back; fetching, with the tokens it holds; giving
    the tokens back; before the call leaves the table; before it is closed. *)
Inductive Phase :=
| PAcquire
| PAcquireObject (g : bool)
| PGiveBack (g : bool)
| PFetch (g o : bool)
| PReleaseObject (g o : bool) (err : option ProxyError)
| PReleaseGlobal (g : bool) (err : option ProxyError)
| PDelete (err : option ProxyError)
| PClose (err : option ProxyError).

Inductive Goroutine :=
| Begin (k : pageFillKey)
| Wait (k : pageFillKey) (c : nat)
| Lead (k : pageFillKey) (c : nat) (ph : Phase)
| Ended (err : option ProxyError).

(** What the environment decides in a step: how a fetch ends, what [OpenPage] says
    after another request's fetch, that the client goes away. *)
Inductive Choice := Fetched (err : option ProxyError) | Opened (r : result ProxyError bool) | Cancel.

(** One step of a goroutine; [None] when it cannot move. *)
Definition advance (cfg : FillConfig) (ch : Choice) (f : Flight) (t : Goroutine) : option (Flight * Goroutine) :=
  match t with
  | Begin k =>
      match fills f !! k with
      | Some c => Some (f, Wait k c)
      | None =>
          let c := nextCall f in
          Some (mkFlight (<[k := c]> (fills f)) (closed f) (S c) (global f) (sems f), Lead k c PAcquire)
      end
  | Wait k c =>
      match ch, closed f !! c with
      | Cancel, _ => Some (f, Ended (Some ErrCanceled))
      | _, None => None
      | _, Some (Some e) => Some (f, Ended (Some e))
      | Opened (Err e), Some None => Some (f, Ended (Some e))
      | Opened (Ok true), Some None => Some (f, Ended None)
      | Opened (Ok false), Some None => Some (f, Begin k)
      | Fetched _, Some None => None
      end
  | Lead k c ph =>
      match ph with
      | PAcquire =>
          if negb (peered cfg) then Some (f, Lead k c (PFetch false false))
          else match tryAcquireSemaphore (fillCap cfg) (global f) with
          | None => Some (f, Lead k c (PDelete (Some ErrPeerFillOverloaded)))
          | Some (n, held) => Some (setGlobal n f, Lead k c (PAcquireObject held))
          end
      | PAcquireObject g =>
          let '(r, f) := tryAcquireObjectFill cfg (fk_objectID k) f in
          match r with
          | None => Some (f, Lead k c (PGiveBack g))
          | Some o => Some (f, Lead k c (PFetch g o))
          end
      | PGiveBack g => Some (releaseGlobal g f, Lead k c (PDelete (Some ErrPeerFillOverloaded)))
      | PFetch g o =>
          match ch with
          | Fetched err => Some (f, Lead k c (PReleaseObject g o err))
          | _ => None
          end
      | PReleaseObject g o err => Some (releaseObject o (fk_objectID k) f, Lead k c (PReleaseGlobal g err))
      | PReleaseGlobal g err => Some (releaseGlobal g f, Lead k c (PDelete err))
      | PDelete err =>
          Some (mkFlight (delete k (fills f)) (closed f) (nextCall f) (global f) (sems f), Lead k c (PClose err))
      | PClose err =>
          Some (mkFlight (fills f) (<[c := err]> (closed f)) (nextCall f) (global f) (sems f), Ended err)
      end
  | Ended _ => None
  end.

(** Any goroutine moves, or a request arrives. *)
Inductive fstep (cfg : FillConfig) : Flight * list Goroutine -> Flight * list Goroutine -> Prop :=
| F_move f f' l t t' k ch :
    advance cfg ch f t = Some (f', t') -> fstep cfg (f, l ++ t :: k) (f', l ++ t' :: k)
| F_arrive f ts k : fstep cfg (f, ts) (f, Begin k :: ts).

Definition idleFlight : Flight := mkFlight ∅ ∅ 0 0 ∅.

(** ** Counting goroutines *)

Definition count (p : Goroutine -> bool) (ts : list Goroutine) : nat := length (filter (fun t => p t = true) ts).

Definition b2n (b : bool) : nat := if b then 1 else 0.

Lemma count_cons p t ts : count p (t :: ts) = (b2n (p t) + count p ts)%nat.
Proof. unfold count. rewrite filter_cons. destruct (p t); case_decide; done. Qed.

Lemma count_app p l k : count p (l ++ k) = (count p l + count p k)%nat.
Proof. unfold count. by rewrite filter_app, length_app. Qed.

Lemma count_elem p t ts : t ∈ ts -> p t = true -> (0 < count p ts)%nat.
Proof.
  intros [l [k ->]]%list_elem_of_split Hp. rewrite count_app, count_cons, Hp. cbn. lia.
Qed.

Lemma count_pos p ts : (0 < count p ts)%nat -> exists t, t ∈ ts /\ p t = true.
Proof.
  induction ts as [|t ts IH]; [cbn; lia|]. rewrite count_cons. destruct (p t) eqn:E.
  - exists t. split; [left|done].
  - cbn. intros H. destruct (IH H) as (t' & ? & ?). exists t'. split; [by right|done].
Qed.

Lemma count_mono p q ts : (forall t, p t = true -> q t = true) -> (count p ts <= count q ts)%nat.
Proof.
  intros H. induction ts as [|t ts IH]; [done|]. rewrite !count_cons. specialize (H t).
  destruct (p t); [rewrite H by done|]; unfold b2n; [lia|]. destruct (q t); lia.
Qed.

(** The goroutine in the table for [k]; the one that will close [c]; the holders of
    tokens; the fetches. *)
Definition leads (k : pageFillKey) (t : Goroutine) : bool :=
  match t with Lead k' _ (PClose _) => false | Lead k' _ _ => bool_decide (k' = k) | _ => false end.
Definition owns (c : nat) (t : Goroutine) : bool :=
  match t with Lead _ c' _ => bool_decide (c' = c) | _ => false end.
Definition holdsGlobal (t : Goroutine) : bool :=
  match t with
  | Lead _ _ (PAcquireObject g | PGiveBack g | PFetch g _ | PReleaseObject g _ _ | PReleaseGlobal g _) => g
  | _ => false
  end.
Definition holdsObject (o : string) (t : Goroutine) : bool :=
  match t with
  | Lead k _ (PFetch _ h | PReleaseObject _ h _) => h && bool_decide (fk_objectID k = o)
  | _ => false
  end.
Definition fetching (t : Goroutine) : bool := match t with Lead _ _ (PFetch _ _) => true | _ => false end.
Definition fetches (k : pageFillKey) (t : Goroutine) : bool := fetching t && leads k t.
Definition fetchesObject (o : string) (t : Goroutine) : bool :=
  match t with Lead k _ (PFetch _ _) => bool_decide (fk_objectID k = o) | _ => false end.

(** ** The invariant *)

(** A fetch holds the tokens the configuration asks for. *)
Definition goroutine_ok (cfg : FillConfig) (f : Flight) (t : Goroutine) : Prop :=
  match t with
  | Wait _ c => (c < nextCall f)%nat
  | Lead k c ph =>
      (c < nextCall f)%nat /\
      (match ph with PClose _ => True | _ => fills f !! k = Some c end) /\
      (match ph with
       | PAcquireObject g | PGiveBack g => peered cfg = true /\ g = bool_decide (is_Some (fillCap cfg))
       | PFetch g o => g = peered cfg && bool_decide (is_Some (fillCap cfg)) /\
                       o = peered cfg && (0 <? objectFillLimit cfg)
       | _ => True
       end)
  | _ => True
  end.

Record flight_ok (cfg : FillConfig) (f : Flight) (ts : list Goroutine) : Prop := {
  fo_threads : Forall (goroutine_ok cfg f) ts;
  fo_leads : forall k, count (leads k) ts = b2n (bool_decide (is_Some (fills f !! k)));
  fo_fresh : forall k c, fills f !! k = Some c -> (c < nextCall f)%nat;
  fo_owns : forall c, (c < nextCall f)%nat ->
    (count (owns c) ts + b2n (bool_decide (is_Some (closed f !! c))) = 1)%nat;
  fo_closed : forall c, is_Some (closed f !! c) -> (c < nextCall f)%nat;
  fo_global : count holdsGlobal ts = global f;
  fo_cap : forall cap, fillCap cfg = Some cap -> (global f <= cap)%nat;
  fo_sems : forall o, count (holdsObject o) ts = default 0%nat (sems f !! o);
  fo_limit : forall o n, sems f !! o = Some n -> Z.of_nat n <= Z.max 0 (objectFillLimit cfg) }.

(** What a step of one goroutine must balance for the others to be as before. *)
Record balanced (cfg : FillConfig) (f : Flight) (t : Goroutine) (f' : Flight) (t' : Goroutine) : Prop := {
  bl_leads : forall k, (b2n (leads k t') + b2n (bool_decide (is_Some (fills f !! k)))
    = b2n (leads k t) + b2n (bool_decide (is_Some (fills f' !! k))))%nat;
  bl_next : (nextCall f <= nextCall f')%nat;
  bl_fresh : forall k c, fills f' !! k = Some c -> (c < nextCall f')%nat;
  bl_owns : forall c, (c < nextCall f)%nat ->
    (b2n (owns c t') + b2n (bool_decide (is_Some (closed f' !! c)))
     = b2n (owns c t) + b2n (bool_decide (is_Some (closed f !! c))))%nat;
  bl_new : forall c, (nextCall f <= c < nextCall f')%nat -> b2n (owns c t') = 1%nat /\ closed f' !! c = None;
  bl_closed : forall c, is_Some (closed f' !! c) -> (c < nextCall f')%nat;
  bl_global : (b2n (holdsGlobal t') + global f = b2n (holdsGlobal t) + global f')%nat;
  bl_cap : forall cap, fillCap cfg = Some cap -> (global f' <= cap)%nat;
  bl_sems : forall o, (b2n (holdsObject o t') + default 0 (sems f !! o)
    = b2n (holdsObject o t) + default 0 (sems f' !! o))%nat;
  bl_limit : forall o n, sems f' !! o = Some n -> Z.of_nat n <= Z.max 0 (objectFillLimit cfg);
  bl_self : goroutine_ok cfg f' t';
  bl_others : forall s, goroutine_ok cfg f s -> (forall k, leads k t = true -> leads k s = false) ->
    goroutine_ok cfg f' s }.

(** No goroutine owns a call that was not made. *)
Lemma owns_fresh cfg f ts c :
  Forall (goroutine_ok cfg f) ts -> (nextCall f <= c)%nat -> count (owns c) ts = 0%nat.
Proof.
  intros Hts Hc. destruct (count (owns c) ts) eqn:E; [done|]. exfalso.
  destruct (count_pos (owns c) ts ltac:(lia)) as (t & Hin & Ho). rewrite Forall_forall in Hts.
  specialize (Hts t Hin). destruct t as [| |k' c' ph|]; try done. apply bool_decide_eq_true in Ho as ->.
  destruct Hts as [Hlt _]. lia.
Qed.

Lemma flight_ok_balanced cfg f f' l t t' k :
  flight_ok cfg f (l ++ t :: k) -> balanced cfg f t f' t' -> flight_ok cfg f' (l ++ t' :: k).
Proof.
  intros [H1 H2 H3 H4 H5 H6 H7 H8 H9] B. pose proof (fun c => owns_fresh cfg f (l ++ t :: k) c) as Hfresh.
  assert (Hex : forall s, s ∈ l ++ k -> forall k0, leads k0 t = true -> leads k0 s = false).
  { intros s Hs k0 Hk0. specialize (H2 k0). rewrite count_app, count_cons, Hk0 in H2.
    destruct (leads k0 s) eqn:E; [|done]. exfalso.
    assert (0 < count (leads k0) l + count (leads k0) k)%nat.
    { rewrite <- count_app. by eapply count_elem. }
    unfold b2n in H2. case_bool_decide; lia. }
  constructor.
  - rewrite Forall_app, Forall_cons in *. destruct H1 as (Hl & Ht & Hk).
    split_and!; [|apply (bl_self _ _ _ _ _ B)|]; rewrite Forall_forall in *; intros s Hs;
      (apply (bl_others _ _ _ _ _ B); [auto|]); apply Hex, elem_of_app; auto.
  - intros k0. pose proof (bl_leads _ _ _ _ _ B k0). specialize (H2 k0).
    rewrite count_app, count_cons in *. lia.
  - apply (bl_fresh _ _ _ _ _ B).
  - intros c Hc. destruct (decide (c < nextCall f)%nat) as [Hlt|Hge].
    + specialize (H4 c Hlt). pose proof (bl_owns _ _ _ _ _ B c Hlt). rewrite count_app, count_cons in *. lia.
    + destruct (bl_new _ _ _ _ _ B c) as [Ho Hcl]; [lia|]. specialize (Hfresh c H1 ltac:(lia)).
      rewrite count_app, count_cons in *. rewrite Hcl, Ho. cbn. lia.
  - apply (bl_closed _ _ _ _ _ B).
  - pose proof (bl_global _ _ _ _ _ B). rewrite count_app, count_cons in *. lia.
  - apply (bl_cap _ _ _ _ _ B).
  - intros o. pose proof (bl_sems _ _ _ _ _ B o). specialize (H8 o). rewrite count_app, count_cons in *. lia.
  - apply (bl_limit _ _ _ _ _ B).
Qed.

(** Steps that leave the shared state alone. *)
Lemma balanced_same cfg f t t' :
  (forall k c, fills f !! k = Some c -> (c < nextCall f)%nat) ->
  (forall c, is_Some (closed f !! c) -> (c < nextCall f)%nat) ->
  (forall cap, fillCap cfg = Some cap -> (global f <= cap)%nat) ->
  (forall o n, sems f !! o = Some n -> Z.of_nat n <= Z.max 0 (objectFillLimit cfg)) ->
  (forall k, leads k t' = leads k t) -> (forall c, owns c t' = owns c t) -> holdsGlobal t' = holdsGlobal t ->
  (forall o, holdsObject o t' = holdsObject o t) -> goroutine_ok cfg f t' -> balanced cfg f t f t'.
Proof.
  intros H1 H2 H3 H4 E1 E2 E3 E4 Hok.
  constructor; auto; intros; rewrite ?E1, ?E2, ?E3, ?E4; try done; lia.
Qed.

(** Steps that change only tokens. *)
Lemma balanced_tokens cfg f t n s' t' :
  (forall k c, fills f !! k = Some c -> (c < nextCall f)%nat) ->
  (forall c, is_Some (closed f !! c) -> (c < nextCall f)%nat) ->
  (forall cap, fillCap cfg = Some cap -> (n <= cap)%nat) ->
  (forall o m, s' !! o = Some m -> Z.of_nat m <= Z.max 0 (objectFillLimit cfg)) ->
  (forall k, leads k t' = leads k t) -> (forall c, owns c t' = owns c t) ->
  (b2n (holdsGlobal t') + global f = b2n (holdsGlobal t) + n)%nat ->
  (forall o, b2n (holdsObject o t') + default 0 (sems f !! o) = b2n (holdsObject o t) + default 0 (s' !! o))%nat ->
  goroutine_ok cfg f t' ->
  balanced cfg f t (mkFlight (fills f) (closed f) (nextCall f) n s') t'.
Proof.
  intros H1 H2 H3 H4 E1 E2 E3 E4 Hok.
  constructor; auto; cbn [fills closed nextCall global sems]; intros; rewrite ?E1, ?E2; try done; lia.
Qed.

Section Steps.
Context (cfg : FillConfig) (f : Flight) (l k : list Goroutine).

Lemma acquire_balanced q c n held :
  flight_ok cfg f (l ++ Lead q c PAcquire :: k) -> peered cfg = true ->
  tryAcquireSemaphore (fillCap cfg) (global f) = Some (n, held) ->
  balanced cfg f (Lead q c PAcquire) (setGlobal n f) (Lead q c (PAcquireObject held)).
Proof.
  intros H Hp Ha. pose proof (fo_threads _ _ _ H) as Hts. rewrite Forall_app, Forall_cons in Hts.
  destruct Hts as (_ & (Hlt & Hf & _) & _). pose proof (fo_cap _ _ _ H) as Hcap.
  assert (Hn : held = bool_decide (is_Some (fillCap cfg)) /\ n = (b2n held + global f)%nat /\
    forall cap, fillCap cfg = Some cap -> (n <= cap)%nat).
  { unfold tryAcquireSemaphore in Ha. destruct (fillCap cfg) as [cap|].
    - destruct (Nat.ltb_spec (global f) cap); [|done]. injection Ha as <- <-.
      split_and!; [done|done|]. intros ? [= <-]. lia.
    - injection Ha as <- <-. by split_and!. }
  destruct Hn as (-> & -> & Hn).
  apply balanced_tokens; try done; cbn [holdsGlobal holdsObject b2n]; eauto using fo_fresh, fo_closed, fo_limit.
Qed.

(** The tokens of an object after an attempt on its semaphore. *)
Lemma acquireObject_balanced q c g r f' :
  flight_ok cfg f (l ++ Lead q c (PAcquireObject g) :: k) ->
  tryAcquireObjectFill cfg (fk_objectID q) f = (r, f') ->
  balanced cfg f (Lead q c (PAcquireObject g)) f'
    (Lead q c (match r with None => PGiveBack g | Some o => PFetch g o end)).
Proof.
  intros H Ha. pose proof (fo_threads _ _ _ H) as Hts. rewrite Forall_app, Forall_cons in Hts.
  destruct Hts as (_ & (Hlt & Hf & Hp & Hg) & _). unfold tryAcquireObjectFill in Ha.
  destruct (Z.leb_spec (objectFillLimit cfg) 0) as [Hle|Hpos].
  { injection Ha as <- <-. apply balanced_same; try done; eauto using fo_fresh, fo_closed, fo_cap, fo_limit.
    split; [done|]. split; [done|]. rewrite Hp, Hg. split; [done|]. by rewrite (proj2 (Z.ltb_ge _ _)). }
  set (n := default 0%nat (sems f !! fk_objectID q)) in *. cbn [tryAcquireSemaphore] in Ha.
  assert (Hlim : forall m, Z.of_nat m <= objectFillLimit cfg ->
    forall o x, <[fk_objectID q := m]> (sems f) !! o = Some x -> Z.of_nat x <= Z.max 0 (objectFillLimit cfg)).
  { intros m Hm o x [[<- <-]|[_ Hx]]%lookup_insert_Some; [lia|]. by apply (fo_limit _ _ _ H o). }
  assert (Hn : Z.of_nat n <= objectFillLimit cfg).
  { unfold n. destruct (sems f !! fk_objectID q) as [m|] eqn:E; cbn; [|lia].
    pose proof (fo_limit _ _ _ H _ _ E). lia. }
  assert (Hsem : forall m o, default 0%nat (<[fk_objectID q := m]> (sems f) !! o)
    = if bool_decide (fk_objectID q = o) then m else default 0%nat (sems f !! o)).
  { intros m o. destruct (decide (fk_objectID q = o)) as [<-|Hne].
    - by rewrite bool_decide_true, lookup_insert_eq.
    - by rewrite bool_decide_false, lookup_insert_ne. }
  destruct (Nat.ltb_spec n (Z.to_nat (objectFillLimit cfg))) as [Hlt'|Hge]; injection Ha as <- <-.
  - apply balanced_tokens; try done; eauto using fo_fresh, fo_closed, fo_cap.
    + apply Hlim. lia.
    + intros o. rewrite Hsem. cbn [holdsObject andb]. destruct (decide (fk_objectID q = o)) as [<-|Hne].
      * rewrite !bool_decide_true by done. fold n. cbn. lia.
      * rewrite !bool_decide_false by done. done.
    + split; [done|]. split; [done|]. rewrite Hp, Hg. split; [done|]. by rewrite (proj2 (Z.ltb_lt _ _)).
  - apply balanced_tokens; try done; eauto using fo_fresh, fo_closed, fo_cap.
    intros o. rewrite Hsem. cbn [holdsObject]. destruct (decide (fk_objectID q = o)) as [<-|Hne].
    + by rewrite bool_decide_true by done.
    + by rewrite bool_decide_false by done.
Qed.

(** Giving a token back. *)
Lemma releaseGlobal_balanced q c g ph ph' :
  flight_ok cfg f (l ++ Lead q c ph :: k) ->
  holdsGlobal (Lead q c ph) = g -> holdsGlobal (Lead q c ph') = false ->
  (forall k0, leads k0 (Lead q c ph') = leads k0 (Lead q c ph)) ->
  (forall o, holdsObject o (Lead q c ph') = holdsObject o (Lead q c ph)) ->
  goroutine_ok cfg f (Lead q c ph') ->
  balanced cfg f (Lead q c ph) (releaseGlobal g f) (Lead q c ph').
Proof.
  intros H Hg Hg' Hl Ho Hok. unfold releaseGlobal. destruct g.
  2: { apply balanced_same; try done; eauto using fo_fresh, fo_closed, fo_cap, fo_limit. }
  pose proof (fo_global _ _ _ H) as Hcount. rewrite count_app, count_cons, Hg in Hcount.
  apply balanced_tokens; try done; eauto using fo_fresh, fo_closed, fo_limit.
  - intros cap Hcap. pose proof (fo_cap _ _ _ H cap Hcap). lia.
  - rewrite Hg, Hg'. cbn in *. lia.
  - intros o. by rewrite Ho.
Qed.

Lemma releaseObject_balanced q c g o err :
  flight_ok cfg f (l ++ Lead q c (PReleaseObject g o err) :: k) ->
  balanced cfg f (Lead q c (PReleaseObject g o err)) (releaseObject o (fk_objectID q) f)
    (Lead q c (PReleaseGlobal g err)).
Proof.
  intros H. pose proof (fo_threads _ _ _ H) as Hts. rewrite Forall_app, Forall_cons in Hts.
  destruct Hts as (_ & (Hlt & Hf & _) & _). unfold releaseObject. destruct o.
  2: { apply balanced_same; try done; eauto using fo_fresh, fo_closed, fo_cap, fo_limit. }
  assert (Hsem : forall x, default 0%nat (alter pred (fk_objectID q) (sems f) !! x)
    = if bool_decide (fk_objectID q = x) then pred (default 0%nat (sems f !! x)) else default 0%nat (sems f !! x)).
  { intros x. case_bool_decide as Hx; [subst; rewrite lookup_alter_eq; by destruct (sems f !! fk_objectID q)
      |by rewrite lookup_alter_ne]. }
  apply balanced_tokens; try done; eauto using fo_fresh, fo_closed, fo_cap.
  - intros x m Hm. destruct (decide (fk_objectID q = x)) as [<-|Hne].
    + rewrite lookup_alter_eq in Hm. destruct (sems f !! fk_objectID q) as [y|] eqn:E; [|done].
      injection Hm as <-. pose proof (fo_limit _ _ _ H _ _ E). lia.
    + rewrite lookup_alter_ne in Hm by done. by apply (fo_limit _ _ _ H x).
  - intros x. rewrite Hsem. pose proof (fo_sems _ _ _ H x) as Hcount. rewrite count_app, count_cons in Hcount.
    cbn [holdsObject andb] in *. case_bool_decide; cbn in *; lia.
Qed.

Lemma begin_balanced q :
  flight_ok cfg f (l ++ Begin q :: k) -> fills f !! q = None ->
  balanced cfg f (Begin q)
    (mkFlight (<[q := nextCall f]> (fills f)) (closed f) (S (nextCall f)) (global f) (sems f))
    (Lead q (nextCall f) PAcquire).
Proof.
  intros H Hq. constructor; cbn [fills closed nextCall global sems leads owns holdsGlobal holdsObject]; try lia; try done.
  - intros k0. destruct (decide (q = k0)) as [->|Hne].
    + by rewrite Hq, lookup_insert_eq, (bool_decide_true (k0 = k0)) by done.
    + rewrite lookup_insert_ne by done. rewrite (bool_decide_false (q = k0)) by done. cbn. lia.
  - intros k0 c0 Hk0. destruct (decide (q = k0)) as [->|Hne].
    + rewrite lookup_insert_eq in Hk0. injection Hk0 as <-. lia.
    + rewrite lookup_insert_ne in Hk0 by done. pose proof (fo_fresh _ _ _ H _ _ Hk0). lia.
  - intros c0 Hc0. rewrite bool_decide_false by lia. done.
  - intros c0 Hc0. assert (c0 = nextCall f) as -> by lia. rewrite bool_decide_true by done. split; [done|].
    destruct (closed f !! nextCall f) eqn:E; [|done]. pose proof (fo_closed _ _ _ H (nextCall f) ltac:(by eexists)). lia.
  - intros c0 Hc0. pose proof (fo_closed _ _ _ H _ Hc0). lia.
  - apply (fo_cap _ _ _ H).
  - apply (fo_limit _ _ _ H).
  - split; [cbn; lia|]. split; [apply lookup_insert_eq|done].
  - intros s Hs _. destruct s as [|k' c'|k' c' ph|]; cbn in *; try done; try lia.
    destruct Hs as (Hlt & Hf & Hp). split; [lia|]. split; [|done].
    destruct ph; try done; (rewrite lookup_insert_ne; [done|]); intros ->; congruence.
Qed.

Lemma delete_balanced q c err :
  flight_ok cfg f (l ++ Lead q c (PDelete err) :: k) ->
  balanced cfg f (Lead q c (PDelete err))
    (mkFlight (delete q (fills f)) (closed f) (nextCall f) (global f) (sems f)) (Lead q c (PClose err)).
Proof.
  intros H. pose proof (fo_threads _ _ _ H) as Hts. rewrite Forall_app, Forall_cons in Hts.
  destruct Hts as (_ & (Hlt & Hf & _) & _).
  constructor; cbn [fills closed nextCall global sems leads owns holdsGlobal holdsObject]; try lia; try done.
  - intros k0. destruct (decide (q = k0)) as [->|Hne].
    + by rewrite Hf, lookup_delete_eq, (bool_decide_true (k0 = k0)) by done.
    + rewrite lookup_delete_ne by done. by rewrite (bool_decide_false (q = k0)) by done.
  - intros k0 c0 [_ Hk0]%lookup_delete_Some. apply (fo_fresh _ _ _ H _ _ Hk0).
  - apply (fo_closed _ _ _ H).
  - apply (fo_cap _ _ _ H).
  - apply (fo_limit _ _ _ H).
  - intros s Hs Hex. specialize (Hex q). cbn in Hex. rewrite bool_decide_true in Hex by done.
    specialize (Hex eq_refl). destruct s as [|k' c'|k' c' ph|]; cbn in *; try done.
    destruct Hs as (Hlt' & Hf' & Hp). split; [done|]. split; [|done].
    destruct ph; try done; rewrite lookup_delete_ne; try done; intros <-; by rewrite bool_decide_true in Hex.
Qed.

Lemma close_balanced q c err :
  flight_ok cfg f (l ++ Lead q c (PClose err) :: k) ->
  balanced cfg f (Lead q c (PClose err))
    (mkFlight (fills f) (<[c := err]> (closed f)) (nextCall f) (global f) (sems f)) (Ended err).
Proof.
  intros H. pose proof (fo_threads _ _ _ H) as Hts. rewrite Forall_app, Forall_cons in Hts.
  destruct Hts as (_ & (Hlt & _) & _).
  constructor; cbn [fills closed nextCall global sems leads owns holdsGlobal holdsObject]; try lia; try done.
  - apply (fo_fresh _ _ _ H).
  - intros c0 Hc0. destruct (decide (c = c0)) as [->|Hne].
    + pose proof (fo_owns _ _ _ H c0 Hc0) as Ho. rewrite count_app, count_cons in Ho. cbn [owns] in Ho.
      rewrite bool_decide_true in Ho by done. rewrite lookup_insert_eq, !bool_decide_true by done.
      unfold b2n in *. case_bool_decide; [lia|done].
    + rewrite lookup_insert_ne by done. rewrite (bool_decide_false (c = c0)) by done. done.
  - intros c0 Hc0. destruct (decide (c = c0)) as [->|Hne]; [done|].
    rewrite lookup_insert_ne in Hc0 by done. by apply (fo_closed _ _ _ H).
  - apply (fo_cap _ _ _ H).
  - apply (fo_limit _ _ _ H).
Qed.

Lemma advance_balanced ch t f' t' :
  flight_ok cfg f (l ++ t :: k) -> advance cfg ch f t = Some (f', t') -> balanced cfg f t f' t'.
Proof.
  intros H Ha. pose proof (fo_threads _ _ _ H) as Hts. rewrite Forall_app, Forall_cons in Hts.
  destruct Hts as (_ & Hok & _).
  assert (Hsame : forall u, (forall k0, leads k0 u = leads k0 t) -> (forall c, owns c u = owns c t) ->
    holdsGlobal u = holdsGlobal t -> (forall o, holdsObject o u = holdsObject o t) -> goroutine_ok cfg f u ->
    balanced cfg f t f u)
    by (intros; apply balanced_same; eauto using fo_fresh, fo_closed, fo_cap, fo_limit).
  destruct t as [q|q c|q c ph|e]; cbn [advance] in Ha; [| | |done].
  - destruct (fills f !! q) as [c|] eqn:Hq; injection Ha as <- <-; [|by apply begin_balanced].
    apply Hsame; try done. by apply (fo_fresh _ _ _ H q).
  - assert (Hb : f' = f /\ (t' = Begin q \/ exists e, t' = Ended e)) by (repeat case_match; simplify_eq; eauto).
    destruct Hb as [-> [->|[e ->]]]; by apply Hsame.
  - destruct ph as [|g|g|g o|g o err|g err|err|err].
    + destruct Hok as (Hlt & Hf & _). destruct (peered cfg) eqn:Hp; cbn [negb] in Ha.
      * destruct (tryAcquireSemaphore _ _) as [[n held]|] eqn:Hs; injection Ha as <- <-.
        -- by apply acquire_balanced.
        -- apply Hsame; try done.
      * injection Ha as <- <-. apply Hsame; try done. split; [done|]. split; [done|]. by rewrite Hp.
    + destruct (tryAcquireObjectFill cfg (fk_objectID q) f) as [r f1] eqn:Hs.
      pose proof (acquireObject_balanced q c g r f1 H Hs) as HB. destruct r; injection Ha as <- <-; exact HB.
    + injection Ha as <- <-. apply releaseGlobal_balanced; try done. by destruct Hok as (? & ? & _).
    + destruct ch; [|done..]. injection Ha as <- <-. apply Hsame; try done. by destruct Hok as (? & ? & _).
    + injection Ha as <- <-. by apply releaseObject_balanced.
    + injection Ha as <- <-. apply releaseGlobal_balanced; try done.
    + injection Ha as <- <-. by apply delete_balanced.
    + injection Ha as <- <-. by apply close_balanced.
Qed.

End Steps.

Lemma flight_reachable cfg f ts :
  rtc (fstep cfg) (idleFlight, []) (f, ts) -> flight_ok cfg f ts.
Proof.
  intros H. remember (idleFlight, []) as s0. remember (f, ts) as s. revert f ts Heqs.
  assert (Hi : flight_ok cfg s0.1 s0.2).
  { subst. constructor; cbn; try done; try lia.
    - intros c [x Hx]. by rewrite lookup_empty in Hx. }
  clear Heqs0. induction H as [|x y z Hs _ IH]; intros f ts ->; [done|]. apply IH; [|done].
  destruct Hs as [f0 f1 l t t' k ch Ha|f0 ts0 k]; cbn in *.
  - eapply flight_ok_balanced; [exact Hi|]. by eapply advance_balanced.
  - destruct Hi. constructor; try done; try (intros; rewrite count_cons; cbn; auto).
    by constructor.
Qed.

(** A call has one owner. *)
Lemma owner_unique cfg f ts c t t' :
  flight_ok cfg f ts -> (c < nextCall f)%nat -> t ∈ ts -> t' ∈ ts -> owns c t = true -> owns c t' = true -> t = t'.
Proof.
  intros H Hc Hin Hin' Ho Ho'. pose proof (fo_owns _ _ _ H c Hc) as Hone.
  apply list_elem_of_split in Hin as (l & k & ->). rewrite count_app, count_cons, Ho in Hone. cbn in Hone.
  apply elem_of_app in Hin' as [Hin'|[->|Hin']%elem_of_cons]; [|done|];
    pose proof (count_elem _ _ _ Hin' Ho'); lia.
Qed.

(** Who waits for a call waits for the page its owner fetches. *)
Definition matched (ts : list Goroutine) : Prop :=
  forall k c q ph, Wait k c ∈ ts -> Lead q c ph ∈ ts -> q = k.

Lemma leader_of cfg f ts k c :
  flight_ok cfg f ts -> fills f !! k = Some c -> exists ph, Lead k c ph ∈ ts.
Proof.
  intros H Hk. pose proof (fo_leads _ _ _ H k) as Hl. rewrite Hk in Hl.
  destruct (count_pos (leads k) ts) as (t & Hin & Ht); [rewrite Hl; cbn; lia|].
  pose proof (proj1 (Forall_forall _ _) (fo_threads _ _ _ H) t Hin) as Hok.
  destruct t as [| |q c' ph|]; try done. assert (q = k) as -> by (destruct ph; try done; by apply bool_decide_eq_true in Ht).
  destruct Hok as (_ & Hf & _). exists ph. destruct ph; try done; cbn in Hf; rewrite Hk in Hf; by injection Hf as ->.
Qed.

Lemma advance_lead cfg ch f q c ph f' t' :
  advance cfg ch f (Lead q c ph) = Some (f', t') -> (exists ph', t' = Lead q c ph') \/ exists e, t' = Ended e.
Proof. destruct ph; cbn; repeat case_match; intros; simplify_eq; eauto. Qed.

Lemma matched_step cfg f ts f' ts' :
  flight_ok cfg f ts -> matched ts -> fstep cfg (f, ts) (f', ts') -> matched ts'.
Proof.
  intros H Hm Hs. inversion Hs as [f0 f1 l t t' k ch Ha E1 E2|f0 ts0 q E1 E2]; simplify_eq.
  2: { intros k c q' ph [?|Hw]%elem_of_cons [?|Hl]%elem_of_cons; try done. by eapply Hm. }
  pose proof (proj1 (Forall_forall _ _) (fo_threads _ _ _ H)) as Hok.
  assert (Hold : forall x, x ∈ l ++ t' :: k -> x = t' \/ x ∈ l ++ t :: k)
    by (intros x; rewrite !elem_of_app, !elem_of_cons; tauto).
  assert (Ht : t ∈ l ++ t :: k) by (apply elem_of_app; right; left).
  intros k0 c q ph Hw Hl. apply Hold in Hw as [Hw|Hw], Hl as [Hl|Hl].
  - congruence.
  - subst t'. destruct t as [b|b c1|q1 c1 ph1|]; cbn [advance] in Ha; [| | |done].
    + destruct (fills f !! b) as [c2|] eqn:Hb; [|done]. injection Ha as <- <- <-.
      destruct (leader_of _ _ _ _ _ H Hb) as (ph2 & Hin).
      pose proof (owner_unique _ _ _ c2 _ _ H (fo_fresh _ _ _ H _ _ Hb) Hl Hin) as Heq. cbn in Heq.
      rewrite bool_decide_true in Heq by done. by injection (Heq eq_refl eq_refl).
    + repeat case_match; simplify_eq.
    + apply advance_lead in Ha as [[? ?]|[? ?]]; done.
  - subst t'. destruct t as [b|b c1|q1 c1 ph1|]; cbn [advance] in Ha; [| | |done].
    + destruct (fills f !! b) as [c2|] eqn:Hb; [done|]. injection Ha as <- <- <- <-.
      specialize (Hok _ Hw). cbn in Hok. lia.
    + repeat case_match; simplify_eq.
    + apply (advance_lead cfg ch f) in Ha as [[ph' [= -> -> <-]]|[? ?]]; [|done]. by eapply Hm.
  - by eapply Hm.
Qed.

Lemma matched_reachable cfg f ts :
  rtc (fstep cfg) (idleFlight, []) (f, ts) -> matched ts.
Proof.
  intros H. assert (Hg : forall s s', rtc (fstep cfg) s s' -> flight_ok cfg s.1 s.2 -> matched s.2 -> matched s'.2).
  { clear. induction 1 as [|[f1 t1] [f2 t2] z Hs _ IH]; [done|]. cbn in *. intros Hok Hm. apply IH.
    - inversion Hs as [f0 f' l t t' k ch Ha E1 E2|f0 ts0 q E1 E2]; simplify_eq.
      + eapply flight_ok_balanced; [exact Hok|]. by eapply advance_balanced.
      + destruct Hok. constructor; try done; try (intros; rewrite count_cons; cbn; auto). by constructor.
    - by eapply matched_step. }
  apply (Hg _ _ H); cbn; [by apply (flight_reachable cfg idleFlight []), rtc_refl|].
  intros k c q ph Hw. by apply not_elem_of_nil in Hw.
Qed.

(** The steps a fetching request still takes. *)
Definition rank (ph : Phase) : nat :=
  match ph with
  | PAcquire => 7 | PAcquireObject _ => 6 | PFetch _ _ => 5 | PReleaseObject _ _ _ => 4
  | PReleaseGlobal _ _ => 3 | PGiveBack _ => 3 | PDelete _ => 2 | PClose _ => 1
  end.

Lemma lead_progress cfg f q c ph err :
  exists f' t', advance cfg (Fetched err) f (Lead q c ph) = Some (f', t') /\
    ((exists ph', t' = Lead q c ph' /\ (rank ph' < rank ph)%nat) \/
     (exists e, t' = Ended e /\ closed f' !! c = Some e)).
Proof.
  destruct ph; cbn [advance]; try (do 2 eexists; split; [done|]; left; eexists; split; [done|cbn; lia]).
  - destruct (negb (peered cfg)); [|destruct (tryAcquireSemaphore _ _) as [[n h]|]];
      do 2 eexists; (split; [done|]); left; eexists; (split; [done|cbn; lia]).
  - destruct (tryAcquireObjectFill _ _ _) as [[o|] f1];
      do 2 eexists; (split; [done|]); left; eexists; (split; [done|cbn; lia]).
  - do 2 eexists. split; [done|]. right. eexists. split; [done|]. cbn. apply lookup_insert_eq.
Qed.

(** ** Properties *)

(** C12: Fetches are exclusive and bounded. In every interleaving of any number of
    requests, whatever fetches fail and whatever clients go away: at most one request
    fetches a given page version at a time; a node with peers runs at most as many
    fetches at once as its semaphore has tokens, and at most its limit on one object;
    and no token is lost, the tokens out being those of the requests that hold them. *)
Theorem fetch_exclusive (cfg : FillConfig) (f : Flight) (ts : list Goroutine)
    (Hreach : rtc (fstep cfg) (idleFlight, []) (f, ts)) :
  (forall k, (count (fetches k) ts <= 1)%nat) /\
  (forall cap, peered cfg = true -> fillCap cfg = Some cap -> (count fetching ts <= cap)%nat) /\
  (forall o, peered cfg = true -> 0 < objectFillLimit cfg ->
     Z.of_nat (count (fetchesObject o) ts) <= objectFillLimit cfg) /\
  count holdsGlobal ts = global f /\ (forall o, count (holdsObject o) ts = default 0%nat (sems f !! o)).
Proof.
  pose proof (flight_reachable cfg f ts Hreach) as H. pose proof (fo_threads _ _ _ H) as Hts.
  assert (Hmono : forall p q, (forall t, goroutine_ok cfg f t -> p t = true -> q t = true) ->
    (count p ts <= count q ts)%nat).
  { intros p q Hpq. clear H Hreach. induction Hts as [|t ts Ht _ IH]; [done|]. rewrite !count_cons.
    specialize (Hpq t Ht). destruct (p t); [rewrite Hpq by done|]; unfold b2n; [lia|]. destruct (q t); lia. }
  split_and!.
  - intros k. etransitivity; [apply (count_mono _ (leads k)); intros t; unfold fetches; by intros [_ ?]%andb_true_iff|].
    rewrite (fo_leads _ _ _ H k). unfold b2n. case_match; lia.
  - intros cap Hp Hcap. etransitivity; [apply (Hmono _ holdsGlobal)|].
    + intros t Hok Ht. destruct t as [| |q c ph|]; try done. destruct ph; try done.
      destruct Hok as (_ & _ & -> & _). by rewrite Hp, Hcap.
    + rewrite (fo_global _ _ _ H). by apply (fo_cap _ _ _ H).
  - intros o Hp Hlim. assert (Hle : (count (fetchesObject o) ts <= count (holdsObject o) ts)%nat).
    { apply Hmono. intros t Hok Ht. destruct t as [| |q c ph|]; try done. destruct ph; try done.
      destruct Hok as (_ & _ & _ & ->). cbn in *. rewrite Hp, Ht. by rewrite (proj2 (Z.ltb_lt _ _)). }
    rewrite (fo_sems _ _ _ H o) in Hle. destruct (sems f !! o) as [n|] eqn:E; cbn in Hle; [|lia].
    pose proof (fo_limit _ _ _ H o n E). lia.
  - apply (fo_global _ _ _ H).
  - apply (fo_sems _ _ _ H).
Qed.

(** C13: A request that waits is woken. In every interleaving, a request that waits
    for a call finds it closed, and then ends with the call's error or opens the page;
    or exactly one request owns the call, fetches the very page version waited for,
    and is never blocked: whatever the others do to the shared state, it can take its
    next step as soon as its fetch has ended, at most seven of them, the last of which
    closes the call. *)
Theorem waiter_is_woken (cfg : FillConfig) (f : Flight) (ts : list Goroutine) (k : pageFillKey) (c : nat)
    (Hreach : rtc (fstep cfg) (idleFlight, []) (f, ts)) (Hwait : Wait k c ∈ ts) :
  match closed f !! c with
  | Some err => forall r, exists t', advance cfg (Opened r) f (Wait k c) = Some (f, t') /\
      (forall e, err = Some e -> t' = Ended (Some e))
  | None => exists ph, Lead k c ph ∈ ts /\ count (owns c) ts = 1%nat /\ (rank ph <= 7)%nat
  end /\
  (forall f1 q ph err, exists f2 t', advance cfg (Fetched err) f1 (Lead q c ph) = Some (f2, t') /\
     ((exists ph', t' = Lead q c ph' /\ (rank ph' < rank ph)%nat) \/
      (exists e, t' = Ended e /\ closed f2 !! c = Some e))).
Proof.
  split; [|intros; apply lead_progress].
  pose proof (flight_reachable cfg f ts Hreach) as H.
  pose proof (proj1 (Forall_forall _ _) (fo_threads _ _ _ H) _ Hwait) as Hc. cbn in Hc.
  pose proof (fo_owns _ _ _ H c Hc) as Hone. destruct (closed f !! c) as [err|] eqn:Ecl.
  - intros r. cbn [advance]. rewrite Ecl.
    destruct r as [[]|e0], err as [e|]; eexists; (split; [done|]); by intros ? [= <-].
  - rewrite bool_decide_false in Hone by by intros []. cbn in Hone.
    destruct (count_pos (owns c) ts ltac:(lia)) as (t & Hin & Ho). destruct t as [| |q c' ph|]; try done.
    apply bool_decide_eq_true in Ho as ->.
    rewrite (matched_reachable cfg f ts Hreach k c q ph Hwait Hin) in Hin.
    exists ph. split_and!; [done|lia|destruct ph; cbn; lia].
Qed.

(** ** Witnesses

    A schedule names the goroutine that moves and what the environment decides. *)

Fixpoint runs (cfg : FillConfig) (sched : list (nat * Choice)) (s : Flight * list Goroutine)
    : option (Flight * list Goroutine) :=
  match sched with
  | [] => Some s
  | (i, ch) :: sched =>
      t ← s.2 !! i;
      r ← advance cfg ch s.1 t;
      runs cfg sched (r.1, <[i := r.2]> s.2)
  end.

Lemma runs_steps cfg sched s s' : runs cfg sched s = Some s' -> rtc (fstep cfg) s s'.
Proof.
  revert s. induction sched as [|[i ch] sched IH]; intros [f ts] H; cbn in H; [by injection H as <-|].
  apply bind_Some in H as (t & Ht & H). apply bind_Some in H as ([f1 t1] & Ha & H). cbn in *.
  eapply rtc_l; [|by apply IH]. rewrite <- (take_drop_middle ts i t Ht) at 1.
  rewrite insert_take_drop by by eapply lookup_lt_Some. by eapply F_move.
Qed.

(** Two requests for the same page and one for another page of the object, on a node
    that allows one fetch of an object at a time. *)
Definition demoKey (i : Z) : pageFillKey := mkFillKey "id" i "e1" 0.
Definition demoFill : FillConfig := mkFillConfig true (Some 2%nat) 1.
Definition demoStart : Flight * list Goroutine := (idleFlight, [Begin (demoKey 0); Begin (demoKey 0); Begin (demoKey 1)]).
Definition demoSchedule : list (nat * Choice) :=
  [(0%nat, Cancel); (0%nat, Cancel); (1%nat, Cancel); (0%nat, Cancel); (2%nat, Cancel); (2%nat, Cancel); (2%nat, Cancel)].
Definition demoFlight : Flight * list Goroutine := default demoStart (runs demoFill demoSchedule demoStart).

Lemma demoFlight_reachable : rtc (fstep demoFill) (idleFlight, []) demoFlight.
Proof.
  transitivity demoStart.
  - do 3 (eapply rtc_l; [apply F_arrive|]). apply rtc_refl.
  - apply (runs_steps _ demoSchedule). vm_compute. reflexivity.
Qed.

Lemma fetch_exclusive_witness :
  demoFlight.2 = [Lead (demoKey 0) 0 (PFetch true true); Wait (demoKey 0) 0; Lead (demoKey 1) 1 (PGiveBack true)] /\
  (count (fetches (demoKey 0)) demoFlight.2 <= 1)%nat /\ count holdsGlobal demoFlight.2 = global demoFlight.1.
Proof.
  pose proof demoFlight_reachable as H. destruct demoFlight as [f ts] eqn:E.
  destruct (fetch_exclusive demoFill f ts H) as (H1 & _ & _ & H2 & _). split; [|by split].
  change ts with (f, ts).2. rewrite <- E. vm_compute. reflexivity.
Defined.

Lemma waiter_is_woken_witness :
  exists ph, Lead (demoKey 0) 0 ph ∈ demoFlight.2 /\ count (owns 0) demoFlight.2 = 1%nat.
Proof.
  pose proof demoFlight_reachable as H.
  assert (Hw : Wait (demoKey 0) 0 ∈ demoFlight.2) by (vm_compute; right; left).
  assert (Hc : closed demoFlight.1 !! 0%nat = None) by (vm_compute; reflexivity).
  destruct demoFlight as [f ts]. destruct (waiter_is_woken demoFill f ts (demoKey 0) 0 H Hw) as [Hx _].
  cbn [fst snd] in *. rewrite Hc in Hx. destruct Hx as (ph & Hin & Hone & _). exists ph. by split.
Defined.
