(* ===== verification/ProxyUpload.v ===== *)
(** * Upload bodies ([internal/proxy/proxy.go])

    An S3 client may send an upload in the aws-chunked encoding: chunks with a
    hexadecimal size line, an optional signature after a semicolon, and trailer
    lines at the end. [decodeAWSChunkedBody] decodes a body into a spool file,
    [awsChunkedDecodeReader] decodes it while it is read. Both deliver exactly the
    payload of every well-formed body, whatever the pieces it arrives in. *)

From Stdlib Require Import Ascii.
From S2P Require Import Prelude GoStrings GoNet Sha256 Range PageFrame.
Import Strings.

#[local] Open Scope go_scope.

(** ** [bufio.Reader]

    A buffered reader is a reader of the same content; [ReadString] takes a line
    off its front, however the line is cut. *)

Definition newline : byte := x0a.

(** The first line with its newline, and the rest. *)
Fixpoint splitLine (l : bytes) : option (bytes * bytes) :=
  match l with
  | [] => None
  | b :: l =>
      if bool_decide (b = newline) then Some ([b], l)
      else '(line, rest) ← splitLine l; Some (b :: line, rest)
  end.

Fixpoint dropChunks (k : nat) (cs : list bytes) : list bytes :=
  match cs with
  | [] => []
  | c :: cs => if (length c <=? k)%nat then dropChunks (k - length c) cs else drop k c :: cs
  end.

(** [reader.ReadString('\n')] *)
Definition ReadString (r : Io.Reader) : bytes * option Io.error * Io.Reader :=
  match splitLine (Io.content r) with
  | Some (line, _) => (line, None, Io.with_chunks r (dropChunks (length line) (Io.chunks r)))
  | None => (Io.content r, Some (Io.fin r), Io.with_chunks r [])
  end.

Definition string_of_bytes (l : bytes) : string := String.string_of_list_byte l.

Definition nl : string := String (chr 10) "".
Definition cr : string := String (chr 13) "".

(** ** Decoding *)

Inductive ChunkError := ChunkIo (e : Io.error) | BadChunkSize | BadTerminator | SlicePanic | ChunkFuel.

#[export] Instance ChunkError_eq_dec : EqDecision ChunkError.
Proof. solve_decision. Defined.

(** The size in a size line: the text before the semicolon, in hexadecimal. *)
Definition chunkSize (line : bytes) : option Z :=
  let line := TrimSuffix (TrimSuffix (string_of_bytes line) nl) cr in
  let '(sizeText, _, _) := Cut line ";"%char in
  ParseInt sizeText 16.

Definition readCRLF (r : Io.Reader) : option ChunkError * Io.Reader :=
  let '(line, err, r') := ReadString r in
  match err with
  | Some e => (Some (ChunkIo e), r')
  | None => if negb (bool_decide (string_of_bytes line = cr +:+ nl))
            then (Some BadTerminator, r') else (None, r')
  end.

Fixpoint discardTrailers (fuel : nat) (r : Io.Reader) : option ChunkError * Io.Reader :=
  match fuel with
  | O => (Some ChunkFuel, r)
  | S fuel =>
      let '(line, err, r') := ReadString r in
      match err with
      | Some e => (Some (ChunkIo e), r')
      | None =>
          if bool_decide (string_of_bytes line = cr +:+ nl) || bool_decide (string_of_bytes line = nl)
          then (None, r') else discardTrailers fuel r'
      end
  end.

(** Every line has a byte, so there are no more lines than bytes. *)
Definition discardAWSChunkedTrailers (r : Io.Reader) : option ChunkError * Io.Reader :=
  discardTrailers (S (length (Io.content r))) r.

(** A negative size makes [io.CopyN] copy nothing. *)
Fixpoint decodeLoop `{Io.IoWriter W} (fuel : nat) (buf : nat -> nat) (dst : W) (r : Io.Reader) (written : Z)
    : Z * option ChunkError * Io.Reader * W :=
  match fuel with
  | O => (written, Some ChunkFuel, r, dst)
  | S fuel =>
      let '(line, err, r) := ReadString r in
      match err with
      | Some e => (written, Some (ChunkIo e), r, dst)
      | None =>
          match chunkSize line with
          | None => (written, Some BadChunkSize, r, dst)
          | Some size =>
              if size =? 0 then
                let '(err, r) := discardAWSChunkedTrailers r in (written, err, r, dst)
              else
                let '(n, err, r, dst) := Io.CopyN buf (Z.to_nat size) r dst in
                let written := written +! Z.of_nat n in
                match err with
                | Some e => (written, Some (ChunkIo e), r, dst)
                | None =>
                    let '(err, r) := readCRLF r in
                    match err with
                    | Some e => (written, Some e, r, dst)
                    | None => decodeLoop fuel buf dst r written
                    end
                end
          end
      end
  end.

Definition decodeAWSChunkedBody `{Io.IoWriter W} (buf : nat -> nat) (dst : W) (src : Io.Reader)
    : Z * option ChunkError * Io.Reader * W :=
  decodeLoop (S (length (Io.content src))) buf dst src 0.

(** ** Decoding while reading *)

Record awsChunkedDecodeReader := mkDecodeReader {
  adr_reader : Io.Reader; adr_remaining : Z; adr_done : bool; adr_pendingErr : option ChunkError }.

Definition newAWSChunkedDecodeReader (src : Io.Reader) : awsChunkedDecodeReader :=
  mkDecodeReader src 0 false None.

Definition nextChunk (d : awsChunkedDecodeReader) : option ChunkError * awsChunkedDecodeReader :=
  let '(line, err, r) := ReadString (adr_reader d) in
  let d := mkDecodeReader r (adr_remaining d) (adr_done d) (adr_pendingErr d) in
  match err with
  | Some e => (Some (ChunkIo e), d)
  | None =>
      match chunkSize line with
      | None => (Some BadChunkSize, d)
      | Some size =>
          if size =? 0 then
            let '(err, r) := discardAWSChunkedTrailers r in
            match err with
            | Some e => (Some e, mkDecodeReader r (adr_remaining d) (adr_done d) (adr_pendingErr d))
            | None => (None, mkDecodeReader r (adr_remaining d) true (adr_pendingErr d))
            end
          else (None, mkDecodeReader r size (adr_done d) (adr_pendingErr d))
      end
  end.

(** The part of [Read] after the next chunk was found; [p[:want]] panics when
    [want] is negative. *)
Definition readChunk (k : nat) (d : awsChunkedDecodeReader)
    : bytes * option ChunkError * awsChunkedDecodeReader :=
  let want := minInt64 (Z.of_nat k) (adr_remaining d) in
  if want <? 0 then ([], Some SlicePanic, d)
  else
    let '(got, err, r) := Io.ReadFull (Z.to_nat want) (adr_reader d) in
    let remaining := adr_remaining d -! zlen got in
    let d := mkDecodeReader r remaining (adr_done d) (adr_pendingErr d) in
    match err with
    | Some e => (got, Some (ChunkIo e), d)
    | None =>
        if remaining =? 0 then
          let '(err, r) := readCRLF r in
          match err with
          | Some e =>
              if (0 <? length got)%nat
              then (got, None, mkDecodeReader r remaining (adr_done d) (Some e))
              else ([], Some e, mkDecodeReader r remaining (adr_done d) (adr_pendingErr d))
          | None => (got, None, mkDecodeReader r remaining (adr_done d) (adr_pendingErr d))
          end
        else (got, None, d)
    end.

(** [r.Read(p)] with [len(p) = k] *)
Definition decodeRead (k : nat) (d : awsChunkedDecodeReader)
    : bytes * option ChunkError * awsChunkedDecodeReader :=
  if (k =? 0)%nat then ([], None, d)
  else match adr_pendingErr d with
  | Some e => ([], Some e, mkDecodeReader (adr_reader d) (adr_remaining d) (adr_done d) None)
  | None =>
      if adr_done d then ([], Some (ChunkIo Io.EOF), d)
      else
        let '(err, d) := if adr_remaining d =? 0 then nextChunk d else (None, d) in
        match err with
        | Some e => ([], Some e, d)
        | None => if adr_done d then ([], Some (ChunkIo Io.EOF), d) else readChunk k d
        end
  end.

(** Reading to the end into buffers of sizes [S (buf i)]: the content, and [None]
    when it ended with [EOF]. *)
Fixpoint decodeReadAll (fuel : nat) (buf : nat -> nat) (d : awsChunkedDecodeReader) (acc : bytes)
    : bytes * option ChunkError :=
  match fuel with
  | O => (acc, Some ChunkFuel)
  | S fuel =>
      let '(got, err, d) := decodeRead (S (buf fuel)) d in
      match err with
      | Some (ChunkIo Io.EOF) => (acc ++ got, None)
      | Some e => (acc ++ got, Some e)
      | None => decodeReadAll fuel buf d (acc ++ got)
      end
  end.

(** ** The spool limit *)

Record limitedSpoolWriter := mkLimited { ls_dst : Io.Writer; ls_limit : Z; ls_written : Z }.

Definition errSpoolLimit : Io.error := Io.Sentinel "upload body exceeds max spool size".

Definition limitedWrite (p : bytes) (w : limitedSpoolWriter)
    : nat * option Io.error * limitedSpoolWriter :=
  if zlen p >? ls_limit w -! ls_written w then
    let allowed := ls_limit w -! ls_written w in
    if allowed >? 0 then
      let '(n, err, dst) := Io.Write (take (Z.to_nat allowed) p) (ls_dst w) in
      let w := mkLimited dst (ls_limit w) (ls_written w +! Z.of_nat n) in
      match err with Some e => (n, Some e, w) | None => (n, Some errSpoolLimit, w) end
    else (0%nat, Some errSpoolLimit, w)
  else
    let '(n, err, dst) := Io.Write p (ls_dst w) in
    (n, err, mkLimited dst (ls_limit w) (ls_written w +! Z.of_nat n)).

#[export] Instance limitedSpoolWriter_IoWriter : Io.IoWriter limitedSpoolWriter := limitedWrite.

(** ** Request bodies *)

Record uploadOptions := mkUploadOptions { spoolPath : string; maxSpoolSize : Z }.

(** The parts of a client's [http.Request] that forwarding reads; no body stands
    for [nil] and [http.NoBody]. *)
Record HttpRequest := mkHttpRequest {
  hr_Method : string; hr_Path : string; hr_RawQuery : string; hr_Header : Http.Header;
  hr_Body : option Io.Reader; hr_ContentLength : Z }.

Definition isAWSChunked (header : Http.Header) : bool :=
  existsb (fun value => existsb (fun part => EqualFold (TrimSpace part) "aws-chunked") (Split value ","%char))
    (Http.Values header "Content-Encoding").

(** The other encodings, in order. *)
Definition otherEncodings (header : Http.Header) : list string :=
  filter (fun part => negb (bool_decide (part = "")) && negb (EqualFold part "aws-chunked"))
    (TrimSpace <$> mjoin ((fun value => Split value ","%char) <$> Http.Values header "Content-Encoding")).

Definition removeAWSChunkedHeaders (header : Http.Header) : Http.Header :=
  let encodings := otherEncodings header in
  let header := Http.Del header "Content-Encoding" in
  let header := if bool_decide (encodings = []) then header
                else Http.Set_ header "Content-Encoding" (Join encodings ", ") in
  Http.Del (Http.Del header "X-Amz-Decoded-Content-Length") "X-Amz-Trailer".

Definition decodedContentLength (header : Http.Header) : option Z :=
  let value := TrimSpace (Http.Get header "X-Amz-Decoded-Content-Length") in
  if bool_decide (value = "") then None
  else match ParseInt value 10 with
       | Some length => if length <? 0 then None else Some length
       | None => None
       end.

(** The body of an upstream request: a spooled one reads a section of a file. *)
Inductive Body :=
| NoBody
| ClientBody (r : Io.Reader)
| DecodingBody (d : awsChunkedDecodeReader)
| SpooledBody (name : string) (size : Z).

(** What [forwardBody] returns; [fb_getBody] makes the body again. *)
Record ForwardBody := mkForwardBody {
  fb_body : Body; fb_length : Z; fb_getBody : option Body; fb_cleanup : option string; fb_decoded : bool }.

(** What the file system answers while a body is spooled: the errors of [MkdirAll],
    [CreateTemp] (or the name it chose) and [Seek], the outcomes of the writes, and
    whether [Remove] succeeds. *)
Record SpoolEnv := mkSpoolEnv {
  se_mkdir : option Io.error; se_temp : result Io.error string;
  se_plan : list Io.outcome; se_seek : option Io.error; se_remove : bool }.

Definition Spool : Type := gmap string bytes.

(** The function [cleanup]. *)
Definition cleanup (ev : SpoolEnv) (name : string) (fs : Spool) : Spool :=
  if se_remove ev then delete name fs else fs.

Definition CopyBody : Type :=
  limitedSpoolWriter -> Io.Reader -> Z * option ChunkError * Io.Reader * limitedSpoolWriter.

Definition spoolForwardBody (ev : SpoolEnv) (src : Io.Reader) (copyBody : CopyBody)
    (decodedAWSChunked : bool) (opts : uploadOptions) (fs : Spool) : result ChunkError ForwardBody * Spool :=
  if maxSpoolSize opts <=? 0 then (Err (ChunkIo errSpoolLimit), fs)
  else match (if bool_decide (spoolPath opts = "") then None else se_mkdir ev) with
  | Some e => (Err (ChunkIo e), fs)
  | None =>
      match se_temp ev with
      | Err e => (Err (ChunkIo e), fs)
      | Ok name =>
          let limited := mkLimited (Io.mkWriter [] (se_plan ev)) (maxSpoolSize opts) 0 in
          let '(size, err, _, limited) := copyBody limited src in
          let fs := <[name := Io.out (ls_dst limited)]> fs in
          match err with
          | Some e => (Err e, cleanup ev name fs)
          | None =>
              match se_seek ev with
              | Some e => (Err (ChunkIo e), cleanup ev name fs)
              | None =>
                  let body := SpooledBody name size in
                  (Ok (mkForwardBody body size (Some body) (Some name) decodedAWSChunked), fs)
              end
          end
      end
  end.

(** [io.Copy] as a [copyBody]. *)
Definition copyAll (buf : nat -> nat) : CopyBody := fun dst src =>
  let '(n, err, src, dst) := Io.Copy buf src dst in (Z.of_nat n, ChunkIo <$> err, src, dst).

Definition forwardBody (buf : nat -> nat) (ev : SpoolEnv) (r : HttpRequest) (opts : uploadOptions) (fs : Spool)
    : result ChunkError ForwardBody * Spool :=
  match hr_Body r with
  | None => (Ok (mkForwardBody NoBody 0 None None false), fs)
  | Some body =>
      if isAWSChunked (hr_Header r) then
        match decodedContentLength (hr_Header r) with
        | Some decodedLength =>
            (Ok (mkForwardBody (DecodingBody (newAWSChunkedDecodeReader body)) decodedLength None None true), fs)
        | None => spoolForwardBody ev body (decodeAWSChunkedBody buf) true opts fs
        end
      else if 0 <=? hr_ContentLength r then
        (Ok (mkForwardBody (ClientBody body) (hr_ContentLength r) None None false), fs)
      else spoolForwardBody ev body (copyAll buf) false opts fs
  end.

(** What the HTTP client reads from a body into buffers of sizes [S (buf i)], and
    the error it ends with; [None] is [EOF]. *)
Definition bodyContent (fuel : nat) (buf : nat -> nat) (fs : Spool) (b : Body) : bytes * option ChunkError :=
  match b with
  | NoBody => ([], None)
  | ClientBody r => (Io.content r, if bool_decide (Io.fin r = Io.EOF) then None else Some (ChunkIo (Io.fin r)))
  | DecodingBody d => decodeReadAll fuel buf d []
  | SpooledBody name size => (take (Z.to_nat size) (default [] (fs !! name)), None)
  end.

(** ** Well-formed bodies *)

Definition crlf : string := cr +:+ nl.

(** A chunk: the text of its size, an extension that is empty or starts with a
    semicolon, and its data. *)
Record chunk := mkChunk { c_size : string; c_ext : string; c_data : bytes }.

(** A size line for [n] bytes. *)
Definition size_ok (text ext : string) (n : Z) : Prop :=
  ParseInt text 16 = Some n /\ ContainsByte text ";" = false /\
  ContainsByte (text +:+ ext) (chr 10) = false /\
  (ext = "" \/ exists e, ext = String ";" e).

Definition chunk_ok (c : chunk) : Prop :=
  size_ok (c_size c) (c_ext c) (zlen (c_data c)) /\ c_data c <> [].

Definition trailer_ok (t : string) : Prop :=
  ContainsByte t (chr 10) = false /\ t <> "" /\ t <> cr.

Definition sizeLine (text ext : string) : bytes := bytes_of_string (text +:+ ext +:+ crlf).

Definition encodeChunk (c : chunk) : bytes :=
  sizeLine (c_size c) (c_ext c) ++ c_data c ++ bytes_of_string crlf.

Definition encodeTrailers (ts : list string) : bytes :=
  concat ((fun t => bytes_of_string (t +:+ nl)) <$> ts) ++ bytes_of_string crlf.

Definition encodeBody (cs : list chunk) (last lastExt : string) (ts : list string) : bytes :=
  concat (encodeChunk <$> cs) ++ sizeLine last lastExt ++ encodeTrailers ts.

Definition payload (cs : list chunk) : bytes := concat (c_data <$> cs).

(** ** Facts *)

Lemma splitLine_app l rest :
  newline ∉ l -> splitLine (l ++ newline :: rest) = Some (l ++ [newline], rest).
Proof.
  induction l as [|b l IH]; cbn [splitLine app]; intros H.
  - by rewrite bool_decide_true.
  - rewrite bool_decide_false by set_solver. rewrite IH by set_solver. done.
Qed.

Lemma dropChunks_content k cs : concat (dropChunks k cs) = drop k (concat cs).
Proof.
  revert k. induction cs as [|c cs IH]; intros k; cbn; [by rewrite drop_nil|].
  rewrite drop_app. destruct (Nat.leb_spec (length c) k).
  - rewrite IH, (drop_ge c) by lia. done.
  - cbn. replace (k - length c)%nat with 0%nat by lia. done.
Qed.

Lemma bytes_of_string_app a b : bytes_of_string (a +:+ b) = bytes_of_string a ++ bytes_of_string b.
Proof.
  unfold bytes_of_string, String.list_byte_of_string. induction a as [|c a IH]; [done|].
  rewrite append_cons. cbn. by rewrite IH.
Qed.

Lemma string_of_bytes_of_string s : string_of_bytes (bytes_of_string s) = s.
Proof. apply String.string_of_list_byte_of_string. Qed.

Lemma no_newline s : ContainsByte s (chr 10) = false -> newline ∉ bytes_of_string s.
Proof.
  unfold bytes_of_string, String.list_byte_of_string.
  induction s as [|c s IH]; cbn [ContainsByte String.list_ascii_of_string List.map]; [set_solver|].
  intros [Hc Hs]%orb_false_iff. rewrite not_elem_of_cons. split; [|auto].
  intros Heq. apply Ascii.eqb_neq in Hc. apply Hc.
  rewrite <- (ascii_of_byte_of_ascii c), <- Heq. reflexivity.
Qed.

(** A line is read off the front. *)
Lemma ReadString_line r t rest :
  Io.content r = bytes_of_string (t +:+ nl) ++ rest -> ContainsByte t (chr 10) = false ->
  exists r', ReadString r = (bytes_of_string (t +:+ nl), None, r') /\ Io.content r' = rest.
Proof.
  intros Hc Ht. unfold ReadString. rewrite Hc.
  assert (Hline : bytes_of_string (t +:+ nl) = bytes_of_string t ++ [newline])
    by (by rewrite bytes_of_string_app).
  rewrite Hline, <- app_assoc. cbn [app]. rewrite splitLine_app by (by apply no_newline).
  eexists. split; [reflexivity|]. unfold Io.content, Io.with_chunks. cbn [Io.chunks].
  rewrite dropChunks_content. fold (Io.content r). rewrite Hc, Hline. by rewrite drop_app_length.
Qed.

Lemma stake_append a b : stake (String.length (a +:+ b) - String.length b) (a +:+ b) = a.
Proof.
  rewrite length_append, Nat.add_sub. induction a as [|c a IH].
  - by destruct b.
  - rewrite append_cons. cbn. by rewrite IH.
Qed.

Lemma TrimSuffix_append a b : TrimSuffix (a +:+ b) b = a.
Proof.
  unfold TrimSuffix, HasSuffix. rewrite srev_append, HasPrefix_append. apply stake_append.
Qed.

Lemma chunkSize_line text ext n : size_ok text ext n -> chunkSize (sizeLine text ext) = Some n.
Proof.
  intros (Hn & Hsemi & _ & Hext). unfold chunkSize, sizeLine, crlf.
  rewrite string_of_bytes_of_string.
  replace (text +:+ ext +:+ cr +:+ nl) with (((text +:+ ext) +:+ cr) +:+ nl)
    by (by rewrite !append_assoc).
  rewrite !TrimSuffix_append. destruct Hext as [->|[e ->]].
  - rewrite append_nil_r, Cut_absent by done. done.
  - rewrite Cut_append by done. done.
Qed.

Lemma sizeLine_read r text ext n rest :
  size_ok text ext n -> Io.content r = sizeLine text ext ++ rest ->
  exists r', ReadString r = (sizeLine text ext, None, r') /\ Io.content r' = rest.
Proof.
  intros (_ & _ & Hnl & _) Hc.
  assert (Heq : sizeLine text ext = bytes_of_string ((text +:+ ext +:+ cr) +:+ nl))
    by (unfold sizeLine, crlf; by rewrite !append_assoc).
  rewrite Heq in *. apply ReadString_line; [done|].
  rewrite <- append_assoc, ContainsByte_append, Hnl. reflexivity.
Qed.

Lemma readCRLF_ok r rest :
  Io.content r = bytes_of_string crlf ++ rest ->
  exists r', readCRLF r = (None, r') /\ Io.content r' = rest.
Proof.
  intros Hc. destruct (ReadString_line r cr rest Hc eq_refl) as (r' & Hr & Hc').
  unfold readCRLF. rewrite Hr, string_of_bytes_of_string, bool_decide_true by done. eauto.
Qed.

Lemma discardTrailers_ok ts fuel r rest :
  Forall trailer_ok ts -> (length ts < fuel)%nat -> Io.content r = encodeTrailers ts ++ rest ->
  exists r', discardTrailers fuel r = (None, r') /\ Io.content r' = rest.
Proof.
  unfold encodeTrailers. revert ts r. induction fuel as [|fuel IH]; intros ts r Hts Hf Hc; [lia|].
  cbn [discardTrailers]. destruct ts as [|t ts]; cbn in Hc.
  - destruct (ReadString_line r cr rest Hc eq_refl) as (r' & -> & Hc').
    rewrite string_of_bytes_of_string, bool_decide_true by done. eauto.
  - apply Forall_cons in Hts as [(Ht & Hne & Hcr) Hts]. rewrite <- !app_assoc in Hc.
    destruct (ReadString_line r t _ Hc Ht) as (r' & -> & Hc'). rewrite string_of_bytes_of_string.
    assert (Hinj : forall x, t <> x -> t +:+ nl <> x +:+ nl).
    { intros x Hx Heq. apply Hx. rewrite <- (TrimSuffix_append t nl), Heq. apply TrimSuffix_append. }
    rewrite bool_decide_false by (by apply Hinj). rewrite bool_decide_false by (by apply (Hinj "")).
    cbn [orb]. apply (IH ts); [done|cbn in Hf; lia|]. by rewrite <- app_assoc.
Qed.

Lemma length_encodeTrailers ts : (length ts <= length (encodeTrailers ts))%nat.
Proof.
  unfold encodeTrailers. rewrite length_app. induction ts as [|t ts IH]; [cbn; lia|].
  cbn [fmap list_fmap concat length]. rewrite bytes_of_string_app, !length_app.
  change (length (bytes_of_string nl)) with 1%nat. lia.
Qed.

Lemma discardAWSChunkedTrailers_ok ts r :
  Forall trailer_ok ts -> Io.content r = encodeTrailers ts ->
  exists r', discardAWSChunkedTrailers r = (None, r') /\ Io.content r' = [].
Proof.
  intros Hts Hc. unfold discardAWSChunkedTrailers. apply (discardTrailers_ok ts); [done| |by rewrite app_nil_r].
  rewrite Hc. pose proof (length_encodeTrailers ts). lia.
Qed.

(** ** Facts about the spool limit *)

(** Room for exactly [m] more bytes on a file that takes every write. *)
Definition space (w : limitedSpoolWriter) (m : nat) : Prop :=
  Io.plan (ls_dst w) = [] /\ 0 <= ls_written w /\
  ls_limit w = ls_written w + Z.of_nat m /\ ls_limit w <= int64_max.

Lemma space_left w m : space w m -> ls_limit w -! ls_written w = Z.of_nat m.
Proof.
  intros (_ & ? & Heq & ?). unfold sub64. rewrite wrap64_id; [lia|]. int64_unfold. lia.
Qed.

(** After [k] of [m] bytes. *)
Lemma space_write w m k :
  space w m -> (k <= m)%nat ->
  forall o, space (mkLimited (Io.mkWriter o []) (ls_limit w) (ls_written w +! Z.of_nat k)) (m - k).
Proof.
  intros (_ & ? & Heq & ?) Hk o. unfold space. cbn [ls_dst ls_limit ls_written Io.plan].
  rewrite add64_id by (int64_unfold; lia). split_and!; [done|lia..].
Qed.

#[export] Program Instance limited_room : Io.RoomyWriter limitedSpoolWriter := {|
  Io.has_out w := Io.out (ls_dst w); Io.room := space |}.
Next Obligation.
  intros w n data Hsp Hle _. unfold Io.write, limitedSpoolWriter_IoWriter, limitedWrite.
  rewrite (space_left w n Hsp). rewrite gtb_false by (unfold zlen; lia).
  rewrite Io.Write_good by apply Hsp. eexists. split; [reflexivity|]. split; [done|]. by apply space_write.
Qed.

Lemma limitedWrite_over data w m :
  space w m -> (m < length data)%nat ->
  exists w', limitedWrite data w = (m, Some errSpoolLimit, w') /\
    Io.out (ls_dst w') = Io.out (ls_dst w) ++ take m data /\ space w' 0.
Proof.
  intros Hsp Hlt. unfold limitedWrite. rewrite (space_left w m Hsp), gtb_true by (unfold zlen; lia).
  destruct m as [|m].
  - exists w. rewrite take_0, app_nil_r. done.
  - rewrite gtb_true by lia. rewrite Io.Write_good by apply Hsp. rewrite Nat2Z.id, length_take_le by lia.
    eexists. split; [reflexivity|]. split; [done|].
    pose proof (space_write w (S m) (S m) Hsp ltac:(lia)) as Hs. rewrite Nat.sub_diag in Hs. apply Hs.
Qed.

(** Copying more than there is room for fills the room and fails. *)
Lemma copyLoop_over fuel buf n m written src (w : limitedSpoolWriter) :
  space w m -> (m < n)%nat -> (m < length (Io.content src))%nat -> (Io.reads src <= fuel)%nat ->
  exists src' w', Io.copyLoop fuel buf n written src w = ((written + m)%nat, Some errSpoolLimit, src', w') /\
    Io.out (ls_dst w') = Io.out (ls_dst w) ++ take m (Io.content src).
Proof.
  revert n m written src w. induction fuel as [|fuel IH]; intros n m written src w Hp Hn Hm Hf.
  { unfold Io.reads in Hf. lia. }
  destruct n as [|n]; [lia|]. cbn [Io.copyLoop Io.read Io.Reader_IoReader]. set (k := Nat.min (S (buf fuel)) (S n)).
  destruct (Io.Read k src) as [[got err] src'] eqn:HR.
  pose proof (Io.Read_spec _ _ _ _ _ HR) as (Hc & Hlen & _ & Herr & _). rewrite Hc, length_app in Hm.
  change (Io.write got w) with (limitedWrite got w). destruct (decide (length got <= m)%nat) as [Hfit|Hover].
  - assert (exists w1, (if bool_decide (got = []) then (O, None, w) else limitedWrite got w)
        = (length got, None, w1) /\ Io.out (ls_dst w1) = Io.out (ls_dst w) ++ got /\
        space w1 (m - length got)) as (w1 & -> & Ho & Hr).
    { case_bool_decide as Hg; [subst got; exists w; by rewrite app_nil_r, Nat.sub_0_r|].
      assert (Hr : Io.room w m) by exact Hp. exact (Io.room_write w m got Hr Hfit Hg). }
    cbn beta iota. rewrite Nat.eqb_refl. cbn [negb]. destruct err as [e|].
    { destruct (Herr e eq_refl) as [Hnil _]. rewrite Hnil in Hm. cbn in Hm. lia. }
    pose proof (Io.Read_reads k src got None src' ltac:(lia) HR eq_refl).
    destruct (IH (S n - length got)%nat (m - length got)%nat (written + length got)%nat src' w1)
      as (s2 & w2 & -> & Ho2); [done|lia..|].
    exists s2, w2. rewrite Ho2, Ho, Hc, <- app_assoc, (take_app_ge got) by lia.
    replace (written + length got + (m - length got))%nat with (written + m)%nat by lia. done.
  - rewrite bool_decide_false by (intros ->; cbn in Hover; lia).
    destruct (limitedWrite_over got w m Hp ltac:(lia)) as (w1 & -> & Ho & _).
    exists src', w1. rewrite Ho, Hc, take_app_le by lia. done.
Qed.

Lemma CopyN_over buf n m src (w : limitedSpoolWriter) :
  space w m -> (m < n)%nat -> (n <= length (Io.content src))%nat ->
  exists src' w', Io.CopyN buf n src w = (m, Some errSpoolLimit, src', w') /\
    Io.out (ls_dst w') = Io.out (ls_dst w) ++ take m (Io.content src).
Proof.
  intros Hp Hn Hlen. unfold Io.CopyN. cbn [Io.steps Io.Reader_IoReader].
  destruct (copyLoop_over (Io.reads src) buf n m 0 src w Hp Hn ltac:(lia) ltac:(lia)) as (s & w' & -> & Ho).
  cbn [Nat.add]. rewrite (proj2 (Nat.eqb_neq _ _)) by lia. eauto.
Qed.

(** ** Decoding well-formed bodies *)

Lemma payload_cons c cs : payload (c :: cs) = c_data c ++ payload cs.
Proof. done. Qed.

Section Bodies.
Context (last lastExt : string) (ts : list string).
Context (Hlast : size_ok last lastExt 0) (Hts : Forall trailer_ok ts).

Abbreviation body cs := (encodeBody cs last lastExt ts).

Lemma encodeBody_cons c cs : body (c :: cs)
  = sizeLine (c_size c) (c_ext c) ++ c_data c ++ bytes_of_string crlf ++ body cs.
Proof.
  unfold encodeBody, encodeChunk. cbn [fmap list_fmap concat]. by rewrite <- !app_assoc.
Qed.

(** The size line of the next chunk. *)
Lemma chunk_read r c cs :
  chunk_ok c -> Io.content r = body (c :: cs) ->
  exists r', ReadString r = (sizeLine (c_size c) (c_ext c), None, r') /\
    chunkSize (sizeLine (c_size c) (c_ext c)) = Some (zlen (c_data c)) /\ 0 < zlen (c_data c) /\
    Io.content r' = c_data c ++ bytes_of_string crlf ++ body cs.
Proof.
  intros [Hsz Hne] Hc. rewrite encodeBody_cons in Hc.
  destruct (sizeLine_read r _ _ _ _ Hsz Hc) as (r1 & -> & Hc1). exists r1.
  split_and!; [done|by apply chunkSize_line| |done]. destruct (c_data c); [done|unfold zlen; cbn; lia].
Qed.

Lemma decodeLoop_ok `{Io.RoomyWriter W} cs fuel buf cap (dst : W) r written :
  Forall chunk_ok cs -> Io.room dst cap -> Io.content r = body cs -> (length cs < fuel)%nat ->
  0 <= written -> written + zlen (payload cs) <= int64_max -> (length (payload cs) <= cap)%nat ->
  exists r' dst', decodeLoop fuel buf dst r written = (written + zlen (payload cs), None, r', dst') /\
    Io.has_out dst' = Io.has_out dst ++ payload cs.
Proof.
  revert cs cap dst r written.
  induction fuel as [|fuel IH]; intros cs cap dst r written Hcs Hp Hc Hf Hw Hmax Hcap; [lia|].
  cbn [decodeLoop]. destruct cs as [|c cs].
  - destruct (sizeLine_read r last lastExt 0 (encodeTrailers ts) Hlast Hc) as (r1 & -> & Hc1).
    rewrite (chunkSize_line _ _ 0 Hlast). cbn [Z.eqb].
    destruct (discardAWSChunkedTrailers_ok ts r1 Hts Hc1) as (r2 & -> & _). exists r2, dst.
    unfold payload. cbn. by rewrite Z.add_0_r, app_nil_r.
  - apply Forall_cons in Hcs as [Hcok Hcs]. destruct (chunk_read r c cs Hcok Hc) as (r1 & -> & Hsz & Hpos & Hc1).
    rewrite Hsz, (proj2 (Z.eqb_neq _ _)) by lia. rewrite payload_cons, length_app in Hcap.
    destruct (Io.CopyN_room buf (Z.to_nat (zlen (c_data c))) cap r1 dst Hp) as (r2 & w2 & -> & Ho & Hr & Hc2).
    { rewrite zlen_to_nat. lia. }
    { rewrite Io.stream_content, zlen_to_nat, Hc1, length_app. lia. }
    rewrite zlen_to_nat in *. cbn [Io.stream Io.Reader_LawfulReader] in Ho, Hc2. rewrite Hc1, take_app_length in Ho. rewrite Hc1, drop_app_length in Hc2.
    fold (zlen (c_data c)). destruct (readCRLF_ok r2 _ Hc2) as (r3 & -> & Hc3).
    rewrite payload_cons, zlen_app in *. pose proof (zlen_nonneg (payload cs)).
    replace (written +! zlen (c_data c)) with (written + zlen (c_data c))
      by (unfold add64; rewrite wrap64_id; [done|int64_unfold; lia]).
    destruct (IH cs (cap - length (c_data c))%nat w2 r3 (written + zlen (c_data c))) as (r4 & w4 & -> & Ho4);
      try done; try lia.
    { cbn in Hf. lia. }
    exists r4, w4. split; [do 3 f_equal; lia|]. by rewrite Ho4, Ho, <- app_assoc.
Qed.

(** A payload larger than the limit ends with the limit's error. *)
Lemma decodeLoop_over cs fuel buf (dst : limitedSpoolWriter) r written m :
  Forall chunk_ok cs -> Io.room dst m -> Io.content r = body cs -> (length cs < fuel)%nat ->
  0 <= written -> written + zlen (payload cs) <= int64_max -> (m < length (payload cs))%nat ->
  exists n r' dst', decodeLoop fuel buf dst r written = (n, Some (ChunkIo errSpoolLimit), r', dst') /\
    Io.out (ls_dst dst') = Io.out (ls_dst dst) ++ take m (payload cs).
Proof.
  revert cs m dst r written.
  induction fuel as [|fuel IH]; intros cs m dst r written Hcs Hp Hc Hf Hw Hmax Hm; [lia|].
  cbn [decodeLoop]. destruct cs as [|c cs]; [cbn in Hm; lia|].
  apply Forall_cons in Hcs as [Hcok Hcs]. destruct (chunk_read r c cs Hcok Hc) as (r1 & -> & Hsz & Hpos & Hc1).
  rewrite Hsz, (proj2 (Z.eqb_neq _ _)) by lia. rewrite zlen_to_nat.
  rewrite payload_cons, ?length_app, ?zlen_app in *. pose proof (zlen_nonneg (payload cs)).
  destruct (decide (length (c_data c) <= m)%nat) as [Hfit|Hover].
  - destruct (Io.CopyN_room buf (length (c_data c)) m r1 dst Hp Hfit) as (r2 & w2 & HC & Ho & Hr & Hc2).
    { rewrite Io.stream_content, Hc1, length_app. lia. }
    rewrite HC. cbn [Io.stream Io.Reader_LawfulReader] in Ho, Hc2. rewrite Hc1, take_app_length in Ho. rewrite Hc1, drop_app_length in Hc2.
    fold (zlen (c_data c)). destruct (readCRLF_ok r2 _ Hc2) as (r3 & -> & Hc3).
    replace (written +! zlen (c_data c)) with (written + zlen (c_data c))
      by (unfold add64; rewrite wrap64_id; [done|int64_unfold; lia]).
    destruct (IH cs (m - length (c_data c))%nat w2 r3 (written + zlen (c_data c))) as (n & r4 & w4 & -> & Ho4);
      try done; try lia.
    { cbn in Hf. lia. }
    exists n, r4, w4. split; [done|]. change (Io.out (ls_dst w2)) with (Io.has_out w2) in Ho4. rewrite Ho4, Ho, <- app_assoc.
    by rewrite take_app_ge.
  - destruct (CopyN_over buf (length (c_data c)) m r1 dst Hp) as (r2 & w2 & -> & Ho).
    { lia. }
    { rewrite Hc1, length_app. lia. }
    eexists _, r2, w2. split; [done|]. rewrite Ho, Hc1, !take_app_le by lia. done.
Qed.

(** Between two reads: [rest] of a chunk is left, then the chunks [cs]. *)
Definition reading_at (d : awsChunkedDecodeReader) (rest : bytes) (cs : list chunk) : Prop :=
  adr_pendingErr d = None /\ adr_done d = false /\ adr_remaining d = zlen rest /\
  Io.content (adr_reader d)
    = match rest with [] => body cs | _ => rest ++ bytes_of_string crlf ++ body cs end.

Lemma readChunk_ok k d rest cs :
  (0 < k)%nat -> rest <> [] -> zlen rest <= int64_max -> reading_at d rest cs ->
  exists d', readChunk k d = (take k rest, None, d') /\ reading_at d' (drop k rest) cs.
Proof.
  intros Hk Hne Hmax (Hpe & Hdn & Hrem & Hc).
  assert (Hc' : Io.content (adr_reader d) = rest ++ bytes_of_string crlf ++ body cs) by by destruct rest.
  clear Hc. unfold readChunk. rewrite Hrem, minInt64_spec, Hpe, Hdn.
  assert (0 < zlen rest) by (destruct rest; [done|unfold zlen; cbn; lia]).
  rewrite (proj2 (Z.ltb_ge _ _)) by lia.
  set (n := Z.to_nat (Z.min (Z.of_nat k) (zlen rest))).
  assert (Hn : n = Nat.min k (length rest)) by (unfold n, zlen; lia).
  destruct (Io.ReadFull_spec n (adr_reader d)) as (e & r1 & -> & Hc1 & He).
  assert (e = None) as ->. { apply He. rewrite Hc', length_app. lia. }
  assert (Htk : take n (Io.content (adr_reader d)) = take k rest).
  { rewrite Hc', take_app_le by lia. rewrite Hn, <- take_take. by rewrite (take_ge rest). }
  assert (Hdr : Io.content r1 = drop k rest ++ bytes_of_string crlf ++ body cs).
  { rewrite Hc1, Hc', drop_app_le by lia. f_equal. rewrite Hn.
    destruct (Nat.min_spec k (length rest)) as [[_ ->]|[? ->]]; [done|]. by rewrite !drop_ge by lia. }
  rewrite Htk.
  assert (Hsub : zlen rest -! zlen (take k rest) = zlen (drop k rest)).
  { unfold sub64. rewrite <- (take_drop k rest) at 1. rewrite zlen_app.
    replace (_ - _) with (zlen (drop k rest)) by lia. apply wrap64_id.
    assert (zlen (drop k rest) <= zlen rest) by (unfold zlen; rewrite length_drop; lia).
    pose proof (zlen_nonneg (drop k rest)). int64_unfold. lia. }
  rewrite Hsub. destruct (drop k rest) as [|b tl] eqn:Hd.
  - rewrite Z.eqb_refl. destruct (readCRLF_ok r1 _ Hdr) as (r2 & -> & Hc2). eexists. split; [done|].
    by split_and!.
  - rewrite (proj2 (Z.eqb_neq _ _)) by (unfold zlen; cbn; lia). eexists. split; [done|]. by split_and!.
Qed.

Lemma nextChunk_ok d c cs :
  chunk_ok c -> reading_at d [] (c :: cs) ->
  exists d', nextChunk d = (None, d') /\ reading_at d' (c_data c) cs.
Proof.
  intros Hok (Hpe & Hdn & Hrem & Hc). unfold nextChunk.
  destruct (chunk_read _ c cs Hok Hc) as (r1 & -> & -> & Hpos & Hc1).
  rewrite (proj2 (Z.eqb_neq _ _)) by lia. eexists. split; [done|].
  unfold reading_at. cbn [adr_reader adr_remaining adr_done adr_pendingErr]. rewrite Hc1.
  split_and!; try done. by destruct (c_data c).
Qed.

Lemma decodeRead_ok k d rest cs :
  (0 < k)%nat -> Forall chunk_ok cs -> zlen (rest ++ payload cs) <= int64_max -> reading_at d rest cs ->
  (rest ++ payload cs = [] /\ exists d', decodeRead k d = ([], Some (ChunkIo Io.EOF), d')) \/
  exists got d' rest' cs', decodeRead k d = (got, None, d') /\ reading_at d' rest' cs' /\
    Forall chunk_ok cs' /\ got <> [] /\ rest ++ payload cs = got ++ rest' ++ payload cs'.
Proof.
  intros Hk Hcs Hmax Hat. pose proof Hat as (Hpe & Hdn & Hrem & Hc). unfold decodeRead.
  rewrite (proj2 (Nat.eqb_neq _ _)) by lia. rewrite Hpe, Hdn, Hrem. rewrite zlen_app in Hmax.
  pose proof (zlen_nonneg (payload cs)).
  assert (Hchunk : forall d' rest' cs', rest' <> [] -> zlen rest' <= int64_max -> reading_at d' rest' cs' ->
    Forall chunk_ok cs' -> exists got d2, readChunk k d' = (got, None, d2) /\ got <> [] /\
      reading_at d2 (drop k rest') cs' /\ rest' = got ++ drop k rest').
  { intros d' rest' cs' Hne Hm Hat' _. destruct (readChunk_ok k d' rest' cs' Hk Hne Hm Hat') as (d2 & -> & H2).
    exists (take k rest'), d2. split_and!; [done| |done|by rewrite take_drop].
    destruct rest'; [done|]. destruct k; [lia|done]. }
  destruct rest as [|b rest].
  - change (zlen [] =? 0) with true. cbn match. destruct cs as [|c cs].
    + left. split; [done|]. unfold nextChunk.
      destruct (sizeLine_read _ _ _ _ _ Hlast Hc) as (r1 & -> & Hc1). rewrite (chunkSize_line _ _ _ Hlast).
      cbn [Z.eqb]. destruct (discardAWSChunkedTrailers_ok ts r1 Hts Hc1) as (r2 & -> & _). cbn. eauto.
    + right. apply Forall_cons in Hcs as [Hcok Hcs].
      destruct (nextChunk_ok d c cs Hcok Hat) as (d1 & -> & Hat1). pose proof Hat1 as (_ & -> & _).
      unfold payload in Hmax |- *. cbn [fmap list_fmap concat app] in *. rewrite zlen_app in Hmax.
      pose proof (zlen_nonneg (concat (c_data <$> cs))). change (zlen (@nil byte)) with 0 in Hmax.
      destruct (Hchunk d1 (c_data c) cs (proj2 Hcok) ltac:(lia) Hat1 Hcs) as (got & d2 & -> & ? & ? & Heq).
      exists got, d2, (drop k (c_data c)), cs. split_and!; [done..|]. rewrite Heq at 1. by rewrite <- app_assoc.
  - right. rewrite (proj2 (Z.eqb_neq _ _)) by (unfold zlen; cbn; lia). cbn match. rewrite Hdn.
    destruct (Hchunk d (b :: rest) cs ltac:(done) ltac:(lia) Hat Hcs) as (got & d2 & -> & ? & ? & Heq).
    exists got, d2, (drop k (b :: rest)), cs. split_and!; [done..|]. rewrite Heq at 1. by rewrite <- app_assoc.
Qed.

Lemma decodeReadAll_ok fuel buf d acc rest cs :
  Forall chunk_ok cs -> zlen (rest ++ payload cs) <= int64_max -> reading_at d rest cs ->
  (length (rest ++ payload cs) < fuel)%nat ->
  decodeReadAll fuel buf d acc = (acc ++ rest ++ payload cs, None).
Proof.
  revert d acc rest cs. induction fuel as [|fuel IH]; intros d acc rest cs Hcs Hmax Hat Hf; [lia|].
  cbn [decodeReadAll].
  destruct (decodeRead_ok (S (buf fuel)) d rest cs ltac:(lia) Hcs Hmax Hat)
    as [[Hnil (d' & ->)]|(got & d' & rest' & cs' & -> & Hat' & Hcs' & Hg & Heq)].
  - by rewrite Hnil.
  - rewrite Heq in *. rewrite length_app in Hf. rewrite zlen_app in Hmax. pose proof (zlen_nonneg got).
    assert (0 < length got)%nat by (destruct got; [done|cbn; lia]).
    rewrite (IH d' (acc ++ got) rest' cs' Hcs' ltac:(lia) Hat' ltac:(lia)). by rewrite <- app_assoc.
Qed.

End Bodies.

(** ** Spooling *)

(** A [copyBody] that delivers [P], or the limit's error when there is no room. *)
Definition delivers (copyBody : CopyBody) (src : Io.Reader) (P : bytes) : Prop :=
  forall limited m, space limited m ->
  if decide (length P <= m)%nat then
    exists r' w', copyBody limited src = (zlen P, None, r', w') /\
      Io.out (ls_dst w') = Io.out (ls_dst limited) ++ P
  else exists n r' w', copyBody limited src = (n, Some (ChunkIo errSpoolLimit), r', w').

Lemma copyAll_delivers buf src : Io.fin src = Io.EOF -> delivers (copyAll buf) src (Io.content src).
Proof.
  intros Hfin w m Hsp. unfold copyAll. case_decide as Hle.
  - assert (Hr : Io.room w m) by exact Hsp.
    destruct (Io.Copy_all buf m src w Hr Hle Hfin) as (s' & w' & -> & Ho). eauto.
  - unfold Io.Copy.
    destruct (copyLoop_over (Io.reads src) buf (S (length (Io.content src))) m 0 src w Hsp) as (s' & w' & -> & _);
      [lia..|]. eauto.
Qed.

Lemma length_encodeBody cs last lastExt ts : (length cs <= length (encodeBody cs last lastExt ts))%nat.
Proof.
  induction cs as [|c cs IH]; [cbn; lia|]. rewrite encodeBody_cons, !length_app.
  change (length (bytes_of_string crlf)) with 2%nat. cbn [length]. lia.
Qed.

Lemma decode_delivers buf src cs last lastExt ts :
  Forall chunk_ok cs -> size_ok last lastExt 0 -> Forall trailer_ok ts -> zlen (payload cs) <= int64_max ->
  Io.content src = encodeBody cs last lastExt ts -> delivers (decodeAWSChunkedBody buf) src (payload cs).
Proof.
  intros Hcs Hlast Hts Hmax Hc w m Hsp. unfold decodeAWSChunkedBody.
  assert (Hr : Io.room w m) by exact Hsp. pose proof (length_encodeBody cs last lastExt ts) as Hlen.
  rewrite <- Hc in Hlen. case_decide as Hle.
  - destruct (decodeLoop_ok last lastExt ts Hlast Hts cs (S (length (Io.content src))) buf m w src 0)
      as (r' & w' & -> & Ho); try done; try lia. eauto.
  - destruct (decodeLoop_over last lastExt ts cs (S (length (Io.content src))) buf w src 0 m)
      as (n & r' & w' & -> & _); try done; try lia. eauto.
Qed.

(** The file system does what it is asked, and the temporary file is a new one. *)
Definition spool_works (ev : SpoolEnv) (fs : Spool) (name : string) : Prop :=
  se_mkdir ev = None /\ se_temp ev = Ok name /\ se_plan ev = [] /\ se_seek ev = None /\
  se_remove ev = true /\ fs !! name = None.

Lemma spoolForwardBody_spec ev src copyBody decoded opts fs name P :
  spool_works ev fs name -> delivers copyBody src P -> maxSpoolSize opts <= int64_max ->
  spoolForwardBody ev src copyBody decoded opts fs
  = if bool_decide (0 < maxSpoolSize opts /\ zlen P <= maxSpoolSize opts)
    then (Ok (mkForwardBody (SpooledBody name (zlen P)) (zlen P) (Some (SpooledBody name (zlen P)))
                (Some name) decoded), <[name := P]> fs)
    else (Err (ChunkIo errSpoolLimit), fs).
Proof.
  intros (Hmk & Htmp & Hpl & Hsk & Hrm & Hfresh) Hd Hmax. unfold spoolForwardBody.
  destruct (Z.leb_spec (maxSpoolSize opts) 0).
  { rewrite bool_decide_false by lia. done. }
  rewrite Hmk, Htmp, Hpl. replace (if bool_decide (spoolPath opts = "") then None else None) with (@None Io.error)
    by by case_match.
  set (w := mkLimited (Io.mkWriter [] []) (maxSpoolSize opts) 0).
  assert (Hsp : space w (Z.to_nat (maxSpoolSize opts))) by (unfold space, w; cbn; split_and!; [done|lia..]).
  specialize (Hd w _ Hsp). case_decide as Hle.
  - destruct Hd as (r' & w' & -> & Ho). rewrite Hsk, Ho. rewrite bool_decide_true; [done|]. unfold zlen. lia.
  - destruct Hd as (n & r' & w' & ->). unfold cleanup. cbn beta iota zeta. rewrite Hrm.
    unfold Spool. rewrite delete_insert_id by done.
    rewrite bool_decide_false; [done|]. unfold zlen. lia.
Qed.

(** The payload a client's request carries: a well-formed aws-chunked body encodes
    it, any other body is it, and the length the request declares for it, if any, is its
    length. *)
Definition carries (r : HttpRequest) (P : bytes) : Prop :=
  match hr_Body r with
  | None => P = []
  | Some src =>
      if isAWSChunked (hr_Header r) then
        exists cs last lastExt ts, Forall chunk_ok cs /\ size_ok last lastExt 0 /\ Forall trailer_ok ts /\
          Io.content src = encodeBody cs last lastExt ts /\ P = payload cs /\
          (forall n, decodedContentLength (hr_Header r) = Some n -> n = zlen P)
      else Io.content src = P /\ Io.fin src = Io.EOF /\ (0 <= hr_ContentLength r -> hr_ContentLength r = zlen P)
  end.

(** A forwarded body of a request with payload [P], on the files [fs] as [fs'] are
    now: the HTTP client reads [P] from it and is told the length of [P]; if the body was
    spooled, [getBody] makes it again; and the cleanup leaves the files as they were. *)
Definition forwards (buf : nat -> nat) (ev : SpoolEnv) (P : bytes) (fb : ForwardBody) (fs fs' : Spool) : Prop :=
  (forall fuel, (length P < fuel)%nat -> bodyContent fuel buf fs' (fb_body fb) = (P, None)) /\
  fb_length fb = zlen P /\
  fb_getBody fb = (if fb_cleanup fb then Some (fb_body fb) else None) /\
  match fb_cleanup fb with None => fs' = fs | Some name => cleanup ev name fs' = fs end.

Lemma spooled_forwards buf ev P decoded fs name :
  spool_works ev fs name ->
  forwards buf ev P (mkForwardBody (SpooledBody name (zlen P)) (zlen P) (Some (SpooledBody name (zlen P)))
                       (Some name) decoded) fs (<[name := P]> fs).
Proof.
  intros (_ & _ & _ & _ & Hrm & Hfresh). split_and!; cbn.
  - intros fuel _. unfold Spool. rewrite lookup_insert_eq, zlen_to_nat. cbn. by rewrite take_ge.
  - done.
  - done.
  - unfold cleanup. rewrite Hrm. by apply delete_insert_id.
Qed.

(** C14: The body of a forwarded upload is exact. Whatever the pieces a body
    arrives in, whatever the sizes of the buffers, a request whose body has a known
    length or is a well-formed aws-chunked encoding (with signatures and trailers)
    is forwarded with a body from which exactly the payload is read, ending without
    error, and with the payload's length as its content length. A body that was spooled,
    and only such a one, can be read again, from every [getBody]; its temporary file is
    gone after the cleanup. Only a body that must be spooled and is larger than the limit
    is refused, with the limit's error and no file left behind. *)
Theorem forward_body_exact (buf : nat -> nat) (ev : SpoolEnv) (r : HttpRequest) (opts : uploadOptions)
    (fs : Spool) (name : string) (P : bytes)
    (Hworks : spool_works ev fs name) (Hcarries : carries r P)
    (Hmax : zlen P <= int64_max) (Hopts : maxSpoolSize opts <= int64_max) :
  match forwardBody buf ev r opts fs with
  | (Ok fb, fs') => forwards buf ev P fb fs fs' /\
      fb_decoded fb = bool_decide (is_Some (hr_Body r)) && isAWSChunked (hr_Header r)
  | (Err e, fs') => e = ChunkIo errSpoolLimit /\ fs' = fs /\
      (maxSpoolSize opts <= 0 \/ maxSpoolSize opts < zlen P) /\
      (if isAWSChunked (hr_Header r) then decodedContentLength (hr_Header r) = None
       else hr_ContentLength r < 0)
  end.
Proof.
  unfold forwardBody, carries in *. destruct (hr_Body r) as [src|]; cbn [andb].
  2: { subst P. split; [|by rewrite bool_decide_false by by intros []]. split_and!; by cbn. }
  rewrite bool_decide_true by done. cbn [andb].
  destruct (isAWSChunked (hr_Header r)) eqn:Hchunked.
  - destruct Hcarries as (cs & last & lastExt & ts & Hcs & Hlast & Hts & Hc & -> & Hlen).
    destruct (decodedContentLength (hr_Header r)) as [n|].
    + split; [|done]. split_and!; cbn; [|by apply Hlen|done..]. intros fuel Hfuel.
      apply (decodeReadAll_ok last lastExt ts Hlast Hts fuel buf _ [] [] cs); done.
    + erewrite spoolForwardBody_spec by eauto using decode_delivers. case_bool_decide.
      * split; [by apply spooled_forwards|done].
      * split_and!; [done..|lia|done].
  - destruct Hcarries as (<- & Hfin & Hlen). destruct (Z.leb_spec 0 (hr_ContentLength r)).
    + split; [|done]. split_and!; cbn; [|by apply Hlen|done..]. intros fuel _. by rewrite Hfin.
    + erewrite spoolForwardBody_spec by eauto using copyAll_delivers. case_bool_decide.
      * split; [by apply spooled_forwards|done].
      * split_and!; [done..|lia|done].
Qed.

(** A request for [hello], in two signed chunks, cut in pieces of three bytes. *)
Definition demoChunks : list chunk :=
  [mkChunk "3" ";chunk-signature=ab" (bytes_of_string "hel"); mkChunk "02" "" (bytes_of_string "lo")].

Definition demoBody : bytes := encodeBody demoChunks "0" "" ["x-amz-checksum-crc32:AAAAAA=="].

Fixpoint pieces (fuel k : nat) (l : bytes) : list bytes :=
  match fuel, l with
  | S fuel, _ :: _ => take k l :: pieces fuel k (drop k l)
  | _, _ => []
  end.

Definition demoUpload : HttpRequest :=
  mkHttpRequest "PUT" "/b/k" "" {["Content-Encoding" := ["gzip, AWS-chunked"]]}
    (Some (Io.mkReader (pieces 100 3 demoBody) Io.EOF true)) (zlen demoBody).

Definition demoSpool : SpoolEnv := mkSpoolEnv None (Ok "upload-1") [] None true.

Lemma demoUpload_carries : carries demoUpload (bytes_of_string "hello").
Proof.
  unfold carries. cbn [hr_Body demoUpload].
  assert (isAWSChunked (hr_Header demoUpload) = true) as -> by (vm_compute; reflexivity).
  exists demoChunks, "0", "", ["x-amz-checksum-crc32:AAAAAA=="]. split_and!.
  - apply Forall_cons; split; [|apply Forall_cons; split; [|constructor]];
      (split; [split_and!; [by vm_compute..|]|done]); [right; by eexists|by left].
  - split_and!; [done..|by left].
  - apply Forall_singleton. by split_and!.
  - vm_compute. reflexivity.
  - vm_compute. reflexivity.
  - intros n Hn. vm_compute in Hn. discriminate Hn.
Qed.

Lemma forward_body_exact_witness :
  exists fb fs', forwardBody (fun _ => 1%nat) demoSpool demoUpload (mkUploadOptions "/spool" 5) ∅ = (Ok fb, fs') /\
  forwards (fun _ => 1%nat) demoSpool (bytes_of_string "hello") fb ∅ fs'.
Proof.
  pose proof (forward_body_exact (fun _ => 1%nat) demoSpool demoUpload (mkUploadOptions "/spool" 5) ∅
    "upload-1" (bytes_of_string "hello") ltac:(by split_and!) demoUpload_carries
    ltac:(by vm_compute) ltac:(by vm_compute)) as H.
  destruct (forwardBody _ _ _ _ _) as [[fb|e] fs'].
  - destruct H as [H _]. exists fb, fs'. split; [done|exact H].
  - exfalso. destruct H as (_ & _ & [H|H] & _); revert H; by vm_compute.
Defined.

(** A negative chunk size is accepted by the parser, and reading on slices the
    buffer with a negative bound: the handler panics instead of refusing the body. *)
Theorem negative_chunk_panics : exists src,
  Io.content src = bytes_of_string ("-5" +:+ crlf) /\
  (decodeRead 10 (newAWSChunkedDecodeReader src)).1.2 = Some SlicePanic.
Proof. exists (Io.mkReader [bytes_of_string ("-5" +:+ crlf)] Io.EOF false). by vm_compute. Qed.
