(* ===== verification/ProxyHttp.v ===== *)
(** * Requests and responses ([internal/proxy/proxy.go])

    What the handlers share: the response being written to the client, header
    filters, and upstream requests. A request the cache does not answer is
    forwarded to the upstream store ([forward]) and its response relayed.

    A [World] is what one request sees: its [Session] (the cache with the other
    requests working on it, the client's connection, the degraded state), the
    status and headers of its response, the spool directory, the pending peer
    invalidations and the upstream requests it sent. Building, signing and sending
    an upstream request are parameters. Metrics, statistics, logs and durations are
    not modelled. *)

From Stdlib Require Import Ascii.
From S2P Require Import Prelude GoStrings GoNet Sha256 Range S3Request Router PageFrame CachePath CacheDB CacheStore.
From S2P Require Import CacheLogic CacheInv CacheOps ProxyPeers ProxySpan ProxyRead ProxyUpload.
Import Strings.

#[local] Open Scope go_scope.

(** ** Headers *)

Definition peerForwardedHeader : string := "X-Simple-S3-Cache-Peer-Forwarded".
Definition peerOwnerHeader : string := "X-Simple-S3-Cache-Peer-Owner".
Definition peerFromHeader : string := "X-Simple-S3-Cache-Peer-From".
Definition peerRingHeader : string := "X-Simple-S3-Cache-Peer-Ring".
Definition peerTimestampHeader : string := "X-Simple-S3-Cache-Peer-Timestamp".
Definition peerSignatureHeader : string := "X-Simple-S3-Cache-Peer-Signature".

Definition isPeerHeader (key : string) : bool :=
  existsb (EqualFold key)
    [peerForwardedHeader; peerOwnerHeader; peerFromHeader; peerRingHeader; peerTimestampHeader; peerSignatureHeader].

Definition isHopByHopHeader (key : string) : bool :=
  bool_decide (ToLower key ∈ ["connection"; "keep-alive"; "proxy-authenticate"; "proxy-authorization";
    "te"; "trailer"; "transfer-encoding"; "upgrade"]).

Definition isClientSigningHeader (key : string) : bool :=
  bool_decide (ToLower key ∈ ["authorization"; "x-amz-date"; "x-amz-security-token"; "x-amz-content-sha256"]).

(** The loop over [src] that the copying functions share. Go ranges over a map in
    any order; [copyHeaders_perm] says that the order does not matter. *)
Definition copyEntries (skip : string -> bool) (src : list (string * list string)) (dst : Http.Header) : Http.Header :=
  fold_left (fun dst kv => if skip kv.1 then dst else fold_left (fun dst v => Http.Add dst kv.1 v) kv.2 dst) src dst.

Definition copyHeaders (skip : string -> bool) (dst src : Http.Header) : Http.Header :=
  copyEntries skip (map_to_list src) dst.

Definition copyRequestHeaders (dst src : Http.Header) : Http.Header :=
  copyHeaders (fun key => isHopByHopHeader key || isClientSigningHeader key || isPeerHeader key) dst src.

Definition copyPeerRequestHeaders (dst src : Http.Header) : Http.Header :=
  copyHeaders (fun key => isHopByHopHeader key || isPeerHeader key) dst src.

Definition copyResponseHeaders (dst src : Http.Header) : Http.Header := copyHeaders isHopByHopHeader dst src.

Definition stripPeerHeaders (header : Http.Header) : Http.Header :=
  fold_left (fun h kv => if isPeerHeader kv.1 then Http.Del h kv.1 else h) (map_to_list header) header.

(** ** Paths *)

Definition joinURLPath (basePath requestPath : string) : string :=
  let basePath := TrimRightByte basePath "/" in
  if bool_decide (basePath = "") then requestPath
  else if bool_decide (requestPath = "") || bool_decide (requestPath = "/") then basePath
  else basePath +:+ "/" +:+ TrimLeftByte requestPath "/".

(** ** State *)

(** An upstream request; its URL is that of the endpoint with this path and query. *)
Record UpstreamRequest := mkUpstreamRequest {
  up_Method : string; up_Path : string; up_RawQuery : string; up_Host : string;
  up_Header : Http.Header; up_Body : Body; up_ContentLength : Z }.

(** [http.Response]; [ContentLength] is negative when unknown. *)
Record HttpResponse := mkHttpResponse {
  rs_Status : Z; rs_Header : Http.Header; rs_ContentLength : Z; rs_Body : Io.Reader }.

Record World := mkWorld {
  session : Session; status : option Z; header : Http.Header;
  spool : Spool; retries : peerInvalidationRetryState; requests : list UpstreamRequest }.

Definition P (A : Type) : Type := World -> A * World.

#[export] Instance P_ret : MRet P := fun A a w => (a, w).
#[export] Instance P_bind : MBind P := fun A B f m w => let '(a, w') := m w in f a w'.

Definition setSession (s : Session) (w : World) : World :=
  mkWorld s (status w) (header w) (spool w) (retries w) (requests w).

(** What is done on the session. *)
Definition onSession {A} (m : R A) : P A := fun w =>
  let '(a, s) := m (session w) in (a, setSession s w).

Definition cacheCall {A} (m : M A) : P (result CacheError A) := onSession (onCache None m).

Definition setHeader (h : Http.Header) : P () := fun w =>
  ((), mkWorld (session w) (status w) h (spool w) (retries w) (requests w)).
Definition modifyHeader (f : Http.Header -> Http.Header) : P () := fun w => setHeader (f (header w)) w.

(** [w.WriteHeader(code)]: the first call counts. *)
Definition WriteHeader (code : Z) : P () := fun w =>
  ((), mkWorld (session w) (Some (default code (status w))) (header w) (spool w) (retries w) (requests w)).

(** [w.Write] without looking at its outcome, after an implicit [200]. *)
Definition writeClient (data : bytes) : P () :=
  WriteHeader 200;;
  w ← onSession getClient;
  onSession (set_client (Io.Write data w).2).

(** [http.Error(w, text, code)] *)
Definition httpError (text : string) (code : Z) : P () :=
  modifyHeader (fun h => Http.Set_ (Http.Set_ (Http.Del h "Content-Length")
    "Content-Type" "text/plain; charset=utf-8") "X-Content-Type-Options" "nosniff");;
  WriteHeader code;;
  writeClient (bytes_of_string (text +:+ nl)).

Definition setSpool (f : Spool) : P () := fun w =>
  ((), mkWorld (session w) (status w) (header w) f (retries w) (requests w)).
Definition getWorld : P World := fun w => (w, w).
Definition markDegraded (reason : string) (context : list (string * string)) : P () :=
  onSession (markDegradedSession reason context).

(** ** Errors *)

Inductive HandlerError :=
| HandlerBody (e : ChunkError)
| HandlerBuild
| HandlerSign
| HandlerUpstream
| HandlerCopy (e : Io.error)
| HandlerCache (e : CacheError)
| HandlerRead (e : ProxyError)
| HandlerMetadataStore
| HandlerMetadataSize
| HandlerMetadataMissing
| HandlerRangeUnsatisfied
| HandlerPeers
| HandlerStatus (status : Z)
| HandlerLength (got want : Z).

(** The results of a handler: status, bytes written, error. *)
Definition Handled : Type := Z * Z * option HandlerError.

Definition failed (e : HandlerError) : Handled := (0, 0, Some e).

(** ** Upstream requests *)

Definition unsignedPayload : string := "UNSIGNED-PAYLOAD".

Record Endpoint := mkEndpoint { ep_Path : string; ep_upstreamHost : string; ep_Host : string }.

Section Upstream.
(** [builds] is whether [http.NewRequestWithContext] accepts the request, [sign] adds
    the signature, [origin n] answers the request after [n] earlier ones
    (these and the page fetches of the session). *)
Context (endpoint : Endpoint) (builds : UpstreamRequest -> bool)
  (sign : UpstreamRequest -> option UpstreamRequest) (origin : nat -> UpstreamRequest -> option HttpResponse).

(** [p.client.Do(req)] *)
Definition clientDo (req : UpstreamRequest) : P (option HttpResponse) := fun w =>
  (origin (length (requests w) + length (sent (session w)))%nat req,
   mkWorld (session w) (status w) (header w) (spool w) (retries w) (req :: requests w)).

Definition upstreamPath (r : HttpRequest) : string := joinURLPath (ep_Path endpoint) (hr_Path r).

Definition applyUpstreamHost : string :=
  if bool_decide (ep_upstreamHost endpoint = "") then ep_Host endpoint else ep_upstreamHost endpoint.

(** [newUpstreamRequest(ctx, r, method, nil)] *)
Definition newUpstreamRequest (r : HttpRequest) (method : string) : option UpstreamRequest :=
  let req := mkUpstreamRequest method (upstreamPath r) (hr_RawQuery r) applyUpstreamHost
    (Http.Set_ (copyRequestHeaders ∅ (hr_Header r)) "X-Amz-Content-Sha256" unsignedPayload) NoBody 0 in
  if builds req then Some req else None.

Definition withHeader (h : Http.Header) (req : UpstreamRequest) : UpstreamRequest :=
  mkUpstreamRequest (up_Method req) (up_Path req) (up_RawQuery req) (up_Host req) h (up_Body req)
    (up_ContentLength req).

(** The request of [forward] before it is signed. *)
Definition forwardRequest (r : HttpRequest) (fb : ForwardBody) : UpstreamRequest :=
  let h := copyRequestHeaders ∅ (hr_Header r) in
  let h := if fb_decoded fb then removeAWSChunkedHeaders h else h in
  mkUpstreamRequest (hr_Method r) (upstreamPath r) (hr_RawQuery r) applyUpstreamHost
    (Http.Set_ h "X-Amz-Content-Sha256" unsignedPayload) (fb_body fb) (fb_length fb).

(** [req.Body = getBody()], a section of the spooled file from its start. *)
Definition rewind (fb : ForwardBody) (req : UpstreamRequest) : UpstreamRequest :=
  match fb_getBody fb with
  | Some body => mkUpstreamRequest (up_Method req) (up_Path req) (up_RawQuery req) (up_Host req)
                   (up_Header req) body (fb_length fb)
  | None => req
  end.

(** Relaying a response. [io.Copy] writes to the client's connection. *)
Definition relay (buf : nat -> nat) (method : string) (resp : HttpResponse) : P Handled :=
  modifyHeader (fun h => copyResponseHeaders h (rs_Header resp));;
  WriteHeader (rs_Status resp);;
  if bool_decide (method = MethodHead) then mret (rs_Status resp, 0, None)
  else
    w ← onSession getClient;
    let '(n, err, _, w) := Io.Copy buf (rs_Body resp) w in
    onSession (set_client w);;
    mret (rs_Status resp, Z.of_nat n, HandlerCopy <$> err).

(** The part of [forward] after the body was prepared. *)
Definition forwardPrepared (buf : nat -> nat) (r : HttpRequest) (fb : ForwardBody) : P Handled :=
  let req := forwardRequest r fb in
  if negb (builds req) then httpError "build upstream request" 500;; mret (failed HandlerBuild)
  else match sign req with
  | None => httpError "sign upstream request" 502;; mret (failed HandlerSign)
  | Some req =>
      resp ← clientDo (rewind fb req);
      match resp with
      | None => httpError "upstream request failed" 502;; mret (failed HandlerUpstream)
      | Some resp => relay buf (hr_Method r) resp
      end
  end.

(** [forward]; the deferred cleanup runs last. *)
Definition forward (buf : nat -> nat) (ev : SpoolEnv) (opts : uploadOptions) (r : HttpRequest) : P Handled :=
  w ← getWorld;
  let '(fb, fs) := forwardBody buf ev r opts (spool w) in
  setSpool fs;;
  match fb with
  | Err e =>
      (if bool_decide (e = ChunkIo errSpoolLimit)
       then httpError "upload body exceeds max spool size" 413
       else httpError "prepare upstream request body" 502);;
      mret (failed (HandlerBody e))
  | Ok fb =>
      res ← forwardPrepared buf r fb;
      match fb_cleanup fb with
      | Some name => w ← getWorld; setSpool (cleanup ev name (spool w));; mret res
      | None => mret res
      end
  end.

End Upstream.

(** ** Facts about copying headers *)

(** Headers as [net/http] makes them: canonical names, no name without values. *)
Definition canonical (h : Http.Header) : Prop :=
  map_Forall (fun k vs => Http.CanonicalHeaderKey k = k /\ vs <> []) h.

Lemma addValues_lookup k vs dst k' :
  Http.CanonicalHeaderKey k = k -> vs <> [] ->
  fold_left (fun dst v => Http.Add dst k v) vs dst !! k'
  = if decide (k = k') then Some (default [] (dst !! k) ++ vs) else dst !! k'.
Proof.
  intros Hk. revert dst. induction vs as [|v vs IH]; intros dst Hne; [done|]. cbn [fold_left].
  assert (Hadd : Http.Add dst k v = <[k := default [] (dst !! k) ++ [v]]> dst)
    by (unfold Http.Add, Http.Values; by rewrite Hk).
  destruct vs as [|v' vs].
  - cbn. rewrite Hadd. case_decide as Heq; [subst; by rewrite lookup_insert_eq|by rewrite lookup_insert_ne].
  - rewrite IH by done. rewrite Hadd. case_decide as Heq.
    + rewrite lookup_insert_eq. cbn. by rewrite <- app_assoc.
    + by rewrite lookup_insert_ne.
Qed.

Lemma copyEntries_lookup skip l dst k :
  NoDup l.*1 -> Forall (fun kv => Http.CanonicalHeaderKey kv.1 = kv.1 /\ kv.2 <> []) l ->
  copyEntries skip l dst !! k
  = match (list_to_map l : Http.Header) !! k with
    | Some vs => if skip k then dst !! k else Some (default [] (dst !! k) ++ vs)
    | None => dst !! k
    end.
Proof.
  unfold copyEntries. revert dst. induction l as [|[k0 vs] l IH]; intros dst Hnd Hc; [done|].
  apply NoDup_cons in Hnd as [Hni Hnd]. apply Forall_cons in Hc as [[Hk Hne] Hc].
  cbn [fold_left fst snd list_to_map foldr uncurry] in *. rewrite IH by done.
  assert (Hnone : (list_to_map l : Http.Header) !! k0 = None) by by apply not_elem_of_list_to_map.
  destruct (decide (k0 = k)) as [->|Hk0].
  - rewrite lookup_insert_eq, Hnone. destruct (skip k); [done|].
    rewrite addValues_lookup by done. by rewrite decide_True.
  - rewrite lookup_insert_ne by done. destruct (skip k0); [done|].
    rewrite addValues_lookup by done. by rewrite decide_False.
Qed.

Lemma copyHeaders_lookup skip dst src k :
  canonical src ->
  copyHeaders skip dst src !! k
  = match src !! k with
    | Some vs => if skip k then dst !! k else Some (default [] (dst !! k) ++ vs)
    | None => dst !! k
    end.
Proof.
  intros Hc. unfold copyHeaders. rewrite copyEntries_lookup.
  - by rewrite list_to_map_to_list.
  - apply NoDup_fst_map_to_list.
  - apply Forall_forall. intros [k' vs] Hin. apply elem_of_map_to_list in Hin. by apply (Hc k' vs).
Qed.

(** The order in which Go ranges over the names does not matter. *)
Lemma copyHeaders_perm skip dst src l :
  canonical src -> l ≡ₚ map_to_list src -> copyEntries skip l dst = copyHeaders skip dst src.
Proof.
  intros Hc Hl. apply map_eq. intros k. rewrite copyHeaders_lookup by done. rewrite copyEntries_lookup.
  - rewrite (list_to_map_proper l (map_to_list src)); [by rewrite list_to_map_to_list| |done].
    rewrite Hl. apply NoDup_fst_map_to_list.
  - rewrite Hl. apply NoDup_fst_map_to_list.
  - rewrite Hl. apply Forall_forall. intros [k' vs] Hin. apply elem_of_map_to_list in Hin. by apply (Hc k' vs).
Qed.

(** Copying to an empty header filters. *)
Lemma copyHeaders_filter skip src :
  canonical src -> copyHeaders skip ∅ src = filter (fun kv => skip kv.1 = false) src.
Proof.
  intros Hc. apply map_eq. intros k. rewrite copyHeaders_lookup, map_lookup_filter by done.
  destruct (src !! k) as [vs|]; cbn; [|by rewrite lookup_empty].
  rewrite !lookup_empty. destruct (skip k) eqn:Hs; case_guard; cbn in *; congruence.
Qed.
