(* ===== verification/ProxyWrite.v ===== *)
(** * Writes ([internal/proxy/proxy.go])

    After a write was forwarded and succeeded, the object is invalidated in the
    local cache and on every peer ([invalidateObject]); if that fails the proxy
    marks itself degraded, which takes it out of rotation. The retries of failed
    peer invalidations are in [ProxyPeers]; here they run before or after the
    request, not during it. *)

From Stdlib Require Import Ascii.
From S2P Require Import Prelude GoStrings GoNet Sha256 Range S3Request Router PageFrame CachePath CacheDB CacheStore.
From S2P Require Import CacheLogic CacheInv CacheOps CacheRows ProxyPeers ProxySpan ProxyRead ProxyUpload ProxyHttp.
Import Strings.

#[local] Open Scope go_scope.

Definition MethodPut : string := "PUT".
Definition MethodPost : string := "POST".
Definition MethodDelete : string := "DELETE".

Definition shouldInvalidateAfterWrite (r : HttpRequest) (target : Target) : bool :=
  if negb (IsObject target) then false
  else
    let query := (Url.ParseQuery (hr_RawQuery r)).1 in
    let has key := negb (bool_decide (Url.QueryGet query key = "")) in
    if bool_decide (hr_Method r = MethodPut) then
      if has "uploadId" && has "partNumber" then false
      else if negb (bool_decide (Http.Get (hr_Header r) "X-Amz-Copy-Source" = "")) then true
      else negb (has "uploadId") && negb (has "partNumber")
    else if bool_decide (hr_Method r = MethodDelete) then true
    else if bool_decide (hr_Method r = MethodPost) then has "uploadId"
    else false.

Definition isSuccessfulStatus (status : Z) : bool := (200 <=? status) && (status <? 300).

Definition peeringOf (w : World) : Peering := mkPeering (degradedState (session w)) (retries w).

Definition setPeering (g : Peering) : P () := fun w =>
  let s := session w in
  ((), mkWorld (mkSession (cache s) (env s) (client s) (hijackable s) (aborted s) (degraded g) (flight s) (sent s))
         (status w) (header w) (spool w) (retry g) (requests w)).

(** A change of what the proxy remembers of its peers. *)
Definition onPeering (f : Peering -> Peering) : P () := fun w => setPeering (f (peeringOf w)) w.

Section Write.
(** [router] is [p.peerRouter], if any; [send] is [sendPeerInvalidation], which returns
    whether the peer accepted. *)
Context (router : option Router) (send : Peer -> Target -> Z -> P bool).

(** [broadcastInvalidation]: the loop over [p.peerRouter.Peers()], with whether all
    were told. *)
Fixpoint tellPeers (localID : string) (ps : list Peer) (target : Target) (epoch : Z) : P bool :=
  match ps with
  | [] => mret true
  | peer :: ps =>
      if bool_decide (ID peer = localID) then tellPeers localID ps target epoch
      else
        accepted ← send peer target epoch;
        if accepted : bool then tellPeers localID ps target epoch
        else onPeering (peerFailed peer target epoch);; tellPeers localID ps target epoch;; mret false
  end.

Definition invalidateObject (target : Target) : P (result HandlerError Z) :=
  r ← cacheCall (InvalidateObject (Bucket target) (Key target) 0);
  match r with
  | Err e => mret (Err (HandlerCache e))
  | Ok epoch =>
      match router with
      | None => mret (Ok epoch)
      | Some rt =>
          told ← tellPeers (localID rt) (peers rt) target epoch;
          mret (if told : bool then Ok epoch else Err HandlerPeers)
      end
  end.

(** The default case of [handle], [forwarding] being [p.forward(w, r, stats)]. *)
Definition handlePassThrough (forwarding : P Handled) (r : HttpRequest) (target : Target) : P Handled :=
  res ← forwarding;
  let '(status, bytesWritten, err) := res in
  if match err with None => true | Some _ => false end && isSuccessfulStatus status
     && shouldInvalidateAfterWrite r target
  then
    d ← invalidateObject target;
    match d with
    | Err HandlerPeers | Ok _ => mret res
    | Err _ => markDegraded "write invalidation failed" [("bucket", Bucket target)];; mret res
    end
  else mret res.

End Write.

(** ** Facts *)

(** What a forwarded request leaves alone. *)
Definition undisturbed (w w' : World) : Prop :=
  cache (session w') = cache (session w) /\ env (session w') = env (session w) /\
  degradedState (session w') = degradedState (session w) /\ retries w' = retries w /\
  sent (session w') = sent (session w).

Definition calm {A} (m : P A) : Prop := forall w, undisturbed w (m w).2.

Lemma calm_ret {A} (a : A) : calm (mret a).
Proof. intros w. by split_and!. Qed.

Lemma calm_bind {A B} (m : P A) (f : A -> P B) : calm m -> (forall a, calm (f a)) -> calm (m ≫= f).
Proof.
  intros Hm Hf w. unfold mbind, P_bind. specialize (Hm w). destruct (m w) as [a w1].
  destruct Hm as (? & ? & ? & ? & ?). destruct (Hf a w1) as (? & ? & ? & ? & ?). split_and!; cbn in *; congruence.
Qed.

Lemma calm_getWorld : calm getWorld.
Proof. intros w. by split_and!. Qed.

Lemma calm_setSpool fs : calm (setSpool fs).
Proof. intros w. by split_and!. Qed.

Lemma calm_modifyHeader f : calm (modifyHeader f).
Proof. intros w. by split_and!. Qed.

Lemma calm_WriteHeader c : calm (WriteHeader c).
Proof. intros w. by split_and!. Qed.

Lemma calm_getClient : calm (onSession getClient).
Proof. intros w. by split_and!. Qed.

Lemma calm_setClient c : calm (onSession (set_client c)).
Proof. intros w. by split_and!. Qed.

Lemma calm_clientDo origin req : calm (clientDo origin req).
Proof. intros w. by split_and!. Qed.

Create HintDb calm discriminated.
#[export] Hint Resolve calm_ret calm_getWorld calm_setSpool calm_modifyHeader calm_WriteHeader calm_getClient
  calm_setClient calm_clientDo : calm.

Ltac calm_go :=
  repeat lazymatch goal with
  | |- calm (_ ≫= _) => apply calm_bind; [|intros ?]
  | |- calm _ => solve [auto with calm]
  end.

Lemma calm_httpError t c : calm (httpError t c).
Proof. unfold httpError, writeClient. calm_go. Qed.

#[export] Hint Resolve calm_httpError : calm.

Lemma calm_forward endpoint builds sign origin buf ev opts r :
  calm (forward endpoint builds sign origin buf ev opts r).
Proof.
  unfold forward. apply calm_bind; [auto with calm|]. intros w.
  destruct (forwardBody _ _ _ _ _) as [[fb|e] fs]; (apply calm_bind; [auto with calm|]; intros _).
  - apply calm_bind.
    + unfold forwardPrepared. destruct (negb _); [calm_go|]. destruct (sign _) as [req|]; [|calm_go].
      apply calm_bind; [auto with calm|]. intros [resp|]; [|calm_go]. unfold relay.
      do 2 (apply calm_bind; [auto with calm|]; intros _). case_bool_decide; [auto with calm|].
      apply calm_bind; [auto with calm|]. intros c. destruct (Io.Copy _ _ _) as [[[n err] s] w2]. calm_go.
    + intros res. destruct (fb_cleanup fb); calm_go.
  - apply calm_bind; [destruct (bool_decide _); auto with calm|]. intros _. auto with calm.
Qed.

(** Requests were sent from [w] to [w']. *)
Definition later (w w' : World) : Prop := exists l, requests w' = l ++ requests w.

#[export] Instance later_preorder : PreOrder later.
Proof. split; [by exists []|]. intros a b c [l1 H1] [l2 H2]. exists (l2 ++ l1). by rewrite H2, H1, app_assoc. Qed.

(** What a forwarded request sends: nothing, or one request, whose response gives the
    status; an error after that is one of copying the body to the client. *)
Lemma relay_result buf method resp w st n err w' :
  relay buf method resp w = ((st, n, err), w') ->
  st = rs_Status resp /\ requests w' = requests w /\ forall e, err = Some e -> exists e', e = HandlerCopy e'.
Proof.
  unfold relay, mbind, P_bind. destruct (modifyHeader _ w) as [[] w1] eqn:E1. destruct (WriteHeader _ w1) as [[] w2] eqn:E2.
  assert (Hq : requests w2 = requests w) by (injection E2 as <-; by injection E1 as <-). clear E1 E2.
  case_bool_decide; [by intros [= <- <- <- <-]|]. unfold onSession, getClient, set_client.
  destruct (Io.Copy buf (rs_Body resp) (client (session w2))) as [[[k e0] rd] c]. intros [= <- <- <- <-].
  split_and!; [done..|]. intros e. destruct e0; [|done]. intros [= <-]. by eexists.
Qed.

Lemma forward_result endpoint builds sign origin buf ev opts r w st n err w' :
  forward endpoint builds sign origin buf ev opts r w = ((st, n, err), w') ->
  (st = 0 /\ later w w') \/
  exists req resp, requests w' = req :: requests w /\
    origin (length (requests w) + length (sent (session w)))%nat req = Some resp /\ rs_Status resp = st /\
    forall e, err = Some e -> exists e', e = HandlerCopy e'.
Proof.
  unfold forward. unfold mbind at 1, P_bind at 1, getWorld. destruct (forwardBody _ _ _ _ _) as [fb fs].
  unfold mbind at 1, P_bind at 1, setSpool at 1. set (w1 := mkWorld _ _ _ _ _ _).
  assert (Hfail : forall text code e w2, requests w2 = requests w ->
    (httpError text code;; mret (failed e) : P Handled) w2 = ((st, n, err), w') -> st = 0 /\ requests w' = requests w).
  { intros text code e w2 Hw2 [= <- _ _ <-]. done. }
  destruct fb as [fb|e].
  2: { intros Hrun. left. assert (st = 0 /\ requests w' = requests w) as [? Hq]; [|split; [done|by exists []]].
       revert Hrun. case_bool_decide; by apply Hfail. }
  set (main := (_ : Prop) \/ _).
  assert (Hmain : forall res w2, forwardPrepared endpoint builds sign origin buf r fb w1 = (res, w2) ->
    (res, requests w2) = ((st, n, err), requests w') -> main).
  { intros [[st0 n0] err0] w2. unfold forwardPrepared. cbv zeta.
    destruct (negb _); [intros [= <- <- <- <-] [= <- <- <- Hq]; left; split; [done|by exists []]|].
    destruct (sign _) as [req|]; [|intros [= <- <- <- <-] [= <- <- <- Hq]; left; split; [done|by exists []]].
    unfold mbind at 1, P_bind at 1, clientDo. destruct (origin _ _) as [resp|] eqn:Ho.
    2: { intros [= <- <- <- <-] [= <- <- <- Hq]. left. split; [done|]. by exists [rewind fb req]. }
    intros Hrun [= <- <- <- Hq]. destruct (relay_result _ _ _ _ _ _ _ _ Hrun) as (Hst & Hreq & He). right.
    exists (rewind fb req), resp. split_and!; [by rewrite <- Hq, Hreq|exact Ho|done|done]. }
  unfold mbind, P_bind. destruct (forwardPrepared _ _ _ _ _ _ _ w1) as [res w2] eqn:Hrun.
  destruct (fb_cleanup fb); intros [= -> <-]; by eapply Hmain.
Qed.

Lemma forward_later endpoint builds sign origin buf ev opts r w :
  later w (forward endpoint builds sign origin buf ev opts r w).2.
Proof.
  destruct (forward _ _ _ _ _ _ _ _ w) as [[[st n] err] w'] eqn:E.
  destruct (forward_result _ _ _ _ _ _ _ _ _ _ _ _ _ E) as [[_ ?]|(req & resp & Hq & _)]; [done|]. by exists [req].
Qed.

Lemma markDegraded_some reason ctx d : (markDegradedWithContext reason ctx d).1 <> None.
Proof. unfold markDegradedWithContext. by repeat case_match. Qed.

(** ** Telling the peers *)

(** Nothing was done but to send requests and to remember which peers failed. *)
Definition telling (w w' : World) : Prop :=
  cache (session w') = cache (session w) /\ env (session w') = env (session w) /\
  client (session w') = client (session w) /\ flight (session w') = flight (session w) /\
  sent (session w') = sent (session w) /\ status w' = status w /\ header w' = header w /\ later w w'.

#[export] Instance telling_preorder : PreOrder telling.
Proof.
  split; [intros w; split_and!; try done; reflexivity|].
  intros a b c (? & ? & ? & ? & ? & ? & ? & ?) (? & ? & ? & ? & ? & ? & ? & ?). split_and!; try congruence. by transitivity b.
Qed.

Lemma telling_onPeering f w : telling w (onPeering f w).2.
Proof. split_and!; try done. by exists []. Qed.

(** A message to a peer sends requests and changes nothing else. *)
Definition a_message (m : P bool) : Prop :=
  forall w, telling w (m w).2 /\ peeringOf (m w).2 = peeringOf w.

(** The peer accepted a message that was sent between [w] and [w']. *)
Definition accepted (m : P bool) (w w' : World) : Prop :=
  exists w1 w2, telling w w1 /\ m w1 = (true, w2) /\ telling w2 w'.

(** A broadcast told every peer, or leaves the proxy degraded. *)
Lemma tellPeers_spec send lid ps target epoch w told w' :
  (forall peer target epoch, a_message (send peer target epoch)) ->
  tellPeers send lid ps target epoch w = (told, w') ->
  telling w w' /\ (degradedState (session w) <> None -> degradedState (session w') <> None) /\
  if told : bool then Forall (fun p => ID p = lid \/ accepted (send p target epoch) w w') ps
  else degradedState (session w') <> None.
Proof.
  intros Hm. revert w told w'. induction ps as [|p ps IH]; intros w told w'; cbn [tellPeers].
  { intros [= <- <-]. by split_and!. }
  case_bool_decide as Hid.
  { intros Hrun. destruct (IH _ _ _ Hrun) as (H1 & H2 & H3). split_and!; [done..|]. destruct told; [|done].
    constructor; [by left|done]. }
  unfold mbind at 1, P_bind at 1. pose proof (Hm p target epoch w) as [Ht Hg].
  destruct (send p target epoch w) as [[] w1] eqn:Hs; cbn [snd] in *.
  - intros Hrun. destruct (IH _ _ _ Hrun) as (H1 & H2 & H3). assert (Ht' : telling w w') by by transitivity w1.
    injection Hg as Hd _. split_and!; [done|by rewrite <- Hd|]. destruct told; [|done]. constructor; [right; by exists w, w1|].
    apply (Forall_impl _ _ _ H3). intros q [?|(w2 & w3 & ? & ? & ?)]; [by left|right]. exists w2, w3.
    split_and!; [by transitivity w1|done|done].
  - unfold mbind, P_bind. destruct (onPeering _ w1) as [[] w2] eqn:Hp.
    pose proof (telling_onPeering (peerFailed p target epoch) w1) as Ht2. rewrite Hp in Ht2. cbn [snd] in Ht2.
    destruct (tellPeers _ _ _ _ _ w2) as [b w3] eqn:Hrun. destruct (IH _ _ _ Hrun) as (H1 & H2 & _).
    intros [= <- <-].
    assert (Hd : degradedState (session w3) <> None).
    { apply H2. injection Hp as <-. apply markDegraded_some. }
    split_and!; [|done|done]. transitivity w1; [done|]. by transitivity w2.
Qed.

(** Seen as a step of what the proxy remembers of its peers, it is the broadcast of
    [ProxyPeers]. *)
Lemma tellPeers_broadcast accepts lid ps target epoch w :
  let '(told, w') := tellPeers (fun peer _ _ => mret (accepts peer)) lid ps target epoch w in
  (told, peeringOf w') = broadcastInvalidation lid ps accepts target epoch (peeringOf w).
Proof.
  revert w. induction ps as [|p ps IH]; intros w; cbn [tellPeers broadcastInvalidation]; [done|].
  case_bool_decide; [apply IH|]. unfold mbind, P_bind, mret, P_ret. destruct (accepts p); [apply IH|].
  specialize (IH (onPeering (peerFailed p target epoch) w).2). destruct (onPeering _ w) as [[] w1] eqn:Hp. cbn [snd] in IH.
  change (fun (peer : Peer) (_ : Target) (_ : Z) (w0 : World) => (accepts peer, w0))
    with (fun (peer : Peer) (_ : Target) (_ : Z) => (mret (accepts peer) : P bool)) in *.
  assert (Hg : peeringOf w1 = peerFailed p target epoch (peeringOf w)) by (by injection Hp as <-).
  destruct (tellPeers _ _ _ _ _ w1) as [b w2]. by rewrite <- Hg, <- IH.
Qed.

(** The cache at the next call, after what other requests do before it. *)
Definition seen (s : Session) : Cache := match env s with [] => cache s | f :: _ => f None (cache s) end.

Lemma onCache_seen {A} (m : M A) s : cache (onCache None m s).2 = (m (seen s)).2 /\
  (onCache None m s).1 = (m (seen s)).1 /\ degradedState (onCache None m s).2 = degradedState s.
Proof. unfold onCache, seen. destruct (env s); by destruct (m _). Qed.

Lemma onCache_sent {A} (m : M A) s : sent (onCache None m s).2 = sent s.
Proof. unfold onCache. destruct (env s); by destruct (m _). Qed.

(** The object is gone from the cache, and its epoch is past the one before. *)
Definition forgotten (target : Target) (c c' : Cache) (epoch : Z) : Prop :=
  let id := ObjectKey (Bucket target) (Key target) in
  objects (db c') !! id = None /\ (forall i, pages (db c') !! (id, i) = None) /\
  (let cur := from_option g_epoch 0 (generations (db c) !! id) in
   0 <= cur < int64_max -> epoch = cur + 1 /\
     exists g, generations (db c') !! id = Some g /\ g_epoch g = epoch).

Lemma invalidateObject_spec router send target w r w' :
  (forall peer target epoch, a_message (send peer target epoch)) ->
  db_ok (db (seen (session w))) -> invalidateObject router send target w = (r, w') ->
  match r with
  | Ok epoch => forgotten target (seen (session w)) (cache (session w')) epoch /\
      forall rt, router = Some rt -> exists w1, requests w1 = requests w /\ sent (session w1) = sent (session w) /\
        Forall (fun p => ID p = localID rt \/ accepted (send p target epoch) w1 w') (peers rt)
  | Err HandlerPeers => degradedState (session w') <> None
  | Err _ => True
  end.
Proof.
  intros Hsend Hdb. unfold invalidateObject, mbind, P_bind, cacheCall, onSession.
  destruct (onCache_seen (InvalidateObject (Bucket target) (Key target) 0) (session w)) as (Hc & Hr & Hd).
  pose proof (onCache_sent (InvalidateObject (Bucket target) (Key target) 0) (session w)) as Hsent.
  destruct (onCache _ _ (session w)) as [r0 s0]. cbn [fst snd] in Hc, Hr, Hd, Hsent.
  pose proof (InvalidateObject_tx (Bucket target) (Key target) 0 (seen (session w))) as Htx.
  unfold wp in Htx. rewrite <- Hr, <- Hc in Htx. destruct r0 as [epoch|e].
  2: { intros [= <- <-]. done. }
  destruct (Htx epoch eq_refl) as (_ & _ & now & He & Hdb'). clear Htx.
  assert (Hf : forgotten target (seen (session w)) (cache s0) epoch).
  { destruct (invalidateTx_forgets (ObjectKey (Bucket target) (Key target)) now _ Hdb) as (H1 & H2 & H3).
    unfold forgotten. rewrite Hdb'. split_and!; [done..|]. intros Hcur. destruct (H3 Hcur) as (Hn & g & Hg & Hge).
    rewrite He, Hn. eauto. }
  destruct router as [rt|]; [|intros [= <- <-]; by split].
  set (w0 := setSession s0 w). destruct (tellPeers _ _ _ _ _ w0) as [told w1] eqn:Hrun.
  destruct (tellPeers_spec _ _ _ _ _ _ _ _ Hsend Hrun) as ((Hcache & _) & _ & Hb). destruct told; intros [= <- <-]; [|done].
  split; [by rewrite Hcache|]. intros rt' [= <-]. by exists w0.
Qed.

(** ** Properties *)

(** A successful write is invalidated everywhere or the node stops serving.
    Whatever the upstream store, the client, the peers and other requests do: after a
    write to an object for which the store's success was relayed to the client,
    unless the proxy has marked itself degraded, the object and all its pages are gone
    from the local cache, its epoch is one past the epoch before, so that no fill that
    started earlier can commit, and every other peer has accepted that epoch. *)
Theorem write_invalidates (endpoint : Endpoint) (builds : UpstreamRequest -> bool)
    (sign : UpstreamRequest -> option UpstreamRequest) (origin : nat -> UpstreamRequest -> option HttpResponse)
    (buf : nat -> nat) (ev : SpoolEnv) (opts : uploadOptions) (router : option Router)
    (send : Peer -> Target -> Z -> P bool) (r : HttpRequest) (target : Target) (w w' : World) (st n : Z)
    (Hsend : forall peer target epoch, a_message (send peer target epoch))
    (Hwrite : shouldInvalidateAfterWrite r target = true)
    (Hdb : db_ok (db (seen (session w))))
    (Hrun : handlePassThrough router send (forward endpoint builds sign origin buf ev opts r) r target w
            = ((st, n, None), w'))
    (Hstatus : isSuccessfulStatus st = true)
    (Hready : degradedState (session w') = None) :
  exists epoch, forgotten target (seen (session w)) (cache (session w')) epoch /\
    forall rt, router = Some rt -> exists w1, later w w1 /\ sent (session w1) = sent (session w) /\
      Forall (fun p => ID p = localID rt \/ accepted (send p target epoch) w1 w') (peers rt).
Proof.
  unfold handlePassThrough, mbind, P_bind in Hrun.
  pose proof (calm_forward endpoint builds sign origin buf ev opts r w) as (Hc & He & _ & _ & Hsent).
  pose proof (forward_later endpoint builds sign origin buf ev opts r w) as Hlater.
  destruct (forward _ _ _ _ _ _ _ _ w) as [[[st0 n0] err0] w1]. cbn [snd] in Hc, He, Hsent, Hlater.
  assert (Hseen : seen (session w1) = seen (session w)) by (unfold seen; by rewrite Hc, He).
  destruct (match err0 with None => true | Some _ => false end && isSuccessfulStatus st0
     && shouldInvalidateAfterWrite r target) eqn:Hcond.
  2: { injection Hrun as -> -> -> ->. rewrite Hstatus, Hwrite in Hcond. done. }
  destruct (invalidateObject router send target w1) as [d w2] eqn:Hinv.
  pose proof (invalidateObject_spec router send target w1 d w2 Hsend ltac:(by rewrite Hseen) Hinv) as Hspec.
  assert (Hmark : forall a b w3, (markDegraded a b w3).2 = w' -> False).
  { intros a b w3 Heq. rewrite <- Heq in Hready. by apply (markDegraded_some a b (degradedState (session w3))). }
  destruct d as [epoch|e].
  - injection Hrun as _ _ _ <-. rewrite Hseen in Hspec. destruct Hspec as [Hf Hp]. exists epoch. split; [done|].
    intros rt Hrt. destruct (Hp rt Hrt) as (w3 & Hw3 & Hs3 & Hall). exists w3. split_and!; [|congruence|done].
    destruct Hlater as [l Hl]. exists l. congruence.
  - set (m := markDegraded "write invalidation failed" [("bucket", Bucket target)]) in *.
    assert (e = HandlerPeers \/ (m w2).2 = w') as [->|Hw].
    { destruct e; first [by left | right; revert Hrun; cbv beta; destruct (m w2) as [[] w3]; by intros [= _ _ _ <-]]. }
    + injection Hrun as _ _ _ <-. done.
    + exfalso. by apply (Hmark _ _ w2 Hw).
Qed.

(** ** Witnesses

    One cached object [b/k], an upstream store that answers every request, a client. *)

Definition demoEndpoint : Endpoint := mkEndpoint "/" "" "s3.example".

Definition demoWorld (plan : list Io.outcome) : World :=
  mkWorld (mkSession demoCache [] (Io.mkWriter [] plan) true false None [] []) None ∅ ∅ (retry idlePeering) [].

Definition answering (status : Z) (body : string) (n : nat) (req : UpstreamRequest) : option HttpResponse :=
  Some (mkHttpResponse status ∅ (-1) (Io.mkReader [bytes_of_string body] Io.EOF false)).

(** The pass-through handler on [b/k] against such a store. *)
Definition demoHandle (plan : list Io.outcome) (status : Z) (body : string) (r : HttpRequest) : Handled * World :=
  handlePassThrough None (fun _ _ _ => mret true)
    (forward demoEndpoint (fun _ => true) Some (answering status body) (fun _ => 7%nat) demoSpool
       (mkUploadOptions "" 100) r) r (mkTarget "b" "k") (demoWorld plan).

Definition demoDelete : HttpRequest := mkHttpRequest "DELETE" "/b/k" "" ∅ None 0.
Definition demoCopy : HttpRequest :=
  mkHttpRequest "PUT" "/b/k" "" {["X-Amz-Copy-Source" := ["/b/other"]]} None 0.

Lemma write_invalidates_witness :
  exists epoch, forgotten (mkTarget "b" "k") demoCache (cache (session (demoHandle [] 204 "" demoDelete).2)) epoch.
Proof.
  assert (Hres : (demoHandle [] 204 "" demoDelete).1 = (204, 0, None)) by (vm_compute; reflexivity).
  assert (Hready : degradedState (session (demoHandle [] 204 "" demoDelete).2) = None) by (vm_compute; reflexivity).
  destruct (demoHandle [] 204 "" demoDelete) as [res w'] eqn:Hrun. cbn [fst snd] in *. subst res.
  destruct (write_invalidates demoEndpoint (fun _ => true) Some (answering 204 "") (fun _ => 7%nat) demoSpool
    (mkUploadOptions "" 100) None (fun _ _ _ => mret true) demoDelete (mkTarget "b" "k") (demoWorld []) w' 204 0)
    as (epoch & Hf & _).
  - intros peer target epoch w. split; reflexivity.
  - vm_compute. reflexivity.
  - exact demoCache_db_ok.
  - exact Hrun.
  - reflexivity.
  - exact Hready.
  - exists epoch. exact Hf.
Defined.

(** C39: a write that succeeded upstream is not invalidated when its response cannot
    be relayed. Take any write to an object for which the handler reports the store's
    success and an error. Then the store was sent the write and answered it with that
    success, the error is that of copying the body of the answer to the client, and
    nothing else happens: the cache, what other requests do to it, the degraded state
    and the pending retries are those from before the write. The proxy stays ready, and
    every page and every object row that was served before is served again. *)
Theorem undelivered_write_stays_cached (endpoint : Endpoint) (builds : UpstreamRequest -> bool)
    (sign : UpstreamRequest -> option UpstreamRequest) (origin : nat -> UpstreamRequest -> option HttpResponse)
    (buf : nat -> nat) (ev : SpoolEnv) (opts : uploadOptions) (router : option Router)
    (send : Peer -> Target -> Z -> P bool) (r : HttpRequest) (target : Target) (w w' : World) (st n : Z) (e : HandlerError) :
  shouldInvalidateAfterWrite r target = true -> isSuccessfulStatus st = true ->
  handlePassThrough router send (forward endpoint builds sign origin buf ev opts r) r target w = ((st, n, Some e), w') ->
  (exists req resp, requests w' = req :: requests w /\
     origin (length (requests w) + length (sent (session w)))%nat req = Some resp /\ rs_Status resp = st) /\
  (exists e', e = HandlerCopy e') /\
  cache (session w') = cache (session w) /\ env (session w') = env (session w) /\
  degradedState (session w') = degradedState (session w) /\ retries w' = retries w.
Proof.
  intros Hwrite Hok. unfold handlePassThrough, mbind, P_bind.
  pose proof (calm_forward endpoint builds sign origin buf ev opts r w) as (Hc & He & Hd & Hr & _).
  destruct (forward _ _ _ _ _ _ _ _ w) as [[[st0 n0] err0] w1] eqn:Hfw. cbn [snd] in Hc, He, Hd, Hr.
  destruct err0 as [e0|]; cbn [andb].
  - intros [= -> -> -> ->]. destruct (forward_result _ _ _ _ _ _ _ _ _ _ _ _ _ Hfw) as [[-> _]|(req & resp & Hq & Ho & Hst & Hcopy)].
    { discriminate Hok. }
    split; [by exists req, resp|]. split_and!; [by apply Hcopy|done..].
  - intros Hrun. exfalso. destruct (isSuccessfulStatus st0 && shouldInvalidateAfterWrite r target); [|by injection Hrun].
    destruct (invalidateObject router send target w1) as [d w2]. destruct d as [x|x]; [by injection Hrun|].
    destruct x; try (by injection Hrun); destruct (markDegraded _ _ w2); by injection Hrun.
Qed.

(** A copy onto a cached object, and a client that is gone when the response is copied
    to it: the page from before the copy is served. *)
Lemma undelivered_write_stays_cached_witness : exists w' n e,
  demoHandle [Io.WFail 0 (Io.Other 1)] 200 "<CopyObjectResult/>" demoCopy = ((200, n, Some e), w') /\
  degradedState (session w') = None /\ cache (session w') = demoCache /\
  (OpenPage (ObjectKey "b" "k") 0 "e1" 0 (cache (session w'))).1 = Ok (Some [x61; x62; x63]).
Proof.
  assert (Hres : (demoHandle [Io.WFail 0 (Io.Other 1)] 200 "<CopyObjectResult/>" demoCopy).1
    = (200, 0, Some (HandlerCopy (Io.Other 1)))) by (vm_compute; reflexivity).
  destruct (demoHandle [Io.WFail 0 (Io.Other 1)] 200 "<CopyObjectResult/>" demoCopy) as [res w'] eqn:Hrun.
  cbn [fst] in Hres. subst res. exists w', 0, (HandlerCopy (Io.Other 1)). split; [reflexivity|].
  destruct (undelivered_write_stays_cached demoEndpoint (fun _ => true) Some (answering 200 "<CopyObjectResult/>") (fun _ => 7%nat)
    demoSpool (mkUploadOptions "" 100) None (fun _ _ _ => mret true) demoCopy (mkTarget "b" "k")
    (demoWorld [Io.WFail 0 (Io.Other 1)]) w' 200 0 (HandlerCopy (Io.Other 1))) as (_ & _ & Hc & _ & Hd & _).
  - vm_compute. reflexivity.
  - reflexivity.
  - exact Hrun.
  - split; [exact Hd|]. split; [exact Hc|]. rewrite Hc. vm_compute. reflexivity.
Defined.
