(* ===== verification/ProxyMeta.v ===== *)
(** * Object metadata in the proxy ([internal/proxy/proxy.go])

    The headers of cached responses, the client's conditions against cached
    metadata, and the metadata fetched from the upstream store. [ParseTime]
    stands for [http.ParseTime]; the properties hold for any date parser. *)

From Stdlib Require Import Ascii.
From S2P Require Import Prelude GoStrings GoNet Sha256 Range S3Request Router PageFrame CachePath CacheDB CacheStore.
From S2P Require Import CacheLogic CacheInv CacheOps CacheRows ProxyPeers ProxySpan ProxyRead ProxyUpload ProxyHttp.
Import Strings.

#[local] Open Scope go_scope.

(** ** Headers of cached responses *)

Definition internalIdentityMetadataHeader : string := "X-Simple-S3-Cache-Internal-Identity".

Definition isInternalIdentityObject (obj : Object) : bool :=
  bool_decide (Http.Get (ob_Headers obj) internalIdentityMetadataHeader = "1").

Definition dropRangeResponseHeaders (header : Http.Header) : Http.Header :=
  fold_left (fun h kv => if HasPrefix (ToLower kv.1) "x-amz-checksum-" then Http.Del h kv.1 else h)
    (map_to_list header) header.

Definition writeCachedObjectHeaders (dst : Http.Header) (obj : Object) (rangeResponse : bool) : Http.Header :=
  let dst := copyResponseHeaders dst (ob_Headers obj) in
  let dst := Http.Del dst internalIdentityMetadataHeader in
  let dst := Http.Set_ dst "Content-Length" (FormatInt (ob_Size obj)) in
  if rangeResponse then dropRangeResponseHeaders (Http.Del dst "Content-Range") else dst.

Definition writeCachedConditionalHeaders (dst : Http.Header) (obj : Object) : Http.Header :=
  fold_left (fun dst key =>
      let value := Http.Get (ob_Headers obj) key in
      if bool_decide (value = "") then dst else Http.Set_ dst key value)
    ["ETag"; "Last-Modified"; "Cache-Control"; "Expires"] dst.

(** The headers of a [206] response. *)
Definition rangeResponseHeaders (dst : Http.Header) (obj : Object) (r : ByteRange) : Http.Header :=
  let dst := writeCachedObjectHeaders dst obj true in
  let dst := Http.Set_ dst "Content-Length" (FormatInt (End r -! Start r +! 1)) in
  Http.Set_ dst "Content-Range"
    ("bytes " +:+ FormatInt (Start r) +:+ "-" +:+ FormatInt (End r) +:+ "/" +:+ FormatInt (ob_Size obj)).

(** ** Conditions *)

Definition strongETagMatches (condition etag : string) : bool :=
  existsb (fun candidate =>
      let candidate := TrimSpace candidate in
      bool_decide (candidate = "*") || bool_decide (candidate = etag))
    (Split condition ","%char).

Definition weakETagMatches (condition etag : string) : bool :=
  let etag := TrimPrefix (TrimSpace etag) "W/" in
  existsb (fun candidate =>
      let candidate := TrimPrefix (TrimSpace candidate) "W/" in
      bool_decide (candidate = "*") || bool_decide (candidate = etag))
    (Split condition ","%char).

Section Conditions.
Context (ParseTime : string -> option Z).

Definition cachedLastModified (obj : Object) : option Z :=
  let value := Http.Get (ob_Headers obj) "Last-Modified" in
  if bool_decide (value = "") then None else ParseTime value.

(** A date condition: whether the object was modified after [since]; [None] is an
    error. *)
Definition modifiedAfter (obj : Object) (since : string) : option bool :=
  modified ← cachedLastModified obj;
  since ← ParseTime since;
  Some (since <? modified).

(** [Ok (Some status)]: the response is this status; [Ok None]: the object is served;
    [Err]: the conditions cannot be decided from the cache. *)
Definition cachedConditionalStatus (header : Http.Header) (obj : Object) : result () (option Z) :=
  let ifMatch := Http.Get header "If-Match" in
  if negb (bool_decide (ifMatch = "")) && negb (strongETagMatches ifMatch (ob_ETag obj)) then Ok (Some 412)
  else
    let ifUnmodifiedSince := Http.Get header "If-Unmodified-Since" in
    let unmodified :=
      if negb (bool_decide (ifUnmodifiedSince = "")) && bool_decide (ifMatch = "")
      then modifiedAfter obj ifUnmodifiedSince else Some false in
    match unmodified with
    | None => Err ()
    | Some true => Ok (Some 412)
    | Some false =>
        let ifNoneMatch := Http.Get header "If-None-Match" in
        if negb (bool_decide (ifNoneMatch = "")) then
          if weakETagMatches ifNoneMatch (ob_ETag obj) then Ok (Some 304) else Ok None
        else
          let ifModifiedSince := Http.Get header "If-Modified-Since" in
          if negb (bool_decide (ifModifiedSince = "")) then
            match modifiedAfter obj ifModifiedSince with
            | None => Err ()
            | Some true => Ok None
            | Some false => Ok (Some 304)
            end
          else Ok None
    end.

End Conditions.

(** ** Upstream metadata *)

Definition responseHeaders (resp : HttpResponse) : Http.Header :=
  let headers := copyResponseHeaders ∅ (rs_Header resp) in
  if 0 <=? rs_ContentLength resp
  then Http.Set_ headers "Content-Length" (FormatInt (rs_ContentLength resp)) else headers.

Definition responseSize (resp : HttpResponse) : option Z :=
  if 0 <=? rs_ContentLength resp then Some (rs_ContentLength resp)
  else
    let sizeText := Http.Get (rs_Header resp) "Content-Length" in
    if bool_decide (sizeText = "") then None else ParseInt sizeText 10.

(** The page sizes the proxy was configured with. *)
Record PageSizes := mkPageSizes { pageSize : Z; pageSizeByBucket : gmap string Z }.

Definition pageSizeForBucket (sizes : PageSizes) (bucket : string) : Z :=
  match pageSizeByBucket sizes !! bucket with
  | Some pageSize => if pageSize >? 0 then pageSize else ProxyMeta.pageSize sizes
  | None => ProxyMeta.pageSize sizes
  end.

(** What a metadata request gives: an object, or the response that is not [200]. *)
Inductive Metadata := Stored (obj : Object) | Answered (status : Z) (headers : Http.Header).

Section Metadata.
Context `{HeaderCodec}.
Context (endpoint : Endpoint) (builds : UpstreamRequest -> bool)
  (sign : UpstreamRequest -> option UpstreamRequest) (origin : nat -> UpstreamRequest -> option HttpResponse)
  (sizes : PageSizes).

Definition fetchMetadata (r : HttpRequest) (target : Target) : P (result HandlerError Metadata) :=
  match newUpstreamRequest endpoint builds r MethodHead with
  | None => mret (Err HandlerBuild)
  | Some req =>
      match sign (withHeader (Http.Del (up_Header req) "Range") req) with
      | None => mret (Err HandlerSign)
      | Some req =>
          resp ← clientDo origin req;
          match resp with
          | None => mret (Err HandlerUpstream)
          | Some resp =>
              let headers := responseHeaders resp in
              if negb (rs_Status resp =? 200) then mret (Ok (Answered (rs_Status resp) headers))
              else match responseSize resp with
              | None => mret (Err HandlerMetadataSize)
              | Some size =>
                  obj ← cacheCall (PutObject (mkObjectMetadata (Bucket target) (Key target)
                    (Http.Get headers "ETag") size (pageSizeForBucket sizes (Bucket target)) headers));
                  match obj with
                  | Err _ => mret (Err HandlerMetadataStore)
                  | Ok obj => mret (Ok (Stored obj))
                  end
              end
          end
      end
  end.

(** [Ok None] is the result [(obj, false, nil)]. *)
Definition ensureObjectMetadata (r : HttpRequest) (target : Target) : P (result HandlerError (option Object)) :=
  obj ← cacheCall (GetObject (Bucket target) (Key target));
  match obj with
  | Err e => mret (Err (HandlerCache e))
  | Ok obj =>
      match obj with
      | Some obj =>
          if negb (isInternalIdentityObject obj) then mret (Ok (Some obj))
          else
            m ← fetchMetadata r target;
            mret (match m with Err e => Err e | Ok (Stored obj) => Ok (Some obj) | Ok (Answered _ _) => Ok None end)
      | None =>
          m ← fetchMetadata r target;
          mret (match m with Err e => Err e | Ok (Stored obj) => Ok (Some obj) | Ok (Answered _ _) => Ok None end)
      end
  end.

End Metadata.

(** ** Read strategy *)

Definition pageCountForObject (objectSize pageSize : Z) : Z :=
  if (objectSize <=? 0) || (pageSize <=? 0) then 0
  else quot64 (objectSize +! pageSize -! 1) pageSize.

(** [selectReadStrategy]: the strategy, given [p.readSharding] and [p.pageShardMin]. *)
Definition selectReadStrategy (readSharding : string) (pageShardMin : Z) (sizes : PageSizes) (bucket : string)
    (objectSize : Z) : string :=
  let configured := if bool_decide (readSharding = "") then "auto" else readSharding in
  let pageCount := pageCountForObject objectSize (pageSizeForBucket sizes bucket) in
  if bool_decide (configured = "auto") then
    let minPages := if pageShardMin <=? 0 then 2 else pageShardMin in
    if minPages <=? pageCount then "page" else "object"
  else configured.
