(* ===== verification/ProxyAuth.v ===== *)
(** * Peer authentication ([internal/proxy/proxy.go])

    Requests between peers carry the sender, the ring and a signature: an
    HMAC-SHA-256 under the shared secret of the method, the request URI, the sender,
    the ring, a timestamp and the digest of the body. [signInternalPeerRequest]
    makes it, [validateInternalPeerHeaders] checks it before any internal route. *)

From Stdlib Require Import Ascii.
From S2P Require Import Prelude GoStrings GoNet Sha256 Range S3Request Router PageFrame CachePath CacheDB CacheStore.
From S2P Require Import ProxyPeers ProxySpan ProxyRead ProxyUpload ProxyHttp.
Import Strings.

#[local] Open Scope go_scope.

(** ** HMAC and hexadecimal decoding *)

Module Hmac.

Definition byte_xor (k : Z) (b : byte) : byte := byte_of_Z (Z.lxor (Z_of_byte b) k).

(** The key, hashed when it is longer than a block, filled up to a block. *)
Definition blockKey (key : bytes) : bytes :=
  let key := if (64 <? length key)%nat then Sha256.sum256 key else key in
  key ++ replicate (64 - length key) (byte_of_Z 0).

(** [hmac.New(sha256.New, key)], written with [msg] and summed *)
Definition sum (key msg : bytes) : bytes :=
  let k := blockKey key in
  Sha256.sum256 ((byte_xor 92 <$> k) ++ Sha256.sum256 ((byte_xor 54 <$> k) ++ msg)).

End Hmac.

(** [hex.DecodeString] *)
Fixpoint hexDecode (s : string) : option bytes :=
  match s with
  | EmptyString => Some []
  | String _ EmptyString => None
  | String a (String b r) =>
      x ← Url.unhex a; y ← Url.unhex b; rest ← hexDecode r;
      Some (byte_of_Z (Z.of_N x * 16 + Z.of_N y) :: rest)
  end.

(** ** Signatures *)

(** A request the server received: [sr_URI] is [r.URL.RequestURI()]. *)
Record ServerRequest := mkServerRequest { sr_http : HttpRequest; sr_URI : string }.

(** The signed text. *)
Definition signedText (method requestURI from ringID timestamp : string) (body : bytes) : string :=
  method +:+ nl +:+ requestURI +:+ nl +:+ TrimSpace from +:+ nl +:+ TrimSpace ringID +:+ nl +:+
  TrimSpace timestamp +:+ nl +:+ Sha256.hex (Sha256.sum256 body).

Definition internalPeerSignature (secret method requestURI from ringID timestamp : string) (body : bytes) : bytes :=
  Hmac.sum (bytes_of_string secret)
    (bytes_of_string (signedText method requestURI from ringID timestamp body)).

(** [now] is [time.Now().Unix()]; [None] is the error without a secret. *)
Definition signInternalPeerRequest (secret : string) (now : Z) (body : bytes) (r : ServerRequest)
    : option ServerRequest :=
  let secret := TrimSpace secret in
  if bool_decide (secret = "") then None
  else
    let timestamp := FormatInt now in
    let q := sr_http r in
    let h := Http.Set_ (hr_Header q) peerTimestampHeader timestamp in
    let h := Http.Set_ h peerSignatureHeader (Sha256.hex (internalPeerSignature secret (hr_Method q) (sr_URI r)
               (Http.Get h peerFromHeader) (Http.Get h peerRingHeader) timestamp body)) in
    Some (mkServerRequest (mkHttpRequest (hr_Method q) (hr_Path q) (hr_RawQuery q) h (hr_Body q)
            (hr_ContentLength q)) (sr_URI r)).

Definition internalObjectRoutePrefix : string := "/internal/v1/objects".
Definition internalPeerAuthBodyLimit : Z := 16777216.
Definition internalPeerClockSkew : Z := 300 * 1000000000.

(** A refusal: the text and status of the response. *)
Definition Refusal : Type := string * Z.

Definition readAndRestoreInternalPeerBody (r : HttpRequest) : result Refusal (bytes * HttpRequest) :=
  match hr_Body r with
  | None => Ok ([], r)
  | Some body =>
      if zlen (Io.content body) >? internalPeerAuthBodyLimit then Err ("peer request body too large", 413)
      else if negb (bool_decide (Io.fin body = Io.EOF)) then Err ("read peer request body", 400)
      else Ok (Io.content body,
               mkHttpRequest (hr_Method r) (hr_Path r) (hr_RawQuery r) (hr_Header r)
                 (Some (bytesReader (Io.content body))) (hr_ContentLength r))
  end.

(** [now] is the receiver's clock in nanoseconds. The request is returned as it is
    left, its body made readable again. *)
Definition validateInternalPeerSignature (peerAuthSecret : string) (now : Z) (r : ServerRequest)
    : result Refusal ServerRequest :=
  let q := sr_http r in
  let secret := TrimSpace peerAuthSecret in
  if bool_decide (secret = "") then Err ("peer auth is not configured", 401)
  else
    let timestampText := TrimSpace (Http.Get (hr_Header q) peerTimestampHeader) in
    if bool_decide (timestampText = "") then Err ("missing peer signature timestamp", 401)
    else match ParseInt timestampText 10 with
    | None => Err ("invalid peer signature timestamp", 401)
    | Some timestamp =>
        let delta := now - timestamp * 1000000000 in
        if (internalPeerClockSkew <? delta) || (delta <? - internalPeerClockSkew)
        then Err ("stale peer signature timestamp", 401)
        else
          let signatureText := TrimSpace (Http.Get (hr_Header q) peerSignatureHeader) in
          if bool_decide (signatureText = "") then Err ("missing peer signature", 401)
          else match hexDecode signatureText with
          | None => Err ("invalid peer signature", 401)
          | Some got =>
              b ← (if HasPrefix (hr_Path q) (internalObjectRoutePrefix +:+ "/") then Ok ([], q)
                   else readAndRestoreInternalPeerBody q);
              let '(body, q) := b in
              let want := internalPeerSignature secret (hr_Method q) (sr_URI r) (Http.Get (hr_Header q) peerFromHeader)
                (Http.Get (hr_Header q) peerRingHeader) timestampText body in
              if negb (bool_decide (got = want)) then Err ("invalid peer signature", 401)
              else Ok (mkServerRequest q (sr_URI r))
          end
    end.

(** The refusal may come with a degradation of the proxy. *)
Definition validateInternalPeerHeaders (rt : Router) (peerAuthSecret : string) (now : Z) (r : ServerRequest)
    : result Refusal ServerRequest * option (string * list (string * string)) :=
  let h := hr_Header (sr_http r) in
  let from := TrimSpace (Http.Get h peerFromHeader) in
  if bool_decide (from = "") then (Err ("missing peer identity", 401), None)
  else match PeerByID rt from with
  | None => (Err ("unknown peer identity", 403), None)
  | Some _ =>
      let ring := TrimSpace (Http.Get h peerRingHeader) in
      if bool_decide (ring = "") || negb (bool_decide (ring = ringID rt)) then
        (Err ("peer ring mismatch", 502),
         if bool_decide (ring = "") then None else Some ("peer ring mismatch", [("peer_ring_id", ring)]))
      else (validateInternalPeerSignature peerAuthSecret now r, None)
  end.

(** ** Facts *)

Lemma unhex_hex_char n : (n < 16)%N -> Url.unhex (Sha256.hex_char n) = Some n.
Proof.
  intros Hn. pose (ok n := match Url.unhex (Sha256.hex_char n) with Some m => (m =? n)%N | None => false end).
  assert (Hok : ok n = true) by (apply (N_below ok 16); [by vm_compute|lia]).
  unfold ok in Hok. destruct (Url.unhex (Sha256.hex_char n)) as [m|]; [|done].
  by apply N.eqb_eq in Hok as ->.
Qed.

(** Decoding inverts [hex.EncodeToString]. *)
Lemma hexDecode_hex l : hexDecode (Sha256.hex l) = Some l.
Proof.
  induction l as [|b l IH]; [done|]. cbn [Sha256.hex hexDecode].
  pose proof (Byte.to_N_bounded b) as Hb.
  assert (Byte.to_N b / 16 < 16)%N by (apply N.Div0.div_lt_upper_bound; lia).
  assert (Byte.to_N b mod 16 < 16)%N by by apply N.mod_lt.
  rewrite !unhex_hex_char, IH by done. cbn. do 2 f_equal. apply Z_of_byte_inj.
  rewrite byte_of_Z_to_Z. unfold Z_of_byte. pose proof (N.div_mod (Byte.to_N b) 16 ltac:(done)) as Hdm.
  rewrite Z.mod_small by lia. lia.
Qed.

Lemma hex_last l : l <> [] -> exists t n, (n < 16)%N /\ Sha256.hex l = t +:+ String (Sha256.hex_char n) "".
Proof.
  induction l as [|b l IH]; [done|]. intros _. cbn [Sha256.hex]. destruct l as [|b' l].
  - exists (String (Sha256.hex_char (Byte.to_N b / 16)) ""), (Byte.to_N b mod 16)%N. split; [by apply N.mod_lt|done].
  - destruct IH as (t & n & Hn & Ht); [done|]. rewrite Ht.
    by exists (String (Sha256.hex_char (Byte.to_N b / 16)) (String (Sha256.hex_char (Byte.to_N b mod 16)) t)), n.
Qed.

Lemma TrimSpace_hex l : TrimSpace (Sha256.hex l) = Sha256.hex l.
Proof.
  destruct l as [|b l]; [done|]. destruct (hex_last (b :: l)) as (t & n & Hn & Ht); [done|].
  cbn [Sha256.hex] in *. pose proof (Byte.to_N_bounded b).
  apply (TrimSpace_id _ _ _ _ Ht).
  - apply (N_below (fun n => no_rune_starts space_runes (Sha256.hex_char n)) 16); [by vm_compute|].
    apply N.Div0.div_lt_upper_bound. lia.
  - apply (N_below (fun n => no_rune_starts (srev <$> space_runes) (Sha256.hex_char n)) 16); [by vm_compute|lia].
Qed.

Lemma TrimSpace_FormatInt z : 0 <= z -> TrimSpace (FormatInt z) = FormatInt z.
Proof.
  intros Hz. unfold FormatInt. destruct (pretty_digits z Hz) as [Hall (t & d & Ht & Hd)].
  destruct (pretty_cons z Hz) as (m & s & Hm & Hs). rewrite Hs in *.
  apply (TrimSpace_id _ _ _ _ Ht).
  - apply (is_digit_cases (fun c => no_rune_starts space_runes c)); [by vm_compute|]. by exists m.
  - apply (is_digit_cases (fun c => no_rune_starts (srev <$> space_runes) c)); [by vm_compute|done].
Qed.

(** Cutting at the first newline. *)
Lemma line_inj a b x y :
  ContainsByte a (chr 10) = false -> ContainsByte b (chr 10) = false ->
  a +:+ nl +:+ x = b +:+ nl +:+ y -> a = b /\ x = y.
Proof.
  intros Ha Hb Heq. change (nl +:+ x) with (String (chr 10) x) in Heq.
  change (nl +:+ y) with (String (chr 10) y) in Heq.
  pose proof (Cut_append a (chr 10) x Ha) as H1. pose proof (Cut_append b (chr 10) y Hb) as H2.
  rewrite Heq, H2 in H1. by injection H1 as -> ->.
Qed.

(** A field that cannot break the line structure, as header values and request URIs. *)
Definition one_line (s : string) : Prop := ContainsByte s (chr 10) = false.

Definition one_line_fields (method requestURI from ringID timestamp : string) : Prop :=
  one_line method /\ one_line requestURI /\ one_line (TrimSpace from) /\ one_line (TrimSpace ringID) /\
  one_line (TrimSpace timestamp).

Lemma signedText_inj m u f g t b m' u' f' g' t' b' :
  one_line_fields m u f g t -> one_line_fields m' u' f' g' t' ->
  signedText m u f g t b = signedText m' u' f' g' t' b' ->
  m = m' /\ u = u' /\ TrimSpace f = TrimSpace f' /\ TrimSpace g = TrimSpace g' /\
  TrimSpace t = TrimSpace t' /\ Sha256.sum256 b = Sha256.sum256 b'.
Proof.
  intros (H1 & H2 & H3 & H4 & H5) (G1 & G2 & G3 & G4 & G5) Heq. unfold signedText in Heq.
  apply line_inj in Heq as [-> Heq]; [|done..]. apply line_inj in Heq as [-> Heq]; [|done..].
  apply line_inj in Heq as [-> Heq]; [|done..]. apply line_inj in Heq as [-> Heq]; [|done..].
  apply line_inj in Heq as [-> Heq]; [|done..]. apply hex_inj in Heq. done.
Qed.

(** The body the signature covers: none on the routes of objects, as in [validateInternalPeerSignature]. *)
Definition covered (q : HttpRequest) : bytes :=
  if HasPrefix (hr_Path q) (internalObjectRoutePrefix +:+ "/") then []
  else from_option Io.content [] (hr_Body q).

(** The receiver takes in the body: nothing on the object route, the whole of a
    body within the limit elsewhere. *)
Definition readable (q : HttpRequest) : Prop :=
  HasPrefix (hr_Path q) (internalObjectRoutePrefix +:+ "/") = true \/
  forall body, hr_Body q = Some body -> zlen (Io.content body) <= internalPeerAuthBodyLimit /\ Io.fin body = Io.EOF.

(** The same request, a body again readable from its start. *)
Definition same_request (q q' : HttpRequest) : Prop :=
  hr_Method q' = hr_Method q /\ hr_Path q' = hr_Path q /\ hr_RawQuery q' = hr_RawQuery q /\
  hr_Header q' = hr_Header q /\ hr_ContentLength q' = hr_ContentLength q /\
  from_option Io.content [] (hr_Body q') = from_option Io.content [] (hr_Body q).

Lemma restore_body q :
  match (if HasPrefix (hr_Path q) (internalObjectRoutePrefix +:+ "/") then Ok ([], q)
         else readAndRestoreInternalPeerBody q) with
  | Ok (body, q') => body = covered q /\ same_request q q'
  | Err _ => ~ readable q
  end.
Proof.
  unfold covered, readable, readAndRestoreInternalPeerBody.
  destruct (HasPrefix (hr_Path q) _); [by split_and!|].
  destruct (hr_Body q) as [body|] eqn:Hb; cbn; [|by split_and!].
  destruct (zlen (Io.content body) >? internalPeerAuthBodyLimit) eqn:Hl.
  { rewrite Z.gtb_ltb in Hl. apply Z.ltb_lt in Hl. intros [[=]|H]. destruct (H body eq_refl). lia. }
  case_bool_decide; cbn.
  - split; [done|]. unfold same_request. rewrite Hb. cbn [hr_Method hr_Path hr_RawQuery hr_Header hr_ContentLength hr_Body from_option].
    rewrite content_bytesReader. by split_and!.
  - intros [[=]|Hr]. by destruct (Hr body eq_refl).
Qed.

(** ** Properties *)

(** C15: What peers sign, peers accept. A request between two members of a ring that
    share the secret, signed at [sent] and received within five minutes either way by
    the receiver's clock, passes every check of its headers and signature and is
    handed on unchanged, its body still readable; the receiver does not degrade. *)
Theorem signed_request_accepted (rt : Router) (secret : string) (sent now : Z) (r r' : ServerRequest) (peer : Peer)
    (Hsign : signInternalPeerRequest secret sent (covered (sr_http r)) r = Some r')
    (Hbody : readable (sr_http r))
    (Hfrom : PeerByID rt (TrimSpace (Http.Get (hr_Header (sr_http r)) peerFromHeader)) = Some peer)
    (Hname : TrimSpace (Http.Get (hr_Header (sr_http r)) peerFromHeader) <> "")
    (Hring : TrimSpace (Http.Get (hr_Header (sr_http r)) peerRingHeader) = ringID rt) (Hid : ringID rt <> "")
    (Hsent : 0 <= sent <= int64_max)
    (Hclock : - internalPeerClockSkew <= now - sent * 1000000000 <= internalPeerClockSkew) :
  exists r2, validateInternalPeerHeaders rt secret now r' = (Ok r2, None) /\
    same_request (sr_http r') (sr_http r2) /\ sr_URI r2 = sr_URI r.
Proof.
  unfold signInternalPeerRequest in Hsign. case_bool_decide as Hsecret; [done|]. injection Hsign as <-.
  set (q := sr_http r) in *. set (h1 := Http.Set_ (hr_Header q) peerTimestampHeader (FormatInt sent)).
  set (sig := internalPeerSignature _ _ _ _ _ _ _). set (h2 := Http.Set_ h1 peerSignatureHeader (Sha256.hex sig)).
  assert (Hget : forall k, Http.CanonicalHeaderKey peerTimestampHeader <> Http.CanonicalHeaderKey k ->
    Http.CanonicalHeaderKey peerSignatureHeader <> Http.CanonicalHeaderKey k ->
    Http.Get h2 k = Http.Get (hr_Header q) k /\ Http.Get h1 k = Http.Get (hr_Header q) k).
  { intros k H1 H2. unfold Http.Get, h2, h1. by rewrite !Values_Set_ne. }
  destruct (Hget peerFromHeader) as [Hf2 Hf1]; [by vm_compute..|].
  destruct (Hget peerRingHeader) as [Hr2 Hr1]; [by vm_compute..|].
  assert (Ht2 : Http.Get h2 peerTimestampHeader = FormatInt sent).
  { unfold Http.Get, h2. rewrite Values_Set_ne by by vm_compute. unfold h1. by rewrite Values_Set_. }
  assert (Hs2 : Http.Get h2 peerSignatureHeader = Sha256.hex sig) by apply Get_Set_.
  set (q' := mkHttpRequest _ _ _ h2 _ _).
  assert (Hcov : covered q' = covered q /\ readable q') by (split; [done|exact Hbody]).
  unfold validateInternalPeerHeaders. cbn [sr_http hr_Header q'].
  rewrite Hf2, Hr2, bool_decide_false, Hfrom, Hring, bool_decide_false, bool_decide_true by done.
  cbn [orb negb]. unfold validateInternalPeerSignature. cbn [sr_http hr_Header q'].
  rewrite bool_decide_false by done. rewrite Ht2, TrimSpace_FormatInt by lia.
  rewrite bool_decide_false by (apply FormatInt_nonempty; lia).
  rewrite ParseInt_FormatInt by (int64_unfold; lia).
  rewrite (proj2 (Z.ltb_ge _ _)), (proj2 (Z.ltb_ge _ _)) by lia. cbn [orb].
  rewrite Hs2, TrimSpace_hex.
  assert (Hne : Sha256.hex sig <> "").
  { intros He. apply (f_equal String.length) in He. rewrite length_hex in He. unfold sig, internalPeerSignature in He.
    unfold Hmac.sum in He. cbv zeta in He. rewrite length_sum256 in He. done. }
  rewrite bool_decide_false, hexDecode_hex by done.
  pose proof (restore_body q') as Hrest.
  change (mkHttpRequest (hr_Method q) (hr_Path q) (hr_RawQuery q) h2 (hr_Body q) (hr_ContentLength q)) with q'.
  destruct (if HasPrefix (hr_Path q') _ then _ else _) as [[body q2]|e]; [|by destruct Hrest].
  destruct Hrest as [-> (Hm & Hp & Hq & Hh & Hc & Hb)]. cbn [mbind result_bind].
  assert (Hwant : sig = internalPeerSignature (TrimSpace secret) (hr_Method q2) (sr_URI r)
      (Http.Get (hr_Header q2) peerFromHeader) (Http.Get (hr_Header q2) peerRingHeader) (FormatInt sent) (covered q')).
  { unfold sig. rewrite Hm, Hh. cbn [hr_Method hr_Header q']. by rewrite Hf2, Hr2, Hf1, Hr1. }
  cbn [sr_URI]. rewrite <- Hwant, bool_decide_true by done. cbn [negb]. eexists. split; [done|]. by split_and!.
Qed.

(** On the routes of objects the body is not signed: a request that is accepted there is
    accepted with any other body. *)
Theorem object_body_unsigned (rt : Router) (secret : string) (now : Z) (r r' : ServerRequest) (body : option Io.Reader) :
  HasPrefix (hr_Path (sr_http r)) (internalObjectRoutePrefix +:+ "/") = true ->
  validateInternalPeerHeaders rt secret now r = (Ok r', None) ->
  let q := sr_http r in
  let other := mkServerRequest (mkHttpRequest (hr_Method q) (hr_Path q) (hr_RawQuery q) (hr_Header q) body (hr_ContentLength q)) (sr_URI r) in
  validateInternalPeerHeaders rt secret now other = (Ok other, None).
Proof.
  intros Hp Hok. cbv zeta. unfold validateInternalPeerHeaders, validateInternalPeerSignature in *.
  cbn [sr_http hr_Header hr_Path hr_Method sr_URI] in *. rewrite Hp in *. cbn [mbind result_bind] in *.
  revert Hok. repeat case_match; intros; cbn [hr_Method hr_Header] in *; simplify_eq; congruence || done.
Qed.

(** C16: What is accepted was signed. A request that passes the checks names a member
    of the receiver's own ring as its sender, was signed within five minutes of the
    receiver's clock, and carries the HMAC under the secret of a text that determines
    its method, URI, sender, ring, timestamp and, except on the routes of objects, the
    digest of its body: no other request has the same text, if no field has a line break.
    On the routes of objects the digest is that of the empty text, and the body is not
    authenticated ([object_body_unsigned]). The request is handed on unchanged and without
    degrading the receiver. *)
Theorem accepted_request_signed (rt : Router) (secret : string) (now : Z) (r r' : ServerRequest)
    (d : option (string * list (string * string)))
    (Hok : validateInternalPeerHeaders rt secret now r = (Ok r', d)) :
  let q := sr_http r in
  let get := Http.Get (hr_Header q) in
  let digested := if HasPrefix (hr_Path q) "/internal/v1/objects/" then [] else from_option Io.content [] (hr_Body q) in
  let text := signedText (hr_Method q) (sr_URI r) (get peerFromHeader) (get peerRingHeader)
                (TrimSpace (get peerTimestampHeader)) digested in
  d = None /\ is_Some (PeerByID rt (TrimSpace (get peerFromHeader))) /\
  TrimSpace (get peerRingHeader) = ringID rt /\
  (exists t, ParseInt (TrimSpace (get peerTimestampHeader)) 10 = Some t /\
     - internalPeerClockSkew <= now - t * 1000000000 <= internalPeerClockSkew) /\
  hexDecode (TrimSpace (get peerSignatureHeader))
    = Some (Hmac.sum (bytes_of_string (TrimSpace secret)) (bytes_of_string text)) /\
  TrimSpace secret <> "" /\ same_request q (sr_http r') /\ sr_URI r' = sr_URI r /\
  (forall m u f g t b, one_line_fields m u f g t ->
     one_line_fields (hr_Method q) (sr_URI r) (get peerFromHeader) (get peerRingHeader)
       (TrimSpace (get peerTimestampHeader)) ->
     signedText m u f g t b = text ->
     m = hr_Method q /\ u = sr_URI r /\ TrimSpace f = TrimSpace (get peerFromHeader) /\
     TrimSpace g = TrimSpace (get peerRingHeader) /\ Sha256.sum256 b = Sha256.sum256 digested).
Proof.
  cbv zeta. fold (covered (sr_http r)). unfold validateInternalPeerHeaders in Hok. case_bool_decide as Hfrom; [done|].
  destruct (PeerByID _ _) as [peer|] eqn:Hpeer; [|done].
  case_bool_decide as Hring0; cbn [orb] in Hok; [done|]. case_bool_decide as Hring; cbn [negb] in Hok; [|done].
  injection Hok as Hok <-. unfold validateInternalPeerSignature in Hok.
  case_bool_decide as Hsecret; [done|]. case_bool_decide as Hts; [done|].
  destruct (ParseInt _ 10) as [t|] eqn:Ht; [|done].
  destruct ((internalPeerClockSkew <? _) || _) eqn:Hskew; [done|]. zbool.
  case_bool_decide as Hsig; [done|]. destruct (hexDecode _) as [got|] eqn:Hgot; [|done].
  pose proof (restore_body (sr_http r)) as Hrest.
  destruct (if HasPrefix (hr_Path (sr_http r)) _ then _ else _) as [[body q2]|e]; [|done].
  destruct Hrest as [-> Hsame]. pose proof Hsame as (Hm & Hp & Hq & Hh & Hc & Hb). cbn [mbind result_bind] in Hok.
  case_bool_decide as Hmac; cbn [negb] in Hok; [|done]. injection Hok as <-.
  split_and!; try done.
  - exists t. split; [done|lia].
  - by rewrite Hmac, Hm, Hh.
  - intros m u f g ts b H1 H2 Heq. destruct (signedText_inj _ _ _ _ _ _ _ _ _ _ _ _ H1 H2 Heq) as (? & ? & ? & ? & _ & ?).
    by split_and!.
Qed.

(** ** Witnesses *)

Definition demoPeers : list Peer := [mkPeer "p1" "http://p1"; mkPeer "p2" "http://p2"].
Definition demoRouter : Router :=
  match newRouter "p2" demoPeers true with Ok rt => rt | Err _ => mkRouter "" [] ∅ "" end.

Definition demoInternal : ServerRequest :=
  mkServerRequest (mkHttpRequest "POST" "/internal/v1/invalidate" ""
    (Http.Set_ (Http.Set_ ∅ peerFromHeader "p1") peerRingHeader (ringID demoRouter))
    (Some (bytesReader (bytes_of_string "{}"))) 2) "/internal/v1/invalidate".

Definition demoSigned : ServerRequest :=
  default demoInternal (signInternalPeerRequest "s" 1000 (covered (sr_http demoInternal)) demoInternal).

Lemma signed_request_accepted_witness :
  exists r2, validateInternalPeerHeaders demoRouter "s" 1000000000001 demoSigned = (Ok r2, None).
Proof.
  destruct (signed_request_accepted demoRouter "s" 1000 1000000000001 demoInternal demoSigned (mkPeer "p1" "http://p1"))
    as (r2 & H & _).
  - reflexivity.
  - right. intros body [= <-]. split; [by vm_compute|reflexivity].
  - vm_compute. reflexivity.
  - vm_compute. discriminate.
  - vm_compute. reflexivity.
  - vm_compute. discriminate.
  - int64_unfold. lia.
  - unfold internalPeerClockSkew. lia.
  - exists r2. exact H.
Defined.

Lemma accepted_request_signed_witness :
  exists r2, validateInternalPeerHeaders demoRouter "s" 1000000000001 demoSigned = (Ok r2, None) /\
    same_request (sr_http demoSigned) (sr_http r2).
Proof.
  assert (Hok : is_ok (validateInternalPeerHeaders demoRouter "s" 1000000000001 demoSigned).1 = true)
    by (vm_compute; reflexivity).
  destruct (validateInternalPeerHeaders demoRouter "s" 1000000000001 demoSigned) as [[r2|e] d] eqn:E; [|done].
  destruct (accepted_request_signed _ _ _ _ _ _ E) as (-> & _ & _ & _ & _ & _ & Hs & _).
  exists r2. split; [reflexivity|exact Hs].
Defined.
