(* ===== verification/ProxyBase.v ===== *)
(** * The proxy and its connections ([internal/proxy/proxy.go])

    The fields of [Proxy], its requests to the upstream store as the operations of
    the other files see them, and its requests to other peers: a request that is
    handed to the peer that owns the object ([forwardToPeer]) and the message that
    tells a peer of an invalidation ([sendPeerInvalidation]). *)

From Stdlib Require Import Ascii.
From S2P Require Import Prelude GoStrings GoNet Sha256 Range S3Request Router PageFrame CachePath CacheDB CacheStore.
From S2P Require Import CacheLogic CacheInv CacheOps CacheRows ProxyPeers ProxySpan ProxyRead.
From S2P Require Import ProxyUpload ProxyHttp ProxyWrite ProxyMeta ProxyAuth.
Import Strings.

#[local] Open Scope go_scope.

(** ** State *)

(** The fields of [Proxy] and what it is connected to: [origin] is the upstream
    store and [peerOrigin] the other peers, each given the number of requests sent
    before; [sign] the signer; [clock] the time in seconds when a request is signed;
    [order] the order in which a map is iterated over. *)
Record Proxy := mkProxy {
  px_endpoint : Endpoint;
  px_builds : UpstreamRequest -> bool;
  px_sign : UpstreamRequest -> option UpstreamRequest;
  px_origin : nat -> UpstreamRequest -> option HttpResponse;
  px_cached : bool;
  px_sizes : PageSizes;
  px_upload : uploadOptions;
  px_spool : SpoolEnv;
  px_router : option Router;
  px_peerOrigin : nat -> UpstreamRequest -> option HttpResponse;
  px_secret : string;
  px_readSharding : string;
  px_pageShardMin : Z;
  px_ParseTime : string -> option Z;
  px_clock : nat -> Z;
  px_buf : nat -> nat;
  px_order : forall A, list A -> list A }.

Definition internalV1Prefix : string := "/internal/v1/".

(** The bodies of the requests between peers. *)
Record internalPageReadRequest := mkPageRead {
  pr_Bucket : string; pr_Key : string; pr_ObjectSize : Z; pr_PageSize : Z; pr_ETag : string;
  pr_Epoch : Z; pr_Pages : list Z }.

Record internalInvalidateRequest := mkInvalidate { iv_Bucket : string; iv_Key : string; iv_Epoch : Z }.

(** [encoding/json] on them: decoding what was encoded gives it back when the
    strings are valid UTF-8, which [json_text] stands for; an object that is cut short
    does not decode. *)
Class PeerCodec := {
  marshalPageRead : internalPageReadRequest -> bytes;
  unmarshalPageRead : bytes -> option internalPageReadRequest;
  marshalInvalidate : internalInvalidateRequest -> bytes;
  unmarshalInvalidate : bytes -> option internalInvalidateRequest;
  json_text : string -> Prop;
  pageRead_roundtrip q : json_text (pr_Bucket q) -> json_text (pr_Key q) -> json_text (pr_ETag q) ->
    unmarshalPageRead (marshalPageRead q) = Some q;
  pageRead_truncated q n : (n < length (marshalPageRead q))%nat -> unmarshalPageRead (take n (marshalPageRead q)) = None;
  invalidate_roundtrip q : json_text (iv_Bucket q) -> json_text (iv_Key q) ->
    unmarshalInvalidate (marshalInvalidate q) = Some q;
  invalidate_truncated q n :
    (n < length (marshalInvalidate q))%nat -> unmarshalInvalidate (take n (marshalInvalidate q)) = None }.

(** [RequestURI()] of an absolute URL without user information and fragment. *)
Fixpoint uriOf (url : string) : string :=
  match url with
  | EmptyString => "/"
  | String c rest =>
      if HasPrefix url "://" then
        let '(_, path, found) := Cut (sdrop 3 url) "/" in if found : bool then "/" +:+ path else "/"
      else uriOf rest
  end.

Section Handlers.
Context (p : Proxy) `{HeaderCodec, PeerCodec}.

(** The number of requests sent so far. *)
Definition sentSoFar : P nat := fun w => ((length (requests w) + length (sent (session w)))%nat, w).

Definition doForward (r : HttpRequest) : P Handled :=
  forward (px_endpoint p) (px_builds p) (px_sign p) (px_origin p) (px_buf p) (px_spool p) (px_upload p) r.

Definition upstreamMetadata (r : HttpRequest) (target : Target) : P (result HandlerError Metadata) :=
  fetchMetadata (px_endpoint p) (px_builds p) (px_sign p) (px_origin p) (px_sizes p) r target.

Definition objectMetadata (r : HttpRequest) (target : Target) : P (result HandlerError (option Object)) :=
  ensureObjectMetadata (px_endpoint p) (px_builds p) (px_sign p) (px_origin p) (px_sizes p) r target.

(** The request for a page of an object version. *)
Definition pageRequest (r : HttpRequest) (rangeHeader ifMatch : string) : option UpstreamRequest :=
  req ← newUpstreamRequest (px_endpoint p) (px_builds p) r MethodGet;
  px_sign p (withHeader (Http.Set_ (Http.Set_ (up_Header req) "Range" rangeHeader) "If-Match" ifMatch) req).

(** The upstream store as the page fetches of a request see it, after [n] requests. *)
Definition pageUpstream (n : nat) (r : HttpRequest) (k : nat) (rangeHeader ifMatch : string) : Reply :=
  match pageRequest r rangeHeader ifMatch with
  | None => NoReply
  | Some req =>
      match px_origin p (n + k) req with
      | None => NoReply
      | Some resp => Response (rs_Status resp) (rs_Body resp)
      end
  end.

(** What a request does on pages. *)
Definition onPages {A} (r : HttpRequest) (m : (nat -> string -> string -> Reply) -> R A) : P A := fun w =>
  onSession (m (pageUpstream (length (requests w)) r)) w.

(** ** Requests to peers *)

(** [p.peerClient.Do(req)]; the URL of a request to a peer is its [up_Path]. *)
Definition peerDo (req : UpstreamRequest) : P (option HttpResponse) := clientDo (px_peerOrigin p) req.

(** Signing a request to [url] with this body. *)
Definition signPeer (n : nat) (method url : string) (h : Http.Header) (data : bytes) : option Http.Header :=
  r ← signInternalPeerRequest (px_secret p) (px_clock p n) data
    (mkServerRequest (mkHttpRequest method "" "" h None 0) (uriOf url));
  Some (hr_Header (sr_http r)).

Definition forwardToPeer (r : ServerRequest) (owner : Peer) : P Handled :=
  let q := sr_http r in
  let peerURL := TrimRightByte (URL owner) "/" +:+ internalObjectRoutePrefix +:+ sr_URI r in
  let h := copyPeerRequestHeaders ∅ (hr_Header q) in
  let h := from_option (fun rt => Http.Set_ h peerFromHeader (localID rt)) h (px_router p) in
  let h := Http.Set_ (Http.Set_ h peerForwardedHeader "1") peerOwnerHeader (ID owner) in
  let h := from_option (fun rt => Http.Set_ h peerRingHeader (ringID rt)) h (px_router p) in
  let req := mkUpstreamRequest (hr_Method q) peerURL "" "" h (from_option ClientBody NoBody (hr_Body q))
    (hr_ContentLength q) in
  if negb (px_builds p req) then httpError "build peer request" 500;; mret (failed HandlerBuild)
  else
    n ← sentSoFar;
    match signPeer n (hr_Method q) peerURL h [] with
    | None => mret (failed HandlerSign)
    | Some h =>
        resp ← peerDo (withHeader h req);
        match resp with
        | None => httpError "peer request failed" 502;; mret (failed HandlerUpstream)
        | Some resp => relay (px_buf p) (hr_Method q) resp
        end
    end.

(** The message of an invalidation, before it is signed. *)
Definition invalidationRequest (rt : Router) (peer : Peer) (target : Target) (epoch : Z) : UpstreamRequest :=
  let data := marshalInvalidate (mkInvalidate (Bucket target) (Key target) epoch) in
  let h := Http.Set_ (Http.Set_ (Http.Set_ ∅ "Content-Type" "application/json") peerFromHeader (localID rt))
    peerRingHeader (ringID rt) in
  mkUpstreamRequest MethodPost (TrimRightByte (URL peer) "/" +:+ "/internal/v1/invalidate") "" "" h
    (ClientBody (bytesReader data)) (zlen data).

(** Whether the peer accepted the invalidation. *)
Definition sendPeerInvalidation (rt : Router) (peer : Peer) (target : Target) (epoch : Z) : P bool :=
  let req := invalidationRequest rt peer target epoch in
  if negb (px_builds p req) then mret false
  else
    n ← sentSoFar;
    match signPeer n (up_Method req) (up_Path req) (up_Header req)
            (marshalInvalidate (mkInvalidate (Bucket target) (Key target) epoch)) with
    | None => mret false
    | Some h =>
        resp ← peerDo (withHeader h req);
        mret (match resp with
              | None => false
              | Some resp => negb ((rs_Status resp <? 200) || (300 <=? rs_Status resp))
              end)
    end.

(** The message as the invalidations of a request send it. *)
Definition sendInvalidation (peer : Peer) (target : Target) (epoch : Z) : P bool :=
  match px_router p with Some rt => sendPeerInvalidation rt peer target epoch | None => mret true end.

Definition doInvalidate (target : Target) : P (result HandlerError Z) :=
  invalidateObject (px_router p) sendInvalidation target.

(** [None]: the request is not handed on. *)
Definition forwardObjectReadToOwner (strategy : string) (r : ServerRequest) (target : Target)
    : P (option Handled) :=
  match px_router p with
  | None => mret None
  | Some rt =>
      if negb (bool_decide (strategy = "object"))
         || negb (bool_decide (Http.Get (hr_Header (sr_http r)) peerForwardedHeader = ""))
      then mret None
      else
        let owner := Owner rt (Bucket target) (Key target) in
        if bool_decide (ID owner = localID rt) then mret None
        else res ← forwardToPeer r owner; mret (Some res)
  end.

(** ** Facts *)

Lemma sendPeerInvalidation_spec rt peer target epoch w :
  telling w (sendPeerInvalidation rt peer target epoch w).2 /\
  peeringOf (sendPeerInvalidation rt peer target epoch w).2 = peeringOf w /\
  ((sendPeerInvalidation rt peer target epoch w).1 = true ->
   exists h resp, let req := withHeader h (invalidationRequest rt peer target epoch) in
     requests (sendPeerInvalidation rt peer target epoch w).2 = req :: requests w /\
     px_peerOrigin p (length (requests w) + length (sent (session w)))%nat req = Some resp /\ 200 <= rs_Status resp < 300).
Proof.
  assert (Hnil : telling w w) by reflexivity.
  unfold sendPeerInvalidation. cbv zeta. destruct (negb _); [by split_and!|]. unfold mbind, P_bind, sentSoFar.
  destruct (signPeer _ _ _ _ _) as [h|]; [|by split_and!]. unfold peerDo, clientDo, mret, P_ret. cbn [fst snd].
  split; [split_and!; try done; by eexists [_]|]. split; [done|].
  destruct (px_peerOrigin _ _ _) as [resp|] eqn:Hresp; [|done].
  intros Hok%negb_true_iff%orb_false_iff. destruct Hok as [?%Z.ltb_ge ?%Z.leb_gt]. exists h, resp. by split_and!.
Qed.

Lemma sendInvalidation_message peer target epoch : a_message (sendInvalidation peer target epoch).
Proof.
  unfold sendInvalidation. destruct (px_router p) as [rt|]; intros w.
  - destruct (sendPeerInvalidation_spec rt peer target epoch w) as (? & ? & _). done.
  - split; reflexivity.
Qed.
End Handlers.
