(* ===== verification/ProxyCoord.v ===== *)
(** * Reading pages from their owners ([internal/proxy/proxy.go])

    With the page strategy a read is coordinated by the peer that received it: the
    pages are grouped by the peer that owns them ([groupCoordinatorPageBatches]), one
    request per other owner asks for a stream of page frames
    ([openCoordinatorPageBatches]), and the spans are written to the client in order,
    each from the cache or from the frames of its owner
    ([streamCoordinatorPageSpans]). *)

From Stdlib Require Import Ascii.
From S2P Require Import Prelude GoStrings GoNet Sha256 Range S3Request Router PageFrame CachePath CacheDB CacheStore.
From S2P Require Import CacheLogic CacheInv CacheOps CacheRows ProxyPeers ProxySpan ProxyRead ProxyServe.
From S2P Require Import ProxyUpload ProxyHttp ProxyWrite ProxyMeta ProxyAuth ProxyBase.
Import Strings.

#[local] Open Scope go_scope.

(** ** The body of a frame as a reader *)

(** [error] values of the page frame package as errors of [io]. *)
Definition asIo (e : FrameError) : Io.error :=
  match e with ErrIo e => e | _ => Io.Sentinel "truncated page frame" end.

(** The transport of the frames and the payload that is being read off it. *)
Record FrameBody := mkFrameBody { fb_transport : Io.Reader; fb_payload : pageFramePayloadReader }.

Definition readFrameBody (k : nat) (b : FrameBody) : bytes * option Io.error * FrameBody :=
  let '(got, err, r, p) := payloadRead k (fb_transport b) (fb_payload b) in
  (got, asIo <$> err, mkFrameBody r p).

#[export] Instance FrameBody_IoReader : Io.IoReader FrameBody :=
  {| Io.read := readFrameBody; Io.steps b := Io.reads (fb_transport b) |}.

(** ** Batches *)

Record coordinatorPageBatch := mkBatch {
  ba_owner : Peer; ba_pages : list Z; ba_reader : option PageFrameReader }.

Abbreviation Batches := (gmap string coordinatorPageBatch).

Definition pageFrameContentType : string := "application/vnd.simple-s3-cache.pages.v1".

Section Coordinator.
Context (p : Proxy) (rt : Router) `{PeerCodec}.

Definition addToBatch (target : Target) (batches : Batches) (page : PageSpan) : Batches :=
  let owner := PageOwner rt (Bucket target) (Key target) (ps_Index page) in
  let batch := default (mkBatch owner [] None) (batches !! ID owner) in
  <[ID owner := mkBatch (ba_owner batch) (ba_pages batch ++ [ps_Index page]) (ba_reader batch)]> batches.

Definition groupCoordinatorPageBatches (target : Target) (pages : list PageSpan) : Batches :=
  fold_left (addToBatch target) pages ∅.

(** The error, or the reader of the response. *)
Definition openRemoteCoordinatorPageBatch (target : Target) (obj : Object) (batch : coordinatorPageBatch)
    : P (result HandlerError PageFrameReader) :=
  let data := marshalPageRead (mkPageRead (Bucket target) (Key target) (ob_Size obj) (ob_PageSize obj)
    (ob_ETag obj) (ob_Epoch obj) (ba_pages batch)) in
  let peerURL := TrimRightByte (URL (ba_owner batch)) "/" +:+ "/internal/v1/pages/read" in
  let h := Http.Set_ (Http.Set_ (Http.Set_ ∅ "Content-Type" "application/json") peerFromHeader (localID rt))
    peerRingHeader (ringID rt) in
  let req := mkUpstreamRequest MethodPost peerURL "" "" h (ClientBody (bytesReader data)) (zlen data) in
  if negb (px_builds p req) then mret (Err HandlerBuild)
  else
    n ← sentSoFar;
    match signPeer p n MethodPost peerURL h data with
    | None => mret (Err HandlerSign)
    | Some h =>
        resp ← peerDo p (withHeader h req);
        match resp with
        | None => mret (Err HandlerUpstream)
        | Some resp =>
            if negb (rs_Status resp =? 200) then mret (Err (HandlerStatus (rs_Status resp)))
            else if negb (HasPrefix (Http.Get (rs_Header resp) "Content-Type") pageFrameContentType)
            then mret (Err HandlerPeers)
            else match NewPageFrameReader (Some (rs_Body resp)) (ba_pages batch) (ob_PageSize obj) with
            | Err _ => mret (Err HandlerPeers)
            | Ok reader => mret (Ok reader)
            end
        end
    end.

(** The loop over the batches, in the order of the map. *)
Fixpoint openBatches (target : Target) (obj : Object) (l : list (string * coordinatorPageBatch)) (batches : Batches)
    : P (Batches * option HandlerError) :=
  match l with
  | [] => mret (batches, None)
  | (id, batch) :: l =>
      if bool_decide (ID (ba_owner batch) = localID rt) then openBatches target obj l batches
      else
        r ← openRemoteCoordinatorPageBatch target obj batch;
        match r with
        | Err e => mret (batches, Some e)
        | Ok reader =>
            openBatches target obj l (<[id := mkBatch (ba_owner batch) (ba_pages batch) (Some reader)]> batches)
        end
  end.

Definition openCoordinatorPageBatches (target : Target) (obj : Object) (pages : list PageSpan)
    : P (Batches * option HandlerError) :=
  let batches := groupCoordinatorPageBatches target pages in
  openBatches target obj (px_order p _ (map_to_list batches)) batches.

(** ** Streaming *)

(** A span out of the next frame of a batch. *)
Definition streamFrame (obj : Object) (page : PageSpan) (rd : PageFrameReader)
    : R (Z * option HandlerError * PageFrameReader) :=
  match NextPageStream rd with
  | (Err _, rd) => mret (0, Some HandlerPeers, rd)
  | (Ok frame, rd) =>
      w ← getClient;
      let '(n, err, body, w) :=
        if negb (pfs_Index frame =? ps_Index page)
        then (0, Some HandlerPeers, mkFrameBody (pfr_r rd) (pfs_Body frame), w)
        else
          let '(n, err, body, w) :=
            copyPageSpan (px_buf p) w (mkFrameBody (pfr_r rd) (pfs_Body frame)) page (ob_PageSize obj) in
          (n, (fun e => HandlerRead (ErrSpan e)) <$> err, body, w) in
      set_client w;;
      let '(_, r, _) := payloadClose (px_buf p) (fb_transport body) (fb_payload body) in
      mret (n, err, pfr_with rd r)
  end.

Definition streamCoordinatorPageSpan (upstream : nat -> string -> string -> Reply) (bucket : string) (obj : Object)
    (page : PageSpan) (batch : coordinatorPageBatch) : R (Z * option HandlerError * coordinatorPageBatch) :=
  if bool_decide (ID (ba_owner batch) = localID rt) then
    s ← streamPageSpan (px_buf p) upstream bucket obj page;
    let '(n, err) := s in mret (n, HandlerRead <$> err, batch)
  else match ba_reader batch with
  | None => mret (0, Some HandlerPeers, batch)
  | Some rd =>
      s ← streamFrame obj page rd;
      let '(n, err, rd) := s in mret (n, err, mkBatch (ba_owner batch) (ba_pages batch) (Some rd))
  end.

Fixpoint coordinatorLoop (upstream : nat -> string -> string -> Reply) (target : Target) (obj : Object)
    (pages : list PageSpan) (batches : Batches) (total : Z) : R (Z * option HandlerError * Batches) :=
  match pages with
  | [] => mret (total, None, batches)
  | page :: pages =>
      let owner := PageOwner rt (Bucket target) (Key target) (ps_Index page) in
      match batches !! ID owner with
      | None => abortCommittedResponse total;; mret (total, Some HandlerPeers, batches)
      | Some batch =>
          s ← streamCoordinatorPageSpan upstream (Bucket target) obj page batch;
          let '(n, err, batch) := s in
          let total := total +! n in
          let batches := <[ID owner := batch]> batches in
          match err with
          | Some e => abortCommittedResponse total;; mret (total, Some e, batches)
          | None => coordinatorLoop upstream target obj pages batches total
          end
      end
  end.

(** Every stream of frames must end. *)
Fixpoint checkEnds (l : list (string * coordinatorPageBatch)) (total : Z) : R (Z * option HandlerError) :=
  match l with
  | [] => mret (total, None)
  | (_, batch) :: l =>
      match ba_reader batch with
      | None => checkEnds l total
      | Some rd =>
          match (NextPage (px_buf p) rd).1 with
          | Err (ErrIo Io.EOF) => checkEnds l total
          | Err _ => abortCommittedResponse total;; mret (total, Some HandlerPeers)
          | Ok _ => abortCommittedResponse total;; mret (total, None)
          end
      end
  end.

Definition streamCoordinatorPageSpans (upstream : nat -> string -> string -> Reply) (target : Target) (obj : Object)
    (pages : list PageSpan) (batches : Batches) : R (Z * option HandlerError) :=
  s ← coordinatorLoop upstream target obj pages batches 0;
  let '(total, err, batches) := s in
  match err with
  | Some e => mret (total, Some e)
  | None => checkEnds (px_order p _ (map_to_list batches)) total
  end.

(** [discardLocalPlanningState], where there is a cache. *)
Definition discardLocalPlanningState (target : Target) : P (result HandlerError ()) :=
  if px_cached p then
    r ← cacheCall (InvalidateObject (Bucket target) (Key target) 0);
    mret (match r with Err e => Err (HandlerCache e) | Ok _ => Ok () end)
  else mret (Ok ()).

Definition serveDistributedPageRead (r : HttpRequest) (target : Target) (obj : Object) (byteRange : ByteRange)
    (rangeResponse : bool) : P Handled :=
  match PagesForRange byteRange (ob_PageSize obj) with
  | Err e => mret (failed (HandlerRead (ErrRange e)))
  | Ok pages =>
      b ← openCoordinatorPageBatches target obj pages;
      let '(batches, err) := b in
      match err with
      | Some _ =>
          d ← discardLocalPlanningState target;
          match d with
          | Err e => httpError "discard local planning state" 500;; mret (failed e)
          | Ok _ => doForward p r
          end
      | None =>
          let status := if rangeResponse then 206 else 200 in
          modifyHeader (fun h => if rangeResponse then rangeResponseHeaders h obj byteRange
                                 else writeCachedObjectHeaders h obj false);;
          WriteHeader status;;
          s ← onPages p r (fun upstream => streamCoordinatorPageSpans upstream target obj pages batches);
          let '(n, err) := s in
          mret (status, n, err)
      end
  end.

End Coordinator.

(** ** Reading a frame *)

Definition bodyStream (b : FrameBody) : bytes :=
  if PageFrame.closed (fb_payload b) then [] else take (Z.to_nat (remaining (fb_payload b))) (Io.content (fb_transport b)).

(** What follows the payload on the transport does not change. *)
Definition followed_by (rest : bytes) (b : FrameBody) : Prop :=
  PageFrame.closed (fb_payload b) = false /\ 0 <= remaining (fb_payload b) /\
  drop (Z.to_nat (remaining (fb_payload b))) (Io.content (fb_transport b)) = rest.

Lemma readFrameBody_spec k b got err b' :
  readFrameBody k b = (got, err, b') ->
  bodyStream b = got ++ bodyStream b' /\ (length got <= k)%nat /\ (is_Some err -> bodyStream b' = []) /\
  forall rest, followed_by rest b -> followed_by rest b'.
Proof.
  destruct b as [t [i rem cl]]. unfold readFrameBody, payloadRead, bodyStream. cbn.
  destruct cl; [intros [= <- <- <-]; cbn; split_and!; auto with lia|].
  destruct (Z.eqb_spec rem 0) as [->|Hrem]; [intros [= <- <- <-]; cbn; split_and!; auto with lia|].
  set (j := if Z.of_nat k >? rem then Z.to_nat rem else k).
  assert (Hj : (j <= k)%nat /\ (j <= Z.to_nat rem)%nat) by (unfold j; destruct (Z.gtb_spec (Z.of_nat k) rem); lia).
  destruct (Io.Read j t) as [[g e] t'] eqn:HR. destruct (Io.Read_spec _ _ _ _ _ HR) as (Hc & Hl & _ & He & _).
  assert (Hz : Z.to_nat (rem - zlen g) = (Z.to_nat rem - length g)%nat) by (unfold zlen; lia).
  assert (Hst : take (Z.to_nat rem) (Io.content t) = g ++ take (Z.to_nat (rem - zlen g)) (Io.content t'))
    by (rewrite Hc, take_app_ge, Hz by lia; done).
  assert (Hfo : forall r cl', followed_by r (mkFrameBody t (mkPayload i rem false)) -> cl' = false ->
    followed_by r (mkFrameBody t' (mkPayload i (rem - zlen g) cl'))).
  { intros r cl' (_ & Hr & Hd) ->. cbn in *. split; [done|]. cbn. split; [unfold zlen; lia|].
    rewrite Hc, drop_app_ge in Hd by lia. by rewrite Hz. }
  destruct e as [e|].
  - destruct (He e eq_refl) as [Hnil _]. destruct (bool_decide _ && _); intros [= <- <- <-]; cbn;
      (split_and!; [done|lia|intros _; by rewrite Hnil, take_nil|auto]).
  - intros [= <- <- <-]. cbn. split_and!; [done|lia|by intros [? ?]|auto].
Qed.

#[export] Program Instance FrameBody_LawfulReader : Io.LawfulReader FrameBody := {| Io.stream := bodyStream |}.
Next Obligation. intros k b got err b' HR. by destruct (readFrameBody_spec _ _ _ _ _ HR) as (? & ? & ? & _). Qed.

Lemma copyPageSpan_keeps {Src} `{!Io.IoReader Src} (I : Src -> Prop) buf w (src : Src) page pageSize n err src' w' :
  (forall k r got e r', I r -> Io.read k r = (got, e, r') -> I r') -> I src ->
  copyPageSpan buf w src page pageSize = (n, err, src', w') -> I src'.
Proof.
  intros Hread Hs. unfold copyPageSpan. destruct (_ || _); [by intros [= <- <- <- <-]|].
  destruct (if _ >? 0 then _ else _) as [e1 src1] eqn:Hskip.
  assert (Hs1 : I src1).
  { destruct (_ >? 0); [|by injection Hskip as _ <-]. destruct (Io.CopyN _ _ src Discard) as [[[k e] s1] d] eqn:HC.
    injection Hskip as _ <-. by apply (Io.CopyN_keeps I _ _ _ _ _ _ _ _ Hread Hs HC). }
  destruct e1; [by intros [= <- <- <- <-]|]. destruct (Io.CopyN _ _ src1 w) as [[[k e] s2] w2] eqn:HC.
  intros [= <- <- <- <-]. by apply (Io.CopyN_keeps I _ _ _ _ _ _ _ _ Hread Hs1 HC).
Qed.

Lemma payloadClose_spec buf b rest e r p :
  followed_by rest b -> payloadClose buf (fb_transport b) (fb_payload b) = (e, r, p) -> Io.content r = rest.
Proof.
  intros (Hcl & Hrem & Hd). unfold payloadClose. rewrite Hcl.
  destruct (Z.eqb_spec (remaining (fb_payload b)) 0) as [Hz|].
  - rewrite Hz, drop_0 in Hd. by intros [= <- <- <-].
  - unfold payloadReadAll.
    destruct (drainLoop_spec (Io.reads (fb_transport b)) buf [] (fb_transport b) (fb_payload b) Hcl Hrem ltac:(lia))
      as (err & r' & -> & Hr & _). intros [= <- <- <-]. congruence.
Qed.

(** ** What the client gets *)

Section Versions.
Context (version : string -> bytes -> bytes) (pageSizeOf : string -> Z).
Context (p : Proxy) (rt : Router) `{PeerCodec} (target : Target) (obj : Object).
Context (Hobj : object_ok version pageSizeOf obj).

Abbreviation content := (contentOf version (ob_ID obj) (ob_ETag obj)).
Abbreviation page_of := (pageOf version pageSizeOf (ob_ID obj) (ob_ETag obj)).
Abbreviation ok := (session_ok version pageSizeOf).
Abbreviation inside := (in_object obj).
Abbreviation span_bytes := (bytesOf version obj).

Definition frameOf (i : Z) : PageFrame := mkPageFrame i (page_of i).

(** A stream of frames that is about to deliver the pages [todo], possibly cut short. *)
Definition delivering (rd : PageFrameReader) (todo : list Z) : Prop :=
  (exists got, reading rd got todo) /\
  Io.content (pfr_r rd) `prefix_of` concat (encodePage <$> (frameOf <$> todo)) ++ [pageFrameTypeEnd].

Lemma page_length i : 0 <= i -> zlen (page_of i) <= ob_PageSize obj.
Proof.
  intros Hi. destruct Hobj as [_ Hps Hpos _]. unfold pageOf, slice, zlen. rewrite length_take. nia.
Qed.

(** The header of the next frame is that of the next page. *)
Lemma next_frame rd i todo fr rd' :
  delivering rd (i :: todo) -> NextPageStream rd = (Ok fr, rd') ->
  0 <= i <= int64_max /\ exists r, fr = mkPageFrameStream i (zlen (page_of i)) (mkPayload i (zlen (page_of i)) false) /\
    rd' = advance rd r i /\
    Io.content r `prefix_of` page_of i ++ concat (encodePage <$> (frameOf <$> todo)) ++ [pageFrameTypeEnd].
Proof.
  intros [[got Hrd] Hpre] HN. apply NextPageStream_inv in HN as (Hend & index & size & r & -> & Hc & Hacc & ->).
  destruct Hacc as (Hi & Hsz & Hsz' & _ & _ & Hex).
  assert (index = i) as ->.
  { destruct Hrd as [He _ _ Hn _ _]. rewrite He, Hn, lookup_app_r, Nat.sub_diag in Hex by lia. by injection Hex. }
  split; [done|]. exists r. rewrite Hc in Hpre. destruct Hpre as [k Hk].
  rewrite !fmap_cons in Hk. cbn [concat] in Hk. unfold encodePage at 1 in Hk. cbn [frameOf pf_Index pf_Bytes] in Hk.
  rewrite <- !app_comm_cons in Hk. apply (f_equal tail) in Hk. cbn [tail] in Hk. rewrite <- !app_assoc in Hk.
  apply app_inj_1 in Hk as [_ Hk]; [|by rewrite !length_be_put].
  apply app_inj_1 in Hk as [Hsize Hk]; [|by rewrite !length_be_put].
  pose proof (page_length i ltac:(lia)). pose proof (zlen_nonneg (page_of i)). destruct Hobj as [_ _ Hpos Hbd].
  pose proof (zlen_nonneg content). rewrite (oo_size _ _ _ Hobj) in Hbd.
  assert (Hb : forall z, 0 <= z <= int64_max -> 0 <= z < 256 ^ Z.of_nat 8)
    by (intros z; int64_unfold; change (256 ^ Z.of_nat 8) with (2 ^ 64); lia).
  apply (f_equal be_get) in Hsize. rewrite !be_get_put in Hsize by (apply Hb; lia). subst size.
  split_and!; [done|done|]. by exists k.
Qed.

Lemma streamFrame_spec page todo rd s n err rd' s' :
  ok s -> inside page -> delivering rd (ps_Index page :: todo) ->
  streamFrame p obj page rd s = ((n, err, rd'), s') ->
  wrote version pageSizeOf (client s) (span_bytes page) (n, err) s' /\ (err = None -> delivering rd' todo).
Proof.
  intros Hs Hin Hdel. unfold streamFrame. destruct (NextPageStream rd) as [[fr|e] rd1] eqn:HN.
  2: { intros [= <- <- <- <-]. split; [by apply wrote_nothing|done]. }
  destruct (next_frame rd _ todo fr rd1 Hdel HN) as (Hi & r & -> & -> & Hpre).
  cbn [pfs_Index pfs_Body pfr_r advance]. rewrite Z.eqb_refl. cbn [negb].
  set (i := ps_Index page) in *. set (b := mkFrameBody r (mkPayload i (zlen (page_of i)) false)).
  set (tail := concat (encodePage <$> (frameOf <$> todo)) ++ [pageFrameTypeEnd]) in *.
  assert (Hst : Io.stream b `prefix_of` page_of i).
  { cbn. unfold bodyStream. cbn. rewrite zlen_to_nat. destruct Hpre as [k Hk].
    apply (f_equal (take (length (page_of i)))) in Hk. rewrite take_app_length in Hk. rewrite Hk at 2.
    rewrite take_app. by apply prefix_app_r. }
  assert (Hfo : followed_by (drop (length (page_of i)) (Io.content r)) b).
  { split; [done|]. cbn. split; [apply zlen_nonneg|]. by rewrite zlen_to_nat. }
  unfold mbind at 1, R_bind at 1, getClient.
  destruct (copyPageSpan (px_buf p) (client s) b page (ob_PageSize obj)) as [[[n1 e1] b1] w1] eqn:HC.
  destruct (copyPageSpan_spec _ _ _ _ _ _ _ _ _ (proj1 Hin) HC) as (part & Ho & Hn & Hp & Hok).
  pose proof (copyPageSpan_keeps (followed_by _) _ _ _ _ _ _ _ _ _
    (fun k r got e r' Hr HR => proj2 (proj2 (proj2 (readFrameBody_spec k r got e r' HR))) _ Hr) Hfo HC) as Hfo1.
  unfold mbind, R_bind, set_client.
  destruct (payloadClose (px_buf p) (fb_transport b1) (fb_payload b1)) as [[e2 r2] p2] eqn:Hcl.
  pose proof (payloadClose_spec _ _ _ _ _ _ Hfo1 Hcl) as Hr2. intros [= <- <- <- <-].
  assert (Hspan : spanOf page (ob_PageSize obj) (Io.stream b) `prefix_of` span_bytes page).
  { rewrite <- (span_page_of version pageSizeOf obj Hobj page Hin). by apply spanOf_prefix. }
  split.
  - split; [done|]. exists part. cbn. split_and!; [done|done|by etransitivity|].
    intros He. destruct e1; [done|]. destruct (Hok eq_refl) as [-> Hz]. apply prefix_length_eq; [done|].
    destruct Hin as ((_ & Hi0 & Hse & _) & He1 & _). rewrite (oo_size _ _ _ Hobj) in He1.
    assert (0 <= ps_Index page * ob_PageSize obj) by (pose proof (oo_positive _ _ _ Hobj); nia).
    assert (Hb : zlen (span_bytes page) = ps_End page - ps_Start page + 1)
      by (unfold bytesOf; rewrite zlen_slice by lia; lia).
    unfold zlen in *. lia.
  - intros _. split.
    + destruct Hdel as [[got Hrd] _]. exists (got ++ [i]). exact (reading_advance rd got i todo r2 Hrd).
    + cbn. rewrite Hr2. destruct Hpre as [k Hk]. apply (f_equal (drop (length (page_of i)))) in Hk.
      rewrite drop_app_length, drop_app in Hk. fold tail. rewrite Hk. by apply prefix_app_r.
Qed.

(** The indexes of the pages of a list that a peer owns. *)
Definition ownerOf (page : PageSpan) : string := ID (PageOwner rt (Bucket target) (Key target) (ps_Index page)).
Definition ownedBy (id : string) (pages : list PageSpan) : list Z :=
  ps_Index <$> filter (fun page => ownerOf page = id) pages.

(** Every batch of another peer is about to deliver the pages it owns. *)
Definition batches_at (batches : Batches) (pages : list PageSpan) : Prop :=
  map_Forall (fun id batch => ID (ba_owner batch) = id /\
    (id <> localID rt -> exists rd, ba_reader batch = Some rd /\ delivering rd (ownedBy id pages))) batches.

Lemma streamSpan_spec upstream page pages id batch s n err batch' s' :
  honest version upstream obj -> ok s -> inside page -> ownerOf page = id -> ID (ba_owner batch) = id ->
  (id <> localID rt -> exists rd, ba_reader batch = Some rd /\ delivering rd (ownedBy id (page :: pages))) ->
  streamCoordinatorPageSpan p rt upstream (Bucket target) obj page batch s = ((n, err, batch'), s') ->
  wrote version pageSizeOf (client s) (span_bytes page) (n, err) s' /\
  (err = None -> ID (ba_owner batch') = id /\
     (id <> localID rt -> exists rd, ba_reader batch' = Some rd /\ delivering rd (ownedBy id pages))).
Proof.
  intros Hup Hs Hin Hown Hid Hrd. unfold streamCoordinatorPageSpan. rewrite Hid.
  case_bool_decide as Hloc.
  - unfold mbind, R_bind. destruct (streamPageSpan _ _ _ _ _ s) as [[n1 e1] s1] eqn:Hst.
    intros [= <- <- <- <-]. split; [|done].
    destruct (streamPageSpan_spec _ _ _ _ _ _ Hobj Hup _ _ _ _ Hs Hin Hst) as [Hs1 (part & Ho & Hn & Hp & Hok)].
    split; [done|]. exists part. split_and!; [done..|]. intros He. apply Hok. by destruct e1.
  - destruct (Hrd Hloc) as (rd & Hr & Hdel). rewrite Hr. unfold ownedBy in Hdel.
    rewrite filter_cons_True, fmap_cons in Hdel by done.
    unfold mbind, R_bind. destruct (streamFrame p obj page rd s) as [[[n1 e1] rd1] s1] eqn:Hst.
    destruct (streamFrame_spec page _ rd s n1 e1 rd1 s1 Hs Hin Hdel Hst) as [Hw Hd].
    intros [= <- <- <- <-]. split; [done|]. intros He. split; [done|]. intros _. exists rd1. auto.
Qed.

Lemma coordinatorLoop_spec upstream pages batches total s r s' :
  honest version upstream obj -> ok s -> Forall inside pages -> batches_at batches pages ->
  0 <= total -> total + zlen (concat (span_bytes <$> pages)) <= int64_max ->
  coordinatorLoop p rt upstream target obj pages batches total s = (r, s') ->
  ok s' /\ exists part, Io.out (client s') = Io.out (client s) ++ part /\
    r.1.1 = total + zlen part /\ part `prefix_of` concat (span_bytes <$> pages) /\
    (r.1.2 = None -> part = concat (span_bytes <$> pages) /\ batches_at r.2 []) /\
    (is_Some r.1.2 -> 0 < r.1.1 -> hijackable s' = true -> aborted s' = true).
Proof.
  intros Hup. revert batches total s. induction pages as [|page pages IH]; intros batches total s Hs Hin Hb Ht Hmax;
    cbn [coordinatorLoop].
  { intros [= <- <-]. split; [done|]. exists []. rewrite app_nil_r. cbn.
    split_and!; [done|unfold zlen; cbn; lia|done|done|by intros []]. }
  apply Forall_cons in Hin as [Hp Hin]. fold (ownerOf page). set (id := ownerOf page) in *.
  assert (Habort : forall t (e : HandlerError) part s1, ok s1 -> Io.out (client s1) = Io.out (client s) ++ part ->
    t = total + zlen part -> part `prefix_of` concat (span_bytes <$> page :: pages) -> forall b,
    (abortCommittedResponse t;; mret (t, Some e, b) : R _) s1 = (r, s') ->
    ok s' /\ exists part, Io.out (client s') = Io.out (client s) ++ part /\
      r.1.1 = total + zlen part /\ part `prefix_of` concat (span_bytes <$> page :: pages) /\
      (r.1.2 = None -> part = concat (span_bytes <$> page :: pages) /\ batches_at r.2 []) /\
      (is_Some r.1.2 -> 0 < r.1.1 -> hijackable s' = true -> aborted s' = true)).
  { intros t e part s1 Hs1 Ho -> Hpre b. unfold mbind, R_bind, abortCommittedResponse.
    destruct (Z.leb_spec (total + zlen part) 0); intros [= <- <-]; (split; [done|]); exists part; cbn in *;
      (split_and!; [done..|]); [intros; lia|]. intros _ _ ->. by rewrite orb_true_r. }
  destruct (batches !! id) as [batch|] eqn:Hbatch.
  2: { intros Hrun. apply (Habort total HandlerPeers [] s Hs) in Hrun; [done|by rewrite app_nil_r| |apply prefix_nil].
       unfold zlen. cbn. lia. }
  destruct (Hb id batch Hbatch) as [Hid Hrd]. unfold mbind at 1, R_bind at 1.
  destruct (streamCoordinatorPageSpan _ _ _ _ _ _ _ s) as [[[n err] batch1] s1] eqn:Hone.
  destruct (streamSpan_spec upstream page pages id batch s n err batch1 s1 Hup Hs Hp eq_refl Hid Hrd Hone)
    as [[Hs1 (part & Ho & Hn & Hpre & Hok)] Hb1]. cbn in Hn, Hok. subst n.
  cbn [fmap list_fmap concat] in *. rewrite zlen_app in Hmax.
  assert (Hlen : zlen part <= zlen (span_bytes page)).
  { destruct Hpre as [k Hk]. rewrite Hk, zlen_app. pose proof (zlen_nonneg k). lia. }
  pose proof (zlen_nonneg part). pose proof (zlen_nonneg (concat (span_bytes <$> pages))).
  rewrite add64_id by (int64_unfold; lia). destruct err as [e|].
  - intros Hrun. eapply (Habort _ e part s1); [done|done|reflexivity|by apply prefix_app_r|exact Hrun].
  - specialize (Hok eq_refl). subst part. intros Hrun.
    destruct (IH (<[id := batch1]> batches) (total + zlen (span_bytes page)) s1 Hs1 Hin) as
      [Hs2 (part2 & Ho2 & Hn2 & Hpre2 & Hok2 & Hab)]; [|lia|lia|done|].
    { intros id' batch' Hl. destruct (decide (id' = id)) as [Heq|Hne].
      - rewrite Heq in *. rewrite lookup_insert_eq in Hl. injection Hl as <-. by apply Hb1.
      - rewrite lookup_insert_ne in Hl by done. destruct (Hb id' batch' Hl) as [? Hrd'].
        split; [done|]. unfold ownedBy in *. by rewrite filter_cons_False in Hrd' by done. }
    split; [done|]. exists (span_bytes page ++ part2). rewrite Ho2, Ho, app_assoc, zlen_app.
    split_and!; [done|lia|by apply prefix_app| |done]. intros He. by destruct (Hok2 He) as [-> ?].
Qed.

Lemma checkEnds_spec l total s r s' :
  checkEnds p l total s = (r, s') ->
  r.1 = total /\ client s' = client s /\ cache s' = cache s /\ env s' = env s /\
  (is_Some r.2 -> 0 < r.1 -> hijackable s' = true -> aborted s' = true).
Proof.
  revert s. induction l as [|[id batch] l IH]; intros s; cbn [checkEnds]; [intros [= <- <-]; split_and!; try done; by intros []|].
  destruct (ba_reader batch) as [rd|]; [|apply IH].
  assert (Habort : forall (e : option HandlerError), (abortCommittedResponse total;; mret (total, e) : R _) s = (r, s') ->
    r.1 = total /\ client s' = client s /\ cache s' = cache s /\ env s' = env s /\
    (is_Some r.2 -> 0 < r.1 -> hijackable s' = true -> aborted s' = true)).
  { intros e. unfold mbind, R_bind, abortCommittedResponse.
    destruct (Z.leb_spec total 0); intros [= <- <-]; cbn; split_and!; try done; [intros; lia|].
    intros _ _ ->. by rewrite orb_true_r. }
  destruct (NextPage (px_buf p) rd).1 as [f|[| | | | | | | | | | |[]]]; first [apply Habort | apply IH].
Qed.

Lemma streamCoordinator_spec upstream pages batches s n err s' :
  honest version upstream obj -> ok s -> Forall inside pages -> batches_at batches pages ->
  zlen (concat (span_bytes <$> pages)) <= int64_max ->
  streamCoordinatorPageSpans p rt upstream target obj pages batches s = ((n, err), s') ->
  ok s' /\ exists part, Io.out (client s') = Io.out (client s) ++ part /\ n = zlen part /\
    part `prefix_of` concat (span_bytes <$> pages) /\
    (err = None -> part = concat (span_bytes <$> pages)) /\
    (is_Some err -> 0 < n -> hijackable s' = true -> aborted s' = true).
Proof.
  intros Hup Hs Hin Hb Hmax. unfold streamCoordinatorPageSpans. unfold mbind, R_bind.
  destruct (coordinatorLoop _ _ _ _ _ _ _ _ s) as [[[t e] b] s1] eqn:Hl.
  destruct (coordinatorLoop_spec upstream pages batches 0 s _ s1 Hup Hs Hin Hb ltac:(lia) ltac:(lia) Hl)
    as [Hs1 (part & Ho & Ht & Hpre & Hok & Hab)]. cbn in Ht, Hok, Hab.
  destruct e as [e|]; [intros [= <- <- <-]; split; [done|]; by exists part|].
  intros Hc. destruct (checkEnds_spec _ _ _ _ _ Hc) as (Hn & Hcl & Hca & He & Hab2). cbn in Hn, Hab2. subst n t.
  split; [unfold session_ok; by rewrite Hca, He|]. exists part. rewrite Hcl. split_and!; [done..| |done].
  intros _. by destruct (Hok eq_refl).
Qed.

(** ** Opening the batches *)

Lemma ownedBy_snoc id pages page :
  ownedBy id (pages ++ [page]) = ownedBy id pages ++ (if decide (ownerOf page = id) then [ps_Index page] else []).
Proof. unfold ownedBy. rewrite filter_app, fmap_app, filter_cons. by case_decide. Qed.

(** A batch per owner, with the pages it owns in order. *)
Lemma group_spec pages :
  map_Forall (fun id b => ID (ba_owner b) = id /\ ba_pages b = ownedBy id pages)
    (groupCoordinatorPageBatches rt target pages) /\
  forall id, ownedBy id pages <> [] -> is_Some (groupCoordinatorPageBatches rt target pages !! id).
Proof.
  unfold groupCoordinatorPageBatches. induction pages as [|page pages [IHb IHs]] using rev_ind.
  { split; [apply map_Forall_empty|done]. }
  rewrite fold_left_app. cbn [fold_left]. set (m := fold_left _ _ _) in *. unfold addToBatch.
  set (o := PageOwner _ _ _ _). assert (Ho : ownerOf page = ID o) by done.
  set (b := default (mkBatch o [] None) (m !! ID o)).
  assert (Hb : ID (ba_owner b) = ID o /\ ba_pages b = ownedBy (ID o) pages).
  { unfold b. destruct (m !! ID o) as [b0|] eqn:E; [by apply (IHb _ _ E)|]. cbn. split; [done|].
    destruct (decide (ownedBy (ID o) pages = [])) as [->|Hne]; [done|]. destruct (IHs _ Hne) as [? ?]. congruence. }
  destruct Hb as [Hb1 Hb2]. split.
  - intros id b' Hl. rewrite ownedBy_snoc, Ho. destruct (decide (ID o = id)) as [<-|Hne].
    + rewrite lookup_insert_eq in Hl. injection Hl as <-. cbn. by rewrite Hb2.
    + rewrite lookup_insert_ne in Hl by done. rewrite app_nil_r. by apply IHb.
  - intros id. rewrite ownedBy_snoc, Ho. destruct (decide (ID o = id)) as [<-|Hne].
    + rewrite lookup_insert_eq. by eexists.
    + rewrite lookup_insert_ne, app_nil_r by done. apply IHs.
Qed.

(** Another peer answers a request for pages of a version with the frames of these
    pages, possibly cut short, when the request names the version in valid text and
    the pages are pages of it. *)
Definition page_inside (pageSize objectSize i : Z) : Prop := 0 <= i /\ i * pageSize < objectSize.

Definition peers_honest : Prop :=
  forall n req resp q base, up_Path req = TrimRightByte base "/" +:+ "/internal/v1/pages/read" ->
    up_Body req = ClientBody (bytesReader (marshalPageRead q)) -> px_peerOrigin p n req = Some resp -> rs_Status resp = 200 ->
    let id := ObjectKey (pr_Bucket q) (pr_Key q) in
    json_text (pr_Bucket q) -> json_text (pr_Key q) -> json_text (pr_ETag q) ->
    pr_PageSize q = pageSizeOf id -> pr_ObjectSize q = zlen (contentOf version id (pr_ETag q)) ->
    pr_ObjectSize q + pr_PageSize q <= int64_max -> Forall (page_inside (pr_PageSize q) (pr_ObjectSize q)) (pr_Pages q) ->
    Io.content (rs_Body resp) `prefix_of`
      encodePages ((fun i => mkPageFrame i (pageOf version pageSizeOf id (pr_ETag q) i)) <$> pr_Pages q).

(** The object and its version are named in valid text. *)
Definition named : Prop := json_text (Bucket target) /\ json_text (Key target) /\ json_text (ob_ETag obj).

(** What requests to peers leave alone. *)
Definition quiet (w w' : World) : Prop :=
  session w' = session w /\ status w' = status w /\ header w' = header w /\ spool w' = spool w /\ retries w' = retries w.

Lemma openRemote_spec batch w r w' :
  peers_honest -> named -> ob_ID obj = ObjectKey (Bucket target) (Key target) ->
  Forall (page_inside (ob_PageSize obj) (ob_Size obj)) (ba_pages batch) ->
  openRemoteCoordinatorPageBatch p rt target obj batch w = (r, w') ->
  quiet w w' /\ forall rd, r = Ok rd -> delivering rd (ba_pages batch).
Proof.
  intros Hpeer Hname Hid Hpages. unfold openRemoteCoordinatorPageBatch. cbv zeta.
  destruct (negb _); [intros [= <- <-]; split; [by split_and!|done]|].
  unfold mbind at 1, P_bind at 1, sentSoFar. destruct (signPeer _ _ _ _ _ _) as [h|]; [|intros [= <- <-]; split; [by split_and!|done]].
  unfold mbind, P_bind, peerDo, clientDo. set (w1 := mkWorld _ _ _ _ _ _).
  assert (Hq : quiet w w1) by by split_and!. clearbody w1.
  destruct (px_peerOrigin p _ _) as [resp|] eqn:Hresp; [|by intros [= <- <-]].
  destruct (Z.eqb_spec (rs_Status resp) 200) as [H200|]; cbn [negb]; [|by intros [= <- <-]].
  destruct (negb _); [by intros [= <- <-]|].
  destruct (NewPageFrameReader _ _ _) as [rd|e] eqn:Hnew; [|by intros [= <- <-]].
  intros [= <- <-]. split; [done|]. intros rd' [= <-].
  destruct (NewPageFrameReader_inv _ _ _ _ Hnew) as (Hrd & _ & _ & _ & Hc).
  split; [by exists []|].
  pose proof (fun Hu Hb => Hpeer _ _ resp (mkPageRead (Bucket target) (Key target) (ob_Size obj) (ob_PageSize obj) (ob_ETag obj)
    (ob_Epoch obj) (ba_pages batch)) (URL (ba_owner batch)) Hu Hb Hresp H200) as Hpre. specialize (Hpre eq_refl eq_refl).
  cbn [pr_Bucket pr_Key pr_PageSize pr_ObjectSize pr_ETag pr_Pages] in Hpre. rewrite <- Hid in Hpre.
  destruct Hname as (Hn1 & Hn2 & Hn3). specialize (Hpre Hn1 Hn2 Hn3 (oo_pageSize _ _ _ Hobj) (oo_size _ _ _ Hobj) (oo_bound _ _ _ Hobj) Hpages). rewrite Hc in Hpre. unfold encodePages in Hpre.
  by apply prefix_app_inv in Hpre.
Qed.

Lemma owned_inside id b pages :
  Forall inside pages -> ba_pages b = ownedBy id pages ->
  Forall (page_inside (ob_PageSize obj) (ob_Size obj)) (ba_pages b).
Proof.
  intros Hin ->. unfold ownedBy. apply Forall_fmap, Forall_forall. intros page [_ Hp]%list_elem_of_filter.
  rewrite Forall_forall in Hin. destruct (Hin page Hp) as ((? & ? & ?) & ? & ?). unfold page_inside. cbn. lia.
Qed.

Lemma openBatches_spec pages l batches w batches' err w' :
  peers_honest -> named -> ob_ID obj = ObjectKey (Bucket target) (Key target) -> Forall inside pages ->
  Forall (fun ib => ID (ba_owner ib.2) = ib.1 /\ ba_pages ib.2 = ownedBy ib.1 pages) l ->
  map_Forall (fun id b => ID (ba_owner b) = id /\ ba_pages b = ownedBy id pages /\
    (id <> localID rt -> (id, b) ∈ l \/ exists rd, ba_reader b = Some rd /\ delivering rd (ownedBy id pages))) batches ->
  openBatches p rt target obj l batches w = ((batches', err), w') ->
  quiet w w' /\ (err = None -> batches_at batches' pages).
Proof.
  intros Hpeer Hname Hid Hins. revert batches w. induction l as [|[id b] l IH]; intros batches w Hl Hb; cbn [openBatches].
  { intros [= <- <- <-]. split; [by split_and!|]. intros _ id b Hlk. destruct (Hb id b Hlk) as (? & ? & Hr).
    split; [done|]. intros Hne. destruct (Hr Hne) as [Hin|?]; [|done]. by apply not_elem_of_nil in Hin. }
  apply Forall_cons in Hl as [[Hi Hp] Hl]. cbn in Hi, Hp. case_bool_decide as Hloc.
  - apply IH; [done|]. intros id' b' Hlk. destruct (Hb id' b' Hlk) as (? & ? & Hr). split_and!; [done..|].
    intros Hne. destruct (Hr Hne) as [Hin|?]; [|by right]. apply elem_of_cons in Hin as [[= -> ->]|Hin]; [congruence|by left].
  - unfold mbind, P_bind. destruct (openRemoteCoordinatorPageBatch _ _ _ _ b w) as [[rd|e] w1] eqn:Ho;
      destruct (openRemote_spec b w _ w1 Hpeer Hname Hid (owned_inside id b pages Hins Hp) Ho) as [Hq Hrd]; [|by intros [= <- <- <-]].
    intros Hrun. apply IH in Hrun as [Hq2 Hok]; [|done|].
    { destruct Hq as (? & ? & ? & ? & ?), Hq2 as (? & ? & ? & ? & ?). split; [split_and!; congruence|done]. }
    intros id' b' Hlk. destruct (decide (id' = id)) as [->|Hne'].
    + rewrite lookup_insert_eq in Hlk. injection Hlk as <-. cbn. split_and!; [done..|]. intros _. right.
      exists rd. split; [done|]. rewrite <- Hp. by apply Hrd.
    + rewrite lookup_insert_ne in Hlk by done. destruct (Hb id' b' Hlk) as (? & ? & Hr). split_and!; [done..|].
      intros Hne. destruct (Hr Hne) as [Hin|?]; [|by right].
      apply elem_of_cons in Hin as [[= -> ->]|Hin]; [congruence|by left].
Qed.

Lemma openCoordinator_spec pages w batches err w' :
  peers_honest -> named -> ob_ID obj = ObjectKey (Bucket target) (Key target) -> Forall inside pages ->
  (forall A (l : list A), px_order p A l ≡ₚ l) ->
  openCoordinatorPageBatches p rt target obj pages w = ((batches, err), w') ->
  quiet w w' /\ (err = None -> batches_at batches pages).
Proof.
  intros Hpeer Hname Hid Hins Hord. unfold openCoordinatorPageBatches. cbv zeta. destruct (group_spec pages) as [Hg _].
  apply openBatches_spec; [done|done|done|done| |].
  - rewrite Hord. apply Forall_forall. intros [id b] Hin. apply elem_of_map_to_list in Hin. by apply (Hg id b Hin).
  - intros id b Hlk. destruct (Hg id b Hlk). split_and!; [done..|]. intros _. left. rewrite Hord.
    by apply elem_of_map_to_list.
Qed.

End Versions.
