(* ===== verification/ProxyCold.v ===== *)
(** * Streaming an object while caching it ([internal/proxy/proxy.go])

    An object whose first page is not cached is fetched whole: [streamColdFullObject]
    writes each chunk of the response to the client and cuts the chunks into pages
    for the cache ([bufferColdFullPage]). *)

From Stdlib Require Import Ascii.
From S2P Require Import Prelude GoStrings GoNet Sha256 Range S3Request Router PageFrame CachePath CacheDB CacheStore.
From S2P Require Import CacheLogic CacheInv CacheOps CacheRows ProxyPeers ProxySpan ProxyRead ProxyServe.
From S2P Require Import ProxyUpload ProxyHttp ProxyWrite ProxyMeta ProxyAuth ProxyBase.

#[local] Open Scope go_scope.

(** ** Operations *)

(** [pageWriter.Size()], a field of the writer. *)
Definition pageWriterSize (h : Z) : R Z := fun s => (from_option pw_size 0 (writers (fs (cache s)) !! h), s).

(** [commitCachePageWriter]: a failure is only recorded. *)
Definition commitCachePageWriter (h : Z) : R () := _ ← onCache (Some h) (Commit h); mret ().

(** The result is [pageIndex], [pageWriter] and the error. Each step takes a byte of
    the chunk when the page size is positive, so the chunk's length is fuel enough. *)
Fixpoint bufferColdFullPage (fuel : nat) (obj : Object) (pageIndex : Z) (pageWriter : option Z) (chunk : bytes)
    : R (Z * option Z * option ProxyError) :=
  match chunk, fuel with
  | [], _ => mret (pageIndex, pageWriter, None)
  | _, O => mret (pageIndex, pageWriter, Some (ErrCache OutOfFuel))
  | _, S fuel =>
      w ← match pageWriter with
          | Some h => mret (Ok h)
          | None => beginCachePageWriter obj pageIndex
          end;
      match w with
      | Err e => mret (pageIndex, None, Some (ErrCache e))
      | Ok h =>
          size ← pageWriterSize h;
          let remaining := ob_PageSize obj -! size in
          let remaining := if remaining >? zlen chunk then zlen chunk else remaining in
          if remaining <? 0 then mret (pageIndex, Some h, Some (ErrCache Panic))
          else
            r ← onCache (Some h) (Write h (take (Z.to_nat remaining) chunk));
            match r with
            | Err e => mret (pageIndex, Some h, Some (ErrCache e))
            | Ok _ =>
                let chunk := drop (Z.to_nat remaining) chunk in
                size ← pageWriterSize h;
                if size =? ob_PageSize obj
                then commitCachePageWriter h;; bufferColdFullPage fuel obj (pageIndex +! 1) None chunk
                else bufferColdFullPage fuel obj pageIndex (Some h) chunk
            end
      end
  end.

(** [w.Write(chunk)]: the bytes written and the error, a short write included. *)
Definition writeCold (chunk : bytes) : R (Z * option ProxyError) :=
  w ← getClient;
  let '(written, err, w') := Io.Write chunk w in
  set_client w';;
  mret (Z.of_nat written,
        match err with
        | Some e => Some (ErrCopy e)
        | None => if negb (Z.of_nat written =? zlen chunk) then Some (ErrCopy Io.ShortWrite) else None
        end).

(** The loop: the bytes written, the page writer that is left with its page, and
    the error with whether the connection is to be closed. *)
Fixpoint coldLoop (fuel : nat) (obj : Object) (body : Io.Reader) (total pageIndex : Z) (pageWriter : option Z)
    : R (Z * option Z * option (ProxyError * bool)) :=
  match fuel with
  | O => mret (total, pageWriter, Some (ErrCache OutOfFuel, false))
  | S fuel =>
      let '(chunk, readErr, body') := Io.Read copyBufferSize body in
      c ← (if bool_decide (chunk = []) then mret (total, pageIndex, pageWriter, None)
           else
             w ← writeCold chunk;
             let '(written, err) := w in
             let total := total +! written in
             match err with
             | Some e => mret (total, pageIndex, pageWriter, Some e)
             | None =>
                 b ← bufferColdFullPage (length chunk) obj pageIndex pageWriter chunk;
                 let '(pageIndex, pageWriter, err) := b in
                 mret (total, pageIndex, pageWriter, err)
             end);
      let '(total, pageIndex, pageWriter, err) := c in
      match err with
      | Some e => mret (total, pageWriter, Some (e, false))
      | None =>
          match readErr with
          | None => coldLoop fuel obj body' total pageIndex pageWriter
          | Some e => if bool_decide (e = Io.EOF) then mret (total, pageWriter, None)
                      else mret (total, pageWriter, Some (ErrCopy e, true))
          end
      end
  end.

(** The deferred [Abort]. *)
Definition abortLeft (pageWriter : option Z) : R () :=
  match pageWriter with
  | Some h => _ ← onCache (Some h) (Abort h); mret ()
  | None => mret ()
  end.

Definition streamColdFullObject (obj : Object) (body : Io.Reader) : R (Z * option ProxyError) :=
  l ← coldLoop (Io.reads body) obj body 0 0 None;
  let '(total, pageWriter, err) := l in
  res ← match err with
        | Some (e, close) => (if close : bool then abortCommittedResponse total else mret ());; mret (total, Some e)
        | None =>
            match pageWriter with
            | Some h => size ← pageWriterSize h; (if size >? 0 then commitCachePageWriter h else mret ())
            | None => mret ()
            end;;
            if negb (total =? ob_Size obj)
            then abortCommittedResponse total;; mret (total, Some (ErrPageBytes total (ob_Size obj)))
            else mret (total, None)
        end;
  abortLeft pageWriter;;
  mret res.

Section Cold.
Context (p : Proxy).

Definition serveColdFullObject (r : HttpRequest) (obj : Object) : P Handled :=
  match newUpstreamRequest (px_endpoint p) (px_builds p) r MethodGet with
  | None => mret (failed HandlerBuild)
  | Some req =>
      match px_sign p (withHeader (Http.Set_ (Http.Del (up_Header req) "Range") "If-Match" (ob_ETag obj)) req) with
      | None => mret (failed HandlerSign)
      | Some req =>
          match PagesForRange (mkByteRange 0 (ob_Size obj -! 1)) (ob_PageSize obj) with
          | Err e => mret (failed (HandlerRead (ErrRange e)))
          | Ok _ =>
              resp ← clientDo (px_origin p) req;
              match resp with
              | None => httpError "upstream request failed" 502;; mret (failed HandlerUpstream)
              | Some resp =>
                  if rs_Status resp =? 412 then mret (failed (HandlerRead ErrObjectChanged))
                  else if negb (rs_Status resp =? 200)
                  then httpError "fetch upstream object" 502;; mret (failed (HandlerStatus (rs_Status resp)))
                  else
                    modifyHeader (fun h => writeCachedObjectHeaders h obj false);;
                    WriteHeader 200;;
                    s ← onSession (streamColdFullObject obj (rs_Body resp));
                    let '(n, err) := s in
                    mret (200, n, HandlerRead <$> err)
              end
          end
      end
  end.

End Cold.

(** ** What it writes *)

Section Versions.
Context (version : string -> bytes -> bytes) (pageSizeOf : string -> Z).
Context (obj : Object) (Hobj : object_ok version pageSizeOf obj).

Abbreviation content := (contentOf version (ob_ID obj) (ob_ETag obj)).
Abbreviation page_of := (pageOf version pageSizeOf (ob_ID obj) (ob_ETag obj)).
Abbreviation good := (Good version pageSizeOf).
Abbreviation ok := (session_ok version pageSizeOf).
Abbreviation PS := (ob_PageSize obj).

(** After [fed]: the pages before [index] are done, the page writer holds the rest. *)
Definition filling (s : Session) (index : Z) (pw : option Z) (fed : bytes) : Prop :=
  0 <= index /\
  match pw with
  | None => zlen fed = index * PS
  | Some h => index * PS <= zlen fed < (index + 1) * PS /\
      live (cache s) h (wopts obj index) (drop (Z.to_nat (index * PS)) fed)
  end.

Lemma live_size c h o t : cache_ok good c -> live c h o t -> from_option pw_size 0 (writers (fs c) !! h) = zlen t.
Proof.
  intros [Hst _] (w & Hw & _ & Hd & Ht). rewrite Hw. cbn.
  destruct (so_writers _ _ _ Hst h w Hw) as (_ & _ & _ & _ & Hz). rewrite <- (Hz Hd). unfold temp in Ht. by rewrite Ht.
Qed.

(** The cache's operations on a page end by themselves. *)
Lemma BeginPageWrite_ends opts c : wp (BeginPageWrite opts) (fun r _ => r <> Err OutOfFuel) c.
Proof. unfold BeginPageWrite, validatePageCommit, pageBucket, liftCommit. wp_go; try done. destruct (checkCurrent _ _ _ _); wp_go; done. Qed.

Lemma Write_ends h data c : wp (Write h data) (fun r _ => r <> Err OutOfFuel) c.
Proof. unfold Write, writer, appendTemp, set_writerM. wp_go; done. Qed.

Lemma onCache_ends {A} own (m : M A) s r s' :
  (forall c, wp m (fun r _ => r <> Err OutOfFuel) c) -> onCache own m s = (r, s') -> r <> Err OutOfFuel.
Proof.
  intros Hm. unfold onCache, wp in *. destruct (env s) as [|f rest].
  - specialize (Hm (cache s)). destruct (m (cache s)). by intros [= <- <-].
  - specialize (Hm (f own (cache s))). destruct (m (f own (cache s))). by intros [= <- <-].
Qed.

(** The error of a loop that would go on. *)
Abbreviation endless := (Some (ErrCache OutOfFuel)).

(** The page writer for the next byte, made when there is none. *)
Definition openWriter (index : Z) (pw : option Z) : R (result CacheError Z) :=
  match pw with Some h => mret (Ok h) | None => beginCachePageWriter obj index end.

Lemma openWriter_spec s index pw fed r s1 :
  ok s -> filling s index pw fed -> openWriter index pw s = (r, s1) ->
  ok s1 /\ framed s s1 /\ (forall h, r = Ok h -> filling s1 index (Some h) fed) /\ r <> Err OutOfFuel.
Proof.
  intros Hs (Hi & Hf) Hrun. pose proof (oo_positive _ _ _ Hobj). destruct pw as [h|]; cbn in Hrun.
  - injection Hrun as <- <-. split; [done|]. split; [by split|]. split; [by intros h' [= <-]|done].
  - destruct (onCache_spec _ _ None _ s r s1 (fun r c' => forall h, r = Ok h -> live c' h (wopts obj index) []) Hs Hrun)
      as (Hs1 & Hl & Hfr).
    { intros c Hc _. by apply BeginPageWrite_live. }
    split; [done|]. split; [done|]. split; [|exact (onCache_ends _ _ _ _ _ (BeginPageWrite_ends _) Hrun)].
    intros h ->. split; [done|]. split; [lia|]. rewrite drop_ge; [by apply Hl|]. unfold zlen in Hf. lia.
Qed.

(** One step: the bytes of [chunk] that the page still takes. *)
Definition takes (index : Z) (fed chunk : bytes) : nat := Nat.min (Z.to_nat ((index + 1) * PS - zlen fed)) (length chunk).

Lemma takes_remaining s index h fed chunk :
  ok s -> filling s index (Some h) fed -> (fed ++ chunk) `prefix_of` content ->
  let size := from_option pw_size 0 (writers (fs (cache s)) !! h) in
  let remaining := PS -! size in
  let remaining := if remaining >? zlen chunk then zlen chunk else remaining in
  remaining = Z.of_nat (takes index fed chunk) /\ (chunk <> [] -> (0 < takes index fed chunk)%nat).
Proof.
  intros [Hc _] (Hi & Hf & Hl) Hpre. cbv zeta. rewrite (live_size _ _ _ _ Hc Hl).
  destruct Hobj as [Hsz Hps Hpos Hbd]. assert (0 <= index * PS) by nia.
  assert (Hz : zlen (drop (Z.to_nat (index * PS)) fed) = zlen fed - index * PS)
    by (unfold zlen in *; rewrite length_drop; lia).
  rewrite Hsz in Hbd. pose proof (zlen_nonneg content). assert (Hk : 0 < (index + 1) * PS - zlen fed) by lia.
  assert (Hrem : PS -! zlen (drop (Z.to_nat (index * PS)) fed) = (index + 1) * PS - zlen fed)
    by (rewrite Hz; unfold sub64; rewrite wrap64_id; [lia|int64_unfold; lia]).
  rewrite Hrem. unfold takes. set (k := (index + 1) * PS - zlen fed) in *. clearbody k. clear - Hk.
  split; [|intros Hne; destruct chunk; [done|cbn; lia]].
  unfold zlen. destruct (Z.gtb_spec k (Z.of_nat (length chunk))); lia.
Qed.

Lemma filled_page index fed :
  0 <= index -> fed `prefix_of` content ->
  zlen fed = (index + 1) * PS \/ (fed = content /\ zlen fed <= (index + 1) * PS) ->
  good (wopts obj index) (drop (Z.to_nat (index * PS)) fed).
Proof.
  intros Hi [rest Hrest] Hfull. destruct Hobj as [_ Hps Hpos _]. unfold Good, pageOf, slice. cbn.
  rewrite <- Hps. replace ((index + 1) * PS - index * PS) with PS by lia. destruct Hfull as [Hz|[-> Hz]].
  - rewrite Hrest, drop_app_le by (unfold zlen in Hz; nia).
    rewrite take_app_le by (unfold zlen in Hz; rewrite length_drop; nia).
    rewrite take_ge; [done|]. unfold zlen in Hz. rewrite length_drop. nia.
  - rewrite take_ge; [done|]. unfold zlen in Hz. rewrite length_drop. nia.
Qed.

(** Writing the bytes the page takes, and committing the page when it is full. *)
Lemma write_spec s index h fed chunk r s1 :
  let k := takes index fed chunk in
  ok s -> filling s index (Some h) fed -> (fed ++ chunk) `prefix_of` content ->
  onCache (Some h) (Write h (take k chunk)) s = (r, s1) ->
  ok s1 /\ framed s s1 /\
  (is_ok r = true -> live (cache s1) h (wopts obj index) (drop (Z.to_nat (index * PS)) (fed ++ take k chunk)) /\
     index * PS <= zlen (fed ++ take k chunk) <= (index + 1) * PS).
Proof.
  cbv zeta. intros Hs (Hi & Hf & Hl) Hpre Hw.
  destruct (onCache_spec _ _ (Some h) _ s r s1 (fun r c' => is_ok r = true -> live c' h (wopts obj index)
    (drop (Z.to_nat (index * PS)) fed ++ take (takes index fed chunk) chunk)) Hs Hw) as (Hs1 & Hl1 & Hfr).
  { intros c Hc Hkeep. eapply wp_mono; [apply Write_live; [done|]; by eapply live_kept|].
    intros r' c' [Hc' Hn]. split; [done|]. destruct r' as [n|]; [|done]. intros _. by apply (Hn n). }
  split_and!; [done|done|]. intros Hr. rewrite drop_app_le by (unfold zlen in Hf; lia).
  split; [by apply Hl1|]. rewrite zlen_app. unfold takes, zlen in *. rewrite length_take. lia.
Qed.

Lemma commit_spec s index h t s1 :
  ok s -> live (cache s) h (wopts obj index) t -> good (wopts obj index) t ->
  commitCachePageWriter h s = ((), s1) -> ok s1 /\ framed s s1.
Proof.
  intros Hs Hl Hg. unfold commitCachePageWriter, mbind, R_bind.
  destruct (onCache (Some h) (Commit h) s) as [r s'] eqn:Hc. intros [= <-].
  destruct (onCache_spec _ _ (Some h) (Commit h) s r s' (fun _ _ => True) Hs Hc) as (Hs' & _ & Hfr); [|done].
  intros c Hok Hkeep. apply (Commit_live _ _ c h (wopts obj index) t); [done| |done]. by eapply live_kept.
Qed.

(** A chunk is cut into pages, in as many steps as it has bytes: more fuel changes
    nothing. *)
Lemma buffer_spec f1 f2 s index pw fed chunk :
  ok s -> filling s index pw fed -> (fed ++ chunk) `prefix_of` content ->
  (length chunk <= f1)%nat -> (length chunk <= f2)%nat ->
  bufferColdFullPage f2 obj index pw chunk s = bufferColdFullPage f1 obj index pw chunk s /\
  let '(index', pw', err, s') := bufferColdFullPage f1 obj index pw chunk s in
  ok s' /\ framed s s' /\ (err = None -> filling s' index' pw' (fed ++ chunk)) /\ err <> endless.
Proof.
  revert f2 s index pw fed chunk.
  induction f1 as [|f1 IH]; intros f2 s index pw fed chunk Hs Hf Hpre H1 H2;
    (destruct chunk as [|b chunk]; [destruct f2; cbn; rewrite app_nil_r; by split_and!|]); [cbn in H1; lia|].
  destruct f2 as [|f2]; [cbn in H2; lia|]. cbn [bufferColdFullPage].
  set (ch := b :: chunk) in *. fold (openWriter index pw). unfold mbind, R_bind.
  destruct (openWriter index pw s) as [r0 s0] eqn:Ho.
  destruct (openWriter_spec _ _ _ _ _ _ Hs Hf Ho) as (Hs0 & Hfr0 & Hf0 & Hend0). destruct r0 as [h|e]; [|split; [done|]; split_and!; try done; congruence].
  specialize (Hf0 h eq_refl). unfold pageWriterSize. cbv beta iota.
  destruct (takes_remaining s0 index h fed ch Hs0 Hf0 Hpre) as [Hrem Hpos]. cbv zeta in Hrem. rewrite Hrem.
  specialize (Hpos ltac:(done)). set (k := takes index fed ch) in *.
  rewrite (proj2 (Z.ltb_ge _ _)) by lia. rewrite Nat2Z.id.
  destruct (onCache (Some h) (Write h (take k ch)) s0) as [r1 s1] eqn:Hw.
  destruct (write_spec s0 index h fed ch r1 s1 Hs0 Hf0 Hpre Hw) as (Hs1 & Hfr1 & Hl1). fold k in Hl1.
  pose proof (onCache_ends _ _ _ _ _ (Write_ends _ _) Hw) as Hend1. destruct r1 as [w|e].
  2:{ split; [done|]. split_and!; [done| |done|congruence].
      split; etransitivity; [apply Hfr1|apply Hfr0|apply Hfr1|apply Hfr0]. }
  destruct (Hl1 eq_refl) as [Hl Hz]. rewrite (live_size _ _ _ _ (proj1 Hs1) Hl).
  assert (Hcat : (fed ++ take k ch) ++ drop k ch = fed ++ ch) by by rewrite <- app_assoc, take_drop.
  assert (Hlen : (length (drop k ch) < length ch)%nat) by (rewrite length_drop; cbn; lia).
  assert (Hpre' : (fed ++ take k ch) `prefix_of` content).
  { etransitivity; [|exact Hpre]. rewrite <- Hcat. by apply prefix_app_r. }
  destruct Hobj as [Hsz _ HPS Hbd]. assert (0 <= index * PS) by (destruct Hf; nia).
  assert (Hdl : zlen (drop (Z.to_nat (index * PS)) (fed ++ take k ch)) = zlen (fed ++ take k ch) - index * PS)
    by (unfold zlen in *; rewrite length_drop; lia).
  assert (Htrans : forall s2, framed s1 s2 -> framed s s2)
    by (intros s2 [? ?]; destruct Hfr0, Hfr1; split; congruence).
  rewrite Hdl. destruct (Z.eqb_spec (zlen (fed ++ take k ch) - index * PS) PS) as [Hfull|Hpart].
  - destruct (commitCachePageWriter h s1) as [[] s2] eqn:Hcm.
    destruct (commit_spec s1 index h _ s2 Hs1 Hl (filled_page index _ ltac:(apply Hf) Hpre' ltac:(left; lia)) Hcm)
      as [Hs2 Hfr2].
    assert (Hinc : index +! 1 = index + 1).
    { assert (H0 : index + 1 <= (index + 1) * PS) by (destruct Hf; nia). apply prefix_length in Hpre'.
      unfold zlen in *. apply add64_id. int64_unfold. destruct Hf. lia. }
    rewrite Hinc. destruct (IH f2 s2 (index + 1) None (fed ++ take k ch) (drop k ch)) as [-> Hrun];
      [done|split; [destruct Hf; lia|lia]|by rewrite Hcat|lia|lia|]. split; [done|].
    destruct (bufferColdFullPage f1 obj (index + 1) None (drop k ch) s2) as [[[i2 pw2] e2] s3].
    rewrite Hcat in Hrun. destruct Hrun as (? & Hfr3 & ? & ?). split_and!; [done| |done|done].
    apply Htrans. destruct Hfr2, Hfr3. split; congruence.
  - destruct (IH f2 s1 index (Some h) (fed ++ take k ch) (drop k ch)) as [-> Hrun];
      [done|split; [apply Hf|split; [lia|done]]|by rewrite Hcat|lia|lia|]. split; [done|].
    destruct (bufferColdFullPage f1 obj index (Some h) (drop k ch) s1) as [[[i2 pw2] e2] s3].
    rewrite Hcat in Hrun. destruct Hrun as (? & Hfr3 & ? & ?). split_and!; [done|by apply Htrans|done|done].
Qed.

Lemma writeCold_spec chunk s n err s' :
  writeCold chunk s = ((n, err), s') ->
  cache s' = cache s /\ env s' = env s /\ flight s' = flight s /\
  exists part, Io.out (client s') = Io.out (client s) ++ part /\ n = zlen part /\ part `prefix_of` chunk /\
    (err = None -> part = chunk) /\ err <> endless.
Proof.
  unfold writeCold, mbind, R_bind, getClient, set_client. cbn.
  destruct (Io.Write chunk (client s)) as [[k werr] w'] eqn:Hw. destruct (Io.Write_out _ _ _ _ _ Hw) as [Ho Hk].
  intros [= <- <- <-]. cbn. split_and!; [done..|]. exists (take k chunk).
  assert (Hz : zlen (take k chunk) = Z.of_nat k) by (unfold zlen; rewrite length_take; lia).
  split_and!; [done|done|apply prefix_take| |by destruct werr; [|destruct (negb _)]]. destruct werr; [done|].
  destruct (Z.eqb_spec (Z.of_nat k) (zlen chunk)) as [He|]; [|done]. intros _. apply take_ge. unfold zlen in He. lia.
Qed.

(** One chunk: to the client, then to the pages. *)
Lemma coldChunk_spec chunk s total index pw fed total' index' pw' err s' :
  ok s -> filling s index pw fed -> total = zlen fed -> (fed ++ chunk) `prefix_of` content ->
  (if bool_decide (chunk = []) then mret (total, index, pw, None)
   else
     w ← writeCold chunk;
     let '(written, err) := w in
     let total := total +! written in
     match err with
     | Some e => mret (total, index, pw, Some e)
     | None =>
         b ← bufferColdFullPage (length chunk) obj index pw chunk;
         let '(index, pw, err) := b in
         mret (total, index, pw, err)
     end) s = ((total', index', pw', err), s') ->
  ok s' /\ flight s' = flight s /\
  (exists part, Io.out (client s') = Io.out (client s) ++ part /\ total' = zlen (fed ++ part) /\
    part `prefix_of` chunk /\ (err = None -> part = chunk)) /\
  (err = None -> filling s' index' pw' (fed ++ chunk)) /\ err <> endless.
Proof.
  intros Hs Hf -> Hpre. case_bool_decide as Hne.
  { subst chunk. intros [= <- <- <- <- <-]. rewrite app_nil_r. split_and!; [done|done| |done|done].
    exists []. rewrite !app_nil_r. by split_and!. }
  unfold mbind, R_bind. destruct (writeCold chunk s) as [[n werr] s1] eqn:Hw.
  destruct (writeCold_spec chunk s n werr s1 Hw) as (Hc1 & He1 & Hfl1 & part & Ho & -> & Hp & Hall & Hend).
  assert (Hs1 : ok s1) by (unfold session_ok in *; by rewrite Hc1, He1).
  assert (Hadd : zlen fed +! zlen part = zlen (fed ++ part)).
  { rewrite zlen_app. destruct Hobj as [Hsz _ HPS Hbd]. apply prefix_length in Hpre, Hp. rewrite length_app in Hpre.
    pose proof (zlen_nonneg fed). pose proof (zlen_nonneg part). unfold zlen in *. apply add64_id. int64_unfold. lia. }
  rewrite Hadd. destruct werr as [e|].
  { intros [= <- <- <- <- <-]. split_and!; [done|done|by exists part|done|done]. }
  specialize (Hall eq_refl). subst part. destruct (buffer_spec (length chunk) (length chunk) s1 index pw fed chunk)
    as [_ Hb]; [done|destruct Hf as [Hi Hf]; split; [done|by rewrite Hc1]|done|lia|lia|].
  destruct (bufferColdFullPage (length chunk) obj index pw chunk s1) as [[[i2 pw2] e2] s2].
  destruct Hb as (Hs2 & [Hcl Hfl2] & Hf2 & Hend2). intros [= <- <- <- <- <-].
  split_and!; [done|congruence| |done|done]. exists chunk. rewrite Hcl. by split_and!.
Qed.

(** The loop writes the body to the client; when it ends without an error, the page
    writer that is left holds the rest of the body. *)
Lemma coldLoop_spec fuel body s total index pw fed total' pw' err s' :
  ok s -> filling s index pw fed -> total = zlen fed -> (Io.reads body <= fuel)%nat ->
  (fed ++ Io.content body) `prefix_of` content ->
  coldLoop fuel obj body total index pw s = ((total', pw', err), s') ->
  ok s' /\ flight s' = flight s /\
  (exists part, Io.out (client s') = Io.out (client s) ++ part /\ total' = zlen (fed ++ part) /\
    part `prefix_of` Io.content body /\ (err = None -> part = Io.content body /\ Io.fin body = Io.EOF)) /\
  (err = None -> exists index', filling s' index' pw' (fed ++ Io.content body)) /\
  forall close, err <> Some (ErrCache OutOfFuel, close).
Proof.
  revert body s total index pw fed. induction fuel as [|fuel IH];
    intros body s total index pw fed Hs Hf Ht Hfuel Hpre; [unfold Io.reads in Hfuel; lia|].
  cbn [coldLoop]. destruct (Io.Read copyBufferSize body) as [[chunk rerr] body'] eqn:HR.
  pose proof (Io.Read_spec _ _ _ _ _ HR) as (Hc & _ & _ & Herr & Hfin & _).
  assert (Hreads : rerr = None -> (Io.reads body' < Io.reads body)%nat).
  { intros Hn. refine (Io.Read_reads copyBufferSize body chunk rerr body' _ HR Hn). unfold copyBufferSize. lia. }
  rewrite Hc, app_assoc in *. unfold mbind at 1, R_bind at 1.
  match goal with |- (let '(_, _) := ?m s in _) = _ -> _ => destruct (m s) as [[[[t1 i1] pw1] e1] s1] eqn:Hstep end.
  assert (Hpre1 : (fed ++ chunk) `prefix_of` content) by (etransitivity; [|exact Hpre]; by apply prefix_app_r).
  destruct (coldChunk_spec chunk s total index pw fed t1 i1 pw1 e1 s1 Hs Hf Ht Hpre1 Hstep)
    as (Hs1 & Hfl1 & (part & Ho & Ht1 & Hp & He) & Hf1 & Hend1).
  destruct e1 as [e|].
  { intros [= <- <- <- <-]. split_and!; [done|done| |done|congruence]. exists part. split_and!; [done|done| |done].
    etransitivity; [exact Hp|]. by apply prefix_app_r. }
  specialize (He eq_refl). specialize (Hf1 eq_refl). subst part. destruct rerr as [e|].
  - destruct (Herr e eq_refl) as [Hnil Hfe]. rewrite Hnil, ?app_nil_r in *. subst e.
    destruct (decide (Io.fin body = Io.EOF)) as [Heof|Heof];
      [rewrite bool_decide_true by done|rewrite bool_decide_false by done];
      intros [= <- <- <- <-]; (split_and!; [done|done| | |done]).
    + exists chunk. by split_and!.
    + intros _. by exists i1.
    + exists chunk. by split_and!.
    + done.
  - intros Hrun. destruct (IH body' s1 t1 i1 pw1 (fed ++ chunk)) as (Hs2 & Hfl2 & (part & Ho2 & Ht2 & Hp2 & He2) & Hf2 & Hend2);
      try done; [specialize (Hreads eq_refl); lia|].
    split_and!; [done|congruence| | |done]; [exists (chunk ++ part)|by rewrite ?app_assoc in *]. rewrite Ho2, Ho, <- !app_assoc in *.
    split_and!; [done|done|by apply prefix_app|]. intros Hn. destruct (He2 Hn) as [-> ?]. by rewrite <- Hfin.
Qed.

Lemma abortLeft_spec pw s s' : ok s -> abortLeft pw s = ((), s') -> ok s' /\ framed s s'.
Proof.
  intros Hs. unfold abortLeft. destruct pw as [h|]; [|intros [= <-]; by split].
  unfold mbind, R_bind. destruct (onCache (Some h) (Abort h) s) as [r s1] eqn:Ha. intros [= <-].
  destruct (onCache_spec _ _ (Some h) (Abort h) s r s1 (fun _ _ => True) Hs Ha) as (Hs1 & _ & Hfr); [|done].
  intros c Hc _. by apply Abort_ok.
Qed.

Lemma abortResponse_spec n s s' : abortCommittedResponse n s = ((), s') -> ok s -> ok s' /\ framed s s'.
Proof. unfold abortCommittedResponse. case_match; intros [= <-] Hs; by split. Qed.

(** What the client sees of a call on the cache. *)
Lemma onCache_framed {A} own (m : M A) s r s' : onCache own m s = (r, s') -> framed s s'.
Proof. unfold onCache. destruct (env s); destruct (m _); intros [= <- <-]; by split. Qed.

Lemma framed_trans s1 s2 s3 : framed s1 s2 -> framed s2 s3 -> framed s1 s3.
Proof. intros [? ?] [? ?]. split; congruence. Qed.

(** The commit of what is left at the end of the body. *)
Definition commitLast (pageWriter : option Z) : R () :=
  match pageWriter with
  | Some h => size ← pageWriterSize h; (if size >? 0 then commitCachePageWriter h else mret ())
  | None => mret ()
  end.

Lemma commitLast_spec s index pw fed s' :
  ok s -> filling s index pw fed -> fed `prefix_of` content -> commitLast pw s = ((), s') ->
  framed s s' /\ (fed = content -> ok s').
Proof.
  intros Hs (Hi & Hf) Hp. unfold commitLast. destruct pw as [h|]; [|intros [= <-]; split; [by split|done]].
  destruct Hf as [Hz Hl]. unfold mbind, R_bind, pageWriterSize. destruct (_ >? 0); [|intros [= <-]; split; [by split|done]].
  intros Hcm. split.
  - unfold commitCachePageWriter, mbind, R_bind in Hcm. destruct (onCache _ _ s) as [r s1] eqn:Hc. injection Hcm as <-.
    by eapply onCache_framed.
  - intros ->. eapply commit_spec; [exact Hs|exact Hl| |exact Hcm].
    apply filled_page; [done|done|]. right. split; [done|lia].
Qed.

(** The bytes the client gets: a prefix of the object, all of it without an error,
    since the bytes are counted. The pages that are cached are pages of the object unless
    the body ends early with [EOF]: then the bytes that are left are taken for its last page. *)
Lemma streamColdFullObject_spec body s n err s' :
  ok s -> Io.content body `prefix_of` content ->
  streamColdFullObject obj body s = ((n, err), s') ->
  ((Io.fin body = Io.EOF -> Io.content body = content) -> ok s') /\ flight s' = flight s /\
  exists part, Io.out (client s') = Io.out (client s) ++ part /\ n = zlen part /\
    part `prefix_of` content /\ (err = None -> part = content) /\ err <> endless.
Proof.
  intros Hs Hpre. unfold streamColdFullObject. unfold mbind at 1, R_bind at 1.
  destruct (coldLoop _ _ _ _ _ _ s) as [[[t pw] e] s1] eqn:Hl.
  assert (Hf0 : filling s 0 None []) by (split; [lia|]; unfold zlen; cbn; lia).
  destruct (coldLoop_spec (Io.reads body) body s 0 0 None [] t pw e s1 Hs Hf0 eq_refl ltac:(lia) Hpre Hl)
    as (Hs1 & Hfl1 & (part & Ho & Ht & Hp & He) & Hf1 & Hends). cbn in Ht.
  assert (Hpart : part `prefix_of` content) by by etransitivity.
  set (whole := Io.fin body = Io.EOF -> Io.content body = content).
  assert (Hend : forall s2 s3 r, (whole -> ok s2) -> framed s1 s2 -> (r.2 = None -> part = content) -> r.2 <> endless -> r.1 = t ->
    (abortLeft pw;; mret r : R _) s2 = ((n, err), s3) ->
    (whole -> ok s3) /\ flight s3 = flight s /\ exists part, Io.out (client s3) = Io.out (client s) ++ part /\ n = zlen part /\
      part `prefix_of` content /\ (err = None -> part = content) /\ err <> endless).
  { intros s2 s3 [r1 r2] Hs2 [Hcl2 Hfl2] Hr Hre Hrt Hrun. unfold mbind, R_bind in Hrun.
    destruct (abortLeft pw s2) as [[] s4] eqn:Ha. injection Hrun as <- <- <-.
    assert (framed s2 s4) as [Hcl4 Hfl4].
    { unfold abortLeft, mbind, R_bind in Ha. destruct pw as [h|]; [|injection Ha as <-; by split].
      destruct (onCache _ _ s2) as [r s5] eqn:Hc. injection Ha as <-. by eapply onCache_framed. }
    split; [intros Hw; apply (abortLeft_spec pw s2 s4 (Hs2 Hw) Ha)|]. split; [congruence|].
    exists part. rewrite Hcl4, Hcl2. cbn in *. split_and!; [done|congruence|done..]. }
  unfold mbind at 1, R_bind at 1. destruct e as [[e close]|].
  - unfold mbind at 1, R_bind at 1.
    destruct ((if close then abortCommittedResponse t else mret ()) s1) as [[] s2] eqn:Ha.
    assert (Hs2 : ok s2 /\ framed s1 s2).
    { destruct close; [by eapply abortResponse_spec|]. injection Ha as <-. by split. }
    intros Hrun. eapply (Hend s2 s' (t, Some e)); try done; [intros; apply Hs2|apply Hs2|]. by intros [= ->]; apply (Hends close).
  - destruct (He eq_refl) as [-> Hfin]. destruct (Hf1 eq_refl) as (i & Hfill). cbn in Hfill.
    fold (commitLast pw). unfold mbind at 1, R_bind at 1. destruct (commitLast pw s1) as [[] s2] eqn:Hcm.
    destruct (commitLast_spec s1 i pw _ s2 Hs1 Hfill Hpre Hcm) as [Hfr2 Hok2].
    assert (Hok : whole -> ok s2) by (intros Hw; apply Hok2, Hw, Hfin).
    destruct (Z.eqb_spec t (ob_Size obj)) as [Heq|Hne]; cbn [negb].
    + intros Hrun. eapply (Hend s2 s' (t, None)); [exact Hok|exact Hfr2| |done|done|exact Hrun]. intros _.
      destruct Hpre as [rest Hrest]. rewrite Ht, (oo_size _ _ _ Hobj), Hrest in Heq.
      destruct rest; [by rewrite Hrest, app_nil_r|]. unfold zlen in Heq. rewrite length_app in Heq. cbn in Heq. lia.
    + unfold mbind at 1, R_bind at 1. destruct (abortCommittedResponse t s2) as [[] s3] eqn:Ha.
      assert (framed s2 s3) by (unfold abortCommittedResponse in Ha; by case_match; injection Ha as <-).
      intros Hrun. eapply (Hend s3 s' (t, Some (ErrPageBytes t (ob_Size obj)))); [|by eapply framed_trans|done|done|done|exact Hrun].
      intros Hw. apply (abortResponse_spec t s2 s3 Ha (Hok Hw)).
Qed.

End Versions.

(** ** Its errors *)

Lemma bufferCold_error fuel obj i pw chunk s i' pw' e s' :
  bufferColdFullPage fuel obj i pw chunk s = ((i', pw', Some e), s') -> e <> ErrObjectChanged.
Proof.
  revert i pw chunk s. induction fuel as [|fuel IH]; intros i pw [|x chunk] s; cbn [bufferColdFullPage];
    try (by intros [= <- <- <- <-]).
  unfold mbind, R_bind. fold (openWriter obj i pw). destruct (openWriter obj i pw s) as [[h|ce] s1]; [|by intros [= <- <- <- <-]].
  destruct (pageWriterSize h s1) as [size s2]. destruct (_ <? 0); [by intros [= <- <- <- <-]|].
  destruct (onCache _ _ s2) as [[n|ce] s3]; [|by intros [= <- <- <- <-]].
  destruct (pageWriterSize h s3) as [size' s4]. destruct (_ =? _); [|by apply IH].
  destruct (commitCachePageWriter h s4) as [[] s5]. by apply IH.
Qed.

Lemma writeCold_error chunk s n e s' : writeCold chunk s = ((n, Some e), s') -> e <> ErrObjectChanged.
Proof.
  unfold writeCold, mbind, R_bind, getClient, set_client. destruct (Io.Write chunk (client s)) as [[k [we|]] w'];
    [by intros [= <- <- <-]|]. destruct (negb _); by intros [= <- <- <-].
Qed.

Lemma coldLoop_error fuel obj body t i pw s t' pw' e b s' :
  coldLoop fuel obj body t i pw s = ((t', pw', Some (e, b)), s') -> e <> ErrObjectChanged.
Proof.
  revert body t i pw s. induction fuel as [|fuel IH]; intros body t i pw s; cbn [coldLoop]; [by intros [= <- <- <- <- <-]|].
  destruct (Io.Read copyBufferSize body) as [[chunk rerr] body']. unfold mbind at 1, R_bind at 1.
  match goal with |- (let '(_, _) := ?m s in _) = _ -> _ => destruct (m s) as [[[[t1 i1] pw1] e1] s1] eqn:Hstep end.
  assert (He1 : forall x, e1 = Some x -> x <> ErrObjectChanged).
  { intros x ->. revert Hstep. destruct (bool_decide (chunk = [])); [by intros [=]|]. unfold mbind, R_bind.
    destruct (writeCold chunk s) as [[n [we|]] s2] eqn:Hw; [intros [= _ _ _ <- _]; by apply writeCold_error in Hw|].
    destruct (bufferColdFullPage _ _ _ _ _ s2) as [[[i2 pw2] e2] s3] eqn:Hb. intros [= _ _ _ -> _].
    by apply bufferCold_error in Hb. }
  destruct e1 as [x|]; [intros [= _ _ <- _ _]; by apply He1|].
  destruct rerr as [re|]; [|by apply IH]. destruct (bool_decide (re = Io.EOF)); [by intros [=]|]. by intros [= _ _ <- _ _].
Qed.

Lemma streamCold_error obj body s n e s' :
  streamColdFullObject obj body s = ((n, Some e), s') -> e <> ErrObjectChanged.
Proof.
  unfold streamColdFullObject. unfold mbind at 1, R_bind at 1.
  destruct (coldLoop _ _ _ _ _ _ s) as [[[t pw] e1] s1] eqn:Hl. unfold mbind at 1, R_bind at 1.
  match goal with |- (let '(_, _) := ?m s1 in _) = _ -> _ => destruct (m s1) as [[n2 e2] s2] eqn:Hm end.
  unfold mbind, R_bind. destruct (abortLeft pw s2) as [[] s3]. intros [= <- -> <-]. revert Hm.
  destruct e1 as [[x b]|]; unfold mbind at 1, R_bind at 1.
  - match goal with |- (let '(_, _) := ?m s1 in _) = _ -> _ => destruct (m s1) as [[] s4] end.
    intros [= _ <- _]. by apply coldLoop_error in Hl.
  - match goal with |- (let '(_, _) := ?m s1 in _) = _ -> _ => destruct (m s1) as [[] s4] end.
    destruct (negb _); [|by intros [=]]. unfold mbind, R_bind. destruct (abortCommittedResponse t s4) as [[] s5]. by intros [= _ <- _].
Qed.

(** ** Termination *)

Lemma coldLoop_fuel f1 f2 obj body total index pw s :
  (Io.reads body <= f1)%nat -> (Io.reads body <= f2)%nat ->
  coldLoop f1 obj body total index pw s = coldLoop f2 obj body total index pw s.
Proof.
  revert f2 body total index pw s.
  induction f1 as [|f1 IH]; intros [|f2] body total index pw s H1 H2; [unfold Io.reads in *; lia..|].
  cbn [coldLoop]. destruct (Io.Read copyBufferSize body) as [[chunk rerr] body'] eqn:HR. unfold mbind, R_bind.
  match goal with |- (let '(_, _) := ?m in _) = _ => destruct m as [[[[t1 i1] pw1] [e1|]] s1] end; [done|].
  destruct rerr as [e|] eqn:Hr; [done|]. pose proof (Io.Read_reads copyBufferSize body chunk None body'
    ltac:(unfold copyBufferSize; lia) HR eq_refl). apply IH; lia.
Qed.

(** C33: the loops of a cold read end. Streaming an object from the body of a
    response never runs out of rounds, whatever fails in the cache or at the client and
    whatever other requests do to the cache: the loop over the body makes no more rounds
    than the body has reads, since each takes a byte or ends it, and the loop that cuts
    what was read into pages makes no more rounds than there are bytes, since the page
    at hand takes at least one. More fuel than that changes nothing. The body is a part
    of the object from its beginning, and the size of the object is that of its version. *)
Theorem cold_read_terminates (version : string -> bytes -> bytes) (pageSizeOf : string -> Z) (obj : Object) :
  object_ok version pageSizeOf obj ->
  let content := contentOf version (ob_ID obj) (ob_ETag obj) in
  (forall body s, session_ok version pageSizeOf s -> Io.content body `prefix_of` content ->
     (streamColdFullObject obj body s).1.2 <> Some (ErrCache OutOfFuel)) /\
  (forall fuel body index pw fed s close,
     session_ok version pageSizeOf s -> filling obj s index pw fed -> (fed ++ Io.content body) `prefix_of` content ->
     (Io.reads body <= fuel)%nat ->
     coldLoop fuel obj body (zlen fed) index pw s = coldLoop (Io.reads body) obj body (zlen fed) index pw s /\
     (coldLoop fuel obj body (zlen fed) index pw s).1.2 <> Some (ErrCache OutOfFuel, close)) /\
  (forall fuel index pw fed chunk s,
     session_ok version pageSizeOf s -> filling obj s index pw fed -> (fed ++ chunk) `prefix_of` content ->
     (length chunk <= fuel)%nat ->
     bufferColdFullPage fuel obj index pw chunk s = bufferColdFullPage (length chunk) obj index pw chunk s /\
     (bufferColdFullPage fuel obj index pw chunk s).1.2 <> Some (ErrCache OutOfFuel)).
Proof.
  intros Hobj. cbv zeta. split_and!.
  - intros body s Hs Hp. destruct (streamColdFullObject obj body s) as [[n err] s'] eqn:E.
    destruct (streamColdFullObject_spec version pageSizeOf obj Hobj body s n err s' Hs Hp E) as (_ & _ & part & H). apply H.
  - intros fuel body index pw fed s close Hs Hf Hp Hfuel. split; [by apply coldLoop_fuel|].
    destruct (coldLoop fuel _ _ _ _ _ s) as [[[t pw'] err] s'] eqn:E.
    by destruct (coldLoop_spec version pageSizeOf obj Hobj fuel body s (zlen fed) index pw fed t pw' err s' Hs Hf eq_refl Hfuel Hp E)
      as (_ & _ & _ & _ & H).
  - intros fuel index pw fed chunk s Hs Hfill Hpre Hf.
    destruct (buffer_spec version pageSizeOf obj Hobj (length chunk) fuel s index pw fed chunk Hs Hfill Hpre (le_n _) Hf) as [-> Hb].
    split; [done|]. destruct (bufferColdFullPage _ _ _ _ _ _) as [[[i pw'] err] s']. apply Hb.
Qed.

(** The alphabet in one read: three pages. *)
Lemma cold_read_terminates_witness :
  bufferColdFullPage 1000 demoObj 0 None alphabet demoSession = bufferColdFullPage 20 demoObj 0 None alphabet demoSession /\
  (streamColdFullObject demoObj (bytesReader alphabet) demoSession).1 = (20, None) /\
  (streamColdFullObject demoObj (bytesReader alphabet) demoSession).1.2 <> Some (ErrCache OutOfFuel).
Proof.
  destruct (cold_read_terminates ver pagesBy8 demoObj) as (Hs & _ & Hb).
  - constructor; [reflexivity|reflexivity|reflexivity|]. vm_compute. discriminate.
  - split; [|split].
    + apply (Hb 1000%nat 0 None [] alphabet demoSession).
      * exact demoSession_ok.
      * split; [lia|reflexivity].
      * reflexivity.
      * apply Nat.leb_le. vm_compute. reflexivity.
    + vm_compute. reflexivity.
    + apply Hs; [exact demoSession_ok|]. reflexivity.
Defined.
