(* ===== verification/ProxyColdLive.v ===== *)
(** * A cold read succeeds ([internal/proxy/proxy.go])

    The read of a whole object whose first page is not cached, when nothing fails: the
    client has the object, and all of its pages are in the cache. *)

From S2P Require Import Prelude GoStrings GoNet Sha256 Range PageFrame CachePath CacheDB CacheStore.
From S2P Require Import CacheLogic CacheInv CacheOps CacheTrips CacheLive ProxyPeers ProxySpan ProxyRead ProxyServe ProxyLive.
From S2P Require Import ProxyHttp ProxyCold.

#[local] Open Scope go_scope.

Section Cold.
Context (version : string -> bytes -> bytes) (pageSizeOf : string -> Z).
Context (obj : Object) (Hobj : object_ok version pageSizeOf obj) (Hid : identified obj).

Abbreviation content := (contentOf version (ob_ID obj) (ob_ETag obj)).
Abbreviation page_of := (pageOf version pageSizeOf (ob_ID obj) (ob_ETag obj)).
Abbreviation ok := (session_ok version pageSizeOf).
Abbreviation serene := (serene version pageSizeOf obj).
Abbreviation PS := (ob_PageSize obj).

(** After [fed]: the pages before [index] are cached, the page writer holds the rest. *)
Definition stocking (s : Session) (index : Z) (pw : option Z) (fed : bytes) (K : gset Z) : Prop :=
  filling obj s index pw fed /\ (forall i, 0 <= i < index -> i ∈ K) /\
  match pw with Some h => mine obj (cache s) h index (drop (Z.to_nat (index * PS)) fed) | None => True end.

Lemma openWriter_serene K s index pw fed :
  ok s -> serene K s -> stocking s index pw fed K ->
  exists h s1, openWriter obj index pw s = (Ok h, s1) /\ ok s1 /\ serene K s1 /\ stocking s1 index (Some h) fed K.
Proof.
  intros Hok Hs (Hf & HK & Hm). destruct pw as [h|]; [by exists h, s|].
  cbn [openWriter]. unfold beginCachePageWriter.
  destruct (onCache_serene version pageSizeOf obj None (BeginPageWrite (wopts obj index)) K K s
    (fun r c' => exists h, r = Ok h /\ mine obj c' h index []) Hs) as (r & s1 & E & (h & -> & Hmine) & Hs1 & _).
  { eapply wp_mono; [apply (BeginPageWrite_calm obj page_of K _ index Hid (se_calm _ _ _ _ _ Hs)), Hf|]. intros r c' (h & ? & ? & ?). eauto. }
  destruct (openWriter_spec version pageSizeOf obj Hobj s index None fed (Ok h) s1 Hok Hf E) as (Hok1 & _ & Hf1).
  exists h, s1. split_and!; [exact E|done|done|]. split; [by apply Hf1|]. split; [done|].
  destruct Hf as [_ Hz]. rewrite drop_ge; [done|]. unfold zlen in Hz. lia.
Qed.

Lemma writePage_serene K s index h fed chunk :
  let k := takes obj index fed chunk in
  ok s -> serene K s -> stocking s index (Some h) fed K -> (fed ++ chunk) `prefix_of` content ->
  exists n s1, onCache (Some h) (Write h (take k chunk)) s = (Ok n, s1) /\ ok s1 /\ serene K s1 /\
    mine obj (cache s1) h index (drop (Z.to_nat (index * PS)) (fed ++ take k chunk)).
Proof.
  cbv zeta. intros Hok Hs (Hf & HK & Hm) Hpre. pose proof Hf as (Hi & Hz & _). pose proof (oo_positive _ _ _ Hobj).
  destruct (onCache_serene version pageSizeOf obj (Some h) (Write h (take (takes obj index fed chunk) chunk)) K K s
    (fun r c' => r = Ok (length (take (takes obj index fed chunk) chunk)) /\
       mine obj c' h index (drop (Z.to_nat (index * PS)) fed ++ take (takes obj index fed chunk) chunk)) Hs)
    as (r & s1 & E & [-> Hm1] & Hs1 & _).
  { eapply wp_mono; [apply (Write_calm obj page_of K _ h index _ _ (se_calm _ _ _ _ _ Hs) Hm)|by intros r c' (? & ? & ?)].
    unfold takes, zlen in *. rewrite length_app, length_drop, length_take. nia. }
  destruct (write_spec version pageSizeOf obj s index h fed chunk _ s1 Hok Hf Hpre E) as (Hok1 & _).
  eexists _, s1. split_and!; [exact E|done|done|]. rewrite drop_app_le by (unfold zlen in Hz; lia). done.
Qed.

Lemma commitPage_serene K s index h :
  ok s -> serene K s -> 0 <= index -> mine obj (cache s) h index (page_of index) ->
  exists s1, commitCachePageWriter h s = ((), s1) /\ ok s1 /\ serene ({[index]} ∪ K) s1 /\ framed s s1.
Proof.
  intros Hok Hs Hi Hm. unfold commitCachePageWriter, mbind, R_bind.
  destruct (onCache_serene version pageSizeOf obj (Some h) (Commit h) K ({[index]} ∪ K) s (fun r _ => is_ok r = true) Hs)
    as (r & s1 & E & _ & Hs1 & _).
  { by apply (Commit_calm obj page_of K _ h index Hid (se_calm _ _ _ _ _ Hs)). }
  rewrite E. exists s1. destruct Hm as (w & Hw & Ho & _ & Hd & _ & _ & Ht).
  destruct (commit_spec version pageSizeOf obj s index h (page_of index) s1 Hok) as [? ?]; [by exists w|done| |by split_and!].
  unfold commitCachePageWriter, mbind, R_bind. by rewrite E.
Qed.

(** The page writer is full, or holds the rest of the object: what it holds is the page. *)
Lemma filled_is_page index fed : 0 <= index -> fed `prefix_of` content ->
  zlen fed = (index + 1) * PS \/ (fed = content /\ zlen fed <= (index + 1) * PS) ->
  drop (Z.to_nat (index * PS)) fed = page_of index.
Proof. apply (filled_page version pageSizeOf obj Hobj). Qed.

Lemma mine_size c h index t : mine obj c h index t -> from_option pw_size 0 (writers (fs c) !! h) = zlen t.
Proof. intros (w & -> & _ & _ & _ & _ & Hz & _). done. Qed.

Lemma mine_live c h index t : mine obj c h index t -> live c h (wopts obj index) t.
Proof. intros (w & Hw & Ho & _ & Hd & _ & _ & Ht). by exists w. Qed.

Lemma buffer_serene f K s index pw fed chunk :
  ok s -> serene K s -> stocking s index pw fed K -> (fed ++ chunk) `prefix_of` content -> (length chunk <= f)%nat ->
  exists index' pw' s' K', bufferColdFullPage f obj index pw chunk s = ((index', pw', None), s') /\
    ok s' /\ serene K' s' /\ stocking s' index' pw' (fed ++ chunk) K'.
Proof.
  revert K s index pw fed chunk. induction f as [|f IH]; intros K s index pw fed chunk Hok Hs Hst Hpre Hlen;
    (destruct chunk as [|b chunk]; [cbn; rewrite app_nil_r; eauto 10|]); [cbn in Hlen; lia|].
  cbn [bufferColdFullPage]. set (ch := b :: chunk) in *. fold (openWriter obj index pw). unfold mbind, R_bind.
  destruct (openWriter_serene K s index pw fed Hok Hs Hst) as (h & s0 & -> & Hok0 & Hs0 & Hst0).
  unfold pageWriterSize. cbv beta iota. pose proof Hst0 as (Hf0 & HK0 & _). pose proof Hf0 as (Hi & Hz0 & _).
  destruct (takes_remaining version pageSizeOf obj Hobj s0 index h fed ch Hok0 Hf0 Hpre) as [Hrem Hpos]. cbv zeta in Hrem. rewrite Hrem.
  specialize (Hpos ltac:(done)). set (k := takes obj index fed ch) in *. rewrite (proj2 (Z.ltb_ge _ _)), Nat2Z.id by lia.
  destruct (writePage_serene K s0 index h fed ch Hok0 Hs0 Hst0 Hpre) as (n & s1 & E & Hok1 & Hs1 & Hm1). fold k in E, Hm1.
  rewrite E, (mine_size _ _ _ _ Hm1).
  assert (Hcat : (fed ++ take k ch) ++ drop k ch = fed ++ ch) by by rewrite <- app_assoc, take_drop.
  assert (Hd : (length (drop k ch) < length ch)%nat) by (rewrite length_drop; cbn; lia).
  assert (Hpre' : (fed ++ take k ch) `prefix_of` content) by (etransitivity; [|exact Hpre]; rewrite <- Hcat; by apply prefix_app_r).
  pose proof (oo_positive _ _ _ Hobj) as HPS. assert (0 <= index * PS) by nia.
  assert (Hzz : index * PS <= zlen (fed ++ take k ch) <= (index + 1) * PS).
  { rewrite zlen_app. subst k. unfold takes, zlen in *. rewrite length_take. lia. }
  assert (Hdl : zlen (drop (Z.to_nat (index * PS)) (fed ++ take k ch)) = zlen (fed ++ take k ch) - index * PS)
    by (unfold zlen in *; rewrite length_drop; lia).
  rewrite Hdl. destruct (Z.eqb_spec (zlen (fed ++ take k ch) - index * PS) PS) as [Hfull|Hpart].
  - rewrite (filled_is_page index _ Hi Hpre') in Hm1 by (left; lia).
    destruct (commitPage_serene K s1 index h Hok1 Hs1 Hi Hm1) as (s2 & -> & Hok2 & Hs2 & _).
    assert (Hinc : index +! 1 = index + 1).
    { assert (H0 : index + 1 <= (index + 1) * PS) by nia. pose proof (oo_bound _ _ _ Hobj) as Hbd.
      rewrite (oo_size _ _ _ Hobj) in Hbd. apply prefix_length in Hpre'. unfold zlen in *. apply add64_id. int64_unfold. lia. }
    rewrite Hinc. destruct (IH ({[index]} ∪ K) s2 (index + 1) None (fed ++ take k ch) (drop k ch)) as (i' & pw' & s' & K' & HR);
      [done|done| |by rewrite Hcat|lia|rewrite Hcat in HR; eauto 10].
    split; [split; lia|]. split; [|done]. intros i Hii. destruct (decide (i = index)); [set_solver|].
    apply elem_of_union_r, HK0. lia.
  - destruct (IH K s1 index (Some h) (fed ++ take k ch) (drop k ch)) as (i' & pw' & s' & K' & HR);
      [done|done| |by rewrite Hcat|lia|rewrite Hcat in HR; eauto 10].
    split; [|by split]. split; [done|]. split; [lia|by apply mine_live].
Qed.

Lemma coldLoop_serene fuel body K s index pw fed :
  ok s -> serene K s -> stocking s index pw fed K -> (Io.reads body <= fuel)%nat ->
  fed ++ Io.content body = content -> Io.fin body = Io.EOF ->
  exists index' pw' s' K', coldLoop fuel obj body (zlen fed) index pw s = ((zlen content, pw', None), s') /\
    ok s' /\ serene K' s' /\ stocking s' index' pw' content K' /\
    Io.out (client s') = Io.out (client s) ++ Io.content body.
Proof.
  revert body K s index pw fed. induction fuel as [|fuel IH];
    intros body K s index pw fed Hok Hs Hst Hfuel Hall Hfin; [unfold Io.reads in Hfuel; lia|].
  cbn [coldLoop]. destruct (Io.Read copyBufferSize body) as [[chunk rerr] body'] eqn:HR.
  pose proof (Io.Read_spec _ _ _ _ _ HR) as (Hc & _ & _ & Herr & Hfin' & _). rewrite Hc, app_assoc in Hall.
  assert (Hpre : (fed ++ chunk) `prefix_of` content) by (rewrite <- Hall; by apply prefix_app_r).
  match goal with |- context [@mbind R _ _ _ ?k ?m s] => assert (Hstep : exists i1 pw1 s1 K1,
    m s = ((zlen (fed ++ chunk), i1, pw1, None), s1) /\ ok s1 /\ serene K1 s1 /\ stocking s1 i1 pw1 (fed ++ chunk) K1 /\
    Io.out (client s1) = Io.out (client s) ++ chunk) end.
  { case_bool_decide as Hne; [subst chunk; rewrite !app_nil_r; eauto 10|].
    unfold writeCold, mbind, R_bind, getClient, set_client. cbv beta iota.
    rewrite (Io.Write_good _ _ (se_client _ _ _ _ _ Hs)). cbv beta iota. fold (zlen chunk). rewrite Z.eqb_refl. cbn [negb].
    set (s0 := mkSession _ _ _ _ _ _ _ _).
    assert (Hs0 : serene K s0) by (destruct Hs; by constructor).
    destruct (buffer_serene (length chunk) K s0 index pw fed chunk Hok Hs0 Hst Hpre ltac:(lia))
      as (i1 & pw1 & s1 & K1 & E & Hok1 & Hs1 & Hst1).
    unfold mret, R_ret. cbv beta iota. rewrite E.
    pose proof (buffer_spec version pageSizeOf obj Hobj (length chunk) (length chunk) s0 index pw fed chunk Hok (proj1 Hst) Hpre
      ltac:(lia) ltac:(lia)) as [_ Hb]. rewrite E in Hb. destruct Hb as (_ & [Hcl _] & _).
    replace (zlen fed +! zlen chunk) with (zlen (fed ++ chunk)).
    { eexists _, _, _, _. split; [reflexivity|]. rewrite Hcl. by split_and!. }
    apply prefix_length in Hpre. pose proof (oo_bound _ _ _ Hobj) as Hbd. rewrite (oo_size _ _ _ Hobj) in Hbd.
    pose proof (oo_positive _ _ _ Hobj). rewrite zlen_app. unfold zlen in *. rewrite length_app in Hpre.
    symmetry. apply add64_id. int64_unfold. lia. }
  destruct Hstep as (i1 & pw1 & s1 & K1 & Hstep & Hok1 & Hs1 & Hst1 & Ho1).
  unfold mbind at 1, R_bind at 1. rewrite Hstep. destruct rerr as [e|].
  - destruct (Herr e eq_refl) as [Hnil ->]. rewrite Hfin, Hc, Hnil, ?app_nil_r, bool_decide_true in * by done.
    rewrite Hall in *. eexists _, _, _, _. split; [reflexivity|]. by split_and!.
  - assert (Hreads : (Io.reads body' < Io.reads body)%nat)
      by (refine (Io.Read_reads copyBufferSize body chunk None body' _ HR eq_refl); unfold copyBufferSize; lia).
    destruct (IH body' K1 s1 i1 pw1 (fed ++ chunk)) as (i' & pw' & s' & K' & E & Hok' & Hs' & Hst' & Ho');
      [done|done|done|lia|done|congruence|]. rewrite Hc, app_assoc, <- Ho1. eauto 10.
Qed.

(** The whole object: sent to the client, and every page of it cached. *)
Lemma streamCold_serene K s body :
  ok s -> serene K s -> Io.content body = content -> Io.fin body = Io.EOF ->
  exists s' K', streamColdFullObject obj body s = ((ob_Size obj, None), s') /\ ok s' /\ serene K' s' /\
    (forall i, 0 <= i -> i * PS < ob_Size obj -> i ∈ K') /\ Io.out (client s') = Io.out (client s) ++ content.
Proof.
  intros Hok Hs Hbody Hfin. unfold streamColdFullObject. unfold mbind at 1, R_bind at 1.
  assert (Hst : stocking s 0 None [] K) by (split; [split; [lia|]; unfold zlen; cbn; lia|split; [intros i Hi; lia|done]]).
  destruct (coldLoop_serene (Io.reads body) body K s 0 None [] Hok Hs Hst ltac:(lia) Hbody Hfin)
    as (index & pw & s1 & K1 & E & Hok1 & Hs1 & Hst1 & Ho1). change (zlen (@nil byte)) with 0 in E. rewrite E.
  pose proof (oo_positive _ _ _ Hobj) as HPS. pose proof (oo_size _ _ _ Hobj) as Hsize. destruct Hst1 as ((Hi & Hf) & HK & Hm).
  assert (Hend : exists s2 K2, (match pw with
      | Some h => size ← pageWriterSize h; (if size >? 0 then commitCachePageWriter h else mret ())
      | None => mret ()
      end : R ()) s1 = ((), s2) /\ ok s2 /\ serene K2 s2 /\ framed s1 s2 /\
    (forall i, 0 <= i -> i * PS < ob_Size obj -> i ∈ K2)).
  { destruct pw as [h|].
    2:{ exists s1, K1. split_and!; [done..|by split|]. intros i Hi0 Hi1. apply HK. split; [done|]. nia. }
    destruct Hf as [Hz _]. unfold mbind, R_bind, pageWriterSize. rewrite (mine_size _ _ _ _ Hm).
    rewrite (filled_is_page index content Hi) in Hm |- * by first [done|right; split; [done|lia]].
    destruct (Z.gtb_spec (zlen (page_of index)) 0) as [Hpos|Hnone].
    - destruct (commitPage_serene K1 s1 index h Hok1 Hs1 Hi Hm) as (s2 & -> & Hok2 & Hs2 & Hfr). exists s2, ({[index]} ∪ K1).
      split_and!; [done..|]. intros i Hi0 Hi1. destruct (decide (i = index)); [set_solver|]. apply elem_of_union_r, HK.
      split; [done|]. nia.
    - exists s1, K1. split_and!; [done..|by split|]. intros i Hi0 Hi1. apply HK. split; [done|].
      assert (Hlast : zlen content = index * PS).
      { rewrite <- (filled_is_page index content Hi) in Hnone by first [done|right; split; [done|lia]].
        unfold zlen in *. rewrite length_drop in Hnone. lia. }
      nia. }
  destruct Hend as (s2 & K2 & E2 & Hok2 & Hs2 & [Hcl2 _] & HK2).
  unfold mbind at 1, R_bind at 1. unfold mbind at 1, R_bind at 1. rewrite E2, Hsize, Z.eqb_refl. cbn [negb].
  unfold mret at 1, R_ret at 1. unfold mbind at 1, R_bind at 1.
  destruct (abortLeft pw s2) as [[] s3] eqn:Ha.
  destruct (abortLeft_spec version pageSizeOf pw s2 s3 Hok2 Ha) as [Hok3 [Hcl3 _]].
  exists s3, K2. rewrite Hcl3, Hcl2, Ho1, Hbody. split_and!; [done|done| |by rewrite <- Hsize|done].
  destruct pw as [h|]; [|by injection Ha as <-]. unfold abortLeft, mbind, R_bind in Ha.
  destruct (onCache_serene version pageSizeOf obj (Some h) (Abort h) K2 K2 s2 (fun _ _ => True) Hs2) as (r3 & s3' & E3 & _ & Hs3 & _).
  { eapply wp_mono; [by apply (Abort_calm obj page_of _ _ h (se_calm _ _ _ _ _ Hs2))|]. done. }
  rewrite E3 in Ha. by injection Ha as <-.
Qed.

End Cold.
