(* ===== verification/ProxyHandlers.v ===== *)
(** * Request handlers ([internal/proxy/proxy.go])

    From an S3 request to the response: the reads that are served from the cache
    ([serveCachedHead], [serveCachedRange], [serveCachedFullObject]) and the dispatch
    ([handle], [shouldForwardToPeer], [serveS3HTTP]). *)

From Stdlib Require Import Ascii.
From S2P Require Import Prelude GoStrings GoNet Sha256 Range S3Request Router PageFrame CachePath CacheDB CacheStore.
From S2P Require Import CacheLogic CacheInv CacheOps CacheRows ProxyPeers ProxySpan ProxyRead ProxyServe.
From S2P Require Import ProxyUpload ProxyHttp ProxyWrite ProxyMeta ProxyAuth ProxyBase ProxyCoord ProxyCold.
Import Strings.

#[local] Open Scope go_scope.

Section Handlers.
Context (p : Proxy) `{HeaderCodec, PeerCodec}.

(** ** Reads served from the cache *)

(** The response to a condition that decides the request. *)
Definition answerCondition (obj : Object) (status : Z) : P Handled :=
  modifyHeader (fun h => writeCachedConditionalHeaders h obj);;
  WriteHeader status;;
  mret (status, 0, None).

(** The response with the headers of the object and no body. *)
Definition answerHeaders (obj : Object) : P Handled :=
  modifyHeader (fun h => writeCachedObjectHeaders h obj false);;
  WriteHeader 200;;
  mret (200, 0, None).

(** [serveCachedHead] without usable metadata. *)
Definition headMiss (r : HttpRequest) (target : Target) : P Handled :=
  m ← upstreamMetadata p r target;
  match m with
  | Err HandlerMetadataStore => doForward p r
  | Err e => httpError "fetch upstream metadata" 502;; mret (failed e)
  | Ok (Answered status headers) =>
      modifyHeader (fun h => copyResponseHeaders h headers);;
      WriteHeader status;;
      mret (status, 0, None)
  | Ok (Stored obj) => answerHeaders obj
  end.

Definition serveCachedHead (r : HttpRequest) (target : Target) : P Handled :=
  o ← cacheCall (GetObject (Bucket target) (Key target));
  match o with
  | Err e => httpError "read cached metadata" 500;; mret (failed (HandlerCache e))
  | Ok None => headMiss r target
  | Ok (Some obj) =>
      if isInternalIdentityObject obj then headMiss r target
      else match cachedConditionalStatus (px_ParseTime p) (hr_Header r) obj with
      | Err _ => doForward p r
      | Ok (Some status) => answerCondition obj status
      | Ok None => answerHeaders obj
      end
  end.

(** What [serveCachedRange] and [serveCachedFullObject] begin with: the metadata,
    the conditions and the owner of the object; [serve] is the rest, given the object
    and the read strategy. *)
Definition withObject (r : ServerRequest) (target : Target) (serve : Object -> string -> P Handled) : P Handled :=
  m ← objectMetadata p (sr_http r) target;
  match m with
  | Err HandlerMetadataStore => doForward p (sr_http r)
  | Err e => httpError "fetch upstream metadata" 502;; mret (failed e)
  | Ok None => doForward p (sr_http r)
  | Ok (Some obj) =>
      let strategy := match px_router p with
        | Some _ => selectReadStrategy (px_readSharding p) (px_pageShardMin p) (px_sizes p) (Bucket target) (ob_Size obj)
        | None => ""
        end in
      match cachedConditionalStatus (px_ParseTime p) (hr_Header (sr_http r)) obj with
      | Err _ => doForward p (sr_http r)
      | Ok (Some status) => answerCondition obj status
      | Ok None =>
          f ← forwardObjectReadToOwner p strategy r target;
          match f with
          | Some res => mret res
          | None => serve obj strategy
          end
      end
  end.

(** The pages of a range of an object, the first one open. *)
Definition Plan : Type := Object * ByteRange * list PageSpan * option bytes.

Definition refetchAfterObjectChanged (r : HttpRequest) (target : Target) (requestedRange : ByteRange)
    : P (result HandlerError Plan) :=
  d ← doInvalidate p target;
  match d with
  | Err e => mret (Err e)
  | Ok _ =>
      m ← objectMetadata p r target;
      match m with
      | Err e => mret (Err e)
      | Ok None => mret (Err HandlerMetadataMissing)
      | Ok (Some obj) =>
          let range := mkByteRange (Start requestedRange)
            (if ob_Size obj <=? End requestedRange then ob_Size obj -! 1 else End requestedRange) in
          if End range <? Start range then mret (Err HandlerRangeUnsatisfied)
          else
            res ← onPages p r (fun upstream => prepareFirstPage upstream (Bucket target) obj range);
            match res with
            | Err e => mret (Err (HandlerRead e))
            | Ok (pages, firstPage) => mret (Ok (obj, range, pages, firstPage))
            end
      end
  end.

(** [prepareFirstPage], and [refetchAfterObjectChanged] when the object has changed. *)
Definition prepareRange (r : HttpRequest) (target : Target) (obj : Object) (range : ByteRange)
    : P (result HandlerError Plan) :=
  res ← onPages p r (fun upstream => prepareFirstPage upstream (Bucket target) obj range);
  match res with
  | Err ErrObjectChanged => refetchAfterObjectChanged r target range
  | Err e => mret (Err (HandlerRead e))
  | Ok (pages, firstPage) => mret (Ok (obj, range, pages, firstPage))
  end.

(** Writing the pages of a plan after the headers were sent with this status. *)
Definition streamPlan (r : HttpRequest) (target : Target) (status : Z) (obj : Object) (pages : list PageSpan)
    (firstPage : option bytes) : P Handled :=
  s ← onPages p r (fun upstream =>
        streamCachedPages (px_buf p) upstream (Bucket target) obj pages firstPage 0);
  let '(n, err) := s in
  mret (status, n, HandlerRead <$> err).

(** A range that is not coordinated. *)
Definition serveLocalRange (r : HttpRequest) (target : Target) (obj : Object) (range : ByteRange) : P Handled :=
  plan ← prepareRange r target obj range;
  match plan with
  | Err HandlerRangeUnsatisfied => doForward p r
  | Err e => httpError "fetch upstream page" 502;; mret (failed e)
  | Ok (obj, range, pages, firstPage) =>
      modifyHeader (fun h => rangeResponseHeaders h obj range);;
      WriteHeader 206;;
      streamPlan r target 206 obj pages firstPage
  end.

(** The strategy [page] is chosen only where there are peers. *)
Definition coordinated (strategy : string) : option Router :=
  if bool_decide (strategy = "page") then px_router p else None.

Definition serveCachedRange (r : ServerRequest) (target : Target) : P Handled :=
  withObject r target (fun obj strategy =>
    match ParseRange (Http.Get (hr_Header (sr_http r)) "Range") (ob_Size obj) with
    | Err _ => doForward p (sr_http r)
    | Ok range =>
        match coordinated strategy with
        | Some rt => serveDistributedPageRead p rt (sr_http r) target obj range true
        | None => serveLocalRange (sr_http r) target obj range
        end
    end).

(** Whether the object was found changed. *)
Definition changed (res : Handled) : bool :=
  match res.2 with Some (HandlerRead ErrObjectChanged) => true | _ => false end.

(** The object whose first page is not cached, fetched again once if it changed. *)
Definition serveMissedObject (r : HttpRequest) (target : Target) (obj : Object) : P Handled :=
  res ← serveColdFullObject p r obj;
  if changed res then
    d ← doInvalidate p target;
    match d with
    | Err e => httpError "invalidate changed object" 500;; mret (failed e)
    | Ok _ =>
        m ← objectMetadata p r target;
        match m with
        | Err HandlerMetadataStore => doForward p r
        | Err e => httpError "fetch upstream metadata" 502;; mret (failed e)
        | Ok None => doForward p r
        | Ok (Some obj) =>
            res ← serveColdFullObject p r obj;
            if changed res
            then httpError "upstream object changed during fetch" 502;; mret (failed (HandlerRead ErrObjectChanged))
            else mret res
        end
    end
  else mret res.

Definition serveCachedFullObject (r : ServerRequest) (target : Target) : P Handled :=
  withObject r target (fun obj strategy =>
    if ob_Size obj =? 0 then answerHeaders obj
    else
      let range := mkByteRange 0 (ob_Size obj -! 1) in
      match coordinated strategy with
      | Some rt => serveDistributedPageRead p rt (sr_http r) target obj range false
      | None =>
          match PagesForRange range (ob_PageSize obj) with
          | Err e => mret (failed (HandlerRead (ErrRange e)))
          | Ok [] => mret (failed (HandlerCache Panic))
          | Ok ((page :: _) as pages) =>
              first ← onSession (openCachedPage (Bucket target) obj (ps_Index page));
              match first with
              | Err e => httpError "open cached page" 500;; mret (failed (HandlerRead e))
              | Ok None => serveMissedObject (sr_http r) target obj
              | Ok (Some firstPage) =>
                  modifyHeader (fun h => writeCachedObjectHeaders h obj false);;
                  WriteHeader 200;;
                  streamPlan (sr_http r) target 200 obj pages (Some firstPage)
              end
          end
      end).

(** ** Dispatch *)

Definition cacheInternalReadRequest (r : ServerRequest) (c : Classification) : ServerRequest :=
  let q := sr_http r in
  if bool_decide (hr_RawQuery q = "") || negb (IsBenignObjectReadQuery (hr_Method q) (hr_RawQuery q)) then r
  else match disposition c with
  | CacheableHeadObject | CacheableRangeObject | CacheableFullObject =>
      mkServerRequest (mkHttpRequest (hr_Method q) (hr_Path q) "" (hr_Header q) (hr_Body q) (hr_ContentLength q))
        (Cut (sr_URI r) "?").1.1
  | _ => r
  end.

Definition handle (r : ServerRequest) (target : Target) (c : Classification) : P Handled :=
  if negb (px_cached p) then doForward p (sr_http r)
  else match disposition c with
  | CacheableHeadObject => serveCachedHead (sr_http (cacheInternalReadRequest r c)) target
  | CacheableRangeObject => serveCachedRange (cacheInternalReadRequest r c) target
  | CacheableFullObject => serveCachedFullObject (cacheInternalReadRequest r c) target
  | _ => handlePassThrough (px_router p) (sendInvalidation p) (doForward p (sr_http r)) (sr_http r) target
  end.

Definition isCoordinatorReadCandidate (c : Classification) : bool :=
  match disposition c with CacheableFullObject | CacheableRangeObject => true | _ => false end.

(** Whether the request was answered here, as [shouldForwardToPeer] reports. *)
Definition shouldForwardToPeer (r : ServerRequest) (target : Target) (c : Classification) : P bool :=
  match px_router p with
  | None => mret false
  | Some rt =>
      if negb (IsObject target) then mret false
      else
        let owner := Owner rt (Bucket target) (Key target) in
        let h := hr_Header (sr_http r) in
        let forwardedRequest := negb (bool_decide (Http.Get h peerForwardedHeader = "")) in
        let refuse text := httpError text 502;; mret true in
        if forwardedRequest && negb (bool_decide (Http.Get h peerRingHeader = ringID rt)) then
          markDegraded "peer ring mismatch" [("peer_ring_id", Http.Get h peerRingHeader)];;
          refuse "peer ring mismatch"
        else if bool_decide (ID owner = localID rt) then
          if forwardedRequest && negb (bool_decide (Http.Get h peerOwnerHeader = ID owner))
          then refuse "peer owner mismatch" else mret false
        else if negb forwardedRequest && isCoordinatorReadCandidate c then mret false
        else if forwardedRequest then refuse "peer routing mismatch"
        else forwardToPeer p r owner;; mret true
  end.

(** [http.NotFound] *)
Definition notFound : P () := httpError "404 page not found" 404.

Definition serveS3HTTP (r : ServerRequest) : P () :=
  let q := sr_http r in
  match ParsePathStyle (Cut (sr_URI r) "?").1.1 with
  | None => notFound
  | Some target =>
      let c := Classify (mkRequest (hr_Method q) target (hr_RawQuery q) (hr_Header q)) in
      f ← shouldForwardToPeer r target c;
      if f : bool then mret () else handle r target c;; mret ()
  end.

End Handlers.
