(* ===== verification/ProxyAnswers.v ===== *)
(** * What a cached read answers ([internal/proxy/proxy.go])

    The theorems about [ProxyHandlers]. When the upstream store behaves as documented,
    the peers send pages of versions and the cache holds pages of versions, a read that
    the cache may serve is answered with headers and bytes of one version of the object,
    or by the upstream store or the owner of the object, or with an error, whatever fails
    on the way. *)

From Stdlib Require Import Ascii.
From S2P Require Import Prelude GoStrings GoNet Sha256 Range S3Request Router PageFrame CachePath CacheDB CacheStore.
From S2P Require Import CacheLogic CacheInv CacheOps CacheRows ProxyPeers ProxySpan ProxyRead ProxyServe.
From S2P Require Import ProxyUpload ProxyHttp ProxyWrite ProxyMeta ProxyAuth ProxyBase ProxyCoord ProxyCold ProxyHandlers.
Import Strings.

(** ** Object rows during a request *)

Section Rows.
Context (Row : ObjectRow -> Prop).

(** Every object row has the property, now and after what other requests do. *)
Definition rows_safe (s : Session) : Prop :=
  rows_ok Row (db (cache s)) /\
  Forall (fun f => forall own c, rows_ok Row (db c) -> rows_ok Row (db (f own c))) (env s).

(** What a request does on its session keeps the property. *)
Definition keeps_rows {A} (m : R A) : Prop := forall s, rows_safe s -> rows_safe (m s).2.

Lemma keeps_rows_ret {A} (a : A) : keeps_rows (mret a).
Proof. by intros s Hs. Qed.

Lemma keeps_rows_bind {A B} (m : R A) (f : A -> R B) :
  keeps_rows m -> (forall a, keeps_rows (f a)) -> keeps_rows (m ≫= f).
Proof.
  intros Hm Hf s Hs. unfold mbind, R_bind. specialize (Hm s Hs). destruct (m s) as [a s1]. by apply Hf.
Qed.

Lemma keeps_rows_onCache {A} own (m : M A) : preserves Row m -> keeps_rows (onCache own m).
Proof.
  intros Hm s [Hr He]. unfold onCache. destruct (env s) as [|f rest].
  - specialize (Hm (cache s) Hr). unfold wp in Hm. by destruct (m (cache s)).
  - apply Forall_cons in He as [Hf Hrest]. specialize (Hm (f own (cache s)) (Hf own _ Hr)). unfold wp in Hm.
    by destruct (m (f own (cache s))).
Qed.

Lemma keeps_rows_getClient : keeps_rows getClient.
Proof. by intros s Hs. Qed.

Lemma keeps_rows_set_client w : keeps_rows (set_client w).
Proof. by intros s Hs. Qed.

Lemma keeps_rows_set_flight l : keeps_rows (set_flight l).
Proof. by intros s Hs. Qed.

Lemma keeps_rows_markDegraded r c : keeps_rows (markDegradedSession r c).
Proof. by intros s Hs. Qed.

Lemma keeps_rows_upstreamDo u r e : keeps_rows (upstreamDo u r e).
Proof. by intros s Hs. Qed.

Lemma keeps_rows_pageWriterSize h : keeps_rows (pageWriterSize h).
Proof. by intros s Hs. Qed.

Lemma keeps_rows_abortResponse n : keeps_rows (abortCommittedResponse n).
Proof. intros s Hs. unfold abortCommittedResponse. by case_match. Qed.

Create HintDb keeps_rows discriminated.
#[local] Hint Resolve keeps_rows_ret keeps_rows_getClient keeps_rows_set_client keeps_rows_set_flight
  keeps_rows_markDegraded keeps_rows_upstreamDo keeps_rows_pageWriterSize keeps_rows_abortResponse
  preserves_OpenPage preserves_BeginPageWrite preserves_Write preserves_Commit preserves_Abort : keeps_rows.

Ltac keeps_rows_step :=
  lazymatch goal with
  | |- forall _, _ => intros ?
  | |- keeps_rows (_ ≫= _) => apply keeps_rows_bind
  | |- keeps_rows (onCache _ _) => apply keeps_rows_onCache; solve [auto with keeps_rows]
  | |- keeps_rows (let '(_, _) := ?x in _) => destruct x
  | |- keeps_rows (if ?b then _ else _) => destruct b
  | |- keeps_rows (match ?x with _ => _ end) => destruct x
  | |- keeps_rows (let _ := _ in _) => cbv zeta
  | |- keeps_rows _ => solve [auto with keeps_rows]
  end.
Ltac keeps_rows_go := repeat (keeps_rows_step; cbv beta iota).

Lemma keeps_rows_openCachedPage b obj i : keeps_rows (openCachedPage b obj i).
Proof. unfold openCachedPage. keeps_rows_go. Qed.

Lemma keeps_rows_writeChunk h chunk st t : keeps_rows (writeChunk h chunk st t).
Proof. unfold writeChunk, streamWrite. keeps_rows_go. Qed.

#[local] Hint Resolve keeps_rows_openCachedPage keeps_rows_writeChunk : keeps_rows.

Lemma keeps_rows_copyPage fuel src h st t : keeps_rows (copyPageResponseToWriter fuel src h st t).
Proof.
  revert src st t. induction fuel as [|fuel IH]; intros src st t; cbn [copyPageResponseToWriter]; keeps_rows_go; apply IH.
Qed.

#[local] Hint Resolve keeps_rows_copyPage : keeps_rows.

Lemma keeps_rows_fetch u obj i st : keeps_rows (fetchAndStorePage u obj i st).
Proof. unfold fetchAndStorePage, storeResponse, beginCachePageWriter. keeps_rows_go. Qed.

#[local] Hint Resolve keeps_rows_fetch : keeps_rows.

Lemma keeps_rows_joinFill {A} fl obj i (fails : ProxyError -> A) served lead :
  (forall body, keeps_rows (served body)) -> keeps_rows lead -> keeps_rows (joinFill fl obj i fails served lead).
Proof.
  intros Hs Hl. induction fl as [|[] fl IH]; cbn [joinFill]; keeps_rows_go; auto.
Qed.

Lemma keeps_rows_copySpan buf obj body page : keeps_rows (copySpan buf obj body page).
Proof. unfold copySpan. keeps_rows_go. Qed.

#[local] Hint Resolve keeps_rows_copySpan : keeps_rows.

Lemma keeps_rows_pageReader u b obj i : keeps_rows (pageReader u b obj i).
Proof.
  unfold pageReader. keeps_rows_go. intros s Hs. unfold fillMissingPage.
  apply keeps_rows_joinFill; [keeps_rows_go..|done].
Qed.

Lemma keeps_rows_streamPageSpan buf u b obj page : keeps_rows (streamPageSpan buf u b obj page).
Proof.
  unfold streamPageSpan. keeps_rows_go. intros s Hs. unfold fillAndStreamMissingPage.
  apply keeps_rows_joinFill; [keeps_rows_go..|done].
Qed.

#[local] Hint Resolve keeps_rows_pageReader keeps_rows_streamPageSpan : keeps_rows.

Lemma keeps_rows_prepareFirstPage u b obj r : keeps_rows (prepareFirstPage u b obj r).
Proof. unfold prepareFirstPage. keeps_rows_go. Qed.

Lemma keeps_rows_streamCachedPages buf u b obj pages first t : keeps_rows (streamCachedPages buf u b obj pages first t).
Proof.
  revert first t. induction pages as [|page pages IH]; intros first t; cbn [streamCachedPages]; keeps_rows_go; apply IH.
Qed.

(** ** A cold object *)

Lemma keeps_rows_bufferCold fuel obj i pw chunk : keeps_rows (bufferColdFullPage fuel obj i pw chunk).
Proof.
  revert i pw chunk. induction fuel as [|fuel IH]; intros i pw [|x chunk]; cbn [bufferColdFullPage];
    unfold beginCachePageWriter, commitCachePageWriter; keeps_rows_go; apply IH.
Qed.

#[local] Hint Resolve keeps_rows_bufferCold : keeps_rows.

Lemma keeps_rows_coldLoop fuel obj body t i pw : keeps_rows (coldLoop fuel obj body t i pw).
Proof.
  revert body t i pw. induction fuel as [|fuel IH]; intros body t i pw; cbn [coldLoop]; unfold writeCold;
    keeps_rows_go; apply IH.
Qed.

#[local] Hint Resolve keeps_rows_coldLoop : keeps_rows.

Lemma keeps_rows_streamCold obj body : keeps_rows (streamColdFullObject obj body).
Proof. unfold streamColdFullObject, commitCachePageWriter, abortLeft. keeps_rows_go. Qed.

(** ** A coordinated read *)

Lemma keeps_rows_coordinatorLoop p rt u target obj pages batches t :
  keeps_rows (coordinatorLoop p rt u target obj pages batches t).
Proof.
  revert batches t. induction pages as [|page pages IH]; intros batches t; cbn [coordinatorLoop];
    unfold streamCoordinatorPageSpan, streamFrame; keeps_rows_go; apply IH.
Qed.

Lemma keeps_rows_checkEnds p l t : keeps_rows (checkEnds p l t).
Proof. induction l as [|[id batch] l IH]; cbn [checkEnds]; keeps_rows_go; apply IH. Qed.

#[local] Hint Resolve keeps_rows_coordinatorLoop keeps_rows_checkEnds : keeps_rows.

Lemma keeps_rows_streamCoordinator p rt u target obj pages batches :
  keeps_rows (streamCoordinatorPageSpans p rt u target obj pages batches).
Proof. unfold streamCoordinatorPageSpans. keeps_rows_go. Qed.

End Rows.

(** ** The world of a request *)

Section Answers.
Context (version : string -> bytes -> bytes) (pageSizeOf : string -> Z).
Context `{HeaderCodec, PeerCodec} (p : Proxy) (target : Target).

Abbreviation id := (ObjectKey (Bucket target) (Key target)).
Abbreviation good := (Good version pageSizeOf).

(** An ETag of the store: not empty, and valid in the messages between peers. *)
Definition etag_ok (etag : string) : Prop := json_text etag /\ etag <> "".

(** The rows describe versions. *)
Definition row_ok (o : ObjectRow) : Prop :=
  let id := ObjectKey (o_bucket o) (o_key o) in
  o_size o = zlen (contentOf version id (o_etag o)) /\ o_page_size o = pageSizeOf id /\
  0 < o_page_size o /\ o_size o + o_page_size o <= int64_max /\ etag_ok (o_etag o).

Definition sound (w : World) : Prop :=
  session_ok version pageSizeOf (session w) /\ rows_safe row_ok (session w).

(** A version of the object. *)
Definition version_of_target (obj : Object) : Prop :=
  object_ok version pageSizeOf obj /\ ob_ID obj = id /\ etag_ok (ob_ETag obj).

(** Nothing was sent to the client from [w] to [w']. *)
Definition unanswered (w w' : World) : Prop :=
  status w' = status w /\ header w' = header w /\ client (session w') = client (session w).

#[export] Instance unanswered_preorder : PreOrder unanswered.
Proof. split; [by intros w|]. intros a b c (? & ? & ?) (? & ? & ?). split_and!; congruence. Qed.

(** A store that behaves as S3 documents it. The signer keeps what the request asks
    for. To [HEAD] on the object's path the store answers with [200], an ETag and the
    size of the version the ETag names; to a [GET] with [If-Match], of a range or of the
    whole, it answers with [206] or [200] only when the object still has the ETag, and
    then with bytes of that version from the first one asked for. A body may stop
    anywhere, with an error or as if it were complete, and any other response may come
    at any time. An ETag names one content, and the size fits with a page in 63 bits.
    The last field is about the proxy: the page size of the bucket is the one that the
    pages in the cache are cut with. *)
Record store_ok (r : HttpRequest) : Prop := {
  sk_sign req req' : px_sign p req = Some req' ->
    up_Method req' = up_Method req /\ up_Path req' = up_Path req /\
    forall k, k ∈ ["Range"; "If-Match"] -> Http.Get (up_Header req') k = Http.Get (up_Header req) k;
  sk_head n req resp size : up_Method req = MethodHead -> up_Path req = upstreamPath (px_endpoint p) r ->
    px_origin p n req = Some resp -> rs_Status resp = 200 -> responseSize resp = Some size ->
    let etag := Http.Get (responseHeaders resp) "ETag" in
    size = zlen (contentOf version id etag) /\ size + pageSizeOf id <= int64_max /\ etag_ok etag;
  sk_range n req resp bounds : up_Method req = MethodGet -> up_Path req = upstreamPath (px_endpoint p) r ->
    Http.Get (up_Header req) "If-Match" <> "" ->
    Http.Get (up_Header req) "Range" = rangeHeaderOf bounds -> 0 <= ps_Start bounds <= ps_End bounds ->
    ps_End bounds < zlen (contentOf version id (Http.Get (up_Header req) "If-Match")) ->
    px_origin p n req = Some resp -> rs_Status resp = 206 ->
    Io.content (rs_Body resp) `prefix_of`
      slice (ps_Start bounds) (ps_End bounds + 1) (contentOf version id (Http.Get (up_Header req) "If-Match"));
  sk_whole n req resp : up_Method req = MethodGet -> up_Path req = upstreamPath (px_endpoint p) r ->
    Http.Get (up_Header req) "If-Match" <> "" -> Http.Get (up_Header req) "Range" = "" ->
    px_origin p n req = Some resp -> rs_Status resp = 200 ->
    Io.content (rs_Body resp) `prefix_of` contentOf version id (Http.Get (up_Header req) "If-Match");
  sk_pageSize : pageSizeForBucket (px_sizes p) (Bucket target) = pageSizeOf id /\ 0 < pageSizeOf id }.

(** A whole body that ends as if it were complete is complete. What
    [streamColdFullObject] caches depends on it: it takes the bytes that are left when the
    body ends for the last page of the object before it compares the sizes. *)
Definition complete (r : HttpRequest) : Prop :=
  forall n req resp, up_Method req = MethodGet -> up_Path req = upstreamPath (px_endpoint p) r ->
    Http.Get (up_Header req) "If-Match" <> "" -> Http.Get (up_Header req) "Range" = "" ->
    px_origin p n req = Some resp -> rs_Status resp = 200 -> Io.fin (rs_Body resp) = Io.EOF ->
    Io.content (rs_Body resp) = contentOf version id (Http.Get (up_Header req) "If-Match").

(** The cache is sound after a request that may fetch a whole object. *)
Definition settled (r : HttpRequest) (w : World) : Prop := complete r -> sound w.

(** ** Operations that answer nothing *)

Lemma cacheCall_spec {A} (m : M A) w r w' :
  keeps good m -> preserves row_ok m -> sound w -> cacheCall m w = (r, w') ->
  sound w' /\ unanswered w w' /\
  exists c, cache_ok good c /\ rows_ok row_ok (db c) /\ m c = (r, cache (session w')).
Proof.
  intros Hk Hp [Hs Hr]. unfold cacheCall, onSession.
  destruct (onCache None m (session w)) as [a s] eqn:Ho. intros [= -> <-].
  destruct (onCache_spec version pageSizeOf None m (session w) r s (fun _ _ => True) Hs Ho) as (Hs1 & _ & Hcl & _).
  { intros c Hc _. split; [|done]. by destruct (Hk c c) as [[Hok _ _] _]; [apply evolved_refl|]. }
  pose proof (keeps_rows_onCache row_ok None m Hp (session w) Hr) as Hr1. rewrite Ho in Hr1. cbn in Hr1.
  split; [done|]. split; [by split_and!|].
  destruct Hs as [Hc He], Hr as [Hrow Her]. unfold onCache in Ho. destruct (env (session w)) as [|f rest].
  - exists (cache (session w)). destruct (m (cache (session w))) as [r0 c0]. injection Ho as <- <-. done.
  - apply Forall_cons in He as [Hf _], Her as [Hf' _]. exists (f None (cache (session w))).
    destruct (m (f None (cache (session w)))) as [r0 c0]. injection Ho as <- <-.
    split; [by apply Hf|]. split; [by apply Hf'|done].
Qed.

Lemma sound_quiet w w' : quiet w w' -> sound w -> sound w' /\ unanswered w w'.
Proof. intros (Hs & Hst & Hh & _ & _) [H1 H2]. unfold sound, unanswered. by rewrite Hs. Qed.

Lemma sound_undisturbed w w' : undisturbed w w' -> sound w -> sound w'.
Proof.
  intros (Hc & He & _) [[H1 H2] [H3 H4]]. unfold sound, session_ok, rows_safe. by rewrite Hc, He.
Qed.

Lemma clientDo_spec origin req w resp w' :
  clientDo origin req w = (resp, w') ->
  quiet w w' /\ resp = origin (length (requests w) + length (sent (session w)))%nat req.
Proof. intros [= <- <-]. by split. Qed.

Lemma newUpstreamRequest_spec r method req :
  newUpstreamRequest (px_endpoint p) (px_builds p) r method = Some req ->
  up_Method req = method /\ up_Path req = upstreamPath (px_endpoint p) r.
Proof. unfold newUpstreamRequest. cbv zeta. case_match; [|done]. by intros [= <-]. Qed.

Lemma fetchMetadata_spec r w m w' :
  store_ok r -> sound w -> upstreamMetadata p r target w = (m, w') ->
  sound w' /\ unanswered w w' /\ forall obj, m = Ok (Stored obj) -> version_of_target obj.
Proof.
  intros Hk Hw. unfold upstreamMetadata, fetchMetadata.
  destruct (newUpstreamRequest _ _ r MethodHead) as [req|] eqn:Hnew; [|intros [= <- <-]; by split_and!].
  destruct (px_sign p _) as [req1|] eqn:Hsign; [|intros [= <- <-]; by split_and!].
  destruct (newUpstreamRequest_spec _ _ _ Hnew) as [Hm Hp]. destruct (sk_sign _ Hk _ _ Hsign) as (Hm1 & Hp1 & _).
  unfold mbind at 1, P_bind at 1. destruct (clientDo _ req1 w) as [resp w1] eqn:Hdo.
  destruct (clientDo_spec _ _ _ _ _ Hdo) as [Hq Hresp]. destruct (sound_quiet _ _ Hq Hw) as [Hw1 Hu1].
  destruct resp as [resp|]; [|intros [= <- <-]; by split_and!].
  destruct (Z.eqb_spec (rs_Status resp) 200) as [H200|]; cbn [negb]; [|intros [= <- <-]; by split_and!].
  destruct (responseSize resp) as [size|] eqn:Hsize; [|intros [= <- <-]; by split_and!].
  destruct (sk_head _ Hk _ _ _ _ (eq_trans Hm1 Hm) (eq_trans Hp1 Hp) (eq_sym Hresp) H200 Hsize) as (Hz & Hbd & Htext).
  destruct (sk_pageSize _ Hk) as [Hps Hpos].
  set (meta := mkObjectMetadata _ _ _ _ _ _). unfold mbind, P_bind.
  destruct (cacheCall (PutObject meta) w1) as [o w2] eqn:Hput.
  assert (Hrow : preserves row_ok (PutObject meta)).
  { apply PutObject_row. intros epoch now. unfold row_ok. cbn. rewrite Hps. split_and!; [done|done|done|lia|done]. }
  destruct (cacheCall_spec (PutObject meta) w1 o w2 (keeps_PutObject _ _) Hrow Hw1 Hput)
    as (Hw2 & Hu2 & c & Hc & _ & Hrun).
  pose proof (PutObject_returns meta c) as Hret. unfold wp in Hret. rewrite Hrun in Hret. cbn in Hret.
  destruct o as [obj|e]; intros [= <- <-]; (split; [done|]); (split; [by etransitivity|]); [|done].
  intros obj' [= <-]. destruct (Hret obj eq_refl) as (Hid & He & Hs & Hpz). split; [|split; [done|by rewrite He]].
  constructor; rewrite ?Hid, ?He, ?Hs, ?Hpz, ?Hps; [done..|lia].
Qed.

Lemma getObject_spec w o w' :
  sound w -> cacheCall (GetObject (Bucket target) (Key target)) w = (o, w') ->
  sound w' /\ unanswered w w' /\ forall obj, o = Ok (Some obj) -> version_of_target obj.
Proof.
  intros Hw Hget.
  destruct (cacheCall_spec _ w o w' (keeps_GetObject _ _ _) (preserves_GetObject _ _ _) Hw Hget)
    as (Hw1 & Hu1 & c & Hc & Hrows & Hrun).
  split; [done|]. split; [done|]. intros obj ->.
  pose proof (GetObject_row row_ok (Bucket target) (Key target) c Hrows) as Hrow. unfold wp in Hrow.
  rewrite Hrun in Hrow. destruct Hrow as [_ Hrow].
  destruct (Hrow obj eq_refl) as (Hid & o & Ho & (Hz & Hps & Hpos & Hbd & Htext) & He & Hs & Hp & _).
  split; [|split; [done|by rewrite He]]. destruct (ok_objects _ (so_db _ _ _ (proj1 Hc)) _ _ Ho) as [Hkey _].
  rewrite <- Hkey in *. constructor; rewrite ?Hid, ?He, ?Hs, ?Hp; done.
Qed.

Lemma objectMetadata_spec r w m w' :
  store_ok r -> sound w -> objectMetadata p r target w = (m, w') ->
  sound w' /\ unanswered w w' /\ forall obj, m = Ok (Some obj) -> version_of_target obj.
Proof.
  intros Hk Hw. unfold objectMetadata, ensureObjectMetadata. unfold mbind at 1, P_bind at 1.
  destruct (cacheCall (GetObject (Bucket target) (Key target)) w) as [o w1] eqn:Hget.
  destruct (getObject_spec w o w1 Hw Hget) as (Hw1 & Hu1 & Hobj).
  assert (Hfetch : forall m w', (m ← upstreamMetadata p r target;
      mret (match m with Err e => Err e | Ok (Stored obj) => Ok (Some obj) | Ok (Answered _ _) => Ok None end)) w1
      = (m, w') -> sound w' /\ unanswered w w' /\
      forall obj, m = Ok (Some obj) -> version_of_target obj).
  { intros m1 w2. unfold mbind, P_bind. destruct (upstreamMetadata p r target w1) as [m0 w0] eqn:Hf.
    destruct (fetchMetadata_spec r w1 m0 w0 Hk Hw1 Hf) as (Hw0 & Hu0 & Hobj0).
    intros [= <- <-]. split; [done|]. split; [by etransitivity|]. intros obj. destruct m0 as [[obj0|]|]; [|done..].
    intros [= <-]. by apply Hobj0. }
  destruct o as [[obj|]|e]; [|by apply Hfetch|intros [= <- <-]; by split_and!].
  destruct (isInternalIdentityObject obj); cbn [negb]; [by apply Hfetch|].
  intros [= <- <-]. split; [done|]. split; [done|]. intros obj' [= <-]. by apply Hobj.
Qed.

(** The page fetches of a request see a store that answers ranges of versions. *)
Lemma pages_honest r n obj :
  store_ok r -> version_of_target obj -> honest version (pageUpstream p n r) obj.
Proof.
  intros Hk (Hobj & Hid & Htext & Het) k bounds body Hb He. unfold pageUpstream, pageRequest.
  destruct (newUpstreamRequest _ _ r MethodGet) as [req|] eqn:Hnew; [|done]. cbn.
  destruct (px_sign p _) as [req1|] eqn:Hsign; [|done]. destruct (px_origin p _ req1) as [resp|] eqn:Hresp; [|done].
  intros [= H206 <-]. destruct (newUpstreamRequest_spec _ _ _ Hnew) as [Hm Hp].
  destruct (sk_sign _ Hk _ _ Hsign) as (Hm1 & Hp1 & Hh).
  pose proof (Hh "Range" ltac:(clear; set_solver)) as Hr. pose proof (Hh "If-Match" ltac:(clear; set_solver)) as Hi. cbn in Hr, Hi.
  rewrite Get_Set_ in Hi. unfold Http.Get in Hr at 2. rewrite Values_Set_ne, Values_Set_ in Hr by done.
  rewrite Hid, <- Hi. eapply (sk_range _ Hk); [by rewrite Hm1|by rewrite Hp1| |exact Hr|done| |exact Hresp|exact H206].
  - by rewrite Hi.
  - rewrite Hi, <- Hid, <- (oo_size _ _ _ Hobj). done.
Qed.

Lemma doForward_sound r w res w' : sound w -> doForward p r w = (res, w') -> sound w'.
Proof.
  intros Hw Hf. apply (sound_undisturbed w); [|done].
  pose proof (calm_forward (px_endpoint p) (px_builds p) (px_sign p) (px_origin p) (px_buf p) (px_spool p) (px_upload p) r w) as Hc.
  unfold doForward in Hf. by rewrite Hf in Hc.
Qed.

Lemma forwardToPeer_sound r owner w res w' : sound w -> forwardToPeer p r owner w = (res, w') -> sound w'.
Proof.
  intros Hw Hf. apply (sound_undisturbed w); [|done]. assert (Hc : calm (forwardToPeer p r owner)).
  { unfold forwardToPeer. cbv zeta. destruct (negb _); [calm_go|]. apply calm_bind; [by intros w0|]. intros n.
    destruct (signPeer _ _ _ _ _ _); [|calm_go]. apply calm_bind; [apply calm_clientDo|]. intros [resp|]; [|calm_go].
    unfold relay. do 2 (apply calm_bind; [auto with calm|]; intros _). case_bool_decide; [auto with calm|].
    apply calm_bind; [auto with calm|]. intros c. destruct (Io.Copy _ _ _) as [[[? ?] ?] ?]. calm_go. }
  specialize (Hc w). by rewrite Hf in Hc.
Qed.

Lemma httpError_spec text code w w' :
  status w = None -> sound w -> httpError text code w = ((), w') -> sound w' /\ status w' = Some code.
Proof.
  intros Hst Hw Hrun. split.
  - apply (sound_undisturbed w); [|done]. pose proof (calm_httpError text code w) as Hc. by rewrite Hrun in Hc.
  - unfold httpError, writeClient, modifyHeader, setHeader, WriteHeader, onSession, getClient, set_client, mbind, P_bind in Hrun.
    cbn in Hrun. rewrite Hst in Hrun. by injection Hrun as <-.
Qed.

Lemma doInvalidate_spec w r w' : sound w -> doInvalidate p target w = (r, w') -> sound w' /\ unanswered w w'.
Proof.
  intros Hw. unfold doInvalidate, invalidateObject. unfold mbind at 1, P_bind at 1.
  destruct (cacheCall (InvalidateObject (Bucket target) (Key target) 0) w) as [e w1] eqn:Hc.
  destruct (cacheCall_spec _ w e w1 (keeps_InvalidateObject _ _ _ _) (preserves_InvalidateObject _ _ _ _) Hw Hc)
    as (Hw1 & Hu1 & _).
  destruct e as [epoch|e]; [|intros [= <- <-]; by split]. destruct (px_router p) as [rt|]; [|intros [= <- <-]; by split].
  unfold mbind, P_bind. destruct (tellPeers _ _ _ _ _ w1) as [told w2] eqn:Hrun.
  destruct (tellPeers_spec _ _ _ _ _ _ _ _ (sendInvalidation_message p) Hrun) as ((Hca & He & Hcl & _ & _ & Hs & Hh & _) & _).
  intros [= <- <-]. split.
  - destruct Hw1 as [[? ?] [? ?]]. unfold sound, session_ok, rows_safe. by rewrite Hca, He.
  - destruct Hu1 as (? & ? & ?). split_and!; congruence.
Qed.

(** What a request does on pages, given that it keeps the session. *)
Lemma onPages_spec {A} r (m : (nat -> string -> string -> Reply) -> R A) (Q : Session -> A -> Session -> Prop) w a w' :
  (forall u, keeps_rows row_ok (m u)) ->
  (forall n s s', session_ok version pageSizeOf s -> m (pageUpstream p n r) s = (a, s') ->
     session_ok version pageSizeOf s' /\ Q s a s') ->
  sound w -> onPages p r m w = (a, w') ->
  sound w' /\ Q (session w) a (session w') /\ status w' = status w /\ header w' = header w.
Proof.
  intros Hkeep Hspec [Hs Hr]. unfold onPages, onSession.
  destruct (m _ (session w)) as [a0 s'] eqn:Hm. intros [= -> <-].
  destruct (Hspec _ _ _ Hs Hm) as [Hs' HQ]. split; [|done]. split; [done|].
  specialize (Hkeep (pageUpstream p (length (requests w)) r) (session w) Hr). by rewrite Hm in Hkeep.
Qed.

(** ** Answers *)

(** The range of the object that is asked for. A range is resolved against the size
    the object had when its metadata were read, and cut to the size of the version
    served when the object has changed since. *)
Definition asked (r : HttpRequest) (obj : Object) (range : ByteRange) (ranged : bool) : Prop :=
  if ranged then
    exists size range0, ParseRange (Http.Get (hr_Header r) "Range") size = Ok range0 /\
      Start range = Start range0 /\ End range = Z.min (End range0) (ob_Size obj - 1) /\
      0 <= Start range <= End range
  else range = mkByteRange 0 (ob_Size obj - 1).

(** The headers and bytes of one version: all bytes of the range without an error. *)
Definition served (w w' : World) (obj : Object) (range : ByteRange) (ranged : bool) (n : Z)
    (err : option HandlerError) : Prop :=
  version_of_target obj /\ status w' = Some (if ranged then 206 else 200) /\
  header w' = (if ranged then rangeResponseHeaders (header w) obj range
               else writeCachedObjectHeaders (header w) obj false) /\
  let requested := slice (Start range) (End range + 1) (contentOf version id (ob_ETag obj)) in
  exists part, Io.out (client (session w')) = Io.out (client (session w)) ++ part /\ n = zlen part /\
    part `prefix_of` requested /\ (err = None -> part = requested).

(** The errors that are returned without a response: a request that cannot be built
    or signed, and an object found empty after it has changed. *)
Definition unreported (e : HandlerError) : Prop :=
  e = HandlerBuild \/ e = HandlerSign \/ e = HandlerRead (ErrRange RangeEndBeforeStart).

Inductive Answer (r : ServerRequest) (w : World) : Handled -> World -> Prop :=
(** bytes of one version *)
| Served obj range ranged n err w' :
    asked (sr_http r) obj range ranged -> served w w' obj range ranged n err ->
    Answer r w (if ranged then 206 else 200, n, err) w'
(** the headers of one version and no body *)
| Described obj w' :
    version_of_target obj -> status w' = Some 200 -> header w' = writeCachedObjectHeaders (header w) obj false ->
    client (session w') = client (session w) -> Answer r w (200, 0, None) w'
(** the conditions of the request decide against a version *)
| Decided obj code w' :
    version_of_target obj ->
    cachedConditionalStatus (px_ParseTime p) (hr_Header (sr_http r)) obj = Ok (Some code) ->
    status w' = Some code -> header w' = writeCachedConditionalHeaders (header w) obj ->
    client (session w') = client (session w) -> Answer r w (code, 0, None) w'
(** the store's answer to the request for metadata *)
| Redescribed code h w' :
    status w' = Some code -> header w' = copyResponseHeaders (header w) h ->
    client (session w') = client (session w) -> Answer r w (code, 0, None) w'
(** the request is passed on, before anything was sent to the client *)
| Relayed w1 res w' : unanswered w w1 -> doForward p (sr_http r) w1 = (res, w') -> Answer r w res w'
| Handed w1 owner res w' : unanswered w w1 -> forwardToPeer p r owner w1 = (res, w') -> Answer r w res w'
(** an error is reported *)
| Refused e code w' : code = 500 \/ code = 502 -> status w' = Some code -> Answer r w (failed e) w'
(** nothing is sent: the server will send an empty response *)
| Silent e w' : unreported e -> unanswered w w' -> Answer r w (failed e) w'.

(** ** The handlers *)

(** Sending headers. *)
Lemma answer_headers (f : Http.Header -> Http.Header) code w w1 w2 :
  status w = None -> sound w -> modifyHeader f w = ((), w1) -> WriteHeader code w1 = ((), w2) ->
  sound w2 /\ status w2 = Some code /\ header w2 = f (header w) /\ session w2 = session w.
Proof. intros Hst Hw [= <-] [= <-]. cbn. by rewrite Hst. Qed.

Lemma answerCondition_spec r obj code w res w' :
  status w = None -> sound w -> version_of_target obj ->
  cachedConditionalStatus (px_ParseTime p) (hr_Header (sr_http r)) obj = Ok (Some code) ->
  answerCondition obj code w = (res, w') -> sound w' /\ Answer r w res w'.
Proof.
  intros Hst Hw Hobj Hc. unfold answerCondition, mbind, P_bind.
  destruct (modifyHeader _ w) as [[] w1] eqn:E1. destruct (WriteHeader code w1) as [[] w2] eqn:E2. intros [= <- <-].
  destruct (answer_headers _ _ _ _ _ Hst Hw E1 E2) as (? & ? & ? & Hs). split; [done|].
  eapply Decided; [exact Hobj|done|done|done|by rewrite Hs].
Qed.

Lemma answerHeaders_spec r obj w res w' :
  status w = None -> sound w -> version_of_target obj -> answerHeaders obj w = (res, w') -> sound w' /\ Answer r w res w'.
Proof.
  intros Hst Hw Hobj. unfold answerHeaders, mbind, P_bind.
  destruct (modifyHeader _ w) as [[] w1] eqn:E1. destruct (WriteHeader 200 w1) as [[] w2] eqn:E2. intros [= <- <-].
  destruct (answer_headers _ _ _ _ _ Hst Hw E1 E2) as (? & ? & ? & Hs). split; [done|].
  eapply Described; [exact Hobj|done|done|by rewrite Hs].
Qed.

(** An error response, a request passed on. *)
Lemma refused_spec r text code e w0 w res w' :
  code = 500 \/ code = 502 -> status w = None -> sound w ->
  (httpError text code;; mret (failed e) : P Handled) w = (res, w') -> sound w' /\ Answer r w0 res w'.
Proof.
  intros Hc Hst Hw. unfold mbind, P_bind. destruct (httpError text code w) as [[] w1] eqn:E. intros [= <- <-].
  destruct (httpError_spec _ _ _ _ Hst Hw E). split; [done|]. by eapply Refused.
Qed.

Lemma relayed_spec r w0 w res w' :
  unanswered w0 w -> sound w -> doForward p (sr_http r) w = (res, w') -> sound w' /\ Answer r w0 res w'.
Proof. intros Hu Hw Hf. split; [by eapply doForward_sound|]. by eapply Relayed. Qed.

Lemma unanswered_status w w' : unanswered w w' -> status w = None -> status w' = None.
Proof. intros (Hs & _) Hst. congruence. Qed.

(** What is answered after operations that answer nothing. *)
Lemma Answer_later r w0 w res w' : unanswered w0 w -> Answer r w res w' -> Answer r w0 res w'.
Proof.
  intros Hu Ha. pose proof Hu as (Hs & Hh & Hc).
  destruct Ha as [obj range ranged n err w' Hask (Hv & Hst & Hhd & Hb)|obj w' Hv Hst Hhd Hcl
    |obj code w' Hv Hd Hst Hhd Hcl|code h w' Hst Hhd Hcl|w1 res w'|w1 owner res w'|e code w'|e w'].
  - eapply Served; [done|]. split; [done|]. split; [done|]. rewrite <- Hh, <- Hc. done.
  - eapply Described; [exact Hv|done|by rewrite <- Hh|by rewrite <- Hc].
  - eapply Decided; [exact Hv|done|done|by rewrite <- Hh|by rewrite <- Hc].
  - eapply Redescribed; [done|rewrite <- Hh; exact Hhd|by rewrite <- Hc].
  - eapply Relayed; [by etransitivity|done].
  - eapply Handed; [by etransitivity|done].
  - by eapply Refused.
  - eapply Silent; [done|by etransitivity].
Qed.

Lemma headMiss_spec r w res w' :
  store_ok (sr_http r) -> sound w -> status w = None ->
  headMiss p (sr_http r) target w = (res, w') -> sound w' /\ Answer r w res w'.
Proof.
  intros Hk Hw Hst. unfold headMiss. unfold mbind at 1, P_bind at 1.
  destruct (upstreamMetadata p (sr_http r) target w) as [m w1] eqn:Hm.
  destruct (fetchMetadata_spec _ _ _ _ Hk Hw Hm) as (Hw1 & Hu1 & Hobj).
  pose proof (unanswered_status _ _ Hu1 Hst) as Hst1. destruct m as [[obj|code h]|e].
  - intros Hrun. destruct (answerHeaders_spec r obj w1 res w' Hst1 Hw1 (Hobj obj eq_refl) Hrun) as [? Ha].
    split; [done|]. by eapply Answer_later.
  - unfold mbind, P_bind. destruct (modifyHeader _ w1) as [[] w2] eqn:E1. destruct (WriteHeader code w2) as [[] w3] eqn:E2.
    intros [= <- <-]. destruct (answer_headers _ _ _ _ _ Hst1 Hw1 E1 E2) as (? & ? & Hh & Hs). split; [done|].
    destruct Hu1 as (_ & Hh1 & Hc1). eapply (Redescribed r w code h); [done|congruence|congruence].
  - destruct e; first [by apply relayed_spec | by apply refused_spec; [by right|..]].
Qed.

Lemma serveCachedHead_spec r w res w' :
  store_ok (sr_http r) -> sound w -> status w = None ->
  serveCachedHead p (sr_http r) target w = (res, w') -> sound w' /\ Answer r w res w'.
Proof.
  intros Hk Hw Hst. unfold serveCachedHead. unfold mbind at 1, P_bind at 1.
  destruct (cacheCall (GetObject (Bucket target) (Key target)) w) as [o w1] eqn:Hget.
  pose proof (getObject_spec w o w1 Hw Hget) as (Hw1 & Hu1 & Hobj).
  pose proof (unanswered_status _ _ Hu1 Hst) as Hst1.
  assert (Hmiss : headMiss p (sr_http r) target w1 = (res, w') -> sound w' /\ Answer r w res w').
  { intros Hrun. destruct (headMiss_spec r w1 res w' Hk Hw1 Hst1 Hrun). split; [done|by eapply Answer_later]. }
  destruct o as [[obj|]|e]; [|done|by apply refused_spec; [by left|..]].
  destruct (isInternalIdentityObject obj); [done|]. specialize (Hobj obj eq_refl).
  destruct (cachedConditionalStatus _ _ obj) as [[code|]|] eqn:Hcond; [| |by apply relayed_spec].
  - intros Hrun. destruct (answerCondition_spec r obj code w1 res w' Hst1 Hw1 Hobj Hcond Hrun).
    split; [done|by eapply Answer_later].
  - intros Hrun. destruct (answerHeaders_spec r obj w1 res w' Hst1 Hw1 Hobj Hrun). split; [done|by eapply Answer_later].
Qed.

(** A range inside an object. *)
Definition within (obj : Object) (range : ByteRange) : Prop := 0 <= Start range <= End range /\ End range < ob_Size obj.

Lemma prepareFirstPage_spec r obj range n s res s' :
  store_ok r -> version_of_target obj -> within obj range -> session_ok version pageSizeOf s ->
  prepareFirstPage (pageUpstream p n r) (Bucket target) obj range s = (res, s') ->
  session_ok version pageSizeOf s' /\ client s' = client s /\
  forall pages first, res = Ok (pages, first) -> PagesForRange range (ob_PageSize obj) = Ok pages /\
    forall body, first = Some body -> exists page rest, pages = page :: rest /\
      body = pageOf version pageSizeOf (ob_ID obj) (ob_ETag obj) (ps_Index page).
Proof.
  intros Hk Hv [Hr He] Hs. pose proof Hv as (Hobj & Hid & Htext). unfold prepareFirstPage. pose proof (oo_bound _ _ _ Hobj). pose proof (oo_positive _ _ _ Hobj).
  destruct (PagesForRange_total range (ob_PageSize obj)) as (page & pages & Hpages); [lia..|]. rewrite Hpages.
  destruct (range_pages version pageSizeOf obj Hobj range _ Hr He Hpages) as [Hin _].
  pose proof (proj1 (proj1 (Forall_cons _ _ _) Hin)) as ((Hp & Hi & Hse & _) & Hend & _).
  unfold mbind, R_bind. destruct (pageReader _ _ _ _ s) as [fp s1] eqn:Hread.
  destruct (pageReader_spec version pageSizeOf _ (Bucket target) obj Hobj (pages_honest r n obj Hk Hv) (ps_Index page) s fp s1 Hs Hi
    ltac:(lia) Hread) as (Hs1 & Hc1 & Hfirst).
  destruct fp as [fp|e]; intros [= <- <-]; (split; [done|]); (split; [done|]); [|done].
  intros pages' first [= <- <-]. split; [done|]. intros body ->. exists page, pages. split; [done|]. by apply Hfirst.
Qed.

(** [prepareFirstPage] in the world. *)
Lemma prepare_world r obj range w res w' :
  store_ok (sr_http r) -> version_of_target obj -> within obj range -> sound w ->
  onPages p (sr_http r) (fun upstream => prepareFirstPage upstream (Bucket target) obj range) w = (res, w') ->
  sound w' /\ unanswered w w' /\
  forall pages first, res = Ok (pages, first) -> PagesForRange range (ob_PageSize obj) = Ok pages /\
    forall body, first = Some body -> exists page rest, pages = page :: rest /\
      body = pageOf version pageSizeOf (ob_ID obj) (ob_ETag obj) (ps_Index page).
Proof.
  intros Hk Hv Hin Hw Hon.
  destruct (onPages_spec (sr_http r) _ (fun s a s' => client s' = client s /\
      forall pages first, a = Ok (pages, first) -> PagesForRange range (ob_PageSize obj) = Ok pages /\
        forall body, first = Some body -> exists page rest, pages = page :: rest /\
          body = pageOf version pageSizeOf (ob_ID obj) (ob_ETag obj) (ps_Index page)) w res w'
      (fun u => keeps_rows_prepareFirstPage row_ok u (Bucket target) obj range)) as (Hw1 & (Hc & Hok) & Hs1 & Hh1); [|done|done|by split_and!].
  intros n s s' Hs Hrun. by apply (prepareFirstPage_spec (sr_http r) obj range n s res s').
Qed.

Lemma prepareRange_spec r obj range w plan w' :
  store_ok (sr_http r) -> version_of_target obj -> within obj range -> sound w ->
  prepareRange p (sr_http r) target obj range w = (plan, w') ->
  sound w' /\ unanswered w w' /\
  forall obj1 range1 pages first, plan = Ok (obj1, range1, pages, first) ->
    version_of_target obj1 /\ within obj1 range1 /\ Start range1 = Start range /\
    End range1 = Z.min (End range) (ob_Size obj1 - 1) /\ PagesForRange range1 (ob_PageSize obj1) = Ok pages /\
    forall body, first = Some body -> exists page rest, pages = page :: rest /\
      body = pageOf version pageSizeOf (ob_ID obj1) (ob_ETag obj1) (ps_Index page).
Proof.
  intros Hk Hv Hin Hw. unfold prepareRange. unfold mbind at 1, P_bind at 1.
  destruct (onPages p (sr_http r) _ w) as [res w1] eqn:Hon.
  destruct (prepare_world r obj range w res w1 Hk Hv Hin Hw Hon) as (Hw1 & Hu1 & Hok).
  destruct res as [[pages first]|e].
  { intros [= <- <-]. split; [done|]. split; [done|]. intros obj1 range1 pages1 first1 [= <- <- <- <-].
    destruct (Hok pages first eq_refl). destruct Hin as [? ?]. split_and!; [done|by split|done|lia|done|done]. }
  destruct e; try (intros [= <- <-]; split_and!; done). unfold refetchAfterObjectChanged. unfold mbind at 1, P_bind at 1.
  destruct (doInvalidate p target w1) as [d w2] eqn:Hd. destruct (doInvalidate_spec w1 d w2 Hw1 Hd) as [Hw2 Hu2].
  assert (Hu : unanswered w w2) by by etransitivity.
  destruct d as [epoch|e]; [|intros [= <- <-]; by split_and!]. unfold mbind at 1, P_bind at 1.
  destruct (objectMetadata p (sr_http r) target w2) as [m w3] eqn:Hm.
  destruct (objectMetadata_spec _ w2 m w3 Hk Hw2 Hm) as (Hw3 & Hu3 & Hobj3).
  assert (Hu' : unanswered w w3) by by etransitivity.
  destruct m as [[obj3|]|e]; [|intros [= <- <-]; by split_and!..]. specialize (Hobj3 obj3 eq_refl).
  set (range3 := mkByteRange _ _). destruct (Z.ltb_spec (End range3) (Start range3)); [intros [= <- <-]; by split_and!|].
  assert (He3 : End range3 = Z.min (End range) (ob_Size obj3 - 1)).
  { unfold range3. cbn. destruct Hobj3 as [[Hsz _ Hpos Hbd] _]. pose proof (zlen_nonneg (contentOf version (ob_ID obj3) (ob_ETag obj3))).
    destruct (Z.leb_spec (ob_Size obj3) (End range)); [|lia]. unfold sub64. rewrite wrap64_id; [lia|int64_unfold; lia]. }
  assert (Hin3 : within obj3 range3) by (destruct Hin as [? ?]; split; [cbn in *; lia|lia]).
  unfold mbind, P_bind. destruct (onPages p (sr_http r) _ w3) as [res w4] eqn:Hon3.
  destruct (prepare_world r obj3 range3 w3 res w4 Hk Hobj3 Hin3 Hw3 Hon3) as (Hw4 & Hu4 & Hok4).
  assert (Hu5 : unanswered w w4) by by etransitivity.
  destruct res as [[pages first]|e]; intros [= <- <-]; (split; [done|]); (split; [done|]); [|done].
  intros obj1 range1 pages1 first1 [= <- <- <- <-]. destruct (Hok4 pages first eq_refl). by split_and!.
Qed.

(** Streaming the pages of a plan after its headers. *)
Lemma streamPlan_spec r obj range pages first code w res w' :
  store_ok (sr_http r) -> version_of_target obj -> within obj range -> sound w ->
  PagesForRange range (ob_PageSize obj) = Ok pages ->
  (forall body, first = Some body -> exists page rest, pages = page :: rest /\
     body = pageOf version pageSizeOf (ob_ID obj) (ob_ETag obj) (ps_Index page)) ->
  streamPlan p (sr_http r) target code obj pages first w = (res, w') ->
  sound w' /\ exists n err, res = (code, n, err) /\ status w' = status w /\ header w' = header w /\
  exists part, Io.out (client (session w')) = Io.out (client (session w)) ++ part /\ n = zlen part /\
    part `prefix_of` slice (Start range) (End range + 1) (contentOf version id (ob_ETag obj)) /\
    (err = None -> part = slice (Start range) (End range + 1) (contentOf version id (ob_ETag obj))).
Proof.
  intros Hk Hv [Hr He] Hw Hpages Hfirst. pose proof Hv as (Hobj & Hid & Htext). unfold streamPlan. unfold mbind, P_bind.
  destruct (onPages p (sr_http r) _ w) as [[n err] w1] eqn:Hon. intros [= <- <-].
  destruct (range_pages version pageSizeOf obj Hobj range _ Hr He Hpages) as [Hin Hcat].
  assert (Hz : zlen (slice (Start range) (End range + 1) (contentOf version (ob_ID obj) (ob_ETag obj))) <= int64_max).
  { pose proof (oo_bound _ _ _ Hobj). pose proof (oo_positive _ _ _ Hobj). rewrite (oo_size _ _ _ Hobj) in *.
    rewrite zlen_slice by lia. lia. }
  destruct (onPages_spec (sr_http r) _ (fun s a s' => exists part, Io.out (client s') = Io.out (client s) ++ part /\
      a.1 = zlen part /\ part `prefix_of` slice (Start range) (End range + 1) (contentOf version id (ob_ETag obj)) /\
      (a.2 = None -> part = slice (Start range) (End range + 1) (contentOf version id (ob_ETag obj)))) w (n, err) w1
      (fun u => keeps_rows_streamCachedPages row_ok (px_buf p) u (Bucket target) obj pages first 0)) as (Hw1 & (part & Ho & Hn & Hp & Hok) & Hs1 & Hh1);
    [|done|done|].
  - intros k s s' Hs Hrun. rewrite <- Hid, <- Hcat.
    destruct (streamCachedPages_spec version pageSizeOf (px_buf p) _ (Bucket target) obj Hobj (pages_honest _ k obj Hk Hv)
      pages first 0 s (n, err) s' Hs Hin Hfirst ltac:(lia) ltac:(rewrite Hcat; lia) Hrun) as [Hs' (part & ? & Hn & ? & ? & _)].
    split; [done|]. exists part. cbn in *. split_and!; [done|lia|done|done].
  - split; [done|]. exists n, (HandlerRead <$> err). split_and!; [done..|]. exists part. split_and!; [done..|].
    intros Hno. apply Hok. cbn in *. by destruct err.
Qed.

Lemma served_range r w obj range pages first w1 w2 res w' :
  store_ok (sr_http r) -> version_of_target obj -> within obj range -> asked (sr_http r) obj range true ->
  status w = None -> sound w -> PagesForRange range (ob_PageSize obj) = Ok pages ->
  (forall body, first = Some body -> exists page rest, pages = page :: rest /\
     body = pageOf version pageSizeOf (ob_ID obj) (ob_ETag obj) (ps_Index page)) ->
  modifyHeader (fun h => rangeResponseHeaders h obj range) w = ((), w1) -> WriteHeader 206 w1 = ((), w2) ->
  streamPlan p (sr_http r) target 206 obj pages first w2 = (res, w') -> sound w' /\ Answer r w res w'.
Proof.
  intros Hk Hv Hin Hask Hst Hw Hpages Hfirst E1 E2 Hrun.
  destruct (answer_headers _ _ _ _ _ Hst Hw E1 E2) as (Hw2 & Hst2 & Hh2 & Hs2).
  destruct (streamPlan_spec r obj range pages first 206 w2 res w' Hk Hv Hin Hw2 Hpages Hfirst Hrun)
    as (Hw' & n & err & -> & Hst' & Hh' & Hb). split; [done|].
  apply (Served r w obj range true n err w'); [done|]. split; [done|]. rewrite Hst', Hh', Hst2, Hh2. split_and!; [done..|].
  rewrite <- Hs2. done.
Qed.

Lemma serveLocalRange_spec r obj range w res w' :
  store_ok (sr_http r) -> version_of_target obj -> within obj range ->
  (exists size, ParseRange (Http.Get (hr_Header (sr_http r)) "Range") size = Ok range) ->
  status w = None -> sound w ->
  serveLocalRange p (sr_http r) target obj range w = (res, w') -> sound w' /\ Answer r w res w'.
Proof.
  intros Hk Hv Hin Hask Hst Hw. unfold serveLocalRange. unfold mbind at 1, P_bind at 1.
  destruct (prepareRange p (sr_http r) target obj range w) as [plan w1] eqn:Hplan.
  destruct (prepareRange_spec r obj range w plan w1 Hk Hv Hin Hw Hplan) as (Hw1 & Hu1 & Hok).
  pose proof (unanswered_status _ _ Hu1 Hst) as Hst1.
  destruct plan as [[[[obj1 range1] pages] first]|e].
  - destruct (Hok _ _ _ _ eq_refl) as (Hv1 & Hin1 & Hs1 & He1 & Hpages & Hfirst).
    unfold mbind, P_bind. destruct (modifyHeader _ w1) as [[] w2] eqn:E1. destruct (WriteHeader 206 w2) as [[] w3] eqn:E2.
    intros Hrun. destruct (served_range r w1 obj1 range1 pages first w2 w3 res w') as [? Ha]; try done.
    + destruct Hask as [size Hp]. exists size, range. split_and!; [done..|apply Hin1|apply Hin1].
    + split; [done|]. by eapply Answer_later.
  - destruct e; first [by apply relayed_spec | by apply refused_spec; [by right|..]].
Qed.

(** The whole of an object that is not empty. *)
Definition wholeOf (obj : Object) : ByteRange := mkByteRange 0 (ob_Size obj - 1).

Lemma whole_bytes obj :
  version_of_target obj ->
  slice (Start (wholeOf obj)) (End (wholeOf obj) + 1) (contentOf version id (ob_ETag obj)) = contentOf version id (ob_ETag obj).
Proof.
  intros (Hobj & Hid & Htext). cbn. rewrite (oo_size _ _ _ Hobj), Hid. replace (_ - 1 + 1) with (zlen (contentOf version id (ob_ETag obj))) by lia.
  apply slice_full.
Qed.

Lemma size_bounds obj :
  version_of_target obj -> 0 <= ob_Size obj /\ 0 < ob_PageSize obj /\ ob_Size obj + ob_PageSize obj <= int64_max.
Proof.
  intros [Hobj _]. pose proof (oo_bound _ _ _ Hobj). pose proof (oo_positive _ _ _ Hobj).
  rewrite (oo_size _ _ _ Hobj) in *. pose proof (zlen_nonneg (contentOf version (ob_ID obj) (ob_ETag obj))). lia.
Qed.

Lemma whole_exact obj : version_of_target obj -> mkByteRange 0 (sub64 (ob_Size obj) 1) = wholeOf obj.
Proof.
  intros Hv. unfold wholeOf. f_equal. pose proof (size_bounds obj Hv). unfold sub64. rewrite wrap64_id; [done|int64_unfold; lia].
Qed.

Lemma whole_empty obj : ob_Size obj <= 0 -> PagesForRange (wholeOf obj) (ob_PageSize obj) = Err RangeEndBeforeStart.
Proof.
  intros He. unfold PagesForRange, validateRange. cbn. by destruct (Z.ltb_spec (ob_Size obj - 1) 0); [|lia].
Qed.

Lemma serveCold_spec r obj w res w' :
  store_ok (sr_http r) -> version_of_target obj -> status w = None -> sound w ->
  serveColdFullObject p (sr_http r) obj w = (res, w') ->
  settled (sr_http r) w' /\ if changed res then sound w' /\ unanswered w w' else Answer r w res w'.
Proof.
  intros Hk Hv Hst Hw. pose proof Hv as (Hobj & Hid & _ & Het). unfold serveColdFullObject.
  destruct (newUpstreamRequest _ _ (sr_http r) MethodGet) as [req|] eqn:Hnew.
  2: { intros [= <- <-]. split; [by intros _|]. cbn. eapply Silent; [by left|done]. }
  destruct (px_sign p _) as [req1|] eqn:Hsign.
  2: { intros [= <- <-]. split; [by intros _|]. cbn. eapply Silent; [by right; left|done]. }
  rewrite (whole_exact obj Hv). pose proof (oo_bound _ _ _ Hobj). pose proof (oo_positive _ _ _ Hobj).
  destruct (Z.leb_spec (ob_Size obj) 0).
  { rewrite whole_empty by done. intros [= <- <-]. split; [by intros _|]. cbn. eapply Silent; [by do 2 right|done]. }
  destruct (PagesForRange_total (wholeOf obj) (ob_PageSize obj)) as (pg & pgs & ->); [cbn; lia..|].
  destruct (newUpstreamRequest_spec _ _ _ Hnew) as [Hm Hp]. destruct (sk_sign _ Hk _ _ Hsign) as (Hm1 & Hp1 & Hh).
  pose proof (Hh "Range" ltac:(clear; set_solver)) as Hr. pose proof (Hh "If-Match" ltac:(clear; set_solver)) as Hi. cbn in Hr, Hi.
  rewrite Get_Set_ in Hi. unfold Http.Get in Hr at 2. rewrite Values_Set_ne, Values_Del in Hr by done.
  unfold mbind at 1, P_bind at 1. destruct (clientDo _ req1 w) as [resp w1] eqn:Hdo.
  destruct (clientDo_spec _ _ _ _ _ Hdo) as [Hq Hresp]. destruct (sound_quiet _ _ Hq Hw) as [Hw1 Hu1].
  pose proof (unanswered_status _ _ Hu1 Hst) as Hst1.
  assert (Hrefuse : forall text e, e <> HandlerRead ErrObjectChanged ->
    (httpError text 502;; mret (failed e) : P Handled) w1 = (res, w') ->
    settled (sr_http r) w' /\ if changed res then sound w' /\ unanswered w w' else Answer r w res w').
  { intros text e Hne Hrun. destruct (refused_spec r text 502 e w w1 res w' ltac:(by right) Hst1 Hw1 Hrun) as [? Ha].
    split; [by intros _|]. unfold mbind, P_bind in Hrun. destruct (httpError text 502 w1) as [[] w2]. injection Hrun as <- <-.
    destruct e as [| | | | | |[]| | | | | | |]; done. }
  destruct resp as [resp|]; [|by apply Hrefuse].
  destruct (rs_Status resp =? 412); [intros [= <- <-]; split; [by intros _|by split]|].
  destruct (Z.eqb_spec (rs_Status resp) 200) as [H200|]; cbn [negb]; [|by apply Hrefuse].
  pose proof (sk_whole _ Hk _ _ resp (eq_trans Hm1 Hm) (eq_trans Hp1 Hp) ltac:(by rewrite Hi) Hr (eq_sym Hresp) H200) as Hpre.
  assert (Hall : complete (sr_http r) -> Io.fin (rs_Body resp) = Io.EOF -> Io.content (rs_Body resp) = contentOf version id (ob_ETag obj)).
  { intros Hcomp. pose proof (Hcomp _ _ resp (eq_trans Hm1 Hm) (eq_trans Hp1 Hp) ltac:(by rewrite Hi) Hr (eq_sym Hresp) H200) as Ha.
    by rewrite Hi in Ha. }
  rewrite Hi in Hpre. unfold mbind, P_bind.
  destruct (modifyHeader _ w1) as [[] w2] eqn:E1. destruct (WriteHeader 200 w2) as [[] w3] eqn:E2.
  destruct (answer_headers _ _ _ _ _ Hst1 Hw1 E1 E2) as (Hw3 & Hst3 & Hh3 & Hs3).
  unfold onSession. destruct (streamColdFullObject obj (rs_Body resp) (session w3)) as [[n err] s4] eqn:Hstr.
  rewrite <- Hid in Hpre, Hall.
  destruct (streamColdFullObject_spec version pageSizeOf obj Hobj (rs_Body resp) (session w3) n err s4 (proj1 Hw3) Hpre Hstr)
    as (Hs4 & _ & part & Ho & Hn & Hpp & Hok & _).
  pose proof (keeps_rows_streamCold row_ok obj (rs_Body resp) (session w3) (proj2 Hw3)) as Hr4. rewrite Hstr in Hr4.
  intros [= <- <-]. split; [intros Hcomp; split; [by apply Hs4, Hall|done]|].
  assert (Hch : changed (200, n, HandlerRead <$> err) = false).
  { destruct err as [e|]; [|done]. apply streamCold_error in Hstr. by destruct e. }
  rewrite Hch. destruct Hu1 as (_ & Hh1 & Hc1).
  apply (Served r w obj (wholeOf obj) false n _ _); [done|]. split; [done|]. cbn. split; [done|]. split; [by rewrite Hh3, Hh1|].
  change 0 with (Start (wholeOf obj)). change (ob_Size obj - 1) with (End (wholeOf obj)). rewrite (whole_bytes obj Hv), <- Hid.
  exists part. rewrite Ho, Hs3, Hc1. split_and!; [done..|]. intros Hno. apply Hok. by destruct err.
Qed.

(** Peers that answer with pages of versions, and maps in some order. *)
Definition peering_ok : Prop :=
  peers_honest version pageSizeOf p /\ json_text (Bucket target) /\ json_text (Key target) /\ forall A (l : list A), px_order p A l ≡ₚ l.

Lemma serveDistributed_spec rt r obj range ranged w res w' :
  store_ok (sr_http r) -> peering_ok -> version_of_target obj -> within obj range -> asked (sr_http r) obj range ranged ->
  status w = None -> sound w ->
  serveDistributedPageRead p rt (sr_http r) target obj range ranged w = (res, w') -> sound w' /\ Answer r w res w'.
Proof.
  intros Hk (Hpeer & Ht1 & Ht2 & Hord) Hv [Hr He] Hask Hst Hw. pose proof Hv as (Hobj & Hid & Htext). unfold serveDistributedPageRead.
  pose proof (oo_bound _ _ _ Hobj). pose proof (oo_positive _ _ _ Hobj).
  destruct (PagesForRange_total range (ob_PageSize obj)) as (pg & pgs & Hpages); [lia..|]. rewrite Hpages.
  set (pages := pg :: pgs) in *. unfold mbind at 1, P_bind at 1.
  destruct (openCoordinatorPageBatches p rt target obj pages w) as [[batches err] w1] eqn:Ho.
  destruct (range_pages version pageSizeOf obj Hobj range _ Hr He Hpages) as [Hin Hcat].
  destruct (openCoordinator_spec version pageSizeOf p rt target obj Hobj pages w batches err w1 Hpeer (conj Ht1 (conj Ht2 (proj1 Htext))) Hid Hin Hord Ho) as [Hq Hb].
  destruct (sound_quiet _ _ Hq Hw) as [Hw1 Hu1]. pose proof (unanswered_status _ _ Hu1 Hst) as Hst1.
  destruct err as [e|].
  { unfold discardLocalPlanningState. unfold mbind at 1, P_bind at 1. destruct (px_cached p).
    - unfold mbind at 1, P_bind at 1.
      destruct (cacheCall (InvalidateObject (Bucket target) (Key target) 0) w1) as [d w2] eqn:Hd.
      destruct (cacheCall_spec _ w1 d w2 (keeps_InvalidateObject _ _ _ _) (preserves_InvalidateObject _ _ _ _) Hw1 Hd)
        as (Hw2 & Hu2 & _). pose proof (unanswered_status _ _ Hu2 Hst1) as Hst2.
      destruct d as [x|e2]; [apply relayed_spec; [by etransitivity|done]|by apply refused_spec; [by left|..]].
    - by apply relayed_spec. }
  specialize (Hb eq_refl). unfold mbind, P_bind. destruct (modifyHeader _ w1) as [[] w2] eqn:E1.
  destruct (WriteHeader _ w2) as [[] w3] eqn:E2.
  destruct (answer_headers _ _ _ _ _ Hst1 Hw1 E1 E2) as (Hw3 & Hst3 & Hh3 & Hs3).
  destruct (onPages p (sr_http r) _ w3) as [[n err] w4] eqn:Hon. intros [= <- <-].
  assert (Hz : zlen (slice (Start range) (End range + 1) (contentOf version (ob_ID obj) (ob_ETag obj))) <= int64_max)
    by (rewrite (oo_size _ _ _ Hobj) in *; rewrite zlen_slice by lia; lia).
  destruct (onPages_spec (sr_http r) _ (fun s a s' => exists part, Io.out (client s') = Io.out (client s) ++ part /\
      a.1 = zlen part /\ part `prefix_of` slice (Start range) (End range + 1) (contentOf version id (ob_ETag obj)) /\
      (a.2 = None -> part = slice (Start range) (End range + 1) (contentOf version id (ob_ETag obj)))) w3 (n, err) w4
      (fun u => keeps_rows_streamCoordinator row_ok p rt u target obj pages batches)) as (Hw4 & (part & Hp1 & Hn & Hp & Hok) & Hs4 & Hh4);
    [|done|done|].
  - intros k s s' Hs Hrun. rewrite <- Hid, <- Hcat.
    destruct (streamCoordinator_spec version pageSizeOf p rt target obj Hobj _ pages batches s n err s'
      (pages_honest _ k obj Hk Hv) Hs Hin Hb ltac:(rewrite Hcat; lia) Hrun) as [Hs' (part & ? & ? & ? & ? & _)].
    split; [done|]. by exists part.
  - split; [done|]. destruct Hu1 as (_ & Hh1 & Hc1).
    apply (Served r w obj range ranged n err w4); [done|]. split; [done|]. rewrite Hs4, Hh4, Hst3, Hh3, Hh1.
    split; [done|]. split; [by destruct ranged|]. exists part. rewrite Hp1, Hs3, Hc1. by split_and!.
Qed.

(** What [serveCachedRange] and [serveCachedFullObject] begin with. *)
Lemma withObject_spec r serve w res w' :
  store_ok (sr_http r) -> sound w -> status w = None ->
  (forall obj strategy w1 res w', version_of_target obj -> sound w1 -> status w1 = None ->
     serve obj strategy w1 = (res, w') -> settled (sr_http r) w' /\ Answer r w1 res w') ->
  withObject p r target serve w = (res, w') -> settled (sr_http r) w' /\ Answer r w res w'.
Proof.
  intros Hk Hw Hst Hserve.
  assert (Hsettle : forall w0 res w', sound w' /\ Answer r w0 res w' -> settled (sr_http r) w' /\ Answer r w0 res w')
    by (intros w0 res0 w0' [? ?]; split; [by intros _|done]).
  unfold withObject. unfold mbind at 1, P_bind at 1.
  destruct (objectMetadata p (sr_http r) target w) as [m w1] eqn:Hm.
  destruct (objectMetadata_spec _ w m w1 Hk Hw Hm) as (Hw1 & Hu1 & Hobj). pose proof (unanswered_status _ _ Hu1 Hst) as Hst1.
  destruct m as [[obj|]|e];
    [|by intros ?; apply Hsettle; eapply relayed_spec
     |intros ?; apply Hsettle; destruct e; first [by eapply relayed_spec | by eapply refused_spec; [by right|..]]].
  specialize (Hobj obj eq_refl). cbv zeta. set (strategy := match px_router p with Some _ => _ | None => _ end).
  destruct (cachedConditionalStatus _ _ obj) as [[code|]|] eqn:Hcond; [| |by intros ?; apply Hsettle; eapply relayed_spec].
  - intros Hrun. apply Hsettle. destruct (answerCondition_spec r obj code w1 res w' Hst1 Hw1 Hobj Hcond Hrun). split; [done|by eapply Answer_later].
  - assert (Hgo : serve obj strategy w1 = (res, w') -> settled (sr_http r) w' /\ Answer r w res w').
    { intros Hrun. destruct (Hserve obj strategy w1 res w' Hobj Hw1 Hst1 Hrun). split; [done|by eapply Answer_later]. }
    unfold forwardObjectReadToOwner. destruct (px_router p) as [rt|]; [|done]. destruct (_ || _); [done|].
    case_bool_decide; [done|]. unfold mbind, P_bind. destruct (forwardToPeer p r _ w1) as [res1 w2] eqn:Hf.
    intros [= <- <-]. apply Hsettle. split; [by eapply forwardToPeer_sound|by eapply Handed].
Qed.

Lemma serveCachedRange_spec r w res w' :
  store_ok (sr_http r) -> peering_ok -> sound w -> status w = None ->
  serveCachedRange p r target w = (res, w') -> settled (sr_http r) w' /\ Answer r w res w'.
Proof.
  intros Hk Hp Hw Hst. apply withObject_spec; [done..|]. clear w res w' Hw Hst. intros obj strategy w res w' Hv Hw Hst Hrun.
  assert (sound w' /\ Answer r w res w') as [? ?]; [revert Hrun|split; [by intros _|done]].
  destruct (ParseRange _ (ob_Size obj)) as [range|e] eqn:Hrange; [|by apply relayed_spec].
  assert (Hin : within obj range).
  { pose proof (size_bounds obj Hv). eapply ParseRange_within; [|exact Hrange]. int64_unfold. lia. }
  destruct (coordinated p strategy) as [rt|]; [|by apply serveLocalRange_spec; eauto].
  apply serveDistributed_spec; try done. exists (ob_Size obj), range. destruct Hin. split_and!; [done|done|lia|lia|lia].
Qed.

Lemma serveMissedObject_spec r obj w res w' :
  store_ok (sr_http r) -> version_of_target obj -> sound w -> status w = None ->
  serveMissedObject p (sr_http r) target obj w = (res, w') -> settled (sr_http r) w' /\ Answer r w res w'.
Proof.
  intros Hk Hv Hw Hst.
  assert (Hsettle : forall w0 res w', sound w' /\ Answer r w0 res w' -> settled (sr_http r) w' /\ Answer r w0 res w')
    by (intros w0 res0 w0' [? ?]; split; [by intros _|done]).
  unfold serveMissedObject. unfold mbind at 1, P_bind at 1.
  destruct (serveColdFullObject p (sr_http r) obj w) as [res1 w1] eqn:Hc1.
  destruct (serveCold_spec r obj w res1 w1 Hk Hv Hst Hw Hc1) as [Hset1 Ha1].
  destruct (changed res1); [|by intros [= <- <-]]. destruct Ha1 as [Hw1 Ha1]. pose proof (unanswered_status _ _ Ha1 Hst) as Hst1.
  unfold mbind at 1, P_bind at 1. destruct (doInvalidate p target w1) as [d w2] eqn:Hd.
  destruct (doInvalidate_spec w1 d w2 Hw1 Hd) as [Hw2 Hu2]. pose proof (unanswered_status _ _ Hu2 Hst1) as Hst2.
  destruct d as [epoch|e]; [|by intros ?; apply Hsettle; eapply refused_spec; [by left|..]].
  unfold mbind at 1, P_bind at 1. destruct (objectMetadata p (sr_http r) target w2) as [m w3] eqn:Hm.
  destruct (objectMetadata_spec _ w2 m w3 Hk Hw2 Hm) as (Hw3 & Hu3 & Hobj3). pose proof (unanswered_status _ _ Hu3 Hst2) as Hst3.
  assert (Hu : unanswered w w3) by by etransitivity; [|etransitivity].
  destruct m as [[obj3|]|e];
    [|by intros ?; apply Hsettle; eapply relayed_spec
     |intros ?; apply Hsettle; destruct e; first [by eapply relayed_spec | by eapply refused_spec; [by right|..]]].
  specialize (Hobj3 obj3 eq_refl). unfold mbind at 1, P_bind at 1.
  destruct (serveColdFullObject p (sr_http r) obj3 w3) as [res4 w4] eqn:Hc4.
  destruct (serveCold_spec r obj3 w3 res4 w4 Hk Hobj3 Hst3 Hw3 Hc4) as [Hset4 Ha4].
  destruct (changed res4).
  { destruct Ha4 as [Hw4 Hu4]. intros ?. apply Hsettle. eapply refused_spec; [by right|by eapply unanswered_status|done|done]. }
  intros [= <- <-]. split; [done|by eapply Answer_later].
Qed.

Lemma serveCachedFullObject_spec r w res w' :
  store_ok (sr_http r) -> peering_ok -> sound w -> status w = None ->
  serveCachedFullObject p r target w = (res, w') -> settled (sr_http r) w' /\ Answer r w res w'.
Proof.
  intros Hk Hp Hw Hst. apply withObject_spec; [done..|]. clear w res w' Hw Hst. intros obj strategy w res w' Hv Hw Hst.
  assert (Hsettle : sound w' /\ Answer r w res w' -> settled (sr_http r) w' /\ Answer r w res w')
    by (intros [? ?]; split; [by intros _|done]).
  destruct (Z.eqb_spec (ob_Size obj) 0); [by intros ?; apply Hsettle; eapply answerHeaders_spec|].
  cbv zeta. rewrite (whole_exact obj Hv). pose proof (size_bounds obj Hv).
  assert (Hin : within obj (wholeOf obj)) by (split; cbn; lia).
  destruct (coordinated p strategy) as [rt|]; [intros Hrun; apply Hsettle; by apply (serveDistributed_spec rt r obj (wholeOf obj) false w res w')|].
  destruct (PagesForRange_total (wholeOf obj) (ob_PageSize obj)) as (page & pages & Hpages); [cbn; lia..|]. rewrite Hpages.
  unfold mbind at 1, P_bind at 1. destruct (onSession _ w) as [first w1] eqn:Hopen.
  assert (Hfirst : sound w1 /\ unanswered w w1 /\
    forall body, first = Ok (Some body) -> body = pageOf version pageSizeOf (ob_ID obj) (ob_ETag obj) (ps_Index page)).
  { unfold onSession in Hopen. destruct (openCachedPage (Bucket target) obj (ps_Index page) (session w)) as [f s] eqn:Ho.
    injection Hopen as <- <-. destruct (openCachedPage_spec version pageSizeOf (Bucket target) obj (ps_Index page) _ _ _ (proj1 Hw) Ho) as (Hs & Hc & Hd).
    pose proof (keeps_rows_openCachedPage row_ok (Bucket target) obj (ps_Index page) (session w) (proj2 Hw)) as Hr. rewrite Ho in Hr.
    split; [done|]. split; [by split_and!|]. intros body ->. by apply Hd. }
  destruct Hfirst as (Hw1 & Hu1 & Hbody). pose proof (unanswered_status _ _ Hu1 Hst) as Hst1.
  destruct first as [[body|]|e]; [| |by intros ?; apply Hsettle; eapply refused_spec; [by left|..]].
  2: { intros Hrun. destruct (serveMissedObject_spec r obj w1 res w' Hk Hv Hw1 Hst1 Hrun). split; [done|by eapply Answer_later]. }
  unfold mbind, P_bind. destruct (modifyHeader _ w1) as [[] w2] eqn:E1. destruct (WriteHeader 200 w2) as [[] w3] eqn:E2.
  destruct (answer_headers _ _ _ _ _ Hst1 Hw1 E1 E2) as (Hw3 & Hst3 & Hh3 & Hs3). intros Hrun. apply Hsettle.
  destruct (streamPlan_spec r obj (wholeOf obj) (page :: pages) (Some body) 200 w3 res w' Hk Hv Hin Hw3 Hpages) as
    (Hw' & n' & err & -> & Hst' & Hh' & Hb); [|done|].
  { intros body' [= <-]. exists page, pages. split; [done|by apply Hbody]. }
  split; [done|]. destruct Hu1 as (_ & Hh1 & Hc1).
  apply (Served r w obj (wholeOf obj) false n' err w'); [done|]. split; [done|]. rewrite Hst', Hh', Hst3, Hh3, Hh1.
  split_and!; [done..|]. rewrite <- Hc1, <- Hs3. done.
Qed.

Lemma handle_spec r c w res w' :
  let r1 := cacheInternalReadRequest r c in
  px_cached p = true -> disposition c <> PassThrough ->
  store_ok (sr_http r1) -> peering_ok -> sound w -> status w = None ->
  handle p r target c w = (res, w') -> settled (sr_http r1) w' /\ Answer r1 w res w'.
Proof.
  intros r1 Hc Hd Hk Hp Hw Hst. unfold handle. rewrite Hc. cbn [negb].
  destruct (disposition c) eqn:E.
  all: try (by intros Hrun; destruct (serveCachedHead_spec _ _ _ _ Hk Hw Hst Hrun); split; [by intros _|]); try (by apply serveCachedRange_spec); try (by apply serveCachedFullObject_spec).
  done.
Qed.

Lemma shouldForwardToPeer_spec r c w b w' :
  sound w -> status w = None -> shouldForwardToPeer p r target c w = (b, w') ->
  sound w' /\ if b then exists res, Answer r w res w' else w' = w.
Proof.
  intros Hw Hst. unfold shouldForwardToPeer. destruct (px_router p) as [rt|]; [|by intros [= <- <-]].
  destruct (negb (IsObject target)); [by intros [= <- <-]|]. cbv zeta.
  set (owner := Owner rt _ _).
  assert (Hrefuse : forall text w1, sound w1 -> status w1 = None ->
    (httpError text 502;; mret true : P bool) w1 = (b, w') ->
    sound w' /\ if b then exists res, Answer r w res w' else w' = w).
  { intros text w1 Hw1 Hst1. unfold mbind, P_bind. destruct (httpError text 502 w1) as [[] w2] eqn:E.
    intros [= <- <-]. destruct (httpError_spec _ _ _ _ Hst1 Hw1 E). split; [done|].
    exists (failed HandlerPeers). by eapply Refused; [by right|]. }
  destruct (_ && negb (bool_decide (_ = ringID rt))).
  { unfold mbind at 1, P_bind at 1. destruct (markDegraded _ _ w) as [[] w1] eqn:E. injection E as <-.
    by apply Hrefuse. }
  case_bool_decide.
  { destruct (_ && _); [by apply Hrefuse|by intros [= <- <-]]. }
  destruct (_ && isCoordinatorReadCandidate c); [by intros [= <- <-]|].
  destruct (negb _); [by apply Hrefuse|].
  unfold mbind, P_bind. destruct (forwardToPeer p r owner w) as [res w1] eqn:E. intros [= <- <-].
  split; [by eapply forwardToPeer_sound|]. exists res. by eapply Handed.
Qed.

End Answers.


(** ** A store of one object *)

(** An encoding for the bodies of the requests between peers: bits and an end mark. *)
Fixpoint bitsOf (n : positive) : bytes :=
  match n with
  | xH => [byte_of_Z 2]
  | xO n => byte_of_Z 0 :: bitsOf n
  | xI n => byte_of_Z 1 :: bitsOf n
  end.

Fixpoint ofBits (l : bytes) : option positive :=
  match l with
  | [] => None
  | b :: l =>
      if bool_decide (b = byte_of_Z 2) then Some xH
      else if bool_decide (b = byte_of_Z 0) then xO <$> ofBits l else xI <$> ofBits l
  end.

Lemma ofBits_bitsOf n : ofBits (bitsOf n) = Some n.
Proof. induction n as [n IH|n IH|]; cbn [bitsOf ofBits]; repeat case_bool_decide; try done; by rewrite IH. Qed.

Lemma ofBits_truncated n k : (k < length (bitsOf n))%nat -> ofBits (take k (bitsOf n)) = None.
Proof.
  revert k. induction n as [n IH|n IH|]; intros [|k] Hk; cbn [bitsOf take ofBits length] in *; try done; [..|lia];
    repeat case_bool_decide; try done; by rewrite IH by lia.
Qed.

Definition pageReadFields (q : internalPageReadRequest) :=
  (pr_Bucket q, pr_Key q, pr_ObjectSize q, pr_PageSize q, pr_ETag q, pr_Epoch q, pr_Pages q).
Definition pageReadOf : string * string * Z * Z * string * Z * list Z -> internalPageReadRequest :=
  fun '(b, k, n, s, e, g, l) => mkPageRead b k n s e g l.
Definition invalidateOf : string * string * Z -> internalInvalidateRequest := fun '(b, k, e) => mkInvalidate b k e.

#[local] Instance bitCodec : PeerCodec.
Proof.
  refine (Build_PeerCodec (fun q => bitsOf (encode (pageReadFields q))) (fun l => pageReadOf <$> (ofBits l ≫= decode))
    (fun q => bitsOf (encode (iv_Bucket q, iv_Key q, iv_Epoch q)))
    (fun l => invalidateOf <$> (ofBits l ≫= decode)) (fun _ => True) _ _ _ _); cbv beta.
  - intros [] _ _ _. rewrite ofBits_bitsOf. cbn [mbind option_bind]. by rewrite decode_encode.
  - intros q n Hn. by rewrite ofBits_truncated.
  - intros [] _ _. rewrite ofBits_bitsOf. cbn [mbind option_bind]. by rewrite decode_encode.
  - intros q n Hn. by rewrite ofBits_truncated.
Defined.

#[local] Existing Instance emptyCodec.

(** The store answers for the alphabet, whole or in part. *)
Definition alphaStore (n : nat) (req : UpstreamRequest) : option HttpResponse :=
  let h : Http.Header := {["Etag" := ["e1"]]} in
  if bool_decide (up_Method req = MethodHead) then Some (mkHttpResponse 200 h 20 (bytesReader []))
  else if bool_decide (Http.Get (up_Header req) "Range" = "") then
    Some (mkHttpResponse 200 h 20 (Io.mkReader [take 5 alphabet; drop 5 alphabet] Io.EOF true))
  else match store n (Http.Get (up_Header req) "Range") (Http.Get (up_Header req) "If-Match") with
       | Response status body => Some (mkHttpResponse status h (-1) body)
       | _ => None
       end.

Definition withStore (sign : UpstreamRequest -> option UpstreamRequest)
    (origin : nat -> UpstreamRequest -> option HttpResponse) : Proxy :=
  mkProxy demoEndpoint (fun _ => true) sign origin true (mkPageSizes 8 ∅) (mkUploadOptions "" 100) demoSpool None
    (fun _ _ => None) "" "" 0 (fun _ => None) (fun n => Z.of_nat n) (fun _ => 3%nat) (fun _ l => l).

Definition alphaProxy : Proxy := withStore Some alphaStore.

Definition freshWorld (c : Cache) : World :=
  mkWorld (mkSession c [] (Io.mkWriter [] []) true false None [] []) None ∅ ∅ (retry idlePeering) [].

Definition getRequest (range : Http.Header) : ServerRequest :=
  mkServerRequest (mkHttpRequest "GET" "/b/k" "" range None 0) "/b/k".

Lemma alpha_store_ok p target r :
  px_sign p = Some -> px_origin p = alphaStore -> px_sizes p = mkPageSizes 8 ∅ -> store_ok ver pagesBy8 p target r.
Proof.
  intros Hsign Horigin Hsizes. constructor; rewrite ?Hsign, ?Horigin, ?Hsizes.
  - by intros req req' [= <-].
  - intros n req resp size Hm _. cbn. unfold alphaStore. rewrite Hm. intros [= <-] _ [= <-]. by vm_compute.
  - intros n req resp bounds Hm _ _ Hr Hb He. cbn. unfold alphaStore. rewrite Hm, Hr. rewrite !bool_decide_false by done.
    pose proof (store_honest n bounds) as Hst. unfold store at 1. unfold store in Hst. unfold demoObj in Hst. cbn [ob_Size ob_ETag] in Hst.
    destruct (ParseRange (rangeHeaderOf bounds) 20); intros [= <-]; [|done]. intros _. cbn [rs_Body].
    apply Hst; [done|exact He|done].
  - intros n req resp Hm _ _ Hr. cbn. unfold alphaStore. rewrite Hm, Hr. intros [= <-] _. cbn. by exists [].
  - by vm_compute.
Qed.

Lemma alpha_complete p target r : px_origin p = alphaStore -> complete ver p target r.
Proof. intros Horigin n req resp Hm _ _ Hr. rewrite Horigin. unfold alphaStore. rewrite Hm, Hr. by intros [= <-]. Qed.

Lemma fresh_sound : sound ver pagesBy8 (freshWorld (emptyCache 100)).
Proof.
  split.
  - split; [apply emptyCache_ok; int64_unfold; lia|by apply Forall_nil].
  - split; [|by apply Forall_nil]. by intros k o Ho.
Qed.


(** ** Reads that go wrong *)

(** What a request is answered: the status, a header and the body. *)
Definition answerOf (p : Proxy) (r : ServerRequest) (c : Cache) (key : string) : option Z * string * bytes :=
  let w := (serveS3HTTP p r (freshWorld c)).2 in
  (status w, Http.Get (header w) key, Io.out (client (session w))).

(** A full read of an object whose metadata are cached and whose first page is
    not sends nothing to the client when the request to the store cannot be signed
    (the credentials cannot be retrieved): no status is written, so the server
    reports [200] with an empty body for an object of 20 bytes. *)
Theorem unsigned_read_is_silent :
  answerOf (withStore (fun _ => None) alphaStore) (getRequest ∅) alphaPut "Content-Length" = (None, "", []).
Proof. vm_compute. reflexivity. Qed.

(** The same path after the object was replaced by a longer one: 30 bytes. *)
Definition longer : bytes := Eval vm_compute in byte_of_Z <$> seqZ 65 30.

Definition replacedStore (n : nat) (req : UpstreamRequest) : option HttpResponse :=
  let h : Http.Header := {["Etag" := ["e2"]]} in
  if bool_decide (up_Method req = MethodHead) then Some (mkHttpResponse 200 h 30 (bytesReader []))
  else if bool_decide (Http.Get (up_Header req) "If-Match" = "e2") then
    match ParseRange (Http.Get (up_Header req) "Range") 30 with
    | Ok r => Some (mkHttpResponse 206 h (-1) (bytesReader (slice (Start r) (End r + 1) longer)))
    | Err _ => Some (mkHttpResponse 416 h (-1) (bytesReader []))
    end
  else Some (mkHttpResponse 412 h (-1) (bytesReader [])).

(** A suffix range is resolved once, against the size in the cache. When the
    object turns out to have changed, the positions are kept: a client that asks for
    the last 5 bytes of an object that grew from 20 to 30 bytes is sent bytes 15 to 19
    of the new version. *)
Theorem refetched_suffix_is_stale :
  answerOf (withStore Some replacedStore) (getRequest {["Range" := ["bytes=-5"]]}) alphaPut "Content-Range" =
    (Some 206, "bytes 15-19/30", slice 15 20 longer).
Proof. vm_compute. reflexivity. Qed.

(** [If-Range] is not looked at: a client that resumes a download of another
    version is sent the bytes of the cached version as a partial response, where the
    header asks for the whole object if the version is not the one named. *)
Theorem if_range_is_ignored :
  answerOf alphaProxy
    (getRequest (Http.Set_ {["Range" := ["bytes=5-9"]]} "If-Range" "e0")) alphaCache "Content-Range" =
    (Some 206, "bytes 5-9/20", slice 5 10 alphabet).
Proof. vm_compute. reflexivity. Qed.

(** The cache after a request. *)
Definition cacheAfter (p : Proxy) (r : ServerRequest) (c : Cache) : Cache := cache (session (serveS3HTTP p r (freshWorld c)).2).

(** ** One object under two names *)

(** A write leaves the rows of other objects as they were. *)
Lemma passThrough_untouched router send forwarding r target w res w' :
  calm forwarding -> (forall peer target epoch, a_message (send peer target epoch)) -> env (session w) = [] ->
  handlePassThrough router send forwarding r target w = (res, w') ->
  untouched (ObjectKey (Bucket target) (Key target)) (db (cache (session w))) (db (cache (session w'))).
Proof.
  intros Hcalm Hsend He. unfold handlePassThrough. unfold mbind at 1, P_bind at 1. pose proof (Hcalm w) as (Hc1 & He1 & _).
  destruct (forwarding w) as [[[st n] err] w1]. cbn [snd] in Hc1, He1. rewrite <- Hc1. rewrite He in He1. clear Hc1 He Hcalm.
  assert (Hsame : forall w2, cache (session w2) = cache (session w1) ->
    untouched (ObjectKey (Bucket target) (Key target)) (db (cache (session w1))) (db (cache (session w2)))) by (by intros w2 ->).
  destruct (_ && shouldInvalidateAfterWrite r target); [|intros [= <- <-]; by apply Hsame]. clear Hsame.
  unfold mbind at 1, P_bind at 1. destruct (invalidateObject router send target w1) as [d w2] eqn:Hinv.
  assert (Hu : untouched (ObjectKey (Bucket target) (Key target)) (db (cache (session w1))) (db (cache (session w2)))).
  { pose proof (InvalidateObject_untouched (Bucket target) (Key target) 0 (cache (session w1))) as Hwp. unfold wp in Hwp.
    revert Hinv. unfold invalidateObject, cacheCall, onSession, onCache. unfold mbind at 1, P_bind at 1. rewrite He1.
    destruct (InvalidateObject _ _ _ _) as [[epoch|e] c2]; cbn [snd] in Hwp; [|by intros [= <- <-]].
    destruct router as [rt|]; [|by intros [= <- <-]]. unfold mbind, P_bind. destruct (tellPeers _ _ _ _ _ _) as [told w3] eqn:Hrun.
    destruct (tellPeers_spec _ _ _ _ _ _ _ _ Hsend Hrun) as ((Hca & _) & _). intros [= <- <-]. by rewrite Hca. }
  destruct d as [x|x]; [by intros [= <- <-]|].
  destruct x; try (by intros [= <- <-]); unfold mbind, P_bind;
    destruct (markDegraded _ _ w2) as [[] w3] eqn:Hm; injection Hm as <-; intros [= <- <-]; exact Hu.
Qed.

Lemma escape_cut a b : Cut (Url.PathEscape a +:+ "/" +:+ b) "/" = (Url.PathEscape a, b, true).
Proof. apply Cut_append, PathEscape_no_slash. Qed.

(** Two segments of a path, with the slash between them as it is or escaped. *)
Lemma unescape_segments a b : Url.PathUnescape (Url.PathEscape a +:+ "/" +:+ Url.PathEscape b) = Some (a +:+ "/" +:+ b) /\
  Url.PathUnescape (Url.PathEscape a +:+ "%2F" +:+ Url.PathEscape b) = Some (a +:+ "/" +:+ b).
Proof.
  rewrite !PathUnescape_append, PathUnescape_slash, PathUnescape_PathEscape. split; [done|].
  change (Url.PathUnescape ("%2F" +:+ Url.PathEscape b)) with (String "/" <$> Url.PathUnescape (Url.PathEscape b)).
  by rewrite PathUnescape_PathEscape.
Qed.


(** A store that has the alphabet as [/a/b/c] and nothing else, and answers a [DELETE]. *)
Definition pathStore (n : nat) (req : UpstreamRequest) : option HttpResponse :=
  if negb (bool_decide (up_Path req = "/a/b/c")) then answering 404 "" n req
  else if bool_decide (up_Method req = MethodDelete) then answering 204 "" n req else alphaStore n req.

(** The request as the server parses it: its path is the unescaped one. *)
Definition objectRequest (method uri : string) : ServerRequest :=
  mkServerRequest (mkHttpRequest method (default "" (Url.PathUnescape uri)) "" ∅ None 0) uri.

(** [/a%2Fb/c] is read, [/a/b/c] is deleted, and [/a%2Fb/c] is read again when the store
    has nothing left. *)
Definition aliasWorld : World :=
  freshWorld (cacheAfter (withStore Some pathStore) (objectRequest "GET" "/a%2Fb/c") (emptyCache 100)).

