(* ===== verification/ProxyClient.v ===== *)
(** * A client's read succeeds ([internal/proxy/proxy.go])

    [ProxyAnswers] says what a read is answered whatever fails. Here nothing fails: the
    store answers for its current version of the object, no call on the cache fails, what
    the cache knows of the object is current, and no other request interferes. Then a
    request for an object or a range of it, from the path of its URL on, is answered with
    the headers and all the bytes, whatever is cached, and what was read is cached. *)

From Stdlib Require Import Ascii.
From S2P Require Import Prelude GoStrings GoNet Sha256 Range S3Request Router PageFrame CachePath CacheDB CacheStore.
From S2P Require Import CacheLogic CacheInv CacheOps CacheTrips CacheLive CacheRows ProxyPeers ProxySpan ProxyRead ProxyServe ProxyLive.
From S2P Require Import ProxyUpload ProxyHttp ProxyWrite ProxyMeta ProxyAuth ProxyBase ProxyCoord ProxyCold ProxyColdLive.
From S2P Require Import ProxyHandlers ProxyAnswers.
Import Strings.

#[local] Open Scope go_scope.

Section Client.
Context (version : string -> bytes -> bytes) (pageSizeOf : string -> Z).
Context `{HeaderCodec, PeerCodec} (p : Proxy) (target : Target) (etag : string).

Abbreviation id := (ObjectKey (Bucket target) (Key target)).
Abbreviation content := (contentOf version id etag).
Abbreviation sound := (sound version pageSizeOf).
Abbreviation version_of_target := (version_of_target version pageSizeOf target).
Abbreviation store_ok := (store_ok version pageSizeOf p target).
Abbreviation serene := (serene version pageSizeOf).

(** Requests can be built and signed, and the store answers every request for the current
    version of the object, whose ETag is [etag], in full. *)
Record available (r : HttpRequest) : Prop := {
  av_builds req : px_builds p req = true;
  av_sign req : is_Some (px_sign p req);
  av_head n req : up_Method req = MethodHead -> up_Path req = upstreamPath (px_endpoint p) r ->
    exists resp, px_origin p n req = Some resp /\ rs_Status resp = 200 /\ is_Some (responseSize resp) /\
      Http.Get (responseHeaders resp) "ETag" = etag /\ encodable (responseHeaders resp);
  av_range n req bounds : up_Method req = MethodGet -> up_Path req = upstreamPath (px_endpoint p) r ->
    Http.Get (up_Header req) "Range" = rangeHeaderOf bounds -> Http.Get (up_Header req) "If-Match" = etag ->
    0 <= ps_Start bounds <= ps_End bounds -> ps_End bounds < zlen content ->
    exists resp, px_origin p n req = Some resp /\ rs_Status resp = 206 /\
      Io.content (rs_Body resp) = slice (ps_Start bounds) (ps_End bounds + 1) content /\ Io.fin (rs_Body resp) = Io.EOF;
  av_whole n req : up_Method req = MethodGet -> up_Path req = upstreamPath (px_endpoint p) r ->
    Http.Get (up_Header req) "Range" = "" -> Http.Get (up_Header req) "If-Match" = etag ->
    exists resp, px_origin p n req = Some resp /\ rs_Status resp = 200 /\
      Io.content (rs_Body resp) = content /\ Io.fin (rs_Body resp) = Io.EOF;
  av_etag : etag <> "" }.

(** No call on the cache fails, no other request interferes, the client takes what it is
    sent, a page fits the limits, and metadata of the object that are cached are current. *)
Record at_rest (w : World) : Prop := {
  ar_faults : faults (cache (session w)) = [];
  ar_env : env (session w) = [];
  ar_flight : flight (session w) = [];
  ar_client : Io.plan (client (session w)) = [];
  ar_fits : pageSizeOf id <= maxSize (cfg (cache (session w))) <= int64_max;
  ar_bucket b : let max := maxSizeForBucket (cache (session w)) b in
    max <= int64_max /\ (0 < max -> pageSizeOf id <= max);
  ar_metadata : exists o, (GetObject (Bucket target) (Key target) (cache (session w))).1 = Ok o /\
    forall obj, o = Some obj -> isInternalIdentityObject obj = false ->
      ob_ETag obj = etag /\ current obj (db (cache (session w))) }.

(** ** Metadata *)

Lemma rest_serene w w' obj :
  at_rest w -> version_of_target obj -> current obj (db (cache (session w'))) ->
  faults (cache (session w')) = [] -> cfg (cache (session w')) = cfg (cache (session w)) ->
  env (session w') = [] -> flight (session w') = flight (session w) -> client (session w') = client (session w) ->
  serene obj ∅ (session w').
Proof.
  intros Hr (Hobj & Hid & _) Hcur Hf Hcfg He Hfl Hcl. constructor; [|done|rewrite Hfl; apply Hr|rewrite Hcl; apply Hr].
  pose proof (oo_pageSize _ _ _ Hobj) as Hps. rewrite Hid in Hps.
  pose proof (ar_bucket _ Hr (ob_Bucket obj)) as [Hmax Hb]. unfold maxSizeForBucket in Hmax, Hb.
  constructor; [done|done| | | |by intros i Hi%elem_of_empty]; unfold maxSizeForBucket; rewrite Hcfg, ?Hps; [apply Hr|done|done].
Qed.

(** A call on the cache of a world at rest. *)
Lemma cacheCall_rest {A} (m : M A) w :
  env (session w) = [] -> exists w', cacheCall m w = ((m (cache (session w))).1, w') /\
    cache (session w') = (m (cache (session w))).2 /\ env (session w') = [] /\ flight (session w') = flight (session w) /\
    unanswered w w' /\ requests w' = requests w.
Proof.
  intros He. unfold cacheCall, onSession, onCache. rewrite He. destruct (m (cache (session w))) as [r c].
  eexists. split; [reflexivity|]. by split_and!.
Qed.

Lemma fetchMetadata_serene r w :
  store_ok r -> available r -> sound w -> at_rest w -> Bucket target <> "" -> Key target <> "" ->
  exists obj w', upstreamMetadata p r target w = (Ok (Stored obj), w') /\ version_of_target obj /\ ob_ETag obj = etag /\
    serene obj ∅ (session w') /\ sound w' /\ unanswered w w'.
Proof.
  intros Hk Hav Hw Hr Hb Hkey. destruct (upstreamMetadata p r target w) as [m w'] eqn:Hrun.
  destruct (fetchMetadata_spec version pageSizeOf p target r w m w' Hk Hw Hrun) as (Hw' & Hu & Hobj).
  unfold upstreamMetadata, fetchMetadata in Hrun.
  destruct (newUpstreamRequest _ _ r MethodHead) as [req|] eqn:Hnew;
    [|unfold newUpstreamRequest in Hnew; by rewrite (av_builds _ Hav) in Hnew].
  destruct (newUpstreamRequest_spec p r MethodHead req Hnew) as [Hm Hp].
  destruct (av_sign _ Hav (withHeader (Http.Del (up_Header req) "Range") req)) as [req1 Hsign]. rewrite Hsign in Hrun.
  destruct (sk_sign _ _ _ _ _ Hk _ _ Hsign) as (Hm1 & Hp1 & _). unfold mbind at 1, P_bind at 1, clientDo in Hrun.
  destruct (av_head _ Hav (length (requests w) + length (sent (session w)))%nat req1 (eq_trans Hm1 Hm) (eq_trans Hp1 Hp))
    as (resp & Hresp & H200 & [size Hsize] & Het & Henc).
  rewrite Hresp, H200, Hsize in Hrun. cbn [negb Z.eqb Pos.eqb] in Hrun.
  destruct (sk_head _ _ _ _ _ Hk _ _ _ _ (eq_trans Hm1 Hm) (eq_trans Hp1 Hp) Hresp H200 Hsize) as (Hz & _ & _).
  destruct (sk_pageSize _ _ _ _ _ Hk) as [Hps Hpos].
  set (w1 := mkWorld _ _ _ _ _ _) in Hrun. set (meta := mkObjectMetadata _ _ _ _ _ _) in Hrun.
  destruct (PutObject_calm (Good version pageSizeOf) meta (cache (session w)) (ar_faults _ Hr) (proj1 (proj1 Hw)) Henc Hb Hkey)
    as (epoch & Hput & Hf & Hcfg & Hcur); [cbn; rewrite Het; apply Hav|cbn; rewrite Hz; apply zlen_nonneg|cbn; by rewrite Hps|].
  destruct (cacheCall_rest (PutObject meta) w1 (ar_env _ Hr)) as (w2 & Hcall & Hc2 & He2 & Hfl2 & Hu2 & _).
  unfold mbind, P_bind in Hrun. rewrite Hcall in Hrun. change (session w1) with (session w) in *. rewrite Hput in Hrun.
  injection Hrun as <- <-. exists (objectOf meta epoch), w2. specialize (Hobj _ eq_refl).
  split_and!; [done|done|done| |done|done].
  apply (rest_serene w w2); [done|done|by rewrite Hc2|by rewrite Hc2|by rewrite Hc2|done|done|apply Hu2].
Qed.

Lemma objectMetadata_serene r w :
  store_ok r -> available r -> sound w -> at_rest w -> Bucket target <> "" -> Key target <> "" ->
  exists obj w', objectMetadata p r target w = (Ok (Some obj), w') /\ version_of_target obj /\ ob_ETag obj = etag /\
    serene obj ∅ (session w') /\ sound w' /\ unanswered w w'.
Proof.
  intros Hk Hav Hw Hr Hb Hkey. destruct (ar_metadata _ Hr) as (o & Hget & Hcur).
  destruct (cacheCall_rest (GetObject (Bucket target) (Key target)) w (ar_env _ Hr)) as (w1 & Hcall & Hc1 & He1 & Hfl1 & Hu1 & _).
  rewrite GetObject_calm in Hc1 by apply Hr. rewrite Hget in Hcall.
  destruct (getObject_spec version pageSizeOf target w (Ok o) w1 Hw Hcall) as (Hw1 & _ & Hv).
  assert (Hr1 : at_rest w1).
  { constructor; rewrite ?Hc1, ?He1, ?Hfl1, ?(proj2 (proj2 Hu1)); try apply Hr; done. }
  unfold objectMetadata, ensureObjectMetadata. unfold mbind at 1, P_bind at 1. rewrite Hcall.
  assert (Hfetch : exists obj w', (m ← upstreamMetadata p r target;
      mret (match m with Err e => Err e | Ok (Stored obj) => Ok (Some obj) | Ok (Answered _ _) => Ok None end)) w1
      = (Ok (Some obj), w') /\ version_of_target obj /\ ob_ETag obj = etag /\
    serene obj ∅ (session w') /\ sound w' /\ unanswered w w').
  { destruct (fetchMetadata_serene r w1 Hk Hav Hw1 Hr1 Hb Hkey) as (obj & w2 & E & Hv2 & He2 & Hs2 & Hw2 & Hu2).
    unfold mbind, P_bind. rewrite E. exists obj, w2. split_and!; [done..|by etransitivity]. }
  destruct o as [obj|]; [|exact Hfetch]. destruct (isInternalIdentityObject obj) eqn:Hint; cbn [negb]; [exact Hfetch|].
  destruct (Hcur obj eq_refl Hint) as [Het Hcu]. exists obj, w1. split_and!; [done|by apply Hv|done| |done|done].
  apply (rest_serene w w1); [done|by apply Hv|by rewrite Hc1|rewrite Hc1; apply Hr|by rewrite Hc1|done|done|apply Hu1].
Qed.

(** ** Pages *)

Lemma pages_responsive r n obj :
  store_ok r -> available r -> version_of_target obj -> ob_ETag obj = etag -> responsive version (pageUpstream p n r) obj.
Proof.
  intros Hk Hav (Hobj & Hid & _) Het k bounds Hb He. unfold pageUpstream, pageRequest.
  destruct (newUpstreamRequest _ _ r MethodGet) as [req|] eqn:Hnew;
    [|unfold newUpstreamRequest in Hnew; by rewrite (av_builds _ Hav) in Hnew].
  destruct (newUpstreamRequest_spec p r MethodGet req Hnew) as [Hm Hp]. cbn [mbind option_bind].
  match goal with |- context [px_sign p ?q] => destruct (av_sign _ Hav q) as [req1 Hsign] end. rewrite Hsign.
  destruct (sk_sign _ _ _ _ _ Hk _ _ Hsign) as (Hm1 & Hp1 & Hh).
  pose proof (Hh "Range" ltac:(clear; set_solver)) as Hr. pose proof (Hh "If-Match" ltac:(clear; set_solver)) as Hi. cbn in Hr, Hi.
  rewrite Get_Set_, Het in Hi. unfold Http.Get in Hr at 2. rewrite Values_Set_ne, Values_Set_ in Hr by done.
  rewrite (oo_size _ _ _ Hobj), Hid, Het in He.
  destruct (av_range _ Hav (n + k)%nat req1 bounds (eq_trans Hm1 Hm) (eq_trans Hp1 Hp) Hr Hi Hb He) as (resp & -> & H206 & Hc & Hf).
  exists (rs_Body resp). rewrite H206, Hid, Het. by split_and!.
Qed.

(** What a served range leaves: the bytes at the client and the pages in the cache. *)
Definition answered (w w' : World) (obj : Object) (code : Z) (h : Http.Header -> Http.Header) (range : ByteRange) : Prop :=
  status w' = Some code /\ header w' = h (header w) /\
  Io.out (client (session w')) = Io.out (client (session w)) ++ slice (Start range) (End range + 1) content /\
  exists K, serene obj K (session w') /\ pagesOf obj range ⊆ K.

Lemma serveLocalRange_serene r w obj range :
  store_ok r -> available r -> version_of_target obj -> ob_ETag obj = etag -> sound w -> status w = None ->
  serene obj ∅ (session w) -> 0 <= Start range <= End range -> End range < ob_Size obj ->
  exists w', serveLocalRange p r target obj range w = ((206, End range - Start range + 1, None), w') /\
    answered w w' obj 206 (fun h => rangeResponseHeaders h obj range) range.
Proof.
  intros Hk Hav Hv Het Hw Hst Hs Hr He. pose proof Hv as (Hobj & Hid & _).
  pose proof (pages_responsive r (length (requests w)) obj Hk Hav Hv Het) as Hup.
  destruct (read_serene version pageSizeOf (px_buf p) _ (Bucket target) obj range ∅ (session w) Hobj Hup (proj1 Hw) Hs Hr He)
    as (pages & first & s1 & s2 & Hprep & Hcl & Hstream & Hout & Hok2 & Hs2).
  unfold serveLocalRange, prepareRange, streamPlan, onPages, onSession, modifyHeader, setHeader, WriteHeader, mbind, P_bind.
  rewrite Hprep. cbn -[streamCachedPages pageUpstream rangeResponseHeaders]. rewrite Hstream.
  eexists. split; [reflexivity|]. split_and!; cbn [status header session setSession];
    [by rewrite Hst|done|by rewrite Hout, Hid, Het|].
  exists (pagesOf obj range ∪ ∅). split; [done|set_solver].
Qed.

(** The pages of the whole object are the pages of the object. *)
Lemma pagesOf_in obj range i :
  version_of_target obj -> 0 <= Start range <= End range -> End range < ob_Size obj ->
  i ∈ pagesOf obj range -> 0 <= i /\ i * ob_PageSize obj < ob_Size obj.
Proof.
  intros (Hobj & _) Hr He. unfold pagesOf. destruct (PagesForRange range (ob_PageSize obj)) as [pages|] eqn:E; [|by intros ?%elem_of_empty].
  destruct (range_pages version pageSizeOf obj Hobj range pages Hr He E) as [Hin _]. unfold indexes.
  intros (pg & -> & Hpg)%elem_of_list_to_set%list_elem_of_fmap.
  destruct (proj1 (Forall_forall _ _) Hin pg Hpg) as ((_ & Hi & Hse & _) & Hend & _). lia.
Qed.

Lemma serveCold_serene r w obj :
  store_ok r -> available r -> version_of_target obj -> ob_ETag obj = etag -> sound w -> status w = None ->
  serene obj ∅ (session w) -> 0 < ob_Size obj ->
  exists w', serveColdFullObject p r obj w = ((200, ob_Size obj, None), w') /\
    answered w w' obj 200 (fun h => writeCachedObjectHeaders h obj false) (wholeOf obj).
Proof.
  intros Hk Hav Hv Het Hw Hst Hs Hpos. pose proof Hv as (Hobj & Hid & _).
  pose proof (size_bounds version pageSizeOf target obj Hv) as (_ & HPS & Hbd).
  pose proof (current_ok _ obj _ (proj1 (proj1 Hw)) (ca_current _ _ _ _ (se_calm _ _ _ _ _ Hs))) as Hident.
  unfold serveColdFullObject. destruct (newUpstreamRequest _ _ r MethodGet) as [req|] eqn:Hnew;
    [|unfold newUpstreamRequest in Hnew; by rewrite (av_builds _ Hav) in Hnew].
  destruct (newUpstreamRequest_spec p r MethodGet req Hnew) as [Hm Hp].
  match goal with |- context [px_sign p ?q] => destruct (av_sign _ Hav q) as [req1 Hsign] end. rewrite Hsign.
  rewrite (whole_exact version pageSizeOf target obj Hv).
  destruct (PagesForRange_total (wholeOf obj) (ob_PageSize obj)) as (pg & pgs & ->); [cbn; lia..|].
  destruct (sk_sign _ _ _ _ _ Hk _ _ Hsign) as (Hm1 & Hp1 & Hh).
  pose proof (Hh "Range" ltac:(clear; set_solver)) as Hr. pose proof (Hh "If-Match" ltac:(clear; set_solver)) as Hi. cbn in Hr, Hi.
  rewrite Get_Set_, Het in Hi. unfold Http.Get in Hr at 2. rewrite Values_Set_ne, Values_Del in Hr by done.
  unfold mbind at 1, P_bind at 1, clientDo.
  destruct (av_whole _ Hav (length (requests w) + length (sent (session w)))%nat req1 (eq_trans Hm1 Hm) (eq_trans Hp1 Hp) Hr Hi)
    as (resp & -> & H200 & Hc & Hf). rewrite H200. cbn [Z.eqb Pos.eqb negb].
  rewrite <- Hid, <- Het in Hc.
  destruct (streamCold_serene version pageSizeOf obj Hobj Hident ∅ (session w) (rs_Body resp) (proj1 Hw) Hs Hc Hf)
    as (s' & K & Hstream & _ & Hs' & HK & Hout).
  unfold modifyHeader, setHeader, WriteHeader, onSession, mbind, P_bind. cbn [session status header spool retries requests].
  rewrite Hstream. eexists. split; [reflexivity|]. split_and!; cbn [status header session setSession]; [by rewrite Hst|done| |].
  - rewrite <- Het at 1. rewrite (whole_bytes version pageSizeOf target obj Hv), Hout, Hid. done.
  - exists K. split; [done|]. intros i Hin. destruct (pagesOf_in obj (wholeOf obj) i Hv) as [? ?]; [cbn; lia|cbn; lia|done|].
    by apply HK.
Qed.

(** The rest of [serveCachedFullObject] after the metadata. *)
Lemma serveFull_serene r w obj :
  store_ok r -> available r -> version_of_target obj -> ob_ETag obj = etag -> sound w -> status w = None ->
  serene obj ∅ (session w) ->
  exists w', (if ob_Size obj =? 0 then answerHeaders obj
    else match PagesForRange (mkByteRange 0 (ob_Size obj -! 1)) (ob_PageSize obj) with
      | Err e => mret (failed (HandlerRead (ErrRange e)))
      | Ok [] => mret (failed (HandlerCache Panic))
      | Ok ((page :: _) as pages) =>
          first ← onSession (openCachedPage (Bucket target) obj (ps_Index page));
          match first with
          | Err e => httpError "open cached page" 500;; mret (failed (HandlerRead e))
          | Ok None => serveMissedObject p r target obj
          | Ok (Some firstPage) =>
              modifyHeader (fun h => writeCachedObjectHeaders h obj false);;
              WriteHeader 200;;
              streamPlan p r target 200 obj pages (Some firstPage)
          end
      end) w = ((200, ob_Size obj, None), w') /\
    answered w w' obj 200 (fun h => writeCachedObjectHeaders h obj false) (wholeOf obj).
Proof.
  intros Hk Hav Hv Het Hw Hst Hs. pose proof Hv as (Hobj & Hid & _).
  pose proof (size_bounds version pageSizeOf target obj Hv) as (Hnn & HPS & Hbd).
  destruct (Z.eqb_spec (ob_Size obj) 0) as [Hz|Hz].
  { eexists. split; [rewrite Hz; reflexivity|]. split_and!; cbn [status header session]; [by rewrite Hst|done| |].
    - unfold wholeOf. rewrite Hz. cbn. by rewrite app_nil_r.
    - exists ∅. split; [done|]. unfold pagesOf. by rewrite whole_empty by lia. }
  rewrite (whole_exact version pageSizeOf target obj Hv).
  destruct (PagesForRange_total (wholeOf obj) (ob_PageSize obj)) as (pg & pgs & Hpages); [cbn; lia..|]. rewrite Hpages.
  destruct (range_pages version pageSizeOf obj Hobj (wholeOf obj) _ ltac:(cbn; lia) ltac:(cbn; lia) Hpages) as [Hin _].
  pose proof (proj1 (proj1 (Forall_cons _ _ _) Hin)) as ((_ & Hi & _) & _).
  pose proof (current_ok _ obj _ (proj1 (proj1 Hw)) (ca_current _ _ _ _ (se_calm _ _ _ _ _ Hs))) as Hident.
  destruct (openCachedPage_serene version pageSizeOf (Bucket target) obj Hident (ps_Index pg) ∅ (session w) (proj1 Hw) Hs Hi)
    as (body & s1 & Hopen & Hs1 & Hsent & _ & Hfound).
  destruct (openCachedPage_spec version pageSizeOf (Bucket target) obj (ps_Index pg) (session w) _ s1 (proj1 Hw) Hopen)
    as (Hok1 & Hcl1 & Hdata).
  assert (Hw1 : sound (setSession s1 w)).
  { split; [done|]. pose proof (keeps_rows_openCachedPage (row_ok version pageSizeOf) (Bucket target) obj (ps_Index pg) (session w) (proj2 Hw)) as Hrows.
    by rewrite Hopen in Hrows. }
  unfold onSession at 1, mbind at 1, P_bind at 1. rewrite Hopen. destruct body as [data|].
  - rewrite (Hdata data eq_refl). pose proof (pages_responsive r (length (requests w)) obj Hk Hav Hv Het) as Hup.
    destruct (stream_serene version pageSizeOf (px_buf p) _ (Bucket target) obj (wholeOf obj) pg pgs _ s1 Hobj Hup Hok1
      (Hfound ltac:(done)) ltac:(cbn; lia) ltac:(cbn; lia) Hpages ltac:(set_solver)) as (s2 & Hstream & Hout & _ & Hs2).
    unfold streamPlan, onPages, onSession, modifyHeader, setHeader, WriteHeader, mbind, P_bind.
    cbn [session status header spool retries requests setSession]. rewrite Hstream.
    eexists. split; [cbn [wholeOf Start End]; do 2 f_equal; f_equal; f_equal; lia|].
    split_and!; cbn [status header session setSession]; [by rewrite Hst|done|by rewrite Hout, Hcl1, Hid, Het|].
    eexists. split; [exact Hs2|set_solver].
  - destruct (serveCold_serene r (setSession s1 w) obj Hk Hav Hv Het Hw1 Hst Hs1 ltac:(lia)) as (w' & E & Ha).
    unfold serveMissedObject, mbind, P_bind. rewrite E. exists w'. split; [done|].
    unfold answered in *. cbn [status header session setSession] in Ha. by rewrite Hcl1 in Ha.
Qed.

(** ** Requests *)

(** No condition in the request. *)
Definition unconditional (h : Http.Header) : Prop :=
  Forall (fun k => Http.Get h k = "") ["If-Match"; "If-Unmodified-Since"; "If-None-Match"; "If-Modified-Since"].

Lemma unconditional_status h obj : unconditional h -> cachedConditionalStatus (px_ParseTime p) h obj = Ok None.
Proof.
  intros Hu. unfold unconditional in Hu. rewrite !Forall_cons in Hu. destruct Hu as (E1 & E2 & E3 & E4 & _).
  unfold cachedConditionalStatus. by rewrite E1, E2, E3, E4.
Qed.

(** The bytes a request asks for, and whether as a range. *)
Definition wanted (c : Classification) (h : Http.Header) : option (bool * ByteRange) :=
  match disposition c with
  | CacheableRangeObject =>
      match ParseRange (Http.Get h "Range") (zlen content) with Ok range => Some (true, range) | Err _ => None end
  | CacheableFullObject => Some (false, mkByteRange 0 (zlen content - 1))
  | _ => None
  end.

End Client.


(** ** A store of one object *)

(** An encoding of headers, for the example: the bits of their number. *)
Fixpoint bitText (n : positive) : string :=
  match n with
  | xH => "1"
  | xO n => String "0" (bitText n)
  | xI n => String "+" (bitText n)
  end.

Fixpoint ofBitText (s : string) : option positive :=
  match s with
  | "1" => Some xH
  | String "0" s => xO <$> ofBitText s
  | String "+" s => xI <$> ofBitText s
  | _ => None
  end.

Lemma ofBitText_bitText n : ofBitText (bitText n) = Some n.
Proof. by induction n as [n IH|n IH|]; cbn; [rewrite IH|rewrite IH|]. Qed.

#[local] Instance textCodec : HeaderCodec.
Proof.
  refine (Build_HeaderCodec (fun h => bitText (encode h)) (fun s => ofBitText s ≫= decode) (fun _ => True) _ _); cbv beta.
  - intros h _. rewrite ofBitText_bitText. cbn [mbind option_bind]. by rewrite decode_encode.
  - intros h. by destruct (encode h).
Defined.

#[local] Existing Instance bitCodec.

Lemma alpha_available r : available ver alphaProxy (mkTarget "b" "k") "e1" r.
Proof.
  constructor.
  - done.
  - by intros req; eexists.
  - intros n req Hm _. eexists. split; [cbn; unfold alphaStore; rewrite Hm; reflexivity|]. split_and!; [done|by eexists|by vm_compute|done].
  - intros n req b Hm _ Hr Hi Hb He. cbn. unfold alphaStore. rewrite Hm, Hr, Hi. rewrite !bool_decide_false by done.
    destruct (store_responsive n b Hb ltac:(exact He)) as (body & Hst & Hc & Hf). cbn [demoObj ob_ETag] in Hst. rewrite Hst.
    eexists. split; [reflexivity|]. by split_and!.
  - intros n req Hm _ Hr Hi. cbn. unfold alphaStore. rewrite Hm, Hr. eexists. split; [reflexivity|]. by split_and!.
  - done.
Qed.

Lemma fresh_at_rest : at_rest pagesBy8 (mkTarget "b" "k") "e1" (freshWorld (emptyCache 100)).
Proof.
  constructor; try reflexivity.
  - vm_compute. split; discriminate.
  - intros b. cbv zeta. unfold maxSizeForBucket. cbn. rewrite lookup_empty. cbn. split; [by vm_compute|lia].
  - exists None. split; [by vm_compute|done].
Qed.

