(* ===== verification/ProxyFrames.v ===== *)
(** * The owner of pages ([internal/proxy/proxy.go])

    The internal routes of a peer: [serveInternalPageRead] answers the page requests
    of a coordinator with a stream of page frames, from the cache or from the
    upstream store, and [serveInternalInvalidate] applies an invalidation that
    another peer announces. [ServeHTTP] tells internal routes from S3 requests. *)

From Stdlib Require Import Ascii.
From S2P Require Import Prelude GoStrings GoNet Sha256 Range S3Request Router PageFrame CachePath CacheDB CacheStore.
From S2P Require Import CacheLogic CacheInv CacheOps CacheRows ProxyPeers ProxySpan ProxyRead ProxyServe.
From S2P Require Import ProxyUpload ProxyHttp ProxyWrite ProxyMeta ProxyAuth ProxyBase ProxyCoord ProxyCold ProxyHandlers.
Import Strings.

#[local] Open Scope go_scope.

(** ** Saving a page while it is sent *)

Record bestEffortPageWriter := mkBestEffort { be_writer : Z; be_err : option ProxyError }.

(** [Write] of it, which reports no error and takes everything. *)
Definition bestEffortWrite (w : bestEffortPageWriter) (data : bytes) : R bestEffortPageWriter :=
  match be_err w with
  | Some _ => mret w
  | None =>
      r ← onCache (Some (be_writer w)) (Write (be_writer w) data);
      mret (mkBestEffort (be_writer w)
        match r with
        | Err e => Some (ErrCache e)
        | Ok n => if negb (n =? length data)%nat then Some (ErrCopy Io.ShortWrite) else None
        end)
  end.

(** [io.TeeReader(resp.Body, cacheWriter)], or [resp.Body] without a page writer. The
    writes change the session. *)
Record PageSource := mkPageSource {
  so_body : Io.Reader; so_session : Session; so_writer : option bestEffortPageWriter }.

Definition readSource (k : nat) (src : PageSource) : bytes * option Io.error * PageSource :=
  let '(got, err, body) := Io.Read k (so_body src) in
  match so_writer src with
  | Some w =>
      if bool_decide (got = []) then (got, err, mkPageSource body (so_session src) (Some w))
      else let '(w', s') := bestEffortWrite w got (so_session src) in (got, err, mkPageSource body s' (Some w'))
  | None => (got, err, mkPageSource body (so_session src) None)
  end.

#[export] Instance PageSource_IoReader : Io.IoReader PageSource :=
  {| Io.read := readSource; Io.steps src := Io.reads (so_body src) |}.

(** ** Requests of coordinators *)

(** What the code asks of an error besides its identity: its text, and whether it
    wraps [context.Canceled] or [net.ErrClosed]. *)
Class ErrorText := { messageOf : ProxyError -> string; canceled : ProxyError -> bool }.

Definition isClientCancelText (text : string) : bool :=
  let text := ToLower text in
  Contains text "context canceled" || Contains text "broken pipe" || Contains text "connection reset by peer" ||
  Contains text "client disconnected" || Contains text "use of closed network connection".

Definition isClientCancelError `{ErrorText} (e : ProxyError) : bool :=
  canceled e || isClientCancelText (messageOf e).

Definition statusClientClosedRequest : Z := 499.

Definition internalPageFrameSize (pageIndex pageSize objectSize : Z) : result RangeError Z :=
  bounds ← PageBounds pageIndex pageSize objectSize;
  Ok (ps_End bounds -! ps_Start bounds +! 1).

(** [sort.SliceIsSorted] with [<]. *)
Fixpoint sliceIsSorted (l : list Z) : bool :=
  match l with
  | i :: ((j :: _) as l') => negb (j <? i) && sliceIsSorted l'
  | _ => true
  end.

Section Validate.
Context `{ErrorText}.

(** The loop over the pages; [prev] is the page before. *)
Fixpoint validatePages (prev : option Z) (pageSize objectSize : Z) (pages : list Z) : option string :=
  match pages with
  | [] => None
  | i :: pages =>
      if bool_decide (prev = Some i) then Some "pages must not contain duplicates"
      else match PageBounds i pageSize objectSize with
      | Err e => Some ("invalid page " +:+ FormatInt i +:+ ": " +:+ messageOf (ErrRange e))
      | Ok _ => validatePages (Some i) pageSize objectSize pages
      end
  end.

(** The text of the error, if any. *)
Definition validateInternalPageReadRequest (req : internalPageReadRequest) : option string :=
  if bool_decide (TrimSpace (pr_Bucket req) = "") then Some "bucket is required"
  else if bool_decide (pr_Key req = "") then Some "key is required"
  else if pr_ObjectSize req <=? 0 then Some "object_size must be greater than zero"
  else if pr_PageSize req <=? 0 then Some "page_size must be greater than zero"
  else if bool_decide (pr_ETag req = "") then Some "etag is required"
  else if pr_Epoch req <? 0 then Some "epoch must not be negative"
  else if bool_decide (pr_Pages req = []) then Some "pages must not be empty"
  else if negb (sliceIsSorted (pr_Pages req)) then Some "pages must be in increasing order"
  else validatePages None (pr_PageSize req) (pr_ObjectSize req) (pr_Pages req).

End Validate.

Definition validateInternalInvalidateRequest (req : internalInvalidateRequest) : option string :=
  if bool_decide (TrimSpace (iv_Bucket req) = "") then Some "bucket is required"
  else if bool_decide (iv_Key req = "") then Some "key is required"
  else if iv_Epoch req <=? 0 then Some "epoch must be greater than zero"
  else None.

(** [json.NewDecoder(http.MaxBytesReader(w, r.Body, 1<<20)).Decode]: the decoder sees
    at most the first bytes of the body. *)
Definition decodeBody {A} (unmarshal : bytes -> option A) (r : HttpRequest) : option A :=
  unmarshal (take (Z.to_nat 1048576) (from_option Io.content [] (hr_Body r))).

Section Owner.
Context (p : Proxy) (rt : Router) `{HeaderCodec, PeerCodec, ErrorText}.

(** ** The object of a page request *)

(** A refusal: the text and status of the response. *)
Definition epochMismatch (epoch reqEpoch : Z) : Refusal :=
  ("object epoch mismatch: local " +:+ FormatInt epoch +:+ " request " +:+ FormatInt reqEpoch, 409).

Definition cacheFailed (e : CacheError) : Refusal := (messageOf (ErrCache e), 500).

(** Advancing the epoch of the object to that of the request. *)
Definition advanceTo (req : internalPageReadRequest) : P (result Refusal ()) :=
  e ← cacheCall (InvalidateObject (pr_Bucket req) (pr_Key req) (pr_Epoch req));
  mret match e with
  | Err e => Err (cacheFailed e)
  | Ok epoch => if negb (epoch =? pr_Epoch req) then Err (epochMismatch epoch (pr_Epoch req)) else Ok ()
  end.

Definition identityHeaders (req : internalPageReadRequest) : Http.Header :=
  <["Content-Length" := [FormatInt (pr_ObjectSize req)]]> (<["ETag" := [pr_ETag req]]>
    {[internalIdentityMetadataHeader := ["1"]]}).

(** Storing the identity of the object as the request gives it. *)
Definition putIdentity (req : internalPageReadRequest) : P (result Refusal Object) :=
  o ← cacheCall (PutObject (mkObjectMetadata (pr_Bucket req) (pr_Key req) (pr_ETag req) (pr_ObjectSize req)
    (pr_PageSize req) (identityHeaders req)));
  mret match o with
  | Err e => Err (cacheFailed e)
  | Ok obj => if negb (ob_Epoch obj =? pr_Epoch req) then Err (epochMismatch (ob_Epoch obj) (pr_Epoch req)) else Ok obj
  end.

Definition internalPageReadObject (req : internalPageReadRequest) : P (result Refusal Object) :=
  o ← cacheCall (GetObject (pr_Bucket req) (pr_Key req));
  match o with
  | Err e => mret (Err (cacheFailed e))
  | Ok (Some obj) =>
      if pr_Epoch req <? ob_Epoch obj then mret (Err (epochMismatch (ob_Epoch obj) (pr_Epoch req)))
      else if (ob_Epoch obj =? pr_Epoch req) && bool_decide (ob_ETag obj = pr_ETag req) &&
              (ob_Size obj =? pr_ObjectSize req) && (ob_PageSize obj =? pr_PageSize req) then mret (Ok obj)
      else if ob_Epoch obj <? pr_Epoch req then
        a ← advanceTo req;
        match a with Err e => mret (Err e) | Ok _ => putIdentity req end
      else putIdentity req
  | Ok None =>
      if 0 <? pr_Epoch req then
        a ← advanceTo req;
        match a with Err e => mret (Err e) | Ok _ => putIdentity req end
      else putIdentity req
  end.

(** The request for pages of the object; only its path is used. *)
Definition internalPageReadUpstreamRequest (r : HttpRequest) (req : internalPageReadRequest) : HttpRequest :=
  mkHttpRequest (hr_Method r) ("/" +:+ pr_Bucket req +:+ "/" +:+ pr_Key req) "" ∅ (hr_Body r) (hr_ContentLength r).

(** ** Frames *)

(** The variables of [serveInternalPageRead] that [ensureFrameWriter] changes. *)
Record FrameState := mkFrameState { frameWriter : option PageFrameWriter; responseCommitted : bool }.

Definition frameError (e : FrameError) : ProxyError := ErrCopy (asIo e).

Definition ensureFrameWriter (st : FrameState) : P (result ProxyError PageFrameWriter * FrameState) :=
  match frameWriter st with
  | Some pw => mret (Ok pw, st)
  | None =>
      modifyHeader (fun h => Http.Set_ h "Content-Type" pageFrameContentType);;
      WriteHeader 200;;
      c ← onSession getClient;
      onSession (set_client (writePageFrameFull c (pageFrameMagic ++ be_put 2 PageFrameVersion)).2);;
      mret match NewPageFrameWriter (Some c) with
      | Err e => (Err (frameError e), mkFrameState None true)
      | Ok pw => (Ok pw, mkFrameState (Some pw) true)
      end
  end.

(** [writer.WritePageFrom(index, size, body)] from an open file. *)
Definition writeCachedFrame (pw : PageFrameWriter) (index size : Z) (body : bytes) : P (option ProxyError * FrameState) :=
  let '(err, pw', _) := WritePageFrom (px_buf p) pw index size (Some (bytesReader body)) in
  onSession (set_client (pfw_w pw'));;
  mret (frameError <$> err, mkFrameState (Some pw') true).

(** [WritePageFrom] from a response whose bytes are saved on the way. *)
Definition writeFetchedFrame (pw : PageFrameWriter) (index size : Z) (body : Io.Reader)
    (w : option bestEffortPageWriter) : P (option ProxyError * option bestEffortPageWriter * FrameState) := fun world =>
  let '(err, pw', src) := WritePageFrom (px_buf p) pw index size (Some (mkPageSource body (session world) w)) in
  let s := from_option so_session (session world) src in
  ((frameError <$> err, src ≫= so_writer, mkFrameState (Some pw') true), setSession (set_client (pfw_w pw') s).2 world).

Definition fetchAndWritePageFrameBestEffort (r : HttpRequest) (obj : Object) (index : Z) (st : FrameState)
    : P (option ProxyError * FrameState) :=
  match PageBounds index (ob_PageSize obj) (ob_Size obj) with
  | Err e => mret (Some (ErrRange e), st)
  | Ok bounds =>
      resp ← onPages p r (fun upstream => upstreamDo upstream (rangeHeaderOf bounds) (ob_ETag obj));
      match resp with
      | NoReply => mret (Some ErrRequest, st)
      | Response status body =>
          if status =? 412 then mret (Some ErrObjectChanged, st)
          else if negb (status =? 206) then mret (Some (ErrStatus status), st)
          else
            let expectedSize := ps_End bounds -! ps_Start bounds +! 1 in
            e ← ensureFrameWriter st;
            match e with
            | (Err e, st) => mret (Some e, st)
            | (Ok writer, _) =>
                h ← onSession (beginCachePageWriter obj index);
                match h with
                | Err _ =>
                    f ← writeFetchedFrame writer index expectedSize body None;
                    let '(err, _, st) := f in mret (err, st)
                | Ok h =>
                    f ← writeFetchedFrame writer index expectedSize body (Some (mkBestEffort h None));
                    let '(err, cacheWriter, st) := f in
                    (if bool_decide (is_Some err) || bool_decide (is_Some (cacheWriter ≫= be_err)) then mret ()
                     else _ ← onSession (onCache (Some h) (Commit h)); mret ());;
                    _ ← onSession (onCache (Some h) (Abort h));
                    mret (err, st)
                end
            end
      end
  end.

(** How a request enters the fill of a page, as in [joinFill]. *)
Inductive FillEntry := FillFails (e : ProxyError) | FillServed (body : bytes) | FillLeads.

Definition enterFill (obj : Object) (index : Z) : R FillEntry := fun s =>
  joinFill (flight s) obj index FillFails (fun body => mret (FillServed body)) (mret FillLeads) s.

Definition fillAndWriteMissingPageFrame (r : HttpRequest) (obj : Object) (index : Z) (st : FrameState)
    : P (option ProxyError * FrameState) :=
  f ← onSession (enterFill obj index);
  match f with
  | FillFails e => mret (Some e, st)
  | FillServed body =>
      match internalPageFrameSize index (ob_PageSize obj) (ob_Size obj) with
      | Err e => mret (Some (ErrRange e), st)
      | Ok size =>
          e ← ensureFrameWriter st;
          match e with
          | (Err e, st) => mret (Some e, st)
          | (Ok writer, _) => writeCachedFrame writer index size body
          end
      end
  | FillLeads => fetchAndWritePageFrameBestEffort r obj index st
  end.

(** ** The page route *)

(** [http.Error] unless the response was begun. *)
Definition refuseUnless (committed : bool) (text : string) (code : Z) : P () :=
  if committed then mret () else httpError text code.

Definition cancelStatus (e : ProxyError) (code : Z) : Z :=
  if isClientCancelError e then statusClientClosedRequest else code.

(** What is answered when a page could not be fetched. *)
Definition frameFillFailed (target : Target) (committed : bool) (e : ProxyError) : P () :=
  match e with
  | ErrObjectChanged =>
      _ ← doInvalidate p target;
      refuseUnless committed "object identity changed upstream" 412
  | ErrPeerFillOverloaded => refuseUnless committed "peer fill concurrency limit exceeded" 503
  | _ =>
      if isClientCancelError e then refuseUnless committed "client canceled internal page read" statusClientClosedRequest
      else refuseUnless committed (messageOf e) 502
  end.

(** The loop over the pages: [None] when the handler returned early. *)
Fixpoint writeFrames (r : HttpRequest) (req : internalPageReadRequest) (target : Target) (obj : Object)
    (pages : list Z) (st : FrameState) : P (option FrameState) :=
  match pages with
  | [] => mret (Some st)
  | pageIndex :: pages =>
      b ← onSession (openCachedPage (Bucket target) obj pageIndex);
      match b with
      | Err e => refuseUnless (responseCommitted st) (messageOf e) (cancelStatus e 500);; mret None
      | Ok (Some body) =>
          match internalPageFrameSize pageIndex (pr_PageSize req) (pr_ObjectSize req) with
          | Err e => refuseUnless (responseCommitted st) (messageOf (ErrRange e)) 400;; mret None
          | Ok size =>
              e ← ensureFrameWriter st;
              match e with
              | (Err _, _) => mret None
              | (Ok writer, _) =>
                  f ← writeCachedFrame writer pageIndex size body;
                  match f with
                  | (Some _, _) => mret None
                  | (None, st) => writeFrames r req target obj pages st
                  end
              end
          end
      | Ok None =>
          f ← fillAndWriteMissingPageFrame (internalPageReadUpstreamRequest r req) obj pageIndex st;
          match f with
          | (Some e, st) => frameFillFailed target (responseCommitted st) e;; mret None
          | (None, st) =>
              match internalPageFrameSize pageIndex (pr_PageSize req) (pr_ObjectSize req) with
              | Err _ => mret None
              | Ok _ => writeFrames r req target obj pages st
              end
          end
      end
  end.

(** [frameWriter.WriteEnd()]; its error is only logged. *)
Definition writeEnd (st : FrameState) : P () :=
  e ← ensureFrameWriter st;
  match e with
  | (Err _, _) => mret ()
  | (Ok writer, _) => onSession (set_client (pfw_w (WriteEnd writer).2))
  end.

(** Whether the method is [POST]; otherwise the request is refused. *)
Definition requirePost (r : HttpRequest) (serve : P ()) : P () :=
  if negb (bool_decide (hr_Method r = MethodPost)) then
    modifyHeader (fun h => Http.Set_ h "Allow" MethodPost);;
    httpError "method not allowed" 405
  else serve.

Definition serveInternalPageRead (r : HttpRequest) : P () :=
  requirePost r
    match decodeBody unmarshalPageRead r with
    | None => httpError "invalid page read request" 400
    | Some req =>
        match validateInternalPageReadRequest req with
        | Some text => httpError text 400
        | None =>
            if negb (forallb (IsLocalPageOwner rt (pr_Bucket req) (pr_Key req)) (pr_Pages req))
            then httpError "page is not owned by local peer" 409
            else
              let target := mkTarget (pr_Bucket req) (pr_Key req) in
              o ← internalPageReadObject req;
              match o with
              | Err (text, code) => httpError text code
              | Ok obj =>
                  f ← writeFrames r req target obj (pr_Pages req) (mkFrameState None false);
                  match f with
                  | None => mret ()
                  | Some st => writeEnd st
                  end
              end
        end
    end.

(** ** The invalidation route *)

Definition quoted (s : string) : string := String "034" (s +:+ String "034" "").

Definition serveInternalInvalidate (r : HttpRequest) : P () :=
  requirePost r
    match decodeBody unmarshalInvalidate r with
    | None => httpError "invalid invalidate request" 400
    | Some req =>
        match validateInternalInvalidateRequest req with
        | Some text => httpError text 400
        | None =>
            e ← cacheCall (InvalidateObject (iv_Bucket req) (iv_Key req) (iv_Epoch req));
            match e with
            | Err _ =>
                markDegraded "local invalidation failed" [("bucket", iv_Bucket req)];;
                httpError "apply invalidation" 500
            | Ok epoch =>
                modifyHeader (fun h => Http.Set_ h "Content-Type" "application/json");;
                WriteHeader 200;;
                writeClient (bytes_of_string ("{" +:+ quoted "status" +:+ ":" +:+ quoted "ok" +:+ "," +:+
                  quoted "epoch" +:+ ":" +:+ FormatInt epoch +:+ "}" +:+ nl))
            end
        end
    end.

End Owner.

(** ** Routes *)

(** The request behind an object route. *)
Definition internalObjectRequest (r : ServerRequest) : ServerRequest :=
  let q := sr_http r in
  let '(escaped, query, found) := Cut (sr_URI r) "?" in
  let path := TrimPrefix (hr_Path q) internalObjectRoutePrefix in
  let path := if bool_decide (path = "") then "/" else path in
  let rawPath := TrimPrefix escaped internalObjectRoutePrefix in
  let rawPath := if bool_decide (rawPath = "") then "/" else rawPath in
  mkServerRequest (mkHttpRequest (hr_Method q) path (hr_RawQuery q) (hr_Header q) (hr_Body q) (hr_ContentLength q))
    (Url.EscapedPath path rawPath +:+ if found : bool then "?" +:+ query else "").

Definition isInternalRoute (path : string) : bool :=
  bool_decide (path = TrimSuffix internalV1Prefix "/") || HasPrefix path internalV1Prefix.

Section Routes.
Context (p : Proxy) `{HeaderCodec, PeerCodec, ErrorText}.

(** [now] is the clock of the peer when the request arrives, in nanoseconds. *)
Definition serveInternalHTTP (now : Z) (r : ServerRequest) : P () :=
  match px_router p with
  | None => notFound
  | Some rt =>
      let '(v, degradation) := validateInternalPeerHeaders rt (px_secret p) now r in
      match degradation with
      | Some (reason, context) => markDegraded reason context
      | None => mret ()
      end;;
      match v with
      | Err (text, code) => httpError text code
      | Ok r =>
          let q := sr_http r in
          if HasPrefix (hr_Path q) (internalObjectRoutePrefix +:+ "/") then
            if bool_decide (Http.Get (hr_Header q) peerForwardedHeader = "")
            then httpError "missing peer forwarded header" 401
            else if bool_decide (Http.Get (hr_Header q) peerOwnerHeader = "")
            then httpError "missing peer owner header" 401
            else serveS3HTTP p (internalObjectRequest r)
          else if bool_decide (hr_Path q = "/internal/v1/pages/read") then serveInternalPageRead p rt q
          else if bool_decide (hr_Path q = "/internal/v1/invalidate") then serveInternalInvalidate q
          else notFound
      end
  end.

Definition ServeHTTP (now : Z) (r : ServerRequest) : P () :=
  let q := sr_http r in
  if isInternalRoute (hr_Path q) then serveInternalHTTP now r
  else serveS3HTTP p (mkServerRequest (mkHttpRequest (hr_Method q) (hr_Path q) (hr_RawQuery q)
         (stripPeerHeaders (hr_Header q)) (hr_Body q) (hr_ContentLength q)) (sr_URI r)).

End Routes.
