(* ===== verification/ProxyOwner.v ===== *)
(** * What the owner of pages sends ([internal/proxy/proxy.go])

    The theorems about [ProxyFrames]. The owner's side of a page read keeps what the
    coordinator relies on: the response is the frames of the pages asked for, of the
    version asked for, possibly cut short, and pages saved on the way are right. *)

From Stdlib Require Import Ascii.
From S2P Require Import Prelude GoStrings GoNet Sha256 Range S3Request Router PageFrame CachePath CacheDB CacheStore.
From S2P Require Import CacheLogic CacheInv CacheOps CacheRows ProxyPeers ProxySpan ProxyRead ProxyServe.
From S2P Require Import ProxyUpload ProxyHttp ProxyWrite ProxyMeta ProxyAuth ProxyBase ProxyCoord ProxyCold ProxyHandlers.
From S2P Require Import ProxyAnswers ProxyFrames.
Import Strings.

#[local] Open Scope go_scope.

(** The bytes of a source are those of the response, saved or not. *)
#[export] Program Instance PageSource_LawfulReader : Io.LawfulReader PageSource :=
  {| Io.stream src := Io.content (so_body src) |}.
Next Obligation.
  intros k src got err src' HR. cbn in HR. unfold readSource in HR.
  destruct (Io.Read k (so_body src)) as [[g e] b] eqn:HB. pose proof (Io.Read_spec _ _ _ _ _ HB) as (Hc & Hl & _ & He & _).
  assert (Heq : g = got /\ e = err /\ so_body src' = b).
  { destruct (so_writer src); [|by injection HR as <- <- <-]. case_bool_decide; [by injection HR as <- <- <-|].
    destruct (bestEffortWrite _ _ _). by injection HR as <- <- <-. }
  destruct Heq as (-> & -> & Hb). rewrite Hb. split_and!; [done|done|]. intros [e' ->]. by apply (He e').
Qed.

Section Owner.
Context (version : string -> bytes -> bytes) (pageSizeOf : string -> Z).
Context `{HeaderCodec, PeerCodec, ErrorText} (p : Proxy) (rt : Router) (target : Target).

Abbreviation id := (ObjectKey (Bucket target) (Key target)).
Abbreviation good := (Good version pageSizeOf).
Abbreviation sok := (session_ok version pageSizeOf).
Abbreviation rows := (rows_safe (row_ok version pageSizeOf)).
Abbreviation is_version := (version_of_target version pageSizeOf target).
Abbreviation page_of obj := (pageOf version pageSizeOf (ob_ID obj) (ob_ETag obj)).

(** ** Saving on the way *)

(** A source whose bytes so far are in the page writer [h], if there is one, unless
    saving failed. *)
Definition saving (h : option Z) (opts : PageWriteOptions) (total : bytes) (src : PageSource) : Prop :=
  sok (so_session src) /\ rows (so_session src) /\
  match so_writer src, h with
  | None, None => True
  | Some w, Some h => be_writer w = h /\ (be_err w = None -> exists fed, fed ++ Io.content (so_body src) = total /\
      live (cache (so_session src)) h opts fed)
  | _, _ => False
  end.

Lemma bestEffortWrite_spec h opts fed data s w w' s' :
  sok s -> rows s -> be_writer w = h -> (be_err w = None -> live (cache s) h opts fed) ->
  bestEffortWrite w data s = (w', s') ->
  sok s' /\ rows s' /\ be_writer w' = h /\ (be_err w' = None -> be_err w = None /\ live (cache s') h opts (fed ++ data)).
Proof.
  intros Hs Hr Hh Hlive. unfold bestEffortWrite. destruct (be_err w) eqn:Ee; [intros [= <- <-]; by rewrite Ee|].
  specialize (Hlive eq_refl). rewrite Hh. unfold mbind, R_bind.
  destruct (onCache (Some h) (Write h data) s) as [r s1] eqn:Ho.
  pose proof (keeps_rows_onCache (row_ok version pageSizeOf) (Some h) (Write h data) (preserves_Write _ _ _) s Hr) as Hr1.
  rewrite Ho in Hr1. intros [= <- <-].
  destruct (onCache_spec version pageSizeOf (Some h) (Write h data) s r s1
    (fun r c' => forall n, r = Ok n -> n = length data /\ live c' h opts (fed ++ data)) Hs Ho) as (Hs1 & Hn & _).
  { intros c Hc Hkeep. apply (Write_live version pageSizeOf c h opts fed data Hc). by eapply live_kept. }
  split_and!; [done|done|done|]. cbn. intros He. split; [done|]. destruct r as [n|]; [|done]. by apply (Hn n).
Qed.

Lemma saving_read h opts total k src got err src' :
  saving h opts total src -> Io.read k src = (got, err, src') -> saving h opts total src'.
Proof.
  intros (Hs & Hr & Hw) HR. cbn in HR. unfold readSource in HR.
  destruct (Io.Read k (so_body src)) as [[g e] b] eqn:HB. pose proof (Io.Read_spec _ _ _ _ _ HB) as (Hc & _).
  destruct (so_writer src) as [w|], h as [h|]; [|done|done|by injection HR as <- <- <-]. destruct Hw as [Hh Hw].
  case_bool_decide as Hg.
  { injection HR as <- <- <-. do 2 (split; [done|]). split; [done|]. cbn. intros He. destruct (Hw He) as (fed & <- & Hl).
    exists fed. rewrite Hc, Hg in *. done. }
  destruct (bestEffortWrite w g (so_session src)) as [w' s'] eqn:Hb. injection HR as <- <- <-.
  destruct (be_err w) eqn:Ee.
  { unfold bestEffortWrite in Hb. rewrite Ee in Hb. injection Hb as <- <-. unfold saving. cbn. rewrite Ee. by split_and!. }
  destruct (Hw eq_refl) as (fed & <- & Hl).
  destruct (bestEffortWrite_spec h opts fed g (so_session src) w w' s' Hs Hr Hh (fun _ => Hl) Hb) as (Hs' & Hr' & Hh' & Hl').
  do 2 (split; [done|]). split; [done|]. cbn. intros He. destruct (Hl' He) as [_ Hl2]. exists (fed ++ g). by rewrite Hc, <- app_assoc.
Qed.

(** ** Frames so far *)

Section Frames.
Context (obj : Object) (Hv : is_version obj) (w0 : World) (Hfresh : status w0 = None).

Abbreviation frame i := (mkPageFrame i (page_of obj i)).
Abbreviation sent_bytes w := (Io.out (client (session w))).

(** The response is cut short after some bytes of these frames. *)
Definition cut_short (pages : list Z) (w : World) : Prop :=
  status w = Some 200 /\
  exists part, sent_bytes w = sent_bytes w0 ++ part /\ part `prefix_of` encodePages ((fun i => frame i) <$> pages).

(** The frames of [done] were sent, and nothing else. *)
Definition emitting (st : FrameState) (done : list Z) (w : World) : Prop :=
  match frameWriter st with
  | None => responseCommitted st = false /\ done = [] /\ unanswered w0 w
  | Some pw => responseCommitted st = true /\ pfw_w pw = client (session w) /\ status w = Some 200 /\
      sent_bytes w = sent_bytes w0 ++ encodeHeader ++ concat (encodePage <$> ((fun i => frame i) <$> done))
  end.

(** After an error: nothing was sent, or the response is cut short. *)
Definition broken (st : FrameState) (pages : list Z) (w : World) : Prop :=
  if responseCommitted st then cut_short pages w else unanswered w0 w.

Lemma emitting_broken st done rest w : emitting st done w -> broken st (done ++ rest) w.
Proof.
  unfold emitting, broken. destruct (frameWriter st) as [pw|].
  - intros (-> & _ & Hst & Ho). split; [done|]. eexists. split; [exact Ho|]. unfold encodePages.
    apply prefix_app. rewrite !fmap_app, concat_app, <- app_assoc. by apply prefix_app_r.
  - by intros (-> & _ & Hu).
Qed.

(** Part of a frame after the frames of [done]. *)
Lemma frame_part done i rest part :
  part `prefix_of` encodePage (frame i) ->
  encodeHeader ++ concat (encodePage <$> ((fun i => frame i) <$> done)) ++ part `prefix_of`
    encodePages ((fun i => frame i) <$> done ++ i :: rest).
Proof.
  intros Hp. unfold encodePages. apply prefix_app. rewrite !fmap_app, concat_app, <- app_assoc. apply prefix_app.
  rewrite !fmap_cons. cbn [concat]. rewrite <- app_assoc. by apply prefix_app_r.
Qed.

Lemma sound_client w w' :
  sound version pageSizeOf w -> cache (session w') = cache (session w) -> env (session w') = env (session w) ->
  sound version pageSizeOf w'.
Proof. intros [[? ?] [? ?]] Hc He. unfold sound, session_ok, rows_safe. by rewrite Hc, He. Qed.

Lemma ensureFrameWriter_spec st done pages w res st' w' :
  emitting st done w -> sound version pageSizeOf w -> ensureFrameWriter st w = ((res, st'), w') ->
  sound version pageSizeOf w' /\ flight (session w') = flight (session w) /\
  match res with
  | Ok pw => frameWriter st' = Some pw /\ emitting st' done w'
  | Err _ => responseCommitted st' = true /\ cut_short (done ++ pages) w'
  end.
Proof.
  intros Hem Hw. unfold ensureFrameWriter. destruct (frameWriter st) as [pw|] eqn:Hst.
  { intros [= <- <- <-]. by split_and!. }
  unfold emitting in Hem. rewrite Hst in Hem. destruct Hem as (_ & -> & Hs & _ & Hc).
  unfold NewPageFrameWriter. unfold mbind, P_bind, modifyHeader, setHeader, WriteHeader, onSession, getClient, set_client.
  cbn [session client setSession fst snd]. fold encodeHeader.
  destruct (writePageFrameFull (client (session w)) encodeHeader) as [err c'] eqn:Hwr.
  destruct (writePageFrameFull_part _ _ _ _ Hwr) as (part & Ho & Hp & Hall). rewrite Hc in Ho.
  destruct err as [e|]; intros [= <- <- <-]; (split; [by apply (sound_client w)|]); (split; [done|]).
  - split; [done|]. split; [cbn; by rewrite Hs, Hfresh|]. exists part. split; [done|]. unfold encodePages. by apply prefix_app_r.
  - split; [done|]. unfold emitting. cbn [frameWriter fmap list_fmap concat]. rewrite app_nil_r, <- (Hall eq_refl). split_and!; [done|done| |done].
    cbn. by rewrite Hs, Hfresh.
Qed.

Lemma cut_broken st pages w : responseCommitted st = true /\ cut_short pages w -> broken st pages w.
Proof. unfold broken. by intros [-> ?]. Qed.

(** The outcome of sending the frame of page [i]. *)
Definition frame_outcome {E} (err : option E) (st : FrameState) (done : list Z) (i : Z) (rest : list Z) (w : World) : Prop :=
  match err with
  | Some _ => broken st (done ++ i :: rest) w
  | None => emitting st (done ++ [i]) w
  end.

Lemma frame_sent {E} pw pw' done i rest part (err : option E) w w' :
  emitting (mkFrameState (Some pw) true) done w ->
  status w' = status w -> client (session w') = pfw_w pw' ->
  Io.out (pfw_w pw') = Io.out (pfw_w pw) ++ part -> part `prefix_of` encodePage (frame i) ->
  (err = None -> part = encodePage (frame i)) ->
  frame_outcome err (mkFrameState (Some pw') true) done i rest w'.
Proof.
  intros (_ & Hpw & Hst & Ho) Hst' Hc Hout Hp Hall. cbn in Hpw. rewrite Hpw in Hout.
  assert (Ho' : sent_bytes w' = sent_bytes w0 ++ encodeHeader ++ concat (encodePage <$> ((fun i => frame i) <$> done)) ++ part)
    by (rewrite Hc, Hout, Ho, <- !app_assoc; done).
  destruct err as [e|].
  - split; [congruence|]. eexists. split; [exact Ho'|]. by apply frame_part.
  - split_and!; [done|done|congruence|]. rewrite Ho', (Hall eq_refl), !fmap_app, concat_app.
    cbn [fmap list_fmap concat]. by rewrite app_nil_r.
Qed.

Lemma writer_state st pw done w : frameWriter st = Some pw -> emitting st done w -> emitting (mkFrameState (Some pw) true) done w.
Proof. unfold emitting. intros ->. cbn. by intros (_ & ?). Qed.

Lemma writeCachedFrame_spec pw done i rest w err st' w' :
  emitting (mkFrameState (Some pw) true) done w -> sound version pageSizeOf w ->
  writeCachedFrame p pw i (zlen (page_of obj i)) (page_of obj i) w = ((err, st'), w') ->
  sound version pageSizeOf w' /\ responseCommitted st' = true /\ frame_outcome err st' done i rest w'.
Proof.
  intros Hem Hw. unfold writeCachedFrame.
  destruct (WritePageFrom _ pw i _ _) as [[e pw'] src] eqn:HW.
  assert (Hpre : Io.stream (bytesReader (page_of obj i)) `prefix_of` page_of obj i)
    by (rewrite Io.stream_content, content_bytesReader; done).
  destruct (WritePageFrom_part _ _ _ _ _ _ _ _ Hpre HW) as ((part & Ho & Hp & Hall) & _).
  unfold mbind, P_bind, onSession, set_client. intros [= <- <- <-]. split; [by apply (sound_client w)|]. split; [done|].
  eapply frame_sent; [exact Hem|done|done|exact Ho|exact Hp|]. intros He. apply Hall. by destruct e.
Qed.

Lemma writeFetchedFrame_spec h pw done i rest body w err be st' w' :
  emitting (mkFrameState (Some pw) true) done w -> sound version pageSizeOf w ->
  Io.content body `prefix_of` page_of obj i ->
  (forall h', h = Some h' -> live (cache (session w)) h' (wopts obj i) []) ->
  writeFetchedFrame p pw i (zlen (page_of obj i)) body ((fun h => mkBestEffort h None) <$> h) w = ((err, be, st'), w') ->
  sound version pageSizeOf w' /\ frame_outcome err st' done i rest w' /\
  forall h', h = Some h' -> err = None -> be ≫= be_err = None ->
    live (cache (session w')) h' (wopts obj i) (page_of obj i).
Proof.
  intros Hem Hw Hpre Hlive. unfold writeFetchedFrame.
  destruct (WritePageFrom _ pw i _ _) as [[e pw'] src] eqn:HW.
  destruct (fun Hs => WritePageFrom_part _ _ _ _ _ _ _ _ Hs HW) as ((part & Ho & Hp & Hall) & _ & s & -> & Hfull & Hkeep); [exact Hpre|].
  assert (Hsav : saving h (wopts obj i) (Io.content body) s).
  { apply Hkeep; [intros; by eapply saving_read|]. destruct Hw. split; [done|]. split; [done|].
    destruct h as [h|]; cbn; [|done]. split; [done|]. intros _. exists []. split; [done|by apply Hlive]. }
  destruct Hsav as (Hs & Hr & Hsw). cbn [from_option mbind option_bind]. intros [= <- <- <- <-].
  split; [split; [by destruct Hs|by destruct Hr]|]. split.
  - eapply frame_sent; [exact Hem|done|done|exact Ho|exact Hp|]. intros He. apply Hall. by destruct e.
  - intros h' -> He Hbe. destruct (so_writer s) as [b|]; [|done]. destruct Hsw as [_ Hsw]. destruct (Hsw Hbe) as (fed & Hfed & Hl).
    destruct (Hfull ltac:(by destruct e)) as [Hall1 Hnil]. cbn in Hall1, Hnil. rewrite Hnil, app_nil_r in Hfed. cbn. congruence.
Qed.

Lemma emitting_stable st done w w' : unanswered w w' -> emitting st done w -> emitting st done w'.
Proof.
  intros Hu. unfold emitting. destruct (frameWriter st) as [pw|].
  - destruct Hu as (Hs & _ & Hc). intros (? & ? & ? & ?). split_and!; [done| | |]; congruence.
  - intros (? & ? & ?). split_and!; [done|done|by etransitivity].
Qed.

(** A call on the cache, as far as the response goes. *)
Lemma onCache_world {A} own (m : M A) w r w' (Q : result CacheError A -> Cache -> Prop) :
  preserves (row_ok version pageSizeOf) m ->
  (forall c, cache_ok good c ->
     (forall h x, own = Some h -> writers (fs (cache (session w))) !! h = Some x ->
        writers (fs c) !! h = Some x /\ temp c h = temp (cache (session w)) h) ->
     wp m (fun r c' => cache_ok good c' /\ Q r c') c) ->
  sound version pageSizeOf w -> onSession (onCache own m) w = (r, w') ->
  sound version pageSizeOf w' /\ unanswered w w' /\ Q r (cache (session w')).
Proof.
  intros Hpres Hm [Hs Hr]. unfold onSession. destruct (onCache own m (session w)) as [a s] eqn:Ho. intros [= -> <-].
  destruct (onCache_spec version pageSizeOf own m (session w) r s Q Hs Ho Hm) as (Hs1 & HQ & Hc & _).
  pose proof (keeps_rows_onCache (row_ok version pageSizeOf) own m Hpres (session w) Hr) as Hr1. rewrite Ho in Hr1. done.
Qed.

Lemma abort_world h w r w' :
  sound version pageSizeOf w -> onSession (onCache (Some h) (Abort h)) w = (r, w') ->
  sound version pageSizeOf w' /\ unanswered w w'.
Proof.
  intros Hw Hrun. destruct (onCache_world (Some h) (Abort h) w r w' (fun _ _ => True) (preserves_Abort _ _)) as (? & ? & _); [|done..].
  intros c Hc _. by apply Abort_ok.
Qed.

Lemma commit_world h i w r w' :
  sound version pageSizeOf w -> live (cache (session w)) h (wopts obj i) (page_of obj i) ->
  onSession (onCache (Some h) (Commit h)) w = (r, w') -> sound version pageSizeOf w' /\ unanswered w w'.
Proof.
  intros Hw Hl Hrun. destruct (onCache_world (Some h) (Commit h) w r w' (fun _ _ => True) (preserves_Commit _ _)) as (? & ? & _); [|done..].
  intros c Hc Hk. apply (Commit_live version pageSizeOf c h (wopts obj i) (page_of obj i)); [done|by eapply live_kept|done].
Qed.

(** Committing what was saved without an error. *)
Lemma save_world h i (err : option ProxyError) (be : option bestEffortPageWriter) w w' :
  sound version pageSizeOf w ->
  (err = None -> be ≫= be_err = None -> live (cache (session w)) h (wopts obj i) (page_of obj i)) ->
  (if bool_decide (is_Some err) || bool_decide (is_Some (be ≫= be_err)) then mret ()
   else _ ← onSession (onCache (Some h) (Commit h)); mret () : P ()) w = ((), w') ->
  sound version pageSizeOf w' /\ unanswered w w'.
Proof.
  intros Hw Hl. destruct err as [e|]; [by intros [= <-]|]. destruct (be ≫= be_err) as [e|]; [by intros [= <-]|].
  cbn. unfold mbind, P_bind. destruct (onSession (onCache (Some h) (Commit h)) w) as [r w1] eqn:Hc. intros [= <-].
  by eapply commit_world; [|apply Hl|].
Qed.

Lemma outcome_stable {E} (err : option E) st done i rest w w' :
  unanswered w w' -> frame_outcome err st done i rest w -> frame_outcome err st done i rest w'.
Proof.
  intros Hu. destruct err; [|by apply emitting_stable]. cbn. unfold broken. destruct (responseCommitted st).
  - destruct Hu as (Hs & _ & Hc). unfold cut_short. by rewrite Hs, Hc.
  - intros ?. by etransitivity.
Qed.

(** The store's reply to the request for a page. *)
Lemma reply_world r i bounds w reply w' :
  store_ok version pageSizeOf p target r -> 0 <= ps_Start bounds <= ps_End bounds -> ps_End bounds < ob_Size obj ->
  slice (ps_Start bounds) (ps_End bounds + 1) (contentOf version (ob_ID obj) (ob_ETag obj)) = page_of obj i ->
  sound version pageSizeOf w ->
  onPages p r (fun upstream => upstreamDo upstream (rangeHeaderOf bounds) (ob_ETag obj)) w = (reply, w') ->
  sound version pageSizeOf w' /\ unanswered w w' /\
  forall body, reply = Response 206 body -> Io.content body `prefix_of` page_of obj i.
Proof.
  intros Hk Hb He Hsl Hw Hrun. destruct Hv as (Hobj & Hid & _).
  destruct (onPages_spec version pageSizeOf p r _ (fun s a s' => client s' = client s /\
      forall body, a = Response 206 body -> Io.content body `prefix_of` page_of obj i) w reply w'
      (fun u => keeps_rows_upstreamDo (row_ok version pageSizeOf) u (rangeHeaderOf bounds) (ob_ETag obj))) as (? & (Hc & Hr) & Hs & Hh);
    [|done|done|by split_and!].
  intros n s s' Hs Hup. unfold upstreamDo in Hup. injection Hup as <- <-. split; [done|]. split; [done|]. intros body Hbody.
  rewrite <- Hsl. by eapply (pages_honest version pageSizeOf p target r n obj Hk Hv).
Qed.

Lemma fetchFrame_spec r done i rest st w err st' w' :
  store_ok version pageSizeOf p target r -> page_inside (ob_PageSize obj) (ob_Size obj) i ->
  emitting st done w -> sound version pageSizeOf w ->
  fetchAndWritePageFrameBestEffort p r obj i st w = ((err, st'), w') ->
  sound version pageSizeOf w' /\ frame_outcome err st' done i rest w'.
Proof.
  intros Hk [Hi Hin] Hem Hw. unfold fetchAndWritePageFrameBestEffort. pose proof Hv as (Hobj & _).
  destruct (bounds_page version pageSizeOf obj Hobj i Hi Hin) as (bounds & -> & [Hb1 Hb2] & Hsl & Hsub & Hadd & _).
  rewrite Hsub, Hadd. unfold mbind at 1, P_bind at 1.
  destruct (onPages p r _ w) as [reply w1] eqn:Hon.
  destruct (reply_world r i bounds w reply w1 Hk Hb1 Hb2 Hsl Hw Hon) as (Hw1 & Hu1 & Hbody).
  pose proof (emitting_stable _ _ _ _ Hu1 Hem) as Hem1.
  assert (Hquit : forall e : ProxyError, sound version pageSizeOf w1 /\ frame_outcome (Some e) st done i rest w1)
    by (intros e; split; [done|by apply emitting_broken]).
  destruct reply as [|code body]; [intros [= <- <- <-]; apply Hquit|].
  destruct (code =? 412); [intros [= <- <- <-]; apply Hquit|].
  destruct (Z.eqb_spec code 206) as [->|]; cbn [negb]; [|intros [= <- <- <-]; apply Hquit]. specialize (Hbody body eq_refl).
  unfold mbind at 1, P_bind at 1. destruct (ensureFrameWriter st w1) as [[res st1] w2] eqn:Hens.
  destruct (ensureFrameWriter_spec st done (i :: rest) w1 res st1 w2 Hem1 Hw1 Hens) as (Hw2 & _ & Hres).
  destruct res as [pw|e]; [|intros [= <- <- <-]; split; [done|by apply cut_broken]]. destruct Hres as [Hpw Hem2]. pose proof (writer_state _ _ _ _ Hpw Hem2) as Hem2'.
  unfold mbind at 1, P_bind at 1. destruct (onSession (beginCachePageWriter obj i) w2) as [h w3] eqn:Hbeg.
  destruct (onCache_world None (BeginPageWrite (wopts obj i)) w2 h w3 (fun r c' => forall h, r = Ok h -> live c' h (wopts obj i) [])
    (preserves_BeginPageWrite _ _)) as (Hw3 & Hu3 & Hl); [intros c Hc _; by apply BeginPageWrite_live|done|exact Hbeg|].
  pose proof (emitting_stable _ _ _ _ Hu3 Hem2') as Hem3. destruct h as [h|e].
  - unfold mbind at 1, P_bind at 1. destruct (writeFetchedFrame _ _ _ _ _ _ w3) as [[[err3 be3] st3] w4] eqn:Hwf.
    destruct (writeFetchedFrame_spec (Some h) pw done i rest body w3 err3 be3 st3 w4 Hem3 Hw3 Hbody) with (2 := Hwf) as (Hw4 & Hout & Hlive).
    { intros h' [= <-]. by apply Hl. }
    unfold mbind at 1, P_bind at 1.
    match goal with |- (let '(_, _) := ?m w4 in _) = _ -> _ => destruct (m w4) as [[] w5] eqn:Hcm end.
    destruct (save_world h i err3 be3 w4 w5 Hw4 (Hlive h eq_refl) Hcm) as [Hw5 Hu5].
    unfold mbind, P_bind. destruct (onSession (onCache (Some h) (Abort h)) w5) as [ra w6] eqn:Hab. intros [= <- <- <-].
    destruct (abort_world h w5 ra w6 Hw5 Hab) as [Hw6 Hu6]. split; [done|].
    eapply outcome_stable; [|exact Hout]. by etransitivity.
  - unfold mbind, P_bind. destruct (writeFetchedFrame _ _ _ _ _ _ w3) as [[[err3 be3] st3] w4] eqn:Hwf. intros [= <- <- <-].
    destruct (writeFetchedFrame_spec None pw done i rest body w3 err3 be3 st3 w4 Hem3 Hw3 Hbody) with (2 := Hwf) as (? & ? & _); done.
Qed.

Lemma enterFill_spec i w f w' :
  sound version pageSizeOf w -> onSession (enterFill obj i) w = (f, w') ->
  sound version pageSizeOf w' /\ unanswered w w' /\ forall body, f = FillServed body -> body = page_of obj i.
Proof.
  intros [Hs Hr]. unfold onSession, enterFill. destruct (joinFill _ _ _ _ _ _ (session w)) as [a s] eqn:Hj. intros [= -> <-].
  pose proof (keeps_rows_joinFill (row_ok version pageSizeOf) (flight (session w)) obj i FillFails
    (fun body => mret (FillServed body)) (mret FillLeads) (fun b => keeps_rows_ret _ _) (keeps_rows_ret _ _) (session w) Hr) as Hr'.
  rewrite Hj in Hr'.
  destruct (joinFill_spec version pageSizeOf obj (fun a c s1 => session_ok version pageSizeOf s1 /\ client s1 = c /\
      forall body, a = FillServed body -> body = page_of obj i) (flight (session w)) i FillFails
      (fun body => mret (FillServed body)) (mret FillLeads) (client (session w)) (session w) f s) as (Hs' & Hc & Hb);
    [done| |by intros s1 a s2 ? ? [= <- <-]|done|done|exact Hj|].
  { intros s1 a s2 ? ? [= <- <-]. split_and!; [done|done|]. by intros body [= <-]. }
  split; [done|]. by split_and!.
Qed.

Lemma frame_size i :
  page_inside (ob_PageSize obj) (ob_Size obj) i ->
  internalPageFrameSize i (ob_PageSize obj) (ob_Size obj) = Ok (zlen (page_of obj i)).
Proof.
  intros [Hi Hin]. destruct Hv as (Hobj & _). unfold internalPageFrameSize.
  destruct (bounds_page version pageSizeOf obj Hobj i Hi Hin) as (bounds & -> & _ & _ & Hsub & Hadd & _).
  cbn. by rewrite Hsub, Hadd.
Qed.

(** A page at hand, sent after the frame writer was made. *)
Lemma sendCached_spec i done rest st w err st' w' :
  emitting st done w -> sound version pageSizeOf w ->
  (e ← ensureFrameWriter st;
   match e with
   | (Err e, st) => mret (Some e, st)
   | (Ok writer, _) => writeCachedFrame p writer i (zlen (page_of obj i)) (page_of obj i)
   end) w = ((err, st'), w') ->
  sound version pageSizeOf w' /\ frame_outcome err st' done i rest w'.
Proof.
  intros Hem Hw. unfold mbind, P_bind. destruct (ensureFrameWriter st w) as [[res st1] w1] eqn:Hens.
  destruct (ensureFrameWriter_spec st done (i :: rest) w res st1 w1 Hem Hw Hens) as (Hw1 & _ & Hres).
  destruct res as [pw|e]; [|intros [= <- <- <-]; split; [done|by apply cut_broken]]. destruct Hres as [Hpw Hem1].
  intros Hrun. destruct (writeCachedFrame_spec pw done i rest w1 err st' w' (writer_state _ _ _ _ Hpw Hem1) Hw1 Hrun) as (? & _ & ?). done.
Qed.

Lemma fillFrame_spec r done i rest st w err st' w' :
  store_ok version pageSizeOf p target r -> page_inside (ob_PageSize obj) (ob_Size obj) i ->
  emitting st done w -> sound version pageSizeOf w ->
  fillAndWriteMissingPageFrame p r obj i st w = ((err, st'), w') ->
  sound version pageSizeOf w' /\ frame_outcome err st' done i rest w'.
Proof.
  intros Hk Hin Hem Hw. unfold fillAndWriteMissingPageFrame. unfold mbind at 1, P_bind at 1.
  destruct (onSession (enterFill obj i) w) as [f w1] eqn:Hf.
  destruct (enterFill_spec i w f w1 Hw Hf) as (Hw1 & Hu1 & Hbody). pose proof (emitting_stable _ _ _ _ Hu1 Hem) as Hem1.
  destruct f as [e|body|].
  - intros [= <- <- <-]. split; [done|by apply emitting_broken].
  - rewrite (Hbody body eq_refl), (frame_size i Hin). by apply sendCached_spec.
  - by apply fetchFrame_spec.
Qed.

(** ** The whole answer *)

(** The handler has returned: the response is cut short or refuses the request. *)
Definition ended (pages : list Z) (w : World) : Prop :=
  cut_short pages w \/ exists code, code <> 200 /\ status w = Some code.

Lemma refuse_spec st pages text code w w' :
  code <> 200 -> broken st pages w -> sound version pageSizeOf w ->
  refuseUnless (responseCommitted st) text code w = ((), w') -> sound version pageSizeOf w' /\ ended pages w'.
Proof.
  intros Hc Hb Hw. unfold broken in Hb. unfold refuseUnless. destruct (responseCommitted st).
  - intros [= <-]. split; [done|by left].
  - intros Hrun. destruct (httpError_spec version pageSizeOf text code w w') as [? Hst]; [by eapply unanswered_status|done|done|].
    split; [done|]. right. by exists code.
Qed.

Lemma fillFailed_spec st done i rest e w w' :
  frame_outcome (Some e) st done i rest w -> sound version pageSizeOf w ->
  frameFillFailed p target (responseCommitted st) e w = ((), w') ->
  sound version pageSizeOf w' /\ ended (done ++ i :: rest) w'.
Proof.
  intros Hb Hw. unfold frameFillFailed.
  assert (Hother : (if isClientCancelError e then refuseUnless (responseCommitted st) "client canceled internal page read" statusClientClosedRequest
      else refuseUnless (responseCommitted st) (messageOf e) 502) w = ((), w') -> sound version pageSizeOf w' /\ ended (done ++ i :: rest) w').
  { destruct (isClientCancelError e); by apply refuse_spec. }
  destruct e; try exact Hother; [|by apply refuse_spec].
  unfold mbind, P_bind. destruct (doInvalidate p target w) as [d w1] eqn:Hd.
  destruct (doInvalidate_spec version pageSizeOf p target w d w1 Hw Hd) as [Hw1 Hu1].
  apply refuse_spec; [done| |done]. by eapply (outcome_stable (Some ErrObjectChanged) st done i rest).
Qed.

Lemma writeFrames_spec r req pages done st w res w' :
  store_ok version pageSizeOf p target (internalPageReadUpstreamRequest r req) ->
  pr_PageSize req = ob_PageSize obj -> pr_ObjectSize req = ob_Size obj ->
  Forall (page_inside (ob_PageSize obj) (ob_Size obj)) pages ->
  emitting st done w -> sound version pageSizeOf w ->
  writeFrames p r req target obj pages st w = (res, w') ->
  sound version pageSizeOf w' /\
  match res with Some st' => emitting st' (done ++ pages) w' | None => ended (done ++ pages) w' end.
Proof.
  intros Hk Hps Hsz. revert done st w. induction pages as [|i pages IH]; intros done st w Hin Hem Hw; cbn [writeFrames].
  { intros [= <- <-]. by rewrite app_nil_r. }
  apply Forall_cons in Hin as [Hi Hin]. rewrite Hps, Hsz, (frame_size i Hi). unfold mbind at 1, P_bind at 1.
  destruct (onSession (openCachedPage (Bucket target) obj i) w) as [b w1] eqn:Hopen.
  assert (Hb : sound version pageSizeOf w1 /\ unanswered w w1 /\ forall body, b = Ok (Some body) -> body = page_of obj i).
  { unfold onSession in Hopen. destruct (openCachedPage (Bucket target) obj i (session w)) as [f s] eqn:Ho. injection Hopen as <- <-.
    destruct (openCachedPage_spec version pageSizeOf (Bucket target) obj i _ _ _ (proj1 Hw) Ho) as (Hs & Hc & Hd).
    pose proof (keeps_rows_openCachedPage (row_ok version pageSizeOf) (Bucket target) obj i (session w) (proj2 Hw)) as Hr. rewrite Ho in Hr.
    split; [done|]. split; [by split_and!|]. intros body ->. by apply Hd. }
  destruct Hb as (Hw1 & Hu1 & Hbody). pose proof (emitting_stable _ _ _ _ Hu1 Hem) as Hem1.
  assert (Hnext : forall st2 w2, sound version pageSizeOf w2 -> emitting st2 (done ++ [i]) w2 ->
    writeFrames p r req target obj pages st2 w2 = (res, w') -> sound version pageSizeOf w' /\
    match res with Some st' => emitting st' (done ++ i :: pages) w' | None => ended (done ++ i :: pages) w' end).
  { intros st2 w2 Hw2 Hem2 Hrun. rewrite cons_middle, app_assoc. by eapply IH. }
  destruct b as [[body|]|e].
  - rewrite (Hbody body eq_refl). unfold mbind at 1, P_bind at 1.
    destruct (ensureFrameWriter st w1) as [[re st1] w2] eqn:Hens.
    destruct (ensureFrameWriter_spec st done (i :: pages) w1 re st1 w2 Hem1 Hw1 Hens) as (Hw2 & _ & Hre).
    destruct re as [pw|e].
    2: { intros [= <- <-]. split; [done|]. left. apply Hre. }
    destruct Hre as [Hpw Hem2]. unfold mbind, P_bind.
    destruct (writeCachedFrame p pw i _ _ w2) as [[err st3] w3] eqn:Hwc.
    destruct (writeCachedFrame_spec pw done i pages w2 err st3 w3 (writer_state _ _ _ _ Hpw Hem2) Hw2 Hwc) as (Hw3 & Hcm & Hout).
    destruct err as [e|]; [|by apply Hnext]. intros [= <- <-]. split; [done|]. left.
    cbn in Hout. unfold broken in Hout. by rewrite Hcm in Hout.
  - unfold mbind at 1, P_bind at 1.
    destruct (fillAndWriteMissingPageFrame p _ obj i st w1) as [[err st2] w2] eqn:Hfill.
    destruct (fillFrame_spec _ done i pages st w1 err st2 w2 Hk Hi Hem1 Hw1 Hfill) as [Hw2 Hout].
    destruct err as [e|]; [|by apply Hnext]. unfold mbind, P_bind.
    destruct (frameFillFailed p target _ e w2) as [[] w3] eqn:Hff. intros [= <- <-]. by eapply fillFailed_spec.
  - unfold mbind, P_bind. destruct (refuseUnless _ _ _ w1) as [[] w2] eqn:Hrf. intros [= <- <-].
    eapply (refuse_spec st); [|by apply emitting_broken|done|exact Hrf]. unfold cancelStatus. by destruct (isClientCancelError e).
Qed.
End Frames.

(** ** The object *)

(** A request for pages of a version of the object. *)
Record asks (q : internalPageReadRequest) : Prop := {
  as_bucket : pr_Bucket q = Bucket target;
  as_key : pr_Key q = Key target;
  as_text : json_text (pr_ETag q);
  as_pageSize : pr_PageSize q = pageSizeOf id;
  as_positive : 0 < pr_PageSize q;
  as_size : pr_ObjectSize q = zlen (contentOf version id (pr_ETag q));
  as_bound : pr_ObjectSize q + pr_PageSize q <= int64_max;
  as_pages : Forall (page_inside (pr_PageSize q) (pr_ObjectSize q)) (pr_Pages q) }.

(** The object that is found or stored is the one of the request. *)
Definition found (q : internalPageReadRequest) (obj : Object) : Prop :=
  is_version obj /\ ob_ETag obj = pr_ETag q /\ ob_Size obj = pr_ObjectSize q /\ ob_PageSize obj = pr_PageSize q.

(** A refusal has an error status. *)
Definition refused (o : result Refusal Object) : Prop := forall text code, o = Err (text, code) -> code <> 200.

Lemma putIdentity_spec q w o w' :
  asks q -> pr_ETag q <> "" -> sound version pageSizeOf w -> putIdentity q w = (o, w') ->
  sound version pageSizeOf w' /\ unanswered w w' /\ refused o /\ forall obj, o = Ok obj -> found q obj.
Proof.
  intros Hq Hne Hw. unfold putIdentity. set (meta := mkObjectMetadata _ _ _ _ _ _). unfold mbind, P_bind.
  destruct (cacheCall (PutObject meta) w) as [r w1] eqn:Hput. intros [= <- <-].
  pose proof Hq as [Hb Hk Ht Hps Hpos Hsz Hbd _].
  assert (Hrow : preserves (row_ok version pageSizeOf) (PutObject meta)).
  { apply PutObject_row. intros epoch now. unfold row_ok, etag_ok. cbn. rewrite Hb, Hk. split_and!; done. }
  destruct (cacheCall_spec version pageSizeOf (PutObject meta) w r w1 (keeps_PutObject _ _) Hrow Hw Hput)
    as (Hw1 & Hu1 & c & _ & _ & Hrun).
  pose proof (PutObject_returns meta c) as Hret. unfold wp in Hret. rewrite Hrun in Hret. cbn in Hret.
  split; [done|]. split; [done|]. destruct r as [obj|e]; [|by split; [intros ? ? [= <- <-]|]].
  destruct (Hret obj eq_refl) as (Hid & He & Hs & Hz). rewrite Hb, Hk in Hid.
  destruct (negb _); (split; [by intros ? ? [= <- <-]|]); [done|]. intros obj' [= <-].
  split; [|by split_and!]. split; [|split; [done|rewrite He; by split]]. by constructor; rewrite ?Hid, ?He, ?Hs, ?Hz.
Qed.

Lemma advanceTo_spec q w a w' :
  sound version pageSizeOf w -> advanceTo q w = (a, w') ->
  sound version pageSizeOf w' /\ unanswered w w' /\ forall text code, a = Err (text, code) -> code <> 200.
Proof.
  intros Hw. unfold advanceTo, mbind, P_bind. destruct (cacheCall _ w) as [e w1] eqn:Hc. intros [= <- <-].
  destruct (cacheCall_spec version pageSizeOf _ w e w1 (keeps_InvalidateObject _ _ _ _) (preserves_InvalidateObject _ _ _ _) Hw Hc)
    as (Hw1 & Hu1 & _). split; [done|]. split; [done|]. intros text code.
  destruct e as [epoch|e]; [destruct (negb _)|]; by intros [= <- <-].
Qed.

Lemma internalPageReadObject_spec q w o w' :
  asks q -> pr_ETag q <> "" -> sound version pageSizeOf w -> internalPageReadObject q w = (o, w') ->
  sound version pageSizeOf w' /\ unanswered w w' /\ refused o /\ forall obj, o = Ok obj -> found q obj.
Proof.
  intros Hq Hne Hw. unfold internalPageReadObject. rewrite (as_bucket _ Hq), (as_key _ Hq). unfold mbind at 1, P_bind at 1.
  destruct (cacheCall (GetObject (Bucket target) (Key target)) w) as [g w1] eqn:Hg.
  destruct (getObject_spec version pageSizeOf target w g w1 Hw Hg) as (Hw1 & Hu1 & Hobj).
  assert (Hput : forall w2, sound version pageSizeOf w2 -> unanswered w w2 -> putIdentity q w2 = (o, w') ->
    sound version pageSizeOf w' /\ unanswered w w' /\ refused o /\ forall obj, o = Ok obj -> found q obj).
  { intros w2 Hw2 Hu2 Hrun. destruct (putIdentity_spec q w2 o w' Hq Hne Hw2 Hrun) as (? & ? & ? & ?).
    split_and!; try done; try (by etransitivity). }
  assert (Hadv : (a ← advanceTo q; match a with Err e => mret (Err e) | Ok _ => putIdentity q end) w1 = (o, w') ->
    sound version pageSizeOf w' /\ unanswered w w' /\ refused o /\ forall obj, o = Ok obj -> found q obj).
  { unfold mbind, P_bind. destruct (advanceTo q w1) as [a w2] eqn:Ha.
    destruct (advanceTo_spec q w1 a w2 Hw1 Ha) as (Hw2 & Hu2 & Hcode). assert (Hu : unanswered w w2) by by etransitivity.
    destruct a as [u|[text code]]; [by apply Hput|]. intros [= <- <-]. split; [done|]. split; [done|].
    split; [|done]. intros ? ? [= <- <-]. by apply (Hcode text). }
  destruct g as [[obj|]|e].
  - specialize (Hobj obj eq_refl). destruct (_ <? ob_Epoch obj).
    { intros [= <- <-]. split; [done|]. split; [done|]. by split; [intros ? ? [= <- <-]|]. }
    destruct (_ && _) eqn:Hsame; [|destruct (ob_Epoch obj <? _); [done|by apply Hput]].
    intros [= <- <-]. split; [done|]. split; [done|]. split; [done|]. intros obj' [= <-].
    apply andb_true_iff in Hsame as [Hsame Hps]. apply andb_true_iff in Hsame as [Hsame Hsz].
    apply andb_true_iff in Hsame as [_ He]. apply bool_decide_eq_true in He. apply Z.eqb_eq in Hps, Hsz. by split.
  - destruct (0 <? pr_Epoch q); [done|by apply Hput].
  - intros [= <- <-]. split; [done|]. split; [done|]. by split; [intros ? ? [= <- <-]|].
Qed.

(** ** The page route *)

Abbreviation frames q := ((fun i => mkPageFrame i (pageOf version pageSizeOf id (pr_ETag q) i)) <$> pr_Pages q).

(** Part of the frames of the pages asked for, or a refusal. *)
Definition page_answer (q : internalPageReadRequest) (w w' : World) : Prop :=
  (status w' = Some 200 /\
   exists part, Io.out (client (session w')) = Io.out (client (session w)) ++ part /\ part `prefix_of` encodePages (frames q)) \/
  exists code, code <> 200 /\ status w' = Some code.

Lemma httpError_answer q text code w0 w w' :
  code <> 200 -> status w = None -> sound version pageSizeOf w -> httpError text code w = ((), w') ->
  sound version pageSizeOf w' /\ page_answer q w0 w'.
Proof.
  intros Hc Hst Hw Hrun. destruct (httpError_spec version pageSizeOf text code w w' Hst Hw Hrun). split; [done|]. right. by exists code.
Qed.

Lemma writeEnd_spec obj w0 st w w' q :
  found q obj -> status w0 = None -> emitting obj w0 st (pr_Pages q) w -> sound version pageSizeOf w ->
  writeEnd st w = ((), w') -> sound version pageSizeOf w' /\ page_answer q w0 w'.
Proof.
  intros ((_ & Hid & _) & He & _) Hfresh Hem Hw. unfold writeEnd. unfold mbind, P_bind.
  destruct (ensureFrameWriter st w) as [[res st1] w1] eqn:Hens.
  destruct (ensureFrameWriter_spec obj w0 Hfresh st (pr_Pages q) [] w res st1 w1 Hem Hw Hens) as (Hw1 & _ & Hres).
  rewrite app_nil_r in Hres. destruct res as [pw|e].
  - destruct Hres as [Hpw Hem1]. destruct (writer_state obj w0 st1 pw _ w1 Hpw Hem1) as (_ & Hc & Hst & Ho). cbn in Hc.
    unfold onSession, set_client. intros [= <-]. split; [by apply (sound_client w1)|]. left. split; [done|].
    unfold WriteEnd. destruct (pfw_closed pw).
    { eexists. split; [etransitivity; [|exact Ho]; cbn; by rewrite Hc|]. rewrite Hid, He. unfold encodePages.
      apply prefix_app. by apply prefix_app_r. }
    destruct (writePageFrameFull (pfw_w pw) [pageFrameTypeEnd]) as [err c'] eqn:Hwr.
    destruct (writePageFrameFull_part _ _ _ _ Hwr) as (part & Hp1 & Hp2 & _). rewrite Hc, Ho in Hp1.
    eexists. split; [transitivity (Io.out c'); [by destruct err|]; rewrite Hp1, <- app_assoc; reflexivity|].
    rewrite Hid, He, <- app_assoc. unfold encodePages. by do 2 apply prefix_app.
  - intros [= <-]. split; [done|]. left. destruct Hres as [_ [? Hcut]]. split; [done|]. by rewrite Hid, He in Hcut.
Qed.

Lemma serveInternalPageRead_spec r q w w' :
  decodeBody unmarshalPageRead r = Some q -> asks q ->
  store_ok version pageSizeOf p target (internalPageReadUpstreamRequest r q) ->
  sound version pageSizeOf w -> status w = None ->
  serveInternalPageRead p rt r w = ((), w') ->
  sound version pageSizeOf w' /\ page_answer q w w'.
Proof.
  intros Hdec Hq Hk Hw Hst. unfold serveInternalPageRead, requirePost. destruct (negb _).
  { unfold mbind, P_bind. destruct (modifyHeader _ w) as [[] w1] eqn:E. injection E as <-. by apply httpError_answer. }
  rewrite Hdec. destruct (validateInternalPageReadRequest q) eqn:Hval; [by apply httpError_answer|].
  assert (Hne : pr_ETag q <> "").
  { intros He. revert Hval. unfold validateInternalPageReadRequest. rewrite (bool_decide_true (pr_ETag q = "")) by done.
    by repeat (case_match; try done). }
  destruct (negb _); [by apply httpError_answer|]. cbv zeta. rewrite (as_bucket _ Hq), (as_key _ Hq).
  replace (mkTarget (Bucket target) (Key target)) with target by (by destruct target).
  unfold mbind at 1, P_bind at 1. destruct (internalPageReadObject q w) as [o w1] eqn:Ho.
  destruct (internalPageReadObject_spec q w o w1 Hq Hne Hw Ho) as (Hw1 & Hu1 & Href & Hfound).
  pose proof (unanswered_status _ _ Hu1 Hst) as Hst1.
  destruct o as [obj|[text code]]; [|by apply httpError_answer; [apply (Href text)|..]].
  specialize (Hfound obj eq_refl). pose proof Hfound as (Hv & He & Hsz & Hps). unfold mbind, P_bind.
  destruct (writeFrames _ _ _ _ _ _ _ w1) as [res w2] eqn:Hwf.
  destruct (writeFrames_spec obj Hv w Hst r q (pr_Pages q) [] (mkFrameState None false) w1 res w2) as [Hw2 Hres]; try done.
  { rewrite Hps, Hsz. apply (as_pages _ Hq). }
  destruct res as [st|]; [by apply writeEnd_spec with obj|]. intros [= <-]. split; [done|].
  destruct Hres as [[? Hcut]|Hcode]; [left|by right]. split; [done|]. destruct Hv as (_ & Hid & _). by rewrite Hid, He in Hcut.
Qed.

End Owner.
