(* ===== verification/ProxyCluster.v ===== *)
(** * Peers together ([internal/proxy/proxy.go])

    The two sides of the internal routes composed. A [Network] has a proxy at each base
    URL, and [networked] says that what a peer sends to a URL is answered by the
    [ServeHTTP] of the proxy there, over connections that may lose responses or cut them
    short. Then an invalidation that was acknowledged has been applied by the peer it
    was sent to, and if the caches of the owners of pages are sound they are what the
    coordinator of a read assumes ([peers_honest]). *)

From Stdlib Require Import Ascii.
From S2P Require Import Prelude GoStrings GoNet Sha256 Range S3Request Router PageFrame CachePath CacheDB CacheStore.
From S2P Require Import CacheLogic CacheInv CacheOps CacheRows ProxyPeers ProxySpan ProxyRead ProxyServe.
From S2P Require Import ProxyUpload ProxyHttp ProxyWrite ProxyMeta ProxyAuth ProxyBase ProxyCoord ProxyCold ProxyHandlers.
From S2P Require Import ProxyAnswers ProxyFrames ProxyOwner.
Import Strings.

#[local] Open Scope go_scope.

(** ** Routes *)

(** A request refused with an error status. *)
Definition refusal (w' : World) : Prop := exists code, 400 <= code /\ status w' = Some code.

Lemma httpError_refusal text code w w' : 400 <= code -> status w = None -> httpError text code w = ((), w') -> refusal w'.
Proof.
  intros Hc Hst. unfold httpError, writeClient, modifyHeader, setHeader, WriteHeader, onSession, getClient, set_client, mbind, P_bind.
  cbn. rewrite Hst. intros [= <-]. by exists code.
Qed.

Lemma validated_request rt secret now r r' d :
  validateInternalPeerHeaders rt secret now r = (Ok r', d) -> d = None /\ same_request (sr_http r) (sr_http r').
Proof.
  unfold validateInternalPeerHeaders. case_bool_decide; [done|]. destruct (PeerByID _ _); [|done]. destruct (_ || _); [done|].
  unfold validateInternalPeerSignature. intros [= Hok <-]. split; [done|]. revert Hok.
  case_bool_decide; [done|]. case_bool_decide; [done|]. destruct (ParseInt _ _); [|done]. destruct (_ || _); [done|].
  case_bool_decide; [done|]. destruct (hexDecode _); [|done].
  pose proof (restore_body (sr_http r)) as Hb. destruct (if HasPrefix _ _ then _ else _) as [[body q]|e]; [|done]. cbn.
  destruct (negb _); [done|]. intros [= <-]. apply Hb.
Qed.

Lemma refused_status rt secret now r text code d :
  validateInternalPeerHeaders rt secret now r = (Err (text, code), d) -> 400 <= code.
Proof.
  unfold validateInternalPeerHeaders. case_bool_decide; [by intros [= <- <- <-]|].
  destruct (PeerByID _ _); [|by intros [= <- <- <-]]. destruct (_ || _); [by intros [= <- <- <-]|].
  unfold validateInternalPeerSignature. intros [= Hok <-]. revert Hok.
  case_bool_decide; [by intros [= <- <-]|]. case_bool_decide; [by intros [= <- <-]|].
  destruct (ParseInt _ _); [|by intros [= <- <-]]. destruct (_ || _); [by intros [= <- <-]|].
  case_bool_decide; [by intros [= <- <-]|]. destruct (hexDecode _); [|by intros [= <- <-]].
  destruct (if HasPrefix _ _ then _ else _) as [[body q]|e] eqn:Hr.
  - cbn. destruct (negb _); by intros [= <- <-].
  - cbn. intros [= ->]. destruct (HasPrefix _ _); [done|]. unfold readAndRestoreInternalPeerBody in Hr.
    destruct (hr_Body _) as [b|]; [|done]. destruct (_ >? _); [by injection Hr as <- <-|].
    case_bool_decide; [done|]. by injection Hr as <- <-.
Qed.

Section Cluster.
Context `{HeaderCodec, PeerCodec, ErrorText}.

Definition internal_route (path : string) : Prop :=
  path = "/internal/v1/pages/read" \/ path = "/internal/v1/invalidate".

(** What an internal route leads to. *)
Definition internalHandler (po : Proxy) (rt : Router) (path : string) (q : HttpRequest) : P () :=
  if bool_decide (path = "/internal/v1/pages/read") then serveInternalPageRead po rt q else serveInternalInvalidate q.

(** A request on one of the two routes is refused, or served as received. *)
Lemma route_spec po now r w w' path :
  internal_route path -> hr_Path (sr_http r) = path -> status w = None -> ServeHTTP po now r w = ((), w') ->
  refusal w' \/ exists rt q, same_request (sr_http r) q /\ internalHandler po rt path q w = ((), w').
Proof.
  intros Hpath Hp Hst. unfold ServeHTTP. rewrite Hp.
  assert (isInternalRoute path = true) as -> by (destruct Hpath as [->| ->]; by vm_compute).
  unfold serveInternalHTTP. destruct (px_router po) as [rt|]; [|intros Hrun; left; by eapply httpError_refusal; [|exact Hst|exact Hrun]].
  destruct (validateInternalPeerHeaders _ _ _ r) as [[r'|[text code]] d] eqn:Hv.
  - destruct (validated_request _ _ _ _ _ _ Hv) as [-> Hsame]. unfold mbind, P_bind. cbn [mret P_ret].
    pose proof Hsame as (_ & Hpa & _). rewrite Hpa, Hp.
    assert (HasPrefix path (internalObjectRoutePrefix +:+ "/") = false) as -> by (destruct Hpath as [->| ->]; by vm_compute).
    intros Hrun. right. exists rt, (sr_http r'). split; [exact Hsame|]. unfold internalHandler.
    destruct Hpath as [->| ->]; exact Hrun.
  - pose proof (refused_status _ _ _ _ _ _ _ Hv) as Hc. unfold mbind, P_bind. intros Hrun. left. revert Hrun.
    destruct d as [[reason context]|]; apply httpError_refusal; done.
Qed.

(** The body of a request, as the decoder of the peer sees it. *)
Lemma decode_spec {A} (unmarshal : bytes -> option A) (data : bytes) (a b : A) q :
  from_option Io.content [] (hr_Body q) = data -> unmarshal data = Some a ->
  (forall n, (n < length data)%nat -> unmarshal (take n data) = None) ->
  decodeBody unmarshal q = Some b -> b = a.
Proof.
  intros Hd Ha Ht. unfold decodeBody. rewrite Hd. destruct (le_lt_dec (length data) (Z.to_nat 1048576)) as [Hle|Hlt].
  - rewrite take_ge by done. congruence.
  - by rewrite (Ht _ Hlt).
Qed.

(** ** The network between peers *)

Definition bodyBytes (b : Body) : bytes := match b with ClientBody r => Io.content r | _ => [] end.

(** What a peer is connected to: the proxy that listens at a base URL without its last
    slashes, and for the request with this number the receiver's clock, the request as
    it is received and the state of the receiver, which serves it next. *)
Record Network := mkNetwork {
  nw_peer : string -> option Proxy;
  nw_clock : nat -> UpstreamRequest -> Z;
  nw_request : nat -> UpstreamRequest -> ServerRequest;
  nw_before : nat -> UpstreamRequest -> World }.

(** The state of the receiver after it served the request. *)
Definition nw_after (net : Network) (po : Proxy) (n : nat) (req : UpstreamRequest) : World :=
  (ServeHTTP po (nw_clock net n req) (nw_request net n req) (nw_before net n req)).2.

(** The response to a request on an internal route at [base] is that of the proxy
    there: the request arrives with the route as its path and with its body, it is served
    with no response begun, and the response has the status that was written and, of
    what was written, the bytes up to some point. *)
Record delivery (net : Network) (n : nat) (req : UpstreamRequest) (resp : HttpResponse) (base route : string) (po : Proxy)
    : Prop := {
  dl_peer : nw_peer net (TrimRightByte base "/") = Some po;
  dl_path : hr_Path (sr_http (nw_request net n req)) = route;
  dl_body : from_option Io.content [] (hr_Body (sr_http (nw_request net n req))) = bodyBytes (up_Body req);
  dl_fresh : status (nw_before net n req) = None /\ Io.out (client (session (nw_before net n req))) = [];
  dl_status : status (nw_after net po n req) = Some (rs_Status resp);
  dl_content : Io.content (rs_Body resp) `prefix_of` Io.out (client (session (nw_after net po n req))) }.

Definition networked (p : Proxy) (net : Network) : Prop :=
  forall n req resp base route, internal_route route -> up_Path req = TrimRightByte base "/" +:+ route ->
    px_peerOrigin p n req = Some resp -> exists po, delivery net n req resp base route po.

Lemma dl_run net n req resp base route po :
  delivery net n req resp base route po ->
  ServeHTTP po (nw_clock net n req) (nw_request net n req) (nw_before net n req) = ((), nw_after net po n req).
Proof. intros _. unfold nw_after. by destruct (ServeHTTP _ _ _ _) as [[] w]. Qed.

Context (version : string -> bytes -> bytes) (pageSizeOf : string -> Z).

(** What the answers of owners rest on: the receiver's cache is sound when it serves
    the request, and the store answers it as documented. *)
Record sound_owners (net : Network) : Prop := {
  so_sound n req : sound version pageSizeOf (nw_before net n req);
  so_store base po q q' : nw_peer net base = Some po ->
    store_ok version pageSizeOf po (mkTarget (pr_Bucket q) (pr_Key q)) (internalPageReadUpstreamRequest q' q) }.

Lemma refusal_status w code : refusal w -> status w = Some code -> 400 <= code.
Proof. intros (c & Hc & ->) [= <-]. done. Qed.

(** A body that does not decode is refused. *)
Lemma requirePost_refusal q text w w' :
  status w = None -> requirePost q (httpError text 400) w = ((), w') -> refusal w'.
Proof.
  intros Hst. unfold requirePost. destruct (negb _).
  - unfold mbind, P_bind. destruct (modifyHeader _ w) as [[] w1] eqn:E.
    apply httpError_refusal; [done|]. by injection E as <-.
  - by apply httpError_refusal.
Qed.

(** What an owner sends for a page request. *)
Lemma delivered_pages net n req resp base po q :
  let w := nw_before net n req in let w' := nw_after net po n req in
  delivery net n req resp base "/internal/v1/pages/read" po -> sound_owners net ->
  up_Body req = ClientBody (bytesReader (marshalPageRead q)) -> rs_Status resp = 200 ->
  json_text (pr_Bucket q) -> json_text (pr_Key q) ->
  (0 < pageSizeOf (ObjectKey (pr_Bucket q) (pr_Key q)) -> asks version pageSizeOf (mkTarget (pr_Bucket q) (pr_Key q)) q) ->
  json_text (pr_ETag q) ->
  sound version pageSizeOf w' /\ page_answer version pageSizeOf (mkTarget (pr_Bucket q) (pr_Key q)) q w w'.
Proof.
  intros w w' Hd Hso Hbody H200 Ht1 Ht2 Hasks Ht3. pose proof (pageRead_roundtrip q Ht1 Ht2 Ht3) as Hround.
  destruct (dl_fresh _ _ _ _ _ _ _ Hd) as [Hst _]. pose proof (dl_body _ _ _ _ _ _ _ Hd) as Hb.
  pose proof (fun q' => so_store _ Hso _ _ q q' (dl_peer _ _ _ _ _ _ _ Hd)) as Hstore.
  rewrite Hbody in Hb. cbn [bodyBytes] in Hb. rewrite content_bytesReader in Hb.
  pose proof (dl_status _ _ _ _ _ _ _ Hd) as Hst'. rewrite H200 in Hst'. fold w w' in Hst, Hst'.
  destruct (route_spec po _ _ w w' _ (or_introl eq_refl) (dl_path _ _ _ _ _ _ _ Hd) Hst (dl_run _ _ _ _ _ _ _ Hd))
    as [Href|(rt & q0 & Hsame & Hrun)].
  { by pose proof (refusal_status _ _ Href Hst'). }
  unfold internalHandler in Hrun. rewrite bool_decide_true in Hrun by done. destruct Hsame as (_ & _ & _ & _ & _ & Hcont).
  destruct (decodeBody unmarshalPageRead q0) as [b|] eqn:Hdec.
  - assert (b = q) as ->.
    { refine (decode_spec unmarshalPageRead (marshalPageRead q) q b q0 _ Hround (pageRead_truncated q) Hdec). congruence. }
    specialize (Hstore q0). apply (serveInternalPageRead_spec version pageSizeOf po rt _ q0 q w w'); try done.
    + apply Hasks. apply (sk_pageSize _ _ _ _ _ Hstore).
    + apply (so_sound _ Hso).
  - exfalso. assert (Href : refusal w').
    { unfold serveInternalPageRead in Hrun. rewrite Hdec in Hrun. by eapply requirePost_refusal. }
    by pose proof (refusal_status _ _ Href Hst').
Qed.

(** The peer has taken in the epoch: its generation is at least that, and an object
    that is left is newer. *)
Definition told (target : Target) (epoch : Z) (c : Cache) : Prop :=
  let id := ObjectKey (Bucket target) (Key target) in
  (exists g, generations (db c) !! id = Some g /\ epoch <= g_epoch g) /\
  forall o, objects (db c) !! id = Some o -> epoch < o_epoch o.

Lemma serveInternalInvalidate_spec q w w' code :
  status w = None -> serveInternalInvalidate q w = ((), w') -> status w' = Some code -> code < 400 ->
  exists req, decodeBody unmarshalInvalidate q = Some req /\
    told (mkTarget (iv_Bucket req) (iv_Key req)) (iv_Epoch req) (cache (session w')).
Proof.
  intros Hst Hrun Hcode Hlt.
  assert (Hno : refusal w' -> False) by (intros Href; pose proof (refusal_status _ _ Href Hcode); lia).
  unfold serveInternalInvalidate in Hrun. destruct (decodeBody unmarshalInvalidate q) as [req|].
  2: { destruct (Hno (requirePost_refusal _ _ _ _ Hst Hrun)). }
  destruct (validateInternalInvalidateRequest req) as [text|] eqn:Hval.
  { destruct (Hno (requirePost_refusal _ _ _ _ Hst Hrun)). }
  unfold requirePost in Hrun. destruct (negb _).
  { exfalso. apply Hno. unfold mbind, P_bind in Hrun. revert Hrun. destruct (modifyHeader _ w) as [[] w1] eqn:E.
    apply httpError_refusal; [done|]. by injection E as <-. }
  exists req. split; [done|]. unfold mbind, P_bind, cacheCall, onSession in Hrun.
  destruct (onCache_seen (InvalidateObject (iv_Bucket req) (iv_Key req) (iv_Epoch req)) (session w)) as (Hc & Hr & _).
  destruct (onCache _ _ (session w)) as [r0 s0]. cbn [fst snd] in Hc, Hr.
  pose proof (InvalidateObject_tx (iv_Bucket req) (iv_Key req) (iv_Epoch req) (seen (session w))) as Htx.
  unfold wp in Htx. rewrite <- Hr, <- Hc in Htx. destruct r0 as [epoch|e].
  - destruct (Htx epoch eq_refl) as (_ & _ & now & _ & Hdb). unfold told. cbn [Bucket Key].
    assert (Hcache : cache (session w') = cache s0) by (revert Hrun; by intros [= <-]). rewrite Hcache, Hdb.
    apply invalidateTx_told. unfold validateInternalInvalidateRequest in Hval. do 2 (case_bool_decide; [done|]).
    destruct (Z.leb_spec (iv_Epoch req) 0); [done|lia].
  - exfalso. apply Hno. revert Hrun. apply httpError_refusal; [done|exact Hst].
Qed.

(** A peer was told between [w] and [w']: a request went out after the requests
    [earlier] (the list has the newest first), to the peer's URL, and was answered with
    success by the proxy there, which had then applied the invalidation. *)
Definition peer_told (p : Proxy) (net : Network) (target : Target) (epoch : Z) (w w' : World) (peer : Peer) : Prop :=
  exists req resp po earlier afterwards,
    requests w' = afterwards ++ req :: earlier /\ requests w `suffix_of` earlier /\
    up_Path req = TrimRightByte (URL peer) "/" +:+ "/internal/v1/invalidate" /\
    let n := (length earlier + length (sent (session w)))%nat in
    px_peerOrigin p n req = Some resp /\ 200 <= rs_Status resp < 300 /\
    nw_peer net (TrimRightByte (URL peer) "/") = Some po /\
    told target epoch (cache (session (nw_after net po n req))).

(** An invalidation that [sendPeerInvalidation] reports as accepted was applied by the
    peer it was sent to. *)
Lemma acknowledged p net rt peer target epoch w w' :
  networked p net -> json_text (Bucket target) -> json_text (Key target) ->
  sendPeerInvalidation p rt peer target epoch w = (true, w') ->
  peer_told p net target epoch w w' peer.
Proof.
  intros Hnet Ht1 Ht2 Hrun. destruct (sendPeerInvalidation_spec p rt peer target epoch w) as (_ & _ & Hsent).
  rewrite Hrun in Hsent. destruct (Hsent eq_refl) as (h & resp & Hreq & Hresp & Hcode). clear Hsent. cbn [snd] in Hreq.
  set (req := withHeader h (invalidationRequest rt peer target epoch)) in *.
  destruct (Hnet _ req resp (URL peer) _ (or_intror eq_refl) eq_refl Hresp) as [po Hd].
  exists req, resp, po, (requests w), []. split; [done|]. split; [done|]. split; [done|]. cbv zeta.
  set (n := (length (requests w) + length (sent (session w)))%nat) in *.
  split; [done|]. split; [done|]. split; [apply (dl_peer _ _ _ _ _ _ _ Hd)|].
  destruct (dl_fresh _ _ _ _ _ _ _ Hd) as [Hst _]. pose proof (dl_status _ _ _ _ _ _ _ Hd) as Hst'.
  pose proof (dl_body _ _ _ _ _ _ _ Hd) as Hb. cbn [req withHeader invalidationRequest up_Body bodyBytes] in Hb.
  rewrite content_bytesReader in Hb.
  destruct (route_spec po _ _ _ _ _ (or_intror eq_refl) (dl_path _ _ _ _ _ _ _ Hd) Hst (dl_run _ _ _ _ _ _ _ Hd))
    as [Href|(rt' & q0 & Hsame & Hserve)].
  { pose proof (refusal_status _ _ Href Hst'). lia. }
  unfold internalHandler in Hserve. rewrite bool_decide_false in Hserve by done.
  destruct (serveInternalInvalidate_spec q0 _ _ _ Hst Hserve Hst' ltac:(lia)) as (b & Hdec & Htold).
  destruct Hsame as (_ & _ & _ & _ & _ & Hcont). set (q := mkInvalidate (Bucket target) (Key target) epoch) in *.
  assert (b = q) as ->; [|by destruct target].
  refine (decode_spec unmarshalInvalidate (marshalInvalidate q) q b q0 _ (invalidate_roundtrip q Ht1 Ht2) (invalidate_truncated q) Hdec).
  congruence.
Qed.

Lemma accepted_told p net rt peer target epoch w w' :
  networked p net -> json_text (Bucket target) -> json_text (Key target) -> px_router p = Some rt ->
  accepted (sendInvalidation p peer target epoch) w w' ->
  peer_told p net target epoch w w' peer.
Proof.
  intros Hnet Ht1 Ht2 Hrt (w1 & w2 & (_ & _ & _ & _ & Hs1 & _ & _ & [l1 Hl1]) & Hrun & (_ & _ & _ & _ & _ & _ & _ & [l2 Hl2])).
  unfold sendInvalidation in Hrun. rewrite Hrt in Hrun.
  destruct (acknowledged p net rt peer target epoch w1 w2 Hnet Ht1 Ht2 Hrun) as (req & resp & po & earlier & afterwards & Ha & Hb & Hrest).
  exists req, resp, po, earlier, (l2 ++ afterwards). rewrite Hs1 in Hrest. split; [by rewrite Hl2, Ha, app_assoc|].
  split; [|exact Hrest]. etransitivity; [|exact Hb]. rewrite Hl1. by exists l1.
Qed.

End Cluster.

(** C10: the owners of pages are what the coordinator of a read assumes they are.
    Let the requests of [p] to other peers be answered by the [ServeHTTP] of the proxies
    at their URLs, over connections that may lose responses or cut them short
    ([networked]), and let the owners be sound: when they serve a request their caches
    hold pages of versions cut with one page size for each object, which is the one the
    request names, other requests keep it so, and their store behaves as documented
    ([sound_owners]). Then a response of status [200] to a page request is a prefix of
    the frames of exactly the pages asked for, of the version asked for, whichever of
    them are cached, whatever fails at the owner and in its store, and whether pages come
    from the cache or are fetched and saved on the way. *)
Theorem owners_are_honest `{HeaderCodec, PeerCodec, ErrorText} (version : string -> bytes -> bytes) (pageSizeOf : string -> Z)
    (p : Proxy) (net : Network) :
  networked p net -> sound_owners version pageSizeOf net -> peers_honest version pageSizeOf p.
Proof.
  intros Hnet Hso n req resp q base Hurl Hbody Hresp H200 id Ht1 Ht2 Ht3 Hps Hsz Hbd Hpages.
  destruct (Hnet n req resp base _ (or_introl eq_refl) Hurl Hresp) as [po Hd].
  destruct (delivered_pages version pageSizeOf net n req resp base po q Hd Hso Hbody H200 Ht1 Ht2) as [_ Hans]; [|done|].
  { intros Hpos. constructor; cbn; try done. by rewrite Hps. }
  destruct (dl_fresh _ _ _ _ _ _ _ Hd) as [_ Hout]. pose proof (dl_status _ _ _ _ _ _ _ Hd) as Hst'.
  destruct Hans as [(_ & part & Ho & Hp)|(code & Hne & Hc)]; [|congruence].
  etransitivity; [apply (dl_content _ _ _ _ _ _ _ Hd)|]. by rewrite Ho, Hout.
Qed.


(** ** A ring of two peers

    The peer [p1] sends its requests to [p2], which runs them on an empty cache. *)

#[local] Existing Instance emptyCodec.
#[local] Existing Instance bitCodec.

#[local] Instance plainErrors : ErrorText :=
  {| messageOf _ := "error"; canceled e := match e with ErrCanceled => true | _ => false end |}.

Definition ringMember (local : string) (origin peer : nat -> UpstreamRequest -> option HttpResponse) : Proxy :=
  mkProxy demoEndpoint (fun _ => true) Some origin true (mkPageSizes 8 ∅) (mkUploadOptions "" 100) demoSpool
    (match newRouter local demoPeers true with Ok rt => Some rt | Err _ => None end)
    peer "secret" "page" 0 (fun _ => None) (fun n => Z.of_nat n) (fun _ => 3%nat) (fun _ l => l).

Definition peerTwo : Proxy := ringMember "p2" alphaStore (fun _ _ => None).

(** The request as [p2] receives it. *)
Definition receivedAs (req : UpstreamRequest) : ServerRequest :=
  let route := if HasSuffix (up_Path req) "/internal/v1/invalidate" then "/internal/v1/invalidate" else "/internal/v1/pages/read" in
  mkServerRequest (mkHttpRequest (up_Method req) route "" (up_Header req) (Some (bytesReader (bodyBytes (up_Body req))))
    (up_ContentLength req)) route.

(** Only [p2] is there. *)
Definition ring : Network :=
  mkNetwork (fun base => if bool_decide (base = "http://p2") then Some peerTwo else None) (fun _ _ => 0)
    (fun _ => receivedAs) (fun _ _ => freshWorld (emptyCache 100)).

Definition urlsOfTwo : list string := ["http://p2/internal/v1/pages/read"; "http://p2/internal/v1/invalidate"].

Definition runPeer (n : nat) (req : UpstreamRequest) : option HttpResponse :=
  if negb (bool_decide (up_Path req ∈ urlsOfTwo)) then None
  else
    let w := nw_after ring peerTwo n req in
    (fun code => mkHttpResponse code (header w) (-1) (bytesReader (Io.out (client (session w))))) <$> status w.

Definition peerOne (origin : nat -> UpstreamRequest -> option HttpResponse) : Proxy := ringMember "p1" origin runPeer.

(** A URL of [p2] is its base and a route in one way. *)
Lemma url_of_two a route :
  internal_route route -> a +:+ route ∈ urlsOfTwo -> a = "http://p2".
Proof.
  intros Hroute Hin.
  assert (Hrev : forall b r, a +:+ route = b +:+ r -> srev route = srev r -> a = b).
  { intros b r Heq Hr. apply (f_equal srev) in Heq. rewrite !srev_append, Hr in Heq.
    assert (Hcancel : forall x y z, x +:+ y = x +:+ z -> y = z).
    { intros x y z. induction x as [|c x IH]; [done|]. rewrite !append_cons. intros [= H]. by apply IH. }
    apply Hcancel in Heq. by rewrite <- (srev_involutive a), Heq, srev_involutive. }
  assert (Hne : forall b r, a +:+ route = b +:+ r -> (exists c t d t', srev route = String c t /\ srev r = String d t' /\ c <> d) -> False).
  { intros b r Heq (c & t & d & t' & H1 & H2 & Hcd). apply (f_equal srev) in Heq. rewrite !srev_append, H1, H2, !append_cons in Heq.
    by injection Heq. }
  unfold urlsOfTwo in Hin. rewrite !elem_of_cons in Hin. destruct Hin as [Hin|[Hin|Hin]]; [..|by apply not_elem_of_nil in Hin].
  - change "http://p2/internal/v1/pages/read" with ("http://p2" +:+ "/internal/v1/pages/read") in Hin.
    destruct Hroute as [->| ->]; [by eapply Hrev|]. exfalso. eapply Hne; [exact Hin|]. do 4 eexists. by split_and!.
  - change "http://p2/internal/v1/invalidate" with ("http://p2" +:+ "/internal/v1/invalidate") in Hin.
    destruct Hroute as [->| ->]; [|by eapply Hrev]. exfalso. eapply Hne; [exact Hin|]. do 4 eexists. by split_and!.
Qed.

Lemma ring_networked origin : networked (peerOne origin) ring.
Proof.
  intros n req resp base route Hroute Hurl Hresp. change (runPeer n req = Some resp) in Hresp. unfold runPeer in Hresp.
  case_bool_decide as Hin; cbn [negb] in Hresp; [|done]. rewrite Hurl in Hin.
  pose proof (url_of_two _ _ Hroute Hin) as Hbase. exists peerTwo.
  destruct (status (nw_after ring peerTwo n req)) as [code|] eqn:Hst; [|done]. injection Hresp as <-. constructor.
  - rewrite Hbase. done.
  - cbn [ring nw_request]. unfold receivedAs, HasSuffix. rewrite Hurl, srev_append. destruct Hroute as [->| ->]; [reflexivity|].
    cbn [sr_http hr_Path]. by rewrite HasPrefix_append.
  - cbn [ring nw_request receivedAs sr_http hr_Body from_option]. by rewrite content_bytesReader.
  - by split.
  - exact Hst.
  - cbn [rs_Body]. by rewrite content_bytesReader.
Qed.

Lemma ring_sound : sound_owners ver pagesBy8 ring.
Proof.
  split.
  - intros n req. exact fresh_sound.
  - intros base po q q'. cbn [ring nw_peer]. case_bool_decide; [|done]. intros [= <-]. by apply alpha_store_ok.
Qed.

(** The request of [p1] for the first page of the object. *)
Definition pageRequestToTwo : UpstreamRequest :=
  let data := marshalPageRead (mkPageRead "b" "k" 20 8 "e1" 0 [0]) in
  let url := "http://p2/internal/v1/pages/read" in
  let h := Http.Set_ (Http.Set_ ∅ peerFromHeader "p1") peerRingHeader (from_option ringID "" (px_router peerTwo)) in
  mkUpstreamRequest MethodPost url "" "" (default ∅ (signPeer (peerOne alphaStore) 0 MethodPost url h data))
    (ClientBody (bytesReader data)) (zlen data).

Lemma owners_are_honest_witness :
  peers_honest ver pagesBy8 (peerOne alphaStore) /\
  (fun resp => (rs_Status resp, Io.content (rs_Body resp))) <$> px_peerOrigin (peerOne alphaStore) 0 pageRequestToTwo =
    Some (200, encodePages [mkPageFrame 0 (slice 0 8 alphabet)]).
Proof.
  split.
  - apply (owners_are_honest ver pagesBy8 (peerOne alphaStore) ring); [apply ring_networked|exact ring_sound].
  - vm_compute. reflexivity.
Defined.

Definition deleteRequest : ServerRequest := mkServerRequest demoDelete "/b/k".


(** ** Who gets in *)

Definition peerHeaders : list string :=
  [peerForwardedHeader; peerOwnerHeader; peerFromHeader; peerRingHeader; peerTimestampHeader; peerSignatureHeader].

Lemma strip_entries (l : list (string * list string)) (h h' : Http.Header) key :
  fold_left (fun h kv => if isPeerHeader kv.1 then Http.Del h kv.1 else h) l h = h' ->
  h !! key = None \/ (exists v, (key, v) ∈ l /\ isPeerHeader key = true /\ Http.CanonicalHeaderKey key = key) -> h' !! key = None.
Proof.
  revert h. induction l as [|[k v] l IH]; intros h; cbn [fold_left fst].
  { intros <- [?|(v & Hin & _)]; [done|]. by apply not_elem_of_nil in Hin. }
  intros Hl Hk. apply (IH _ Hl). destruct Hk as [Hn|(v' & Hin & Hp & Hc)].
  - left. destruct (isPeerHeader k); [|done]. unfold Http.Del. by rewrite lookup_delete_None; right.
  - apply elem_of_cons in Hin as [[= <- <-]|Hin]; [left|right; by exists v'].
    rewrite Hp. unfold Http.Del. by rewrite Hc, lookup_delete_eq.
Qed.

Lemma strip_peer_header h k : k ∈ peerHeaders -> Http.Get (stripPeerHeaders h) k = "".
Proof.
  intros Hk. assert (Hp : isPeerHeader k = true /\ Http.CanonicalHeaderKey k = k).
  { unfold peerHeaders in Hk. repeat (apply elem_of_cons in Hk as [->|Hk]; [by vm_compute|]). by apply not_elem_of_nil in Hk. }
  destruct Hp as [Hp Hc]. unfold Http.Get, Http.Values. rewrite Hc.
  rewrite (strip_entries (map_to_list h) h (stripPeerHeaders h) k eq_refl); [done|].
  destruct (h !! k) as [v|] eqn:Hv; [right; exists v|by left]. split; [by apply elem_of_map_to_list|done].
Qed.

(** C11: only peers reach the internal routes, and nobody else passes for one. A
    request outside [/internal/v1] is handled without the headers of peers, whatever
    the client sent, so it never counts as forwarded. A request inside it is either
    validated, its sender, ring, age and signature, or it is refused with an error
    status and leaves the cache as it was. *)
Theorem internal_routes_are_guarded `{HeaderCodec, PeerCodec, ErrorText} (p : Proxy) (now : Z) (r : ServerRequest) (w w' : World) :
  status w = None -> ServeHTTP p now r w = ((), w') ->
  if isInternalRoute (hr_Path (sr_http r)) then
    (exists rt r', px_router p = Some rt /\ validateInternalPeerHeaders rt (px_secret p) now r = (Ok r', None)) \/
    (refusal w' /\ cache (session w') = cache (session w) /\ env (session w') = env (session w))
  else exists r', serveS3HTTP p r' w = ((), w') /\ sr_URI r' = sr_URI r /\
    hr_Method (sr_http r') = hr_Method (sr_http r) /\ hr_Body (sr_http r') = hr_Body (sr_http r) /\
    forall k, k ∈ peerHeaders -> Http.Get (hr_Header (sr_http r')) k = "".
Proof.
  intros Hst. unfold ServeHTTP. destruct (isInternalRoute (hr_Path (sr_http r))).
  2: { intros Hrun. eexists. split; [exact Hrun|]. split_and!; [done..|]. intros k. apply strip_peer_header. }
  assert (Herr : forall text code w1, 400 <= code -> status w1 = None -> cache (session w1) = cache (session w) ->
    env (session w1) = env (session w) -> httpError text code w1 = ((), w') ->
    refusal w' /\ cache (session w') = cache (session w) /\ env (session w') = env (session w)).
  { intros text code w1 Hc Hs Hca He Hrun. split; [by eapply httpError_refusal|].
    pose proof (calm_httpError text code w1) as Hcalm. rewrite Hrun in Hcalm. destruct Hcalm as (Hc1 & He1 & _). cbn in Hc1, He1. split; congruence. }
  unfold serveInternalHTTP. destruct (px_router p) as [rt|]; [|intros Hrun; right; by eapply (Herr _ 404)].
  destruct (validateInternalPeerHeaders _ _ _ r) as [[r'|[text code]] d] eqn:Hv.
  - intros _. left. exists rt, r'. destruct (validated_request _ _ _ _ _ _ Hv) as [-> _]. done.
  - pose proof (refused_status _ _ _ _ _ _ _ Hv) as Hc. unfold mbind, P_bind. intros Hrun. right. revert Hrun.
    destruct d as [[reason context]|]; by apply Herr.
Qed.

(** An invalidation without a signature is refused. *)
Definition unsignedInvalidation : ServerRequest :=
  mkServerRequest (mkHttpRequest "POST" "/internal/v1/invalidate" ""
    (Http.Set_ (Http.Set_ ∅ peerFromHeader "p1") peerRingHeader (from_option ringID "" (px_router peerTwo)))
    (Some (bytesReader (marshalInvalidate (mkInvalidate "b" "k" 1)))) 0) "/internal/v1/invalidate".

Lemma internal_routes_are_guarded_witness :
  cache (session (ServeHTTP peerTwo 0 unsignedInvalidation (freshWorld alphaCache)).2) = alphaCache.
Proof.
  destruct (ServeHTTP peerTwo 0 unsignedInvalidation (freshWorld alphaCache)) as [[] w'] eqn:Hrun.
  pose proof (internal_routes_are_guarded peerTwo 0 unsignedInvalidation (freshWorld alphaCache) w' eq_refl Hrun) as Hg.
  change (isInternalRoute (hr_Path (sr_http unsignedInvalidation))) with true in Hg. destruct Hg as [(rt & r' & Hrt & Hv)|(_ & Hc & _)].
  - exfalso. assert (Hno : (fun rt => match (validateInternalPeerHeaders rt (px_secret peerTwo) 0 unsignedInvalidation).1 with
      Ok _ => true | Err _ => false end) <$> px_router peerTwo = Some false) by (vm_compute; reflexivity).
    rewrite Hrt in Hno. cbn [fmap option_fmap option_map] in Hno. rewrite Hv in Hno. discriminate Hno.
  - exact Hc.
Defined.
