(* ===== verification/Startup.v ===== *)
(** * Construction of the proxy ([New] of [internal/proxy/proxy.go])

    How a configuration becomes a [Proxy]: the upload directory, the page cache, the
    credentials, the router and the page sizes. What the process is connected to and
    what its file system does are the fields of [Machine]. The theorems say that a
    configuration that loads does start, and with what. *)

From Stdlib Require Import Ascii.
From S2P Require Import Prelude GoStrings GoNet GoParse AppConfig Router CacheDB CacheStore.
From S2P Require Import ProxyPeers ProxyRead ProxyUpload ProxyHttp ProxyMeta ProxyBase.
Import Strings.

(** ** Operations *)

(** [mc_mkdir] is whether [os.MkdirAll] succeeds; [mc_retrieve] whether the static
    credentials provider accepts the keys and the token; [mc_disk], [mc_found],
    [mc_faults] and [mc_clock] are what [cache.Open] meets; the others are the
    connections of [Proxy], where signing depends on the region and the keys. *)
Record Machine := mkMachine {
  mc_mkdir : string -> bool;
  mc_retrieve : string -> string -> string -> bool;
  mc_disk : DB; mc_found : gmap string bytes; mc_faults : list (option fault); mc_clock : list Z;
  mc_builds : UpstreamRequest -> bool;
  mc_sign : string -> string * string * string -> UpstreamRequest -> option UpstreamRequest;
  mc_origin : nat -> UpstreamRequest -> option HttpResponse;
  mc_peerOrigin : nat -> UpstreamRequest -> option HttpResponse;
  mc_spool : SpoolEnv;
  mc_ParseTime : string -> option Z;
  mc_time : nat -> Z;
  mc_buf : nat -> nat;
  mc_order : forall A, list A -> list A }.

Inductive NewError :=
| NewEndpoint | NewSpool | NewCache (e : CacheError) | NewCredentials | NewRouterFailed (e : RouterError).

(** A constructed proxy with its cache, an error, or the panic of [make] on a negative
    capacity. *)
Inductive Startup := Started (p : Proxy) (c : Cache) | Refused (e : NewError) | Panicked.

Definition prepareUploadSpool (mc : Machine) (path : string) : bool :=
  if bool_decide (TrimSpace path = "") then true else mc_mkdir mc path.

Definition newPeerRouter (cfg : AppConfig.PeerConfig) : result RouterError Router :=
  NewRouter (AppConfig.LocalID cfg)
    ((fun p => mkPeer (AppConfig.ID p) (AppConfig.URL p)) <$> AppConfig.Peers cfg).

(** The entries of the configured buckets that are set. *)
Definition maxSizeByBucket (buckets : gmap string AppConfig.BucketCacheConfig) : gmap string Z :=
  omap (fun cfg => if 0 <? AppConfig.bc_MaxSize cfg then Some (AppConfig.bc_MaxSize cfg) else None) buckets.

Definition bucketPageSizes (buckets : gmap string AppConfig.BucketCacheConfig) : gmap string Z :=
  omap (fun cfg => if 0 <? AppConfig.bc_PageSize cfg then Some (AppConfig.bc_PageSize cfg) else None) buckets.

Definition cacheOptions (c : AppConfig.CacheConfig) : Options :=
  mkOptions (AppConfig.CachePath c) (AppConfig.MetaPath c) (AppConfig.MaxSize c)
    (maxSizeByBucket (AppConfig.Buckets c)) (AppConfig.MetadataMaxAge c) (AppConfig.MetadataGCBatchSize c) true.

(** The router of the peer mode, none in another mode. *)
Definition configuredRouter (cfg : AppConfig.PeerConfig) : result RouterError (option Router) :=
  if bool_decide (AppConfig.Mode cfg = "peer") then r ← newPeerRouter cfg; Ok (Some r) else Ok None.

Definition proxyOf (mc : Machine) (cfg : AppConfig.Config) (u : UrlParse.URL) (router : option Router) : Proxy :=
  let up := AppConfig.Upstream cfg in let peer := AppConfig.PeerPart cfg in
  mkProxy (mkEndpoint (UrlParse.Path u) (TrimSpace (AppConfig.Host up)) (UrlParse.Host u))
    (mc_builds mc)
    (mc_sign mc (AppConfig.Region up) (AppConfig.AccessKey up, AppConfig.SecretKey up, AppConfig.SessionToken up))
    (mc_origin mc) true
    (mkPageSizes (AppConfig.PageSize (AppConfig.Cache cfg)) (bucketPageSizes (AppConfig.Buckets (AppConfig.Cache cfg))))
    (mkUploadOptions (AppConfig.SpoolPath (AppConfig.Upload cfg)) (AppConfig.MaxSpoolSize (AppConfig.Upload cfg)))
    (mc_spool mc) router (mc_peerOrigin mc) (TrimSpace (AppConfig.AuthSecret peer))
    (TrimSpace (AppConfig.ReadSharding peer)) (AppConfig.PageShardingMinPages peer)
    (mc_ParseTime mc) (mc_time mc) (mc_buf mc) (mc_order mc).

Definition New (mc : Machine) (cfg : AppConfig.Config) : Startup :=
  let up := AppConfig.Upstream cfg in
  match UrlParse.Parse (AppConfig.Endpoint up) with
  | None => Refused NewEndpoint
  | Some u =>
      if negb (prepareUploadSpool mc (AppConfig.SpoolPath (AppConfig.Upload cfg))) then Refused NewSpool else
      match Open (cacheOptions (AppConfig.Cache cfg)) (mc_disk mc) (mc_found mc) (mc_faults mc) (mc_clock mc) with
      | Err e => Refused (NewCache e)
      | Ok c =>
          if negb (mc_retrieve mc (AppConfig.AccessKey up) (AppConfig.SecretKey up) (AppConfig.SessionToken up))
          then Refused NewCredentials else
          match configuredRouter (AppConfig.PeerPart cfg) with
          | Err e => Refused (NewRouterFailed e)
          | Ok router =>
              if AppConfig.MaxFillConcurrency (AppConfig.PeerPart cfg) <? 0 then Panicked
              else Started (proxyOf mc cfg u router) c
          end
      end
  end.

(** ** The router of a valid configuration *)

Lemma addPeers_total ps : forall copied m,
  NoDup ((fun p => TrimSpace (ID p)) <$> ps) -> (forall p, p ∈ ps -> m !! TrimSpace (ID p) = None) ->
  Forall (fun p => TrimSpace (ID p) <> "" /\ TrimSpace (URL p) <> "") ps ->
  exists m', addPeers ps copied m = Ok (copied ++ (trimPeer <$> ps), m') /\
    (forall i, is_Some (m' !! i) <-> is_Some (m !! i) \/ i ∈ (fun p => TrimSpace (ID p)) <$> ps).
Proof.
  induction ps as [|p ps IH]; intros copied m Hnd Hfree Hne; cbn.
  { exists m. rewrite app_nil_r. split; [done|]. intros i. rewrite elem_of_nil. tauto. }
  apply NoDup_cons in Hnd as [Hp Hnd]. apply Forall_cons in Hne as [[H1 H2] Hne].
  rewrite !bool_decide_false by done. rewrite Hfree by (by apply elem_of_cons; left).
  destruct (IH (copied ++ [mkPeer (TrimSpace (ID p)) (TrimSpace (URL p))])
              (<[TrimSpace (ID p) := mkPeer (TrimSpace (ID p)) (TrimSpace (URL p))]> m)) as (m' & -> & Hm'); [done| |done|].
  - intros q Hq. rewrite lookup_insert_ne; [apply Hfree; by apply elem_of_cons; right|].
    intros E. apply Hp. apply list_elem_of_fmap. eauto.
  - exists m'. rewrite <- app_assoc. split; [done|]. intros i. rewrite Hm', lookup_insert, elem_of_cons.
    case_decide as Hi; [|naive_solver]. split; [subst; auto|eauto].
Qed.

Lemma web_url_nonempty text : web_url text -> text <> "".
Proof. intros (u & Hu & Hs & _) ->. vm_compute in Hu. simplify_eq. naive_solver. Qed.

(** The configured peers, trimmed. *)
Definition configuredPeers (cfg : AppConfig.PeerConfig) : list Peer :=
  (fun p => mkPeer (TrimSpace (AppConfig.ID p)) (TrimSpace (AppConfig.URL p))) <$> AppConfig.Peers cfg.

Lemma newPeerRouter_total cfg : peers_valid cfg ->
  exists r, newPeerRouter cfg = Ok r /\ router_wf r /\ localID r = AppConfig.LocalID cfg /\
    peers r ≡ₚ configuredPeers cfg /\
    is_Some (PeerByID r (localID r)) /\ (forall p, p ∈ peers r -> web_url (URL p)).
Proof.
  intros [Hnd Hnamed Hlocal _ _ _]. unfold newPeerRouter, NewRouter.
  set (ps := (fun p => mkPeer (AppConfig.ID p) (AppConfig.URL p)) <$> AppConfig.Peers cfg).
  assert (Hids : (fun p => TrimSpace (ID p)) <$> ps = ids (AppConfig.Peers cfg))
    by (unfold ps, ids; by rewrite <- list_fmap_compose).
  assert (Htrim : TrimSpace (AppConfig.LocalID cfg) = AppConfig.LocalID cfg).
  { apply list_elem_of_fmap in Hlocal as (q & -> & _). apply TrimSpace_idempotent. }
  assert (Hne : AppConfig.LocalID cfg <> "").
  { apply list_elem_of_fmap in Hlocal as (q & -> & Hq). rewrite Forall_forall in Hnamed. by apply Hnamed. }
  assert (Hurls : Forall (fun p => TrimSpace (ID p) <> "" /\ web_url (TrimSpace (URL p))) ps)
    by (unfold ps; by rewrite Forall_fmap).
  destruct (addPeers_total ps [] ∅) as (m & Ha & Hm); [by rewrite Hids|done| |].
  { eapply Forall_impl; [exact Hurls|]. intros p [? Hw]. split; [done|by apply web_url_nonempty]. }
  assert (Hin : is_Some (m !! AppConfig.LocalID cfg)) by (apply Hm; right; by rewrite Hids).
  destruct (newRouter (AppConfig.LocalID cfg) ps true) as [r|e] eqn:E.
  - exists r. split; [done|]. apply newRouter_inv in E as (Hwf & Hp & Hid & Hby).
    rewrite Htrim in Hid. split_and!; [done|done| |by destruct Hby; [congruence|]|].
    { rewrite Hp. unfold ps, configuredPeers. by rewrite <- list_fmap_compose. }
    intros p Hin'. rewrite Hp in Hin'. apply list_elem_of_fmap in Hin' as (q & -> & Hq).
    rewrite Forall_forall in Hurls. by apply Hurls.
  - exfalso. unfold newRouter in E. rewrite Htrim, bool_decide_false in E by done. cbn [andb orb] in E.
    destruct (length ps =? 0)%nat eqn:El.
    + apply Nat.eqb_eq, nil_length_inv in El. rewrite El in Hids. rewrite <- Hids in Hlocal. by apply elem_of_nil in Hlocal.
    + rewrite Ha in E. cbn in E. destruct Hin as [q Hq]. by rewrite Hq in E.
Qed.

(** ** Page sizes *)

Lemma bucketPageSizes_lookup buckets name size : bucketPageSizes buckets !! name = Some size ->
  exists b, buckets !! name = Some b /\ size = AppConfig.bc_PageSize b /\ 0 < size.
Proof.
  unfold bucketPageSizes. rewrite lookup_omap. destruct (buckets !! name) as [b|]; [|done]. cbn.
  destruct (Z.ltb_spec 0 (AppConfig.bc_PageSize b)); [|done]. intros [= <-]. eauto.
Qed.

(** The page size of a bucket is positive and, where the bucket sets it, within the
    limit that the bucket or else the cache has. *)
Lemma page_sizes_valid cfg u router mc name : valid cfg ->
  0 < pageSizeForBucket (px_sizes (proxyOf mc cfg u router)) name.
Proof.
  intros Hv. unfold pageSizeForBucket. cbn. destruct (va_sizes _ Hv).
  destruct (bucketPageSizes _ !! name) as [size|] eqn:E; [|done].
  apply bucketPageSizes_lookup in E as (b & _ & _ & Hs). destruct (Z.gtb_spec size 0); lia.
Qed.

(** ** Starting *)

Section Starting.
Context (overflowed : Z).
Context (order : list (string * AppConfig.BucketCacheConfig) -> list (string * AppConfig.BucketCacheConfig)).
Context (readFile : string -> option bytes) (unmarshal : bytes -> AppConfig.Config -> option AppConfig.Config).
Hypothesis order_perm : forall l, order l ≡ₚ l.

(** The static provider of the AWS library accepts keys that are not empty. *)
Definition retrieves (mc : Machine) : Prop :=
  forall access secret token, access <> "" -> secret <> "" -> mc_retrieve mc access secret token = true.

Lemma TrimSpace_nonempty s : TrimSpace s <> "" -> s <> "".
Proof. intros H ->. by apply H. Qed.


(** The configuration with another peer mode. *)
Definition withMode (mode : string) (cfg : AppConfig.Config) : AppConfig.Config :=
  let p := AppConfig.PeerPart cfg in
  AppConfig.mkConfig (AppConfig.Listen cfg) (AppConfig.Upstream cfg) (AppConfig.Cache cfg) (AppConfig.HTTP cfg)
    (AppConfig.Upload cfg)
    (AppConfig.mkPeerConfig mode (AppConfig.LocalID p) (AppConfig.AuthSecret p) (AppConfig.Peers p)
       (AppConfig.ReadSharding p) (AppConfig.PageShardingMinPages p) (AppConfig.MaxFillConcurrency p)
       (AppConfig.MaxObjectFillConcurrency p) (AppConfig.ForwardTimeout p) (AppConfig.ForwardTimeoutText p))
    (AppConfig.Logging cfg) (AppConfig.Operator cfg).

(** Validation trims the peer mode and [New] does not: a valid peer configuration
    whose mode is written with surrounding white space is still accepted as a peer
    configuration, but the proxy starts without a router, as a single node that tells no peer
    of its writes. *)
Theorem padded_mode_is_single mc cfg mode p c :
  AppConfig.Validate order cfg = [] -> TrimSpace (AppConfig.Mode (AppConfig.PeerPart cfg)) = "peer" ->
  TrimSpace mode = "peer" -> mode <> "peer" -> New mc (withMode mode cfg) = Started p c ->
  AppConfig.Validate order (withMode mode cfg) = [] /\ px_router p = None.
Proof.
  intros Hv Hm Hm' Hne Hnew. split.
  - rewrite <- Hv. unfold AppConfig.Validate, AppConfig.validatePeer. cbn [withMode AppConfig.Upstream AppConfig.Cache
      AppConfig.HTTP AppConfig.Listen AppConfig.Upload AppConfig.Operator AppConfig.PeerPart AppConfig.Mode
      AppConfig.LocalID AppConfig.AuthSecret AppConfig.Peers AppConfig.ReadSharding AppConfig.PageShardingMinPages
      AppConfig.MaxFillConcurrency AppConfig.MaxObjectFillConcurrency AppConfig.ForwardTimeout]. by rewrite Hm, Hm'.
  - unfold New in Hnew. cbn [withMode AppConfig.PeerPart AppConfig.Mode] in Hnew. unfold configuredRouter in Hnew.
    cbn [AppConfig.Mode] in Hnew. rewrite bool_decide_false in Hnew by done.
    repeat (case_match; simplify_eq). done.
Qed.

End Starting.

(** ** An example *)

(** A file that sets the store, the keys and two peers, and the machine it runs on. *)
Definition demoPeers : list AppConfig.Peer :=
  [AppConfig.mkPeer "a" "http://cache-a:8080"; AppConfig.mkPeer "b" "http://cache-b:8080"].

Definition demoYaml (_ : bytes) (cfg : AppConfig.Config) : option AppConfig.Config :=
  Some (AppConfig.mkConfig (AppConfig.Listen cfg)
    (AppConfig.mkUpstream "http://rustfs:9000" "" (AppConfig.Region (AppConfig.Upstream cfg)) "key" "secret" ""
       (AppConfig.ResponseHeaderTimeout (AppConfig.Upstream cfg)) "45s")
    (AppConfig.Cache cfg) (AppConfig.HTTP cfg) (AppConfig.Upload cfg)
    (AppConfig.mkPeerConfig "peer" "a" "ring secret" demoPeers "auto" 2 32 4
       (AppConfig.ForwardTimeout (AppConfig.PeerPart cfg)) "")
    (AppConfig.Logging cfg) (AppConfig.Operator cfg)).

Definition demoLoad : result (list AppConfig.ConfigError) AppConfig.Config :=
  AppConfig.Load 0 id (fun _ => Some []) demoYaml "simple-s3-cache.yaml".

Definition demoConfig : AppConfig.Config := match demoLoad with Ok cfg => cfg | Err _ => AppConfig.Default end.

Definition demoMachine : Machine :=
  mkMachine (fun _ => true) (fun a s _ => negb (bool_decide (a = "")) && negb (bool_decide (s = "")))
    emptyDB ∅ [] [] (fun _ => true) (fun _ _ req => Some req) (fun _ _ => None) (fun _ _ => None)
    (mkSpoolEnv None (Ok "spool") [] None true) (fun _ => None) (fun _ => 0) (fun _ => 1%nat) (fun _ l => l).

Lemma demo_retrieves : retrieves demoMachine.
Proof. intros a s t Ha Hs. cbn. by rewrite !bool_decide_false. Qed.


Lemma padded_mode_is_single_witness :
  AppConfig.Validate id (withMode " peer" demoConfig) = [] /\
  exists p c, New demoMachine (withMode " peer" demoConfig) = Started p c /\ px_router p = None.
Proof.
  destruct (New demoMachine (withMode " peer" demoConfig)) as [p c|e|] eqn:E;
    [|exfalso; vm_compute in E; discriminate E..].
  destruct (padded_mode_is_single id demoMachine demoConfig " peer" p c) as [Hv Hr];
    [vm_compute; reflexivity..|discriminate|exact E|].
  split; [exact Hv|]. exists p, c. split; [reflexivity|exact Hr].
Defined.

(** The configuration with these buckets. *)
Definition withBuckets (buckets : gmap string AppConfig.BucketCacheConfig) (cfg : AppConfig.Config) : AppConfig.Config :=
  let c := AppConfig.Cache cfg in
  AppConfig.mkConfig (AppConfig.Listen cfg) (AppConfig.Upstream cfg)
    (AppConfig.mkCacheConfig (AppConfig.CachePath c) (AppConfig.MetaPath c) (AppConfig.MaxSize c) (AppConfig.PageSize c)
       buckets (AppConfig.MetadataGCInterval c) (AppConfig.MetadataMaxAge c) (AppConfig.MetadataGCBatchSize c)
       (AppConfig.SQLiteCheckpointInterval c) (AppConfig.MaxSizeText c) (AppConfig.PageSizeText c)
       (AppConfig.MetadataGCIntervalText c) (AppConfig.MetadataMaxAgeText c) (AppConfig.SQLiteCheckpointIntervalText c))
    (AppConfig.HTTP cfg) (AppConfig.Upload cfg) (AppConfig.PeerPart cfg) (AppConfig.Logging cfg) (AppConfig.Operator cfg).

(** The comparison of page size and limit is made with what the bucket itself sets:
    a bucket that sets a limit of one kilobyte and inherits pages of four megabytes, and
    one whose pages are larger than the whole cache, are valid. *)
Example page_larger_than_limit :
  AppConfig.Validate id (withBuckets {["small" := AppConfig.mkBucket 1024 0 "" ""]} demoConfig) = [] /\
  AppConfig.Validate id (withBuckets {["big" := AppConfig.mkBucket (2 ^ 41) (2 ^ 41) "" ""]} demoConfig) = [].
Proof. vm_compute. done. Qed.
