(* ===== verification/Server.v ===== *)
(** * The HTTP server and the process ([internal/server/server.go], [cmd/simple-s3-cache/main.go])

    The routes of the server with the part of [http.ServeMux] they use (Go 1.25),
    the answers of the health and operator endpoints, the response writer that
    counts for the access log, and the exit code of the process. The connection
    under the logging writer is an interface, the class [ResponseWriter]. *)

From Stdlib Require Import Ascii.
From stdpp Require Import relations.
From S2P Require Import Prelude GoStrings GoNet GoParse AppConfig S3Request CachePath Router CacheStore.
From S2P Require Import ProxyPeers ProxyBase Startup.
Import Strings.

(** ** Readiness and the state of a peer *)

(** [ops.DegradedState]; [Since] in nanoseconds, zero when it is not set. *)
Record OpsDegraded := mkOpsDegraded {
  od_Code : string; od_Reason : string; od_Since : Z; od_PeerID : string; od_RingID : string;
  od_Context : gmap string string }.
Record OpsReadiness := mkReadiness { or_Ready : bool; or_Degraded : option OpsDegraded }.
Record OpsPeer := mkOpsPeer { op_ID : string; op_URL : string; op_Local : bool }.
Record OpsPeerState := mkPeerState {
  ps_Mode : string; ps_LocalID : string; ps_RingID : string; ps_Peers : list OpsPeer; ps_CacheMode : string;
  ps_ReadSharding : string; ps_PageShardingMinPages : Z; ps_Ready : bool; ps_Degraded : option OpsDegraded;
  ps_AuthConfigured : bool }.

Section Ready.
(** The proxy, its degraded state and when that state was entered. *)
Context (p : Proxy) (degraded : option DegradedState) (since : Z).

Definition localPeerID : string := match px_router p with Some r => localID r | None => "" end.
Definition localRingID : string := match px_router p with Some r => ringID r | None => "" end.

(** A copy of the state ([cloneDegradedState]), with what [newDegradedState] put in it. *)
Definition currentDegradedState : option OpsDegraded :=
  (fun d => mkOpsDegraded (Code d) (Reason d) since localPeerID localRingID (Context_ d)) <$> degraded.

Definition currentDegradedReason : string := match currentDegradedState with Some d => od_Reason d | None => "" end.
Definition currentDegradedCode : string := match currentDegradedState with Some d => od_Code d | None => "" end.

Definition ReadinessDetail : OpsReadiness :=
  match currentDegradedState with
  | Some d => mkReadiness false (Some d)
  | None => mkReadiness true None
  end.

Definition Readiness : bool * string :=
  let readiness := ReadinessDetail in
  if or_Ready readiness then (true, "")
  else match or_Degraded readiness with Some d => (false, od_Reason d) | None => (false, "degraded") end.

Definition PeerState : OpsPeerState :=
  let readiness := ReadinessDetail in
  let auth := negb (bool_decide (TrimSpace (px_secret p) = "")) in
  match px_router p with
  | None => mkPeerState "single" "" "" [] "single" (px_readSharding p) (px_pageShardMin p) (or_Ready readiness)
              (or_Degraded readiness) auth
  | Some r => mkPeerState "peer" (localID r) (ringID r)
                ((fun q => mkOpsPeer (ID q) (URL q) (bool_decide (ID q = localID r))) <$> peers r)
                "peer" (px_readSharding p) (px_pageShardMin p) (or_Ready readiness) (or_Degraded readiness) auth
  end.

End Ready.

(** ** Health *)

(** What a handler answers: a fixed text, a JSON object, or the JSON of the state. *)
Inductive JsonValue := JString (s : string) | JBool (b : bool).
Inductive Body := Text (s : string) | Json (fields : gmap string JsonValue) | StateJson (s : OpsPeerState).
Record Answer := mkAnswer { an_status : Z; an_type : string; an_body : Body }.

(** [currentReadiness]: the handler may offer the detail, the plain check, or neither. *)
Definition currentReadiness (checker : option (bool * string)) (detail : option OpsReadiness) : OpsReadiness :=
  match detail with
  | Some readiness =>
      if or_Ready readiness then mkReadiness true None
      else match or_Degraded readiness with
           | None => mkReadiness false (Some (mkOpsDegraded "" "degraded" 0 "" "" ∅))
           | Some _ => readiness
           end
  | None =>
      match checker with
      | Some (false, reason) => mkReadiness false (Some (mkOpsDegraded "" reason 0 "" "" ∅))
      | _ => mkReadiness true None
      end
  end.

Section Health.
(** [t.UTC().Format(time.RFC3339Nano)] *)
Context (formatTime : Z -> string).

Definition field (key value : string) (m : gmap string JsonValue) : gmap string JsonValue :=
  if bool_decide (value = "") then m else <[key := JString value]> m.

Definition writeReadinessJSON (status : string) (readiness : OpsReadiness) : Body :=
  let response := <["status" := JString status]> (<["ready" := JBool (or_Ready readiness)]> ∅) in
  Json match or_Degraded readiness with
       | None => response
       | Some d =>
           let response := field "reason_code" (od_Code d) (field "reason" (od_Reason d) response) in
           let response := if od_Since d =? 0 then response
                           else <["since" := JString (formatTime (od_Since d))]> response in
           field "ring_id" (od_RingID d) (field "peer_id" (od_PeerID d) response)
       end.

Definition quoted (s : string) : string := String (chr 34) (s +:+ String (chr 34) "").

Definition healthz (readiness : OpsReadiness) : Answer :=
  if negb (or_Ready readiness) then mkAnswer 200 "application/json" (writeReadinessJSON "ok" readiness)
  else mkAnswer 200 "application/json"
         (Text ("{" +:+ quoted "status" +:+ ":" +:+ quoted "ok" +:+ "," +:+ quoted "ready" +:+ ":true}" +:+ str_of_bytes [10]%N)).

Definition readyz (readiness : OpsReadiness) : Answer :=
  if negb (or_Ready readiness) then mkAnswer 503 "application/json" (writeReadinessJSON "not_ready" readiness)
  else mkAnswer 200 "application/json"
         (Text ("{" +:+ quoted "status" +:+ ":" +:+ quoted "ready" +:+ "}" +:+ str_of_bytes [10]%N)).

End Health.

(** [operatorState]: [authorization] is the header of the request. *)
Definition operatorState (token authorization : string) (state : OpsPeerState) : Answer :=
  let token := TrimSpace token in
  if negb (bool_decide (token = "")) && negb (bool_decide (TrimSpace authorization = "Bearer " +:+ token))
  then mkAnswer 401 "text/plain; charset=utf-8" (Text ("unauthorized" +:+ str_of_bytes [10]%N))
  else mkAnswer 200 "application/json" (StateJson state).

(** ** Routes *)

Inductive Target_ := Healthz | Readyz | MetricsText | OperatorEndpoint | S3Proxy.

(** A pattern without wildcards: for [GET] (and [HEAD]) or for every method; [pt_multi] for
    a path that ends in a slash, which matches everything below it. *)
Record Pattern := mkPattern { pt_get : bool; pt_segs : list string; pt_multi : bool; pt_target : Target_ }.

(** [cleanPath] of [net/http]. *)
Definition cleanPath (p : string) : string :=
  if bool_decide (p = "") then "/" else
  let p := if HasPrefix p "/" then p else "/" +:+ p in
  let np := Filepath.Clean p in
  if HasSuffix p "/" && negb (bool_decide (np = "/")) then np +:+ "/" else np.

Definition unescapeSegment (seg : string) : string := default seg (Url.PathUnescape seg).

(** The segments of a path that starts with a slash, and whether it ends in one. *)
Definition pathSegments (path : string) : list string * bool :=
  let pieces := Split (sdrop 1 path) "/" in
  if bool_decide (last pieces = Some "") then (unescapeSegment <$> removelast pieces, true)
  else (unescapeSegment <$> pieces, false).

(** Registration of a path without wildcards: [None] when [http.ServeMux] panics. *)
Definition register (get : bool) (path : string) (to : Target_) (mux : list Pattern) : option (list Pattern) :=
  if get && negb (bool_decide (cleanPath path = path)) then None else
  let '(segs, multi) := pathSegments path in
  if existsb (fun q => Bool.eqb (pt_get q) get && Bool.eqb (pt_multi q) multi && bool_decide (pt_segs q = segs)) mux
  then None else Some (mux ++ [mkPattern get segs multi to]).

(** The routes of [New]: the first handler is the proxy, which has a peer state, and the
    second the metrics. [http.ServeMux] reads braces in a pattern as wildcards, and
    so a path of the operator endpoint with braces can take any request or be refused:
    such a path is outside the model, and theorems on what is routed where exclude it
    by [wildcards]. *)
Definition routes (o : AppConfig.OperatorConfig) : option (list Pattern) :=
  m ← register true "/healthz" Healthz [];
  m ← register true "/readyz" Readyz m;
  m ← register true "/metrics" MetricsText m;
  m ← (if AppConfig.Enabled o then register true (TrimSpace (AppConfig.Path o)) OperatorEndpoint m else Some m);
  register false "/" S3Proxy m.

Definition wildcards (o : AppConfig.OperatorConfig) : bool := ContainsByte (AppConfig.Path o) "{".

(** [exact] matches leave nothing to a trailing slash; the others are below one. *)
Definition matchesExact (segs : list string) (slash : bool) (q : Pattern) : bool :=
  Bool.eqb (pt_multi q) slash && bool_decide (pt_segs q = segs).
Definition matchesBelow (segs : list string) (slash : bool) (q : Pattern) : bool :=
  pt_multi q && bool_decide (pt_segs q `prefix_of` segs) && ((length (pt_segs q) <? length segs)%nat || slash).

(** The best pattern of a group: a literal before one that ends in a slash. *)
Definition bestOf (segs : list string) (slash : bool) (group : list Pattern) : option Pattern :=
  match List.find (matchesExact segs slash) group with
  | Some q => Some q
  | None => List.find (matchesBelow segs slash) group
  end.

(** [tree.match]: patterns for the method first; [GET] patterns serve [HEAD] too. *)
Definition matchPath (mux : list Pattern) (method path : string) : option Pattern :=
  let '(segs, slash) := pathSegments path in
  let general := bestOf segs slash (filter (fun q => pt_get q = false) mux) in
  if bool_decide (method = "GET") || bool_decide (method = "HEAD") then
    match bestOf segs slash (filter (fun q => pt_get q = true) mux) with
    | Some q => Some q
    | None => general
    end
  else general.

Definition exactMatch (path : string) (q : option Pattern) : bool :=
  match q with
  | None => false
  | Some q => let '(segs, slash) := pathSegments path in matchesExact segs slash q
  end.

(** What becomes of a request: a handler, a redirect to a URL with this path and
    query, or nothing registered. [CONNECT] requests are left to the library. *)
Inductive Route := Serve (to : Target_) | RedirectTo (path rawQuery : string) | NotFound | Connect.

Definition findHandler (mux : list Pattern) (method escapedPath path rawQuery : string) : Route :=
  if bool_decide (method = "CONNECT") then Connect else
  let cleaned := cleanPath escapedPath in
  let n := matchPath mux method cleaned in
  if negb (exactMatch cleaned n) && negb (HasSuffix cleaned "/")
     && exactMatch (cleaned +:+ "/") (matchPath mux method (cleaned +:+ "/"))
  then RedirectTo (cleanPath path +:+ "/") rawQuery
  else if negb (bool_decide (cleaned = escapedPath)) then RedirectTo cleaned rawQuery
  else match n with Some q => Serve (pt_target q) | None => NotFound end.

(** ** Which requests reach the proxy *)

Definition baseRoutes : list Pattern :=
  [mkPattern true ["healthz"] false Healthz; mkPattern true ["readyz"] false Readyz;
   mkPattern true ["metrics"] false MetricsText].
Definition rootRoute : Pattern := mkPattern false [] true S3Proxy.

(** The operator endpoint that is registered. *)
Definition operatorRoutes (o : AppConfig.OperatorConfig) : list Pattern :=
  if AppConfig.Enabled o then
    let '(segs, multi) := pathSegments (TrimSpace (AppConfig.Path o)) in [mkPattern true segs multi OperatorEndpoint]
  else [].

Lemma routes_inv o m : routes o = Some m -> m = baseRoutes ++ operatorRoutes o ++ [rootRoute].
Proof.
  unfold routes. intros H.
  change (register true "/healthz" Healthz []) with (Some [mkPattern true ["healthz"] false Healthz]) in H.
  cbn [mbind option_bind] in H.
  replace (register true "/readyz" Readyz [mkPattern true ["healthz"] false Healthz])
    with (Some [mkPattern true ["healthz"] false Healthz; mkPattern true ["readyz"] false Readyz]) in H
    by (vm_compute; reflexivity).
  cbn [mbind option_bind] in H.
  replace (register true "/metrics" MetricsText _) with (Some baseRoutes) in H by (vm_compute; reflexivity).
  cbn [mbind option_bind] in H. unfold operatorRoutes.
  assert (Hroot : forall l, Forall (fun q => pt_get q = true) l -> register false "/" S3Proxy l = Some (l ++ [rootRoute])).
  { intros l Hl. unfold register. cbn [andb]. change (pathSegments "/") with (@nil string, true). cbv beta iota.
    replace (existsb _ l) with false; [done|]. symmetry. induction Hl as [|q l Hq _ IH]; [done|].
    cbn. by rewrite Hq. }
  destruct (AppConfig.Enabled o); cbn [mbind option_bind] in H.
  - destruct (register true (TrimSpace (AppConfig.Path o)) OperatorEndpoint baseRoutes) as [l|] eqn:E; [|done].
    cbn [mbind option_bind] in H. unfold register in E. destruct (true && _); [done|].
    destruct (pathSegments _) as [segs multi]. destruct (existsb _ _); [done|]. simplify_eq.
    rewrite Hroot in H by (repeat constructor). simplify_eq. by rewrite <- app_assoc.
  - rewrite Hroot in H by (repeat constructor). by simplify_eq.
Qed.

(** The operator endpoint is elsewhere: its path is not above these segments. *)
Definition operatorAway (o : AppConfig.OperatorConfig) (segs : list string) : Prop :=
  AppConfig.Enabled o = true -> ~ (pathSegments (TrimSpace (AppConfig.Path o))).1 `prefix_of` segs.

(** Below a bucket, or a path that ends in a slash. *)
Definition objectLike (segs : list string) (slash : bool) : Prop := (2 <= length segs)%nat \/ slash = true.

Lemma group_away o segs slash : objectLike segs slash -> operatorAway o segs ->
  bestOf segs slash (filter (fun q => pt_get q = true) (baseRoutes ++ operatorRoutes o ++ [rootRoute])) = None.
Proof.
  intros Ho Ha.
  assert (Hg : filter (fun q => pt_get q = true) (baseRoutes ++ operatorRoutes o ++ [rootRoute]) = baseRoutes ++ operatorRoutes o).
  { rewrite !filter_app. unfold operatorRoutes. destruct (AppConfig.Enabled o); [|done].
    by destruct (pathSegments _). }
  assert (Hlit : forall s, bool_decide ([s] = segs) && negb slash = false).
  { intros s. destruct slash; [by rewrite andb_false_r|]. rewrite bool_decide_false; [done|].
    intros <-. destruct Ho; [cbn in *; lia|done]. }
  assert (Hop : Forall (fun q => matchesExact segs slash q = false /\ matchesBelow segs slash q = false)
                  (baseRoutes ++ operatorRoutes o)).
  { apply Forall_app. split.
    - repeat constructor; unfold matchesExact; cbn; rewrite andb_comm; apply Hlit.
    - unfold operatorRoutes, operatorAway in *. destruct (AppConfig.Enabled o); [|constructor].
      destruct (pathSegments _) as [os multi]. cbn in Ha. specialize (Ha eq_refl). repeat constructor.
      + unfold matchesExact. cbn. rewrite (bool_decide_false (os = segs)) by (by intros ->). by rewrite andb_false_r.
      + unfold matchesBelow. cbn. rewrite (bool_decide_false (os `prefix_of` segs)) by done. by rewrite andb_false_r. }
  rewrite Hg. unfold bestOf.
  assert (Hf : forall (f : Pattern -> bool) l, Forall (fun q => f q = false) l -> List.find f l = None).
  { intros f l. induction 1 as [|q l Hq _ IH]; [done|]. cbn. by rewrite Hq. }
  rewrite !Hf; [done|eapply Forall_impl; [exact Hop|]; by intros q [? ?]..].
Qed.

Lemma group_root o : filter (fun q => pt_get q = false) (baseRoutes ++ operatorRoutes o ++ [rootRoute]) = [rootRoute].
Proof.
  rewrite !filter_app. unfold operatorRoutes. destruct (AppConfig.Enabled o); [|done]. by destruct (pathSegments _).
Qed.

Lemma root_matches segs slash : objectLike segs slash -> bestOf segs slash [rootRoute] = Some rootRoute.
Proof.
  intros Ho. unfold bestOf. cbn [List.find]. destruct (matchesExact segs slash rootRoute); [done|].
  assert (matchesBelow segs slash rootRoute = true) as ->; [|done].
  unfold matchesBelow. cbn [pt_multi pt_segs rootRoute]. rewrite bool_decide_true by apply prefix_nil.
  destruct slash; [by rewrite orb_true_r|]. destruct segs; [by destruct Ho; cbn in *; [lia|]|done].
Qed.

Lemma matchPath_root o method path segs slash : pathSegments path = (segs, slash) -> objectLike segs slash ->
  operatorAway o segs -> matchPath (baseRoutes ++ operatorRoutes o ++ [rootRoute]) method path = Some rootRoute.
Proof.
  intros Hs Ho Ha. unfold matchPath. rewrite Hs, group_away, group_root, root_matches by done. by destruct (_ || _).
Qed.

(** ** Slashes *)

Lemma last_Split_slash q : last (Split q "/") = Some "" -> q = "" \/ exists t, q = t +:+ "/".
Proof.
  induction q as [|c q IH]; [by left|]. intros H. right. cbn in H.
  destruct (Ascii.eqb_spec c "/") as [->|Hc].
  - destruct (Split_cons q "/") as (x & xs & E). rewrite E in H.
    change (last ("" :: x :: xs)) with (last (x :: xs)) in H. rewrite <- E in H.
    destruct (IH H) as [->|[t ->]]; [by exists ""|]. by exists (String "/" t).
  - destruct (Split_cons q "/") as (x & xs & E). rewrite E in H, IH.
    destruct xs as [|y ys]; [done|]. change (last (String c x :: y :: ys)) with (last (y :: ys)) in H.
    change (last (x :: y :: ys)) with (last (y :: ys)) in IH.
    destruct (IH H) as [->|[t ->]]; [done|]. by exists (String c t).
Qed.

Lemma HasSuffix_append t s : HasSuffix (t +:+ s) s = true.
Proof. unfold HasSuffix. rewrite srev_append. apply HasPrefix_append. Qed.

Lemma cleanPath_rooted p : exists q, cleanPath p = String "/" q.
Proof.
  unfold cleanPath. case_bool_decide; [by exists ""|]. cbv zeta.
  set (p' := if HasPrefix p "/" then p else "/" +:+ p).
  assert (Hp : HasPrefix p' "/" = true) by (unfold p'; destruct (HasPrefix p "/") eqn:E; [done|apply HasPrefix_append]).
  assert (Hc : exists q, Filepath.Clean p' = String "/" q).
  { unfold Filepath.Clean. rewrite Hp. case_bool_decide as Hn; [by rewrite Hn in Hp|]. eexists. reflexivity. }
  destruct Hc as [q ->]. destruct (_ && _); eexists; reflexivity.
Qed.

Lemma segments_slash p segs : cleanPath p = p -> pathSegments p = (segs, true) -> HasSuffix p "/" = true.
Proof.
  intros Hc Hs. destruct (cleanPath_rooted p) as [q Hq]. rewrite Hc in Hq. subst p.
  unfold pathSegments in Hs. cbn [sdrop] in Hs. case_bool_decide as Hl; [|done].
  destruct (last_Split_slash q Hl) as [->|[t ->]]; [done|]. apply (HasSuffix_append (String "/" t) "/").
Qed.

Lemma Split_snoc q : Split (q +:+ "/") "/" = Split q "/" ++ [""].
Proof.
  induction q as [|c q IH]; [done|]. cbn. destruct (Ascii.eqb_spec c "/"); [by rewrite IH|].
  rewrite IH. destruct (Split_cons q "/") as (x & xs & ->). done.
Qed.

Lemma segments_add_slash q segs : pathSegments (String "/" q) = (segs, false) ->
  pathSegments (String "/" q +:+ "/") = (segs, true).
Proof.
  unfold pathSegments. rewrite append_cons. cbn [sdrop]. rewrite Split_snoc.
  rewrite (bool_decide_true (last (_ ++ [""]) = _)) by apply last_snoc. rewrite removelast_last.
  case_bool_decide; [done|]. intros [= <-]. done.
Qed.

(** No route of the server asks for a slash after a path below a bucket. *)
Lemma no_slash_redirect o method p segs slash :
  cleanPath p = p -> pathSegments p = (segs, slash) -> objectLike segs slash -> operatorAway o segs ->
  negb (HasSuffix p "/") && exactMatch (p +:+ "/")
    (matchPath (baseRoutes ++ operatorRoutes o ++ [rootRoute]) method (p +:+ "/")) = false.
Proof.
  intros Hc Hs Ho Ha. destruct slash; [by rewrite (segments_slash p segs)|].
  destruct (cleanPath_rooted p) as [q Hq]. rewrite Hc in Hq. subst p.
  pose proof (segments_add_slash q segs Hs) as Hs'.
  rewrite (matchPath_root o method _ segs true) by (done || by right). unfold exactMatch. rewrite Hs'.
  unfold matchesExact. cbn. destruct segs; [destruct Ho; [cbn in *; lia|done]|]. rewrite bool_decide_false by done.
  by rewrite andb_false_r.
Qed.

(** C28: requests for objects reach the proxy: a path below a bucket, or one that ends in a
    slash, that is already clean and is not below the operator endpoint is handed to the
    proxy as it is, for every method but [CONNECT]; the health and metrics endpoints never
    take it. The operator endpoint, if it is enabled, has a path without braces, which
    [http.ServeMux] would read as wildcards. *)
Theorem object_requests_reach_proxy o m method escapedPath path rawQuery segs slash :
  routes o = Some m -> (AppConfig.Enabled o = true -> wildcards o = false) ->
  method <> "CONNECT" -> cleanPath escapedPath = escapedPath ->
  pathSegments escapedPath = (segs, slash) -> objectLike segs slash -> operatorAway o segs ->
  findHandler m method escapedPath path rawQuery = Serve S3Proxy.
Proof.
  intros Hr _ Hm Hc Hs Ho Ha. apply routes_inv in Hr as ->. unfold findHandler.
  rewrite bool_decide_false by done. cbv zeta. rewrite Hc.
  rewrite <- andb_assoc, no_slash_redirect with (segs := segs) (slash := slash) by done. rewrite andb_false_r.
  rewrite (bool_decide_true (escapedPath = _)) by done. cbn [negb]. by rewrite (matchPath_root o method _ segs slash).
Qed.

Definition demoOperator : AppConfig.OperatorConfig := AppConfig.mkOperator true " /debug/peer" "".

Lemma object_requests_reach_proxy_witness :
  exists m, routes demoOperator = Some m /\ findHandler m "PUT" "/photos/a%20b/c" "/photos/a b/c" "" = Serve S3Proxy.
Proof.
  destruct (routes demoOperator) as [m|] eqn:E; [|exfalso; vm_compute in E; discriminate E].
  exists m. split; [reflexivity|].
  apply (object_requests_reach_proxy demoOperator m "PUT" "/photos/a%20b/c" "/photos/a b/c" "" ["photos"; "a b"; "c"] false);
    [exact E|intros _; reflexivity|discriminate|vm_compute; reflexivity..|left; cbn; lia|].
  intros _. intros [k Hk]. vm_compute in Hk. discriminate Hk.
Defined.

(** ** Paths that are not clean *)

Definition slashPath (l : list string) : string := "/" +:+ Join l "/".

Lemma cleanSegs_app rooted l l' : forall acc, Forall (fun s => plain s = true) l ->
  Filepath.cleanSegs rooted acc (l ++ l') = Filepath.cleanSegs rooted (rev l ++ acc) l'.
Proof.
  induction l as [|s l IH]; intros acc Hf; [done|]. apply Forall_cons in Hf as [(H1 & H2 & H3 & _)%plain_inv Hf].
  cbn. rewrite !bool_decide_false by done. cbn. rewrite IH by done. by rewrite <- app_assoc.
Qed.

Lemma plain_no_slash l : Forall (fun s => plain s = true) l -> Forall (fun s => ContainsByte s "/" = false) l.
Proof. intros H. eapply Forall_impl; [exact H|]. by intros s (_ & _ & _ & ?)%plain_inv. Qed.

Lemma Clean_slashPath l : l <> [] -> Forall (fun s => ContainsByte s "/" = false) l ->
  Filepath.Clean (slashPath l) = slashPath (Filepath.cleanSegs true [] l).
Proof.
  intros Hne Hl. unfold Filepath.Clean. rewrite bool_decide_false by done.
  assert (HasPrefix (slashPath l) "/" = true) as -> by apply HasPrefix_append.
  assert (slashPath l = Join ("" :: l) "/") as -> by (by destruct l).
  rewrite Split_Join by (done || by constructor). done.
Qed.

Lemma Join_end l s sep : exists x, Join (l ++ [s]) sep = x +:+ s.
Proof.
  induction l as [|t l [x IH]]; [by exists ""|]. exists (t +:+ sep +:+ x).
  cbn [app]. destruct (l ++ [s]) as [|u r] eqn:E; [by destruct l|]. rewrite !append_assoc, <- IH. done.
Qed.

(** A path whose last segment is plain does not end in a slash. *)
Lemma slashPath_end l s : plain s = true -> HasSuffix (slashPath (l ++ [s])) "/" = false.
Proof.
  intros (H1 & _ & _ & H4)%plain_inv. destruct (Join_end l s "/") as [x Hx]. unfold slashPath, HasSuffix.
  rewrite Hx, <- append_assoc, srev_append.
  assert (Hd : exists d r, srev s = String d r /\ ContainsByte s d = true).
  { destruct (srev s) as [|d r] eqn:E; [by apply (f_equal srev) in E; rewrite srev_involutive in E|].
    exists d, r. split; [done|]. apply (f_equal srev) in E. rewrite srev_involutive, srev_cons in E. subst s.
    rewrite ContainsByte_append. cbn. by rewrite Ascii.eqb_refl, orb_true_r. }
  destruct Hd as (d & r & -> & Hd). rewrite append_cons.
  assert (d <> "/"%char) by congruence. change (srev "/") with (String "/" ""). cbn [HasPrefix].
  by destruct (Ascii.eqb_spec "/" d); [congruence|].
Qed.

Lemma cleanPath_doubled l l' s : l <> [] -> Forall (fun s => plain s = true) (l ++ l' ++ [s]) ->
  cleanPath (slashPath (l ++ "" :: l' ++ [s])) = slashPath (l ++ l' ++ [s]).
Proof.
  intros Hne Hf. unfold cleanPath. rewrite bool_decide_false by done.
  assert (HasPrefix (slashPath (l ++ "" :: l' ++ [s])) "/" = true) as -> by apply HasPrefix_append.
  apply Forall_app in Hf as [Hl Hf]. apply Forall_app in Hf as Hf'. destruct Hf' as [Hl' Hs].
  rewrite Clean_slashPath; [|by destruct l|].
  2: { apply Forall_app. split; [by apply plain_no_slash|]. constructor; [done|by apply plain_no_slash]. }
  rewrite cleanSegs_app by done. cbn [Filepath.cleanSegs]. rewrite (bool_decide_true ("" = "")) by done. cbn [orb].
  rewrite cleanSegs_plain by done. rewrite rev_app_distr, rev_involutive. cbn [rev app].
  replace (l ++ "" :: l' ++ [s]) with ((l ++ "" :: l') ++ [s]) by (by rewrite <- app_assoc).
  rewrite slashPath_end by (by inversion Hs). done.
Qed.

Lemma slashPath_segments l : l <> [] -> Forall (fun s => plain s = true) l ->
  pathSegments (slashPath l) = (unescapeSegment <$> l, false).
Proof.
  intros Hne Hf. unfold pathSegments, slashPath.
  assert (sdrop 1 ("/" +:+ Join l "/") = Join l "/") as -> by apply (sdrop_append "/"). rewrite Split_Join by (done || by apply plain_no_slash).
  rewrite bool_decide_false; [done|]. intros Hl. apply last_Some_elem_of in Hl.
  rewrite Forall_forall in Hf. by apply Hf in Hl.
Qed.

Lemma slashPath_clean l s : l <> [] -> Forall (fun s => plain s = true) (l ++ [s]) ->
  cleanPath (slashPath (l ++ [s])) = slashPath (l ++ [s]).
Proof.
  intros Hne Hf. unfold cleanPath. rewrite bool_decide_false by done.
  assert (HasPrefix (slashPath (l ++ [s])) "/" = true) as -> by apply HasPrefix_append.
  rewrite Clean_slashPath; [|by destruct l|by apply plain_no_slash]. rewrite cleanSegs_plain by done.
  apply Forall_app in Hf as [_ Hs]. by rewrite slashPath_end by (by inversion Hs).
Qed.

(** The server never serves a key with an empty segment: a request of any method for
    [bucket/.../a//b] does not reach the proxy but is redirected to the path without the
    doubled slash, which names a different object, although S3 keys may contain
    it. *)
Theorem doubled_slash_redirected o m method l l' s path rawQuery :
  routes o = Some m -> AppConfig.Enabled o = false -> method <> "CONNECT" -> l <> [] ->
  Forall (fun s => plain s = true) (l ++ l' ++ [s]) ->
  findHandler m method (slashPath (l ++ "" :: l' ++ [s])) path rawQuery = RedirectTo (slashPath (l ++ l' ++ [s])) rawQuery /\
  slashPath (l ++ l' ++ [s]) <> slashPath (l ++ "" :: l' ++ [s]).
Proof.
  intros Hr Ho Hm Hne Hf. pose proof (cleanPath_doubled l l' s Hne Hf) as Hc.
  rewrite app_assoc in Hf. pose proof Hf as Hf'. rewrite app_assoc in Hc.
  assert (Hdiff : slashPath ((l ++ l') ++ [s]) <> slashPath (l ++ "" :: l' ++ [s])).
  { intros E. rewrite <- E, slashPath_clean in Hc; [|by destruct l|done].
    unfold slashPath in E. injection E as E. apply (f_equal (fun t => length (Split t "/"))) in E.
    apply Forall_app in Hf as [[Hl Hl']%Forall_app Hs].
    apply plain_no_slash in Hl, Hl', Hs.
    assert (H1 : Split (Join ((l ++ l') ++ [s]) "/") "/" = (l ++ l') ++ [s])
      by (apply Split_Join; [by destruct l|by repeat (apply Forall_app; split)]).
    assert (H2 : Split (Join (l ++ "" :: l' ++ [s]) "/") "/" = l ++ "" :: l' ++ [s]).
    { apply Split_Join; [by destruct l|]. apply Forall_app. split; [done|]. constructor; [done|by apply Forall_app]. }
    rewrite H1, H2 in E.
    rewrite !length_app in E. cbn in E. rewrite length_app in E. cbn in E. lia. }
  rewrite app_assoc. split; [|done]. apply routes_inv in Hr as ->. unfold findHandler.
  rewrite bool_decide_false by done. cbv zeta. rewrite Hc.
  assert (Hlen : (2 <= length (unescapeSegment <$> (l ++ l') ++ [s]))%nat)
    by (rewrite length_fmap, !length_app; destruct l; [done|cbn; lia]).
  rewrite <- andb_assoc, no_slash_redirect with (segs := unescapeSegment <$> (l ++ l') ++ [s]) (slash := false);
    [|apply slashPath_clean; [by destruct l|done]|apply slashPath_segments; [by destruct l|done]|by left|].
  - rewrite andb_false_r, bool_decide_false by done. done.
  - unfold operatorAway. by rewrite Ho.
Qed.

Lemma doubled_slash_redirected_witness :
  exists m, routes (AppConfig.Operator AppConfig.Default) = Some m /\
    findHandler m "PUT" "/photos/a//b" "/photos/a//b" "" = RedirectTo "/photos/a/b" "".
Proof.
  destruct (routes (AppConfig.Operator AppConfig.Default)) as [m|] eqn:E; [|exfalso; vm_compute in E; discriminate E].
  exists m. split; [reflexivity|].
  apply (doubled_slash_redirected (AppConfig.Operator AppConfig.Default) m "PUT" ["photos"; "a"] [] "b" "/photos/a//b" "");
    [exact E|reflexivity|discriminate|discriminate|repeat constructor].
Defined.

(** An operator path that is one of the server's own makes registration panic, which
    validation does not prevent. *)
Example operator_path_taken : routes (AppConfig.mkOperator true "/healthz" "") = None.
Proof. vm_compute. reflexivity. Qed.

(** ** The access log *)

(** What the server promises of a response: the status that was sent, if any, and the
    bytes of the body that were accepted.  A second status is ignored; a body, or a
    flush, without a status sends 200; reading from a reader that delivers nothing sends
    nothing. [rw_ReadFrom] is there when the connection
    implements [io.ReaderFrom]; the pieces are what the reader delivers. *)
Class ResponseWriter (W : Type) := {
  rw_status : W -> option Z;
  rw_length : W -> Z;
  rw_WriteHeader : Z -> W -> W;
  rw_Write : bytes -> W -> Z * bool * W;
  rw_Flush : W -> W;
  rw_ReadFrom : option (list bytes -> W -> Z * bool * W);
  header_first s w : rw_status w = None -> 200 <= s ->
    rw_status (rw_WriteHeader s w) = Some s /\ rw_length (rw_WriteHeader s w) = rw_length w;
  header_again s w : rw_status w <> None -> rw_WriteHeader s w = w;
  write_sends d w n ok w' : rw_Write d w = (n, ok, w') ->
    rw_status w' = Some (default 200 (rw_status w)) /\ rw_length w' = rw_length w + n;
  flush_sends w : rw_status (rw_Flush w) = Some (default 200 (rw_status w)) /\ rw_length (rw_Flush w) = rw_length w;
  readFrom_sends f d w n ok w' : rw_ReadFrom = Some f -> d <> [] -> f d w = (n, ok, w') ->
    rw_status w' = Some (default 200 (rw_status w)) /\ rw_length w' = rw_length w + n }.

Section Logging.
Context `{ResponseWriter W}.

Record loggingResponseWriter := mkLogging {
  lw_inner : W; lw_status : Z; lw_bytes : Z }.

Definition orOK (status : Z) : Z := if status =? 0 then 200 else status.

Definition WriteHeader (status : Z) (w : loggingResponseWriter) : loggingResponseWriter :=
  if negb (lw_status w =? 0) then w
  else mkLogging (rw_WriteHeader status (lw_inner w)) status (lw_bytes w).

Definition Write (data : bytes) (w : loggingResponseWriter) : Z * bool * loggingResponseWriter :=
  let '(n, ok, inner) := rw_Write data (lw_inner w) in
  (n, ok, mkLogging inner (orOK (lw_status w)) (lw_bytes w + n)).

(** [io.Copy] to a writer: each piece is written, up to the first error or short write. *)
Fixpoint copyPieces {V} (write : bytes -> V -> Z * bool * V) (pieces : list bytes) (w : V) : Z * bool * V :=
  match pieces with
  | [] => (0, true, w)
  | d :: pieces =>
      let '(n, ok, w) := write d w in
      if ok && (n =? zlen d) then let '(m, ok, w) := copyPieces write pieces w in (n + m, ok, w) else (n, false, w)
  end.

Definition ReadFrom (pieces : list bytes) (w : loggingResponseWriter) : Z * bool * loggingResponseWriter :=
  let w := mkLogging (lw_inner w) (orOK (lw_status w)) (lw_bytes w) in
  match rw_ReadFrom with
  | Some readFrom =>
      let '(n, ok, inner) := readFrom pieces (lw_inner w) in (n, ok, mkLogging inner (lw_status w) (lw_bytes w + n))
  | None => copyPieces Write pieces w
  end.

Definition Flush (w : loggingResponseWriter) : loggingResponseWriter :=
  mkLogging (rw_Flush (lw_inner w)) (orOK (lw_status w)) (lw_bytes w).

(** What [requestLogger] logs of a request: the status and the bytes, or nothing. *)
Definition logged (cfg : AppConfig.LoggingConfig) (path : string) (w : loggingResponseWriter) : option (Z * Z) :=
  let status := orOK (lw_status w) in
  if negb (AppConfig.AccessLog cfg) then None else
  if HasPrefix path "/internal/v1/" && negb (AppConfig.InternalPeerAccessLog cfg) && (status <? 400) then None
  else Some (status, lw_bytes w).

Definition contentLength (length : Z) : string := if length <? 0 then "unknown" else FormatInt length.

(** ** The handler does not see the log *)

(** What a handler does to its response, with what it learns from it. *)
Inductive call := CallHeader (status : Z) | CallWrite (data : bytes) | CallReadFrom (pieces : list bytes) | CallFlush.

Definition direct (c : call) (w : W) : Z * bool * W :=
  match c with
  | CallHeader s => (0, true, rw_WriteHeader s w)
  | CallWrite d => rw_Write d w
  | CallReadFrom l => match rw_ReadFrom with Some f => f l w | None => copyPieces rw_Write l w end
  | CallFlush => (0, true, rw_Flush w)
  end.

Definition wrapped (c : call) (w : loggingResponseWriter) : Z * bool * loggingResponseWriter :=
  match c with
  | CallHeader s => (0, true, WriteHeader s w)
  | CallWrite d => Write d w
  | CallReadFrom l => ReadFrom l w
  | CallFlush => (0, true, Flush w)
  end.

Fixpoint runCalls {V} (f : call -> V -> Z * bool * V) (cs : list call) (w : V) : list (Z * bool) * V :=
  match cs with
  | [] => ([], w)
  | c :: cs => let '(n, ok, w) := f c w in let '(l, w) := runCalls f cs w in ((n, ok) :: l, w)
  end.

(** Final statuses only, and no copy of an empty body: the logging writer would take
    either for the status of the response. *)
Definition final (c : call) : Prop :=
  match c with CallHeader s => 200 <= s | CallReadFrom l => l <> [] | _ => True end.

(** The log agrees with the response. *)
Definition tracks (w : W) (lw : loggingResponseWriter) : Prop :=
  lw_inner lw = w /\ rw_status w = (if lw_status lw =? 0 then None else Some (lw_status lw)) /\
  (lw_status lw = 0 \/ 200 <= lw_status lw) /\ lw_bytes lw = rw_length w.

Lemma orOK_tracks w lw : tracks w lw -> Some (default 200 (rw_status w)) = Some (orOK (lw_status lw)) /\
  orOK (lw_status lw) <> 0 /\ 200 <= orOK (lw_status lw).
Proof.
  intros (_ & Hs & Hr & _). unfold orOK. rewrite Hs. destruct (Z.eqb_spec (lw_status lw) 0); cbn; split; [done|lia|done|lia].
Qed.

Lemma tracks_after w lw w' status bytes : tracks w lw -> rw_status w' = Some (default 200 (rw_status w)) ->
  status = orOK (lw_status lw) -> bytes = rw_length w' -> tracks w' (mkLogging w' status bytes).
Proof.
  intros Ht Hs -> ->. destruct (orOK_tracks _ _ Ht) as (E & Hne & Hr). unfold tracks. cbn.
  rewrite Hs, E. destruct (Z.eqb_spec (orOK (lw_status lw)) 0); [done|]. auto.
Qed.

Lemma Write_tracks d w lw : tracks w lw ->
  exists n ok w' lw', rw_Write d w = (n, ok, w') /\ Write d lw = (n, ok, lw') /\ tracks w' lw'.
Proof.
  intros Ht. destruct (rw_Write d w) as [[n ok] w'] eqn:E. pose proof (write_sends _ _ _ _ _ E) as [Hs Hl].
  unfold Write. destruct Ht as (Hi & Ht'). rewrite Hi, E. eexists _, _, _, _. split; [done|]. split; [done|].
  assert (tracks w lw) as Ht by (by split). eapply tracks_after; [exact Ht|done|done|].
  destruct Ht' as (_ & _ & Hb). by rewrite Hl, Hb.
Qed.

Lemma copy_tracks l : forall w lw, tracks w lw ->
  exists n ok w' lw', copyPieces rw_Write l w = (n, ok, w') /\ copyPieces Write l lw = (n, ok, lw') /\ tracks w' lw'.
Proof.
  induction l as [|d l IH]; intros w lw Ht; cbn; [eauto 10|].
  destruct (Write_tracks d w lw Ht) as (n & ok & w' & lw' & -> & -> & Ht').
  destruct (ok && _); [|eauto 10]. destruct (IH w' lw' Ht') as (m & ok' & w'' & lw'' & -> & -> & Ht''). eauto 10.
Qed.

Lemma call_tracks c w lw : final c -> tracks w lw ->
  exists n ok w' lw', direct c w = (n, ok, w') /\ wrapped c lw = (n, ok, lw') /\ tracks w' lw'.
Proof.
  intros Hf Ht. pose proof Ht as (Hi & Hs & Hr & Hb). destruct c as [s|d|l|]; cbn [direct wrapped final] in *.
  - eexists 0, true, _, _. split; [done|]. split; [done|]. unfold WriteHeader. rewrite Hi.
    destruct (Z.eqb_spec (lw_status lw) 0) as [E|E]; cbn [negb].
    + destruct (header_first s w Hs Hf) as [H1 H2]. unfold tracks. cbn. rewrite H1.
      destruct (Z.eqb_spec s 0); [lia|]. rewrite H2. auto.
    + rewrite header_again; [done|]. by rewrite Hs.
  - by apply Write_tracks.
  - unfold ReadFrom. destruct rw_ReadFrom as [f|] eqn:Ef.
    + destruct (f l w) as [[n ok] w'] eqn:E. cbn. rewrite Hi, E. eexists _, _, _, _. split; [done|]. split; [done|].
      pose proof (readFrom_sends _ _ _ _ _ _ Ef Hf E) as [H1 H2]. eapply tracks_after; [exact Ht|done|done|].
      by rewrite H2, Hb.
    + destruct l as [|d l]; [done|]. replace (copyPieces Write (d :: l) (mkLogging _ _ _)) with (copyPieces Write (d :: l) lw);
        [by apply copy_tracks|].
      cbn. unfold Write at 1 3. cbn. destruct (rw_Write d (lw_inner lw)) as [[n ok] w'].
      by replace (orOK (orOK (lw_status lw))) with (orOK (lw_status lw)) by (unfold orOK; repeat case_match; lia).
  - eexists 0, true, _, _. split; [done|]. split; [done|]. unfold Flush. rewrite Hi.
    destruct (flush_sends w) as [H1 H2]. eapply tracks_after; [exact Ht|done|done|]. by rewrite H2, Hb.
Qed.


End Logging.

(** A response in memory. *)
Record Recorded := mkRecorded { rc_status : option Z; rc_body : bytes }.

Definition recordedWrite (d : bytes) (w : Recorded) : Z * bool * Recorded :=
  (zlen d, true, mkRecorded (Some (default 200 (rc_status w))) (rc_body w ++ d)).

#[export] Program Instance Recorded_writer : ResponseWriter Recorded := {|
  rw_status := rc_status;
  rw_length w := zlen (rc_body w);
  rw_WriteHeader s w := match rc_status w with None => mkRecorded (Some s) (rc_body w) | Some _ => w end;
  rw_Write := recordedWrite;
  rw_Flush w := mkRecorded (Some (default 200 (rc_status w))) (rc_body w);
  rw_ReadFrom := None |}.
Next Obligation. intros s [[?|] b] Hs Hr; cbn in *; done. Qed.
Next Obligation. intros s [[?|] b] Hs; cbn in *; done. Qed.
Next Obligation.
  intros d w n ok w' E. unfold recordedWrite in E. simplify_eq. cbn. split; [done|]. unfold zlen. rewrite length_app. lia.
Qed.
Next Obligation. done. Qed.
Next Obligation. done. Qed.


(** An informational status keeps the final one from being sent. *)
Example informational_status_is_final :
  rc_status (lw_inner (WriteHeader 200 (WriteHeader 103 (mkLogging (mkRecorded None []) 0 0)))) = Some 103.
Proof. reflexivity. Qed.

(** ** The process *)

(** What ends the server: a signal, or the error of [ListenAndServe]; [closed] when it is
    [http.ErrServerClosed]. *)
Inductive Stop := Signalled | ServeFailed (closed : bool).

(** [run]: the exit code, [None] for a panic. [shutdown] is whether [Shutdown] succeeds
    and [last] the error that the server leaves then, if any ([true] for
    [http.ErrServerClosed]). *)
Definition run (loaded : result (list AppConfig.ConfigError) AppConfig.Config) (mc : Machine) (stop : Stop)
    (shutdown : bool) (last : option bool) : option Z :=
  match loaded with
  | Err _ => Some 1
  | Ok cfg =>
      match New mc cfg with
      | Refused _ => Some 1
      | Panicked => None
      | Started p c =>
          match routes (AppConfig.Operator cfg) with
          | None => None
          | Some mux =>
              Some match stop with
                   | ServeFailed closed => if closed then 0 else 1
                   | Signalled =>
                       if negb shutdown then 1
                       else match last with Some false => 1 | _ => 0 end
                   end
          end
      end
  end.

(** [Proxy.Close] runs when the proxy was started, whatever ended the process. *)
Definition closes (loaded : result (list AppConfig.ConfigError) AppConfig.Config) (mc : Machine) : bool :=
  match loaded with
  | Err _ => false
  | Ok cfg => match New mc cfg with Started _ _ => true | _ => false end
  end.

(** A zero exit code means that the configuration was valid, the proxy had started and
    is closed, and the server ended because it was asked to. *)
Lemma run_zero overflowed order readFile unmarshal path mc stop shutdown last :
  (forall l, order l ≡ₚ l) ->
  run (AppConfig.Load overflowed order readFile unmarshal path) mc stop shutdown last = Some 0 ->
  (exists cfg, AppConfig.Load overflowed order readFile unmarshal path = Ok cfg /\ valid cfg) /\
  closes (AppConfig.Load overflowed order readFile unmarshal path) mc = true /\
  (stop = ServeFailed true \/ stop = Signalled /\ shutdown = true).
Proof.
  intros Hord. unfold run, closes. destruct (AppConfig.Load _ _ _ _ _) as [cfg|e] eqn:E; [|done].
  destruct (New mc cfg); [|done..]. destruct (routes _); [|done]. intros [= H]. split; [|split; [done|]].
  - exists cfg. split; [done|]. by eapply Load_valid.
  - destruct stop as [|[]]; [right|by left|done]. destruct shutdown; [done|done].
Qed.

(** ** Readiness *)

(** [readyz] answers 200 exactly when the proxy is not degraded. *)
Lemma readyz_status formatTime p d since checker :
  an_status (readyz formatTime (currentReadiness checker (Some (ReadinessDetail p d since)))) = 200 <-> d = None.
Proof. by destruct d. Qed.

(** The state of the peer is disclosed without a token only when none is configured. *)
Lemma operator_guarded token authorization state :
  an_status (operatorState token authorization state) = 200 <->
  TrimSpace token = "" \/ TrimSpace authorization = "Bearer " +:+ TrimSpace token.
Proof.
  unfold operatorState. destruct (decide (TrimSpace token = "")) as [->|Ht].
  - cbn. tauto.
  - rewrite (bool_decide_false _ Ht). cbn [negb andb]. case_bool_decide as Ha; cbn; [tauto|].
    split; [done|]. intros [?|?]; done.
Qed.

(** When broadcasts and retries do not interleave, a proxy that answers that it is ready
    has told every peer of every invalidation. *)
Lemma ready_means_told formatTime p since checker g : rtc peering_step idlePeering g ->
  an_status (readyz formatTime (currentReadiness checker (Some (ReadinessDetail p (degraded g) since)))) = 200 ->
  pending (retry g) = ∅ /\ untracked (retry g) = false.
Proof.
  intros Hreach Hready. apply readyz_status in Hready.
  assert (Hi : guarded idlePeering) by (split; [apply map_Forall_empty|done]).
  destruct (peering_guarded _ _ Hreach Hi) as [_ Hd]. rewrite Hready in Hd.
  destruct (recovered (retry g)) eqn:E; [|by destruct (Hd eq_refl)].
  unfold recovered in E. apply andb_true_iff in E as [E1 E2]. by apply bool_decide_eq_true in E1; apply negb_true_iff in E2.
Qed.
